(* ===== verification/_CoqProject ===== *)
-Q . S2P
Prelude.v
Utf8.v
PyInt.v
Frames.v
Serde.v
FrameParser.v
Wire.v
Config.v
Errors.v
Async.v
Credits.v
World.v
Contract.v
Discipline.v
Connection.v
Manager.v
ManagerSpec.v
Subscription.v
Transaction.v
Lifespan.v
Replay.v
Client.v
System.v
Footprint.v
Scheduler.v
Safety.v
Ledger.v
Bookkeeping.v
Delivery.v
Operations.v
Reconnection.v
Exchange.v
Agreement.v
Termination.v
FastStream.v
FastStreamMiddlewares.v
FastStreamRegistration.v
FastStreamProducer.v
FastStreamCommands.v
FastStreamBroker.v
FastStreamRouting.v
FastStreamTesting.v
FastStreamRegistry.v
WaitForBrokers.v
