(* ===== verification/Prelude.v ===== *)
(** * stompman: a verified model of the STOMP client

    stompman (src/packages/stompman/stompman) is an asynchronous STOMP 1.2 client that
    reconnects by itself; faststream_stomp (src/packages/faststream-stomp/faststream_stomp)
    puts it under the FastStream framework, and src/scripts/wait_for_stomp_brokers.py waits
    for test brokers.  This library models the three and proves what they promise.

    ** How the program works

    A [Client] (client.py) is entered, used from any number of tasks, and left.  Its
    [ConnectionManager] (connection_manager.py) holds at most one active connection; tasks
    write to it, a listening task reads frames from it, a heart-beat task and a monitor keep
    an eye on it.  Whoever finds the connection lost discards it, once, and whoever needs one
    and has none looks for one under the reconnect lock: it opens a transport
    (connection.py, connection_ws.py), runs the STOMP handshake on it (connection_lifespan.py)
    and tells the new server about the active subscriptions (subscription.py) and
    transactions (transaction.py).  Frames (frames.py) travel in the wire format of serde.py.
    The broker of faststream_stomp owns a client, makes subscriptions with handlers of its
    own, and publishes, alone or in batches, through the client.

    ** Where what is modelled

    The wire format.
    - [Utf8], [PyInt]: the UTF-8 codec, [int(s)] and [str(n)] of the Python runtime.
    - [Frames] (frames.py): the frame classes as one inductive type; [SendFrame_build] with
      the caller's dictionary that it updates in place.
    - [Serde] (serde.py, first part): constants, [dump_frame], [parse_header].
    - [FrameParser] (serde.py, second part): the parser, one [feed] per byte.
    - [Wire]: what is written is read back.
    - [Config] (config.py), [Errors] (errors.py).

    Coroutines and the shared state.
    - [Async]: coroutines as trees ([prog]) that alternate synchronous steps, which nothing
      interrupts, and awaits.  [exec] runs one against an environment that answers its
      awaits; [pool_step] interleaves any number of them; [wp] is a rely-guarantee program
      logic for both, [seg] a logic for what holds whenever a task waits.  [lift] runs a
      coroutine on a part of a larger state.
    - [Credits]: a logic for what tasks own: resources of which nobody else owns a part.
    - [World]: the attributes that the tasks share as one record, the store of the
      dictionaries that can be aliased, the connection objects, the created tasks, and
      [trace], the history of all that can be observed.  [awaits] says what each await may
      give.
    - [Contract]: an abstract machine that says what a client promises; [Discipline]: what
      every task guarantees and relies on, and the invariant [inv], which ties the state of
      the client to a state of the contract.

    The client, a file per module of the package.
    - [Connection] (connection.py, connection_ws.py): the protocol [AbstractConnection] as a
      class with the laws [ConnectionLaws], and its two implementations.
    - [Manager] (connection_manager.py), [ManagerSpec]: its operations keep the discipline.
      The manager sees the handshake through the class [AbstractConnectionLifespan] with the
      laws [LifespanLaws], which [Lifespan] discharges.
    - [Subscription], [Transaction], [Lifespan], [Client]: the modules of the same names;
      [Lifespan] is connection_lifespan.py.
    - [System]: all tasks together.  [reachable_world] is what a client can get into, from
      its construction until after it was left, for every sequence of calls, every
      interleaving at awaits, and whatever the network, the clock and the handlers do.
    - [Scheduler]: an executable, sound version of that, which plays given schedules.
    - [Footprint]: a walk through all operations that shows what they leave alone, done once
      for every predicate on programs that is closed as the class [Walk] says; [Ledger]: the
      interface of the accounts of a message's way to its handler, and the walk along it.

    The rest of the repository.
    - [FastStream] (models.py, and the names of publisher.py and subscriber.py),
      [FastStreamMiddlewares] (opentelemetry.py, prometheus.py), [FastStreamRegistration]
      (registrator.py, router.py and the schemas of subscriber.py and publisher.py, over the
      laws [RegistrationLaws]), [FastStreamProducer] (the producer of publisher.py),
      [FastStreamCommands] (the publishing methods of publisher.py and broker.py, over an
      interface [Pipeline] to FastStream), [FastStreamBroker] (broker.py, subscriber.py),
      [FastStreamRouting] (these parts and the client put together), [FastStreamTesting]
      (testing.py), [FastStreamRegistry] (_test_broker_registry.py and what __init__.py does
      with it).
    - [WaitForBrokers] (scripts/wait_for_stomp_brokers.py).

    ** What is shown

    - [Wire], [FrameParser], [Serde], [Config]: round trips for frames, headers, integers
      and pass codes; chunking does not matter; the parser never raises, keeps its buffer
      bounded, and finds its place again after a NUL byte; parse_header computes its
      reference definition.
    - [Safety]: the client refines the contract; acknowledgements are written only on the
      connection of their message; handlers are called only with messages that were received
      for their subscription; what is written are client frames with the headers of
      their type; the epoch of a frame tells whether its connection can still be the active
      one; the registry of subscriptions is kept, and each active one was told to a server.
    - [Agreement]: client and server agree on the active subscriptions after each operation,
      and can drift apart when two of them overlap with a reconnection.
    - [Exchange]: what dispatching a frame leads to, on every branch; what a connection is
      told when it is left; that what follows CONNECTED in its chunk is lost; and that
      CONNECTED needs a heart-beat header.
    - [Bookkeeping]: at most so many handlers run at a time; no heart-beat task and no monitor
      is left behind uncancelled.
    - [Delivery]: a handler is called at most once for each time a message is received, and
      messages are handed on in the order of their arrival.
    - [Operations]: what connecting, writing, discarding, acknowledging, handling a message
      and leaving give, on every branch, while other tasks interfere; connecting and writing
      never let the loss of a connection out as an exception.
    - [Reconnection] (with [Replay]): what a new connection is told; what happens when all
      servers refuse; and the cases in which recovery goes wrong, each a reachable run.
    - [Termination]: writes and handshakes come to an end.
    - [FastStream*]: a message with the headers of its type can be taken over, logged, traced
      and counted, and is settled by the first call that returns; a batch is published as a whole or aborted; a
      health check that succeeds is right; what a stop leaves behind, and what a failing one
      does; the publishing methods send to the right destination; a route keeps the arguments
      of the registration it stands for, and its subscriber subscribes and unsubscribes on
      the wire; the test producer delivers to the right subscribers, and what a test patches
      is set back; importing the package registers the test broker, or changes nothing.
    - [WaitForBrokers]: waiting ends, with the right verdict.

    ** Conventions

    - [str] is a list of code points, [bytes] a list of bytes, a header dictionary a finite
      map, because the order of its keys is never observed: dump_frame sorts them.
    - Integers are unbounded, as in Python.  Times are integers, in milliseconds; divisions
      by 1000 have moved to the other side of a comparison.
    - An object is known by a number where its identity matters: connections, tasks, and the
      dictionaries of [dicts] that are shared with the program.
    - Of a log record the level and the constant part of its text are kept.
    - A loop that the code does not bound takes a fuel and ends in [OutOfFuel].  Safety holds
      for every fuel and at every moment, so no amount needs to be enough.  Where a result is
      claimed it is shown that it is reached: loops of the parser and retry loops recurse on
      their input and need no fuel; [Termination] gives the fuel for the others; a claim about
      [exec] that is not conditional says that the run ends.
    - The awaits of the standard library are specified by what they may do: complete, fail
      with an error of the transport, or be cancelled, at any time.  That covers the way in
      which a task group cancels its tasks; a group that a failing task has aborted refuses
      new tasks ([group_state]).
    - [as_completed] starts an attempt for every server; those that nobody waits for any more
      stay in [abandoned], and may still open a connection.
    - The order in which a set of transactions is iterated is that of [elements]; Python
      leaves it open.  That it raises when the set changes its size meanwhile is modelled.
    - A handler is an await that returns or raises anything; the callbacks for ERROR frames
      and for suppressed exceptions are functions that return or raise, and touch nothing
      of the client; what a uuid4 gives is a parameter; FastStream's base classes, its message encoding and the websockets package
      are parameters or awaits.

    ** What is not modelled

    - logger.py and the lists of re-exported names of the packages.
    - In faststream_stomp: the arguments of the broker's constructor that are only passed on
      to FastStream, and the payloads of schemas, which FastStream computes.  What the mocks
      of a test answer.
    - The text that wait_for_stomp_brokers.py prints.
    - The examples and the set-up of the tests. *)

(** ** Prelude: generic lemmas, notation and automation *)

From stdpp Require Export base tactics list option numbers strings gmap.
From Stdlib Require Export Init.Byte.
From Stdlib Require Import Strings.Byte.

#[export] Set Warnings "-clear-no-such-hyp".

(** ** Byte strings and text strings

    A Python [bytes] or [bytearray] is a list of bytes; a Python [str] is the
    list of its code points.  [bs] and [us] turn an ASCII literal of the source
    into one or the other. *)

Abbreviation bytes := (list byte).
Abbreviation str := (list N).

Definition bs (s : string) : bytes := String.list_byte_of_string s.
Definition us (s : string) : str := Byte.to_N <$> bs s.

#[export] Instance byte_eq_dec : EqDecision byte := Byte.byte_eq_dec.

(** [byte_of_N] is only used on numbers below 256. *)
Definition byte_of_N (n : N) : byte := default x00 (Byte.of_N n).

Lemma byte_of_N_to_N b : byte_of_N (Byte.to_N b) = b.
Proof. unfold byte_of_N. by rewrite Byte.of_to_N. Qed.

Lemma byte_to_of_N n : (n < 256)%N → Byte.to_N (byte_of_N n) = n.
Proof.
  intros Hn. unfold byte_of_N. destruct (Byte.of_N n) as [b|] eqn:E; simpl.
  - by apply Byte.to_of_N.
  - apply Byte.of_N_None_iff in E. lia.
Qed.

Lemma byte_to_N_lt b : (Byte.to_N b < 256)%N.
Proof. pose proof (Byte.to_N_bounded b). lia. Qed.

Lemma byte_to_N_inj a b : Byte.to_N a = Byte.to_N b → a = b.
Proof. intros H. by rewrite <-(byte_of_N_to_N a), H, byte_of_N_to_N. Qed.

(** ** Exceptions

    The built-in exceptions the modelled code raises or suppresses, and
    computations that either return or raise. *)

Inductive py_exn :=
  | IndexError
  | KeyError
  | ValueError (msg : string)
  | UnicodeEncodeError
  | AttributeError
  | AssertionError (msg : string).

Inductive result (A : Type) :=
  | Ok (a : A)
  | Err (e : py_exn).
Arguments Ok {A} _.
Arguments Err {A} _.

#[export] Instance result_ret : MRet result := λ A a, Ok a.
#[export] Instance result_bind : MBind result := λ A B k m,
  match m with Ok a => k a | Err e => Err e end.
#[export] Instance result_fmap : FMap result := λ A B f m,
  match m with Ok a => Ok (f a) | Err e => Err e end.

(** [of_option e o]: the value in [o], or the exception [e]. *)
Definition of_option {A} (e : py_exn) (o : option A) : result A :=
  match o with Some a => Ok a | None => Err e end.

Definition is_ok {A} (r : result A) : bool :=
  match r with Ok _ => true | Err _ => false end.

#[export] Instance py_exn_eq_dec : EqDecision py_exn.
Proof. solve_decision. Defined.
#[export] Instance result_eq_dec `{EqDecision A} : EqDecision (result A).
Proof. solve_decision. Defined.

Lemma result_bind_Ok {A B} (m : result A) (k : A → result B) b :
  m ≫= k = Ok b ↔ ∃ a, m = Ok a ∧ k a = Ok b.
Proof. destruct m; naive_solver. Qed.

Lemma of_option_Ok {A} e (o : option A) a : of_option e o = Ok a ↔ o = Some a.
Proof. destruct o; naive_solver. Qed.

(** A header dictionary.  Python compares dictionaries up to the order of their
    items, and the code sorts the items before it writes them. *)
Abbreviation headers := (gmap str str).

(** ** Splitting at a separator *)

(** [l.split(sep)] *)
Fixpoint split_on `{EqDecision A} (sep : A) (l : list A) : list (list A) :=
  match l with
  | [] => [[]]
  | x :: l' =>
    if decide (x = sep) then [] :: split_on sep l'
    else match split_on sep l' with
         | s :: ss => (x :: s) :: ss
         | [] => [[x]]
         end
  end.

Section split_on.
Context `{EqDecision A}.
Implicit Types (sep : A) (l k : list A).

Lemma split_on_none sep l : sep ∉ l → split_on sep l = [l].
Proof.
  induction l as [|x l IH]; intros Hl; simpl; [done|].
  apply not_elem_of_cons in Hl as [Hx Hl].
  by rewrite decide_False, IH by done.
Qed.

Lemma split_on_app sep k l : sep ∉ k → split_on sep (k ++ sep :: l) = k :: split_on sep l.
Proof.
  induction k as [|x k IH]; intros Hk; simpl; [by rewrite decide_True|].
  apply not_elem_of_cons in Hk as [Hx Hk].
  by rewrite decide_False, IH by done.
Qed.

Lemma split_on_cons sep l : ∃ s ss, split_on sep l = s :: ss.
Proof. destruct l as [|x l]; simpl; repeat case_match; eauto. Qed.

(** Every list is either free of the separator or splits at its first one. *)
Lemma split_first sep l : sep ∉ l ∨ ∃ k l', l = k ++ sep :: l' ∧ sep ∉ k.
Proof.
  induction l as [|x l IH]; [left; apply not_elem_of_nil|].
  destruct (decide (x = sep)) as [->|Hx].
  { right. exists [], l. split; [done|apply not_elem_of_nil]. }
  destruct IH as [Hl|(k & l' & -> & Hk)].
  - left. by apply not_elem_of_cons.
  - right. exists (x :: k), l'. split; [done|]. by apply not_elem_of_cons.
Qed.
End split_on.

(** ** Counting *)

Lemma filter_snoc {A} (P : A → bool) l x :
  length (List.filter P (l ++ [x])) = length (List.filter P l) + if P x then 1 else 0.
Proof. rewrite List.filter_app, length_app. simpl. by destruct (P x). Qed.

Lemma filter_more {A} (P : A → bool) l l' :
  Forall (λ x, P x = false) l' → length (List.filter P (l ++ l')) = length (List.filter P l).
Proof.
  intros H. rewrite List.filter_app, length_app.
  induction H as [|x l' Hx _ IH]; simpl; [lia|]. by rewrite Hx.
Qed.

Lemma filter_insert {A} (P : A → bool) l k x y :
  l !! k = Some x →
  length (List.filter P (<[k := y]> l)) + (if P x then 1 else 0) =
  length (List.filter P l) + (if P y then 1 else 0).
Proof.
  revert k. induction l as [|z l IH]; intros [|k] Hk; try done; simpl in *.
  - injection Hk as ->. destruct (P x), (P y); simpl; lia.
  - specialize (IH k Hk). destruct (P z); simpl; lia.
Qed.
