(* ===== verification/Utf8.v ===== *)
(** * The UTF-8 codec of the Python runtime

    [str.encode()], [bytes.decode()] (strict) and
    [bytes.decode("utf-8", "replace")] as the serializer and the URL unquoting
    use them.  A decoder run is the list of [utf8_tokens]: a code point for each
    well-formed sequence, and [None] for each maximal ill-formed one, which the
    strict decoder reports and the replacing decoder turns into U+FFFD. *)

From S2P Require Import Prelude.

Open Scope N_scope.

(** The continuation bytes 80..BF, and the payload they carry. *)
Definition is_cont (b : byte) : bool :=
  let c := Byte.to_N b in (0x80 <=? c) && (c <=? 0xBF).

Definition payload (b : byte) : N := Byte.to_N b - 0x80.

(** The second byte of a longer sequence is further restricted, which excludes
    overlong forms, surrogates and numbers above 10FFFF. *)
Definition second_ok (c0 : N) (b1 : byte) : bool :=
  let c1 := Byte.to_N b1 in
  is_cont b1
  && (if c0 =? 0xE0 then 0xA0 <=? c1 else true)
  && (if c0 =? 0xED then c1 <=? 0x9F else true)
  && (if c0 =? 0xF0 then 0x90 <=? c1 else true)
  && (if c0 =? 0xF4 then c1 <=? 0x8F else true).

Fixpoint utf8_tokens (l : bytes) : list (option N) :=
  match l with
  | [] => []
  | b0 :: l1 =>
    let c0 := Byte.to_N b0 in
    if c0 <? 0x80 then Some c0 :: utf8_tokens l1
    else if (0xC2 <=? c0) && (c0 <=? 0xDF) then
      match l1 with
      | [] => [None]
      | b1 :: l2 =>
        if is_cont b1 then Some ((c0 - 0xC0) * 64 + payload b1) :: utf8_tokens l2
        else None :: utf8_tokens l1
      end
    else if (0xE0 <=? c0) && (c0 <=? 0xEF) then
      match l1 with
      | [] => [None]
      | b1 :: l2 =>
        if second_ok c0 b1 then
          match l2 with
          | [] => [None]
          | b2 :: l3 =>
            if is_cont b2
            then Some ((c0 - 0xE0) * 4096 + payload b1 * 64 + payload b2)
                   :: utf8_tokens l3
            else None :: utf8_tokens l2
          end
        else None :: utf8_tokens l1
      end
    else if (0xF0 <=? c0) && (c0 <=? 0xF4) then
      match l1 with
      | [] => [None]
      | b1 :: l2 =>
        if second_ok c0 b1 then
          match l2 with
          | [] => [None]
          | b2 :: l3 =>
            if is_cont b2 then
              match l3 with
              | [] => [None]
              | b3 :: l4 =>
                if is_cont b3
                then Some ((c0 - 0xF0) * 262144 + payload b1 * 4096
                             + payload b2 * 64 + payload b3) :: utf8_tokens l4
                else None :: utf8_tokens l3
              end
            else None :: utf8_tokens l2
          end
        else None :: utf8_tokens l1
      end
    else None :: utf8_tokens l1
  end.

(** [bytes.decode()]: [None] is [UnicodeDecodeError]. *)
Definition decode (l : bytes) : option str := mapM id (utf8_tokens l).

(** [bytes.decode("utf-8", "replace")]. *)
Definition decode_replace (l : bytes) : str := default 0xFFFD <$> utf8_tokens l.

(** The code points [str.encode()] accepts: all but the surrogates. *)
Definition is_scalar (c : N) : bool :=
  (c <? 0xD800) || ((0xE000 <=? c) && (c <? 0x110000)).

Definition encode_char (c : N) : bytes :=
  if c <? 0x80 then [byte_of_N c]
  else if c <? 0x800 then
    [byte_of_N (0xC0 + c / 64); byte_of_N (0x80 + c mod 64)]
  else if c <? 0x10000 then
    [byte_of_N (0xE0 + c / 4096); byte_of_N (0x80 + (c / 64) mod 64);
     byte_of_N (0x80 + c mod 64)]
  else
    [byte_of_N (0xF0 + c / 262144); byte_of_N (0x80 + (c / 4096) mod 64);
     byte_of_N (0x80 + (c / 64) mod 64); byte_of_N (0x80 + c mod 64)].

(** [str.encode()]: [None] is [UnicodeEncodeError]. *)
Definition encode (s : str) : option bytes :=
  if forallb is_scalar s then Some (s ≫= encode_char) else None.

(** ** Lemmas *)

(** [lia] with the equations of Euclidean division. *)
Local Ltac Zify.zify_post_hook ::= Z.to_euclidean_division_equations.

(** Case analysis on the boolean comparisons of the codec: each one whose truth
    follows from the context is rewritten away. *)
Ltac decide_N :=
  repeat match goal with
  | |- context [?x <? ?y] =>
    first [ replace (x <? y) with true by (symmetry; apply N.ltb_lt; lia)
          | replace (x <? y) with false by (symmetry; apply N.ltb_ge; lia) ]
  | |- context [?x <=? ?y] =>
    first [ replace (x <=? y) with true by (symmetry; apply N.leb_le; lia)
          | replace (x <=? y) with false by (symmetry; apply N.leb_gt; lia) ]
  | |- context [?x =? ?y] =>
    first [ replace (x =? y) with true by (symmetry; apply N.eqb_eq; lia)
          | replace (x =? y) with false by (symmetry; apply N.eqb_neq; lia) ]
  end; simpl.

Lemma is_scalar_spec c :
  is_scalar c = true ↔ c < 0xD800 ∨ (0xE000 <= c ∧ c < 0x110000).
Proof.
  unfold is_scalar. rewrite orb_true_iff, andb_true_iff, !N.ltb_lt, N.leb_le. done.
Qed.

Lemma is_cont_cont n : n < 64 → is_cont (byte_of_N (0x80 + n)) = true.
Proof. intros. unfold is_cont. rewrite byte_to_of_N by lia. by decide_N. Qed.

Lemma payload_cont n : n < 64 → payload (byte_of_N (0x80 + n)) = n.
Proof. intros. unfold payload. rewrite byte_to_of_N by lia. lia. Qed.

(** One well-formed sequence of each length. *)
Lemma tokens_1 b0 l :
  Byte.to_N b0 < 0x80 → utf8_tokens (b0 :: l) = Some (Byte.to_N b0) :: utf8_tokens l.
Proof. intros H%N.ltb_lt. simpl. by rewrite H. Qed.

Ltac outer_ifs :=
  repeat match goal with
  | |- (if ?b then _ else _) = _ =>
    first [ replace b with true by (symmetry; rewrite ?andb_true_iff, ?N.ltb_lt, ?N.leb_le; lia)
          | replace b with false by (symmetry; rewrite ?andb_false_iff, ?N.ltb_ge, ?N.leb_gt; lia)]
  end.

Lemma tokens_2 b0 b1 l :
  0xC2 <= Byte.to_N b0 <= 0xDF → is_cont b1 = true →
  utf8_tokens (b0 :: b1 :: l) =
  Some ((Byte.to_N b0 - 0xC0) * 64 + payload b1) :: utf8_tokens l.
Proof. intros H0 H1. cbn [utf8_tokens]. outer_ifs. by rewrite H1. Qed.

Lemma tokens_3 b0 b1 b2 l :
  0xE0 <= Byte.to_N b0 <= 0xEF → second_ok (Byte.to_N b0) b1 = true →
  is_cont b2 = true →
  utf8_tokens (b0 :: b1 :: b2 :: l) =
  Some ((Byte.to_N b0 - 0xE0) * 4096 + payload b1 * 64 + payload b2) :: utf8_tokens l.
Proof. intros H0 H1 H2. cbn [utf8_tokens]. outer_ifs. by rewrite H1, H2. Qed.

Lemma tokens_4 b0 b1 b2 b3 l :
  0xF0 <= Byte.to_N b0 <= 0xF4 → second_ok (Byte.to_N b0) b1 = true →
  is_cont b2 = true → is_cont b3 = true →
  utf8_tokens (b0 :: b1 :: b2 :: b3 :: l) =
  Some ((Byte.to_N b0 - 0xF0) * 262144 + payload b1 * 4096
          + payload b2 * 64 + payload b3) :: utf8_tokens l.
Proof. intros H0 H1 H2 H3. cbn [utf8_tokens]. outer_ifs. by rewrite H1, H2, H3. Qed.

(** The decoder reads back one encoded character, whatever follows it. *)
Lemma tokens_encode_char c l :
  is_scalar c = true →
  utf8_tokens (encode_char c ++ l) = Some c :: utf8_tokens l.
Proof.
  intros Hc%is_scalar_spec. unfold encode_char.
  destruct (N.ltb_spec c 0x80); [|destruct (N.ltb_spec c 0x800);
    [|destruct (N.ltb_spec c 0x10000)]]; cbn [app].
  - rewrite tokens_1; rewrite ?byte_to_of_N by lia; [done|lia].
  - rewrite tokens_2;
      rewrite ?is_cont_cont, ?payload_cont, ?byte_to_of_N by lia; [|lia|done].
    do 2 f_equal. lia.
  - rewrite tokens_3; unfold second_ok;
      rewrite ?is_cont_cont, ?payload_cont, ?byte_to_of_N by lia; [|lia| |done].
    + do 2 f_equal. lia.
    + rewrite !andb_true_iff; split_and!; repeat case_match;
        rewrite ?N.eqb_eq, ?N.leb_le in *; lia.
  - rewrite tokens_4; unfold second_ok;
      rewrite ?is_cont_cont, ?payload_cont, ?byte_to_of_N by lia; [|lia| |done..].
    + do 2 f_equal. lia.
    + rewrite !andb_true_iff; split_and!; repeat case_match;
        rewrite ?N.eqb_eq, ?N.leb_le in *; lia.
Qed.

Lemma tokens_encode s l :
  forallb is_scalar s = true →
  utf8_tokens ((s ≫= encode_char) ++ l) = (Some <$> s) ++ utf8_tokens l.
Proof.
  induction s as [|c s IH]; csimpl; [done|]. intros [Hc Hs]%andb_true_iff.
  rewrite <-app_assoc, tokens_encode_char, IH by done. done.
Qed.

(** Conversely, the code point of a well-formed sequence is a scalar value, and
    its encoding is that sequence. *)
Definition encodes (c : N) (l : bytes) : Prop :=
  is_scalar c = true ∧ encode_char c = l.

Lemma is_cont_spec b : is_cont b = true ↔ 0x80 <= Byte.to_N b <= 0xBF.
Proof. unfold is_cont. by rewrite andb_true_iff, !N.leb_le. Qed.

Lemma second_ok_spec c0 b1 :
  second_ok c0 b1 = true →
  0x80 <= Byte.to_N b1 <= 0xBF ∧ (c0 = 0xE0 → 0xA0 <= Byte.to_N b1) ∧
  (c0 = 0xED → Byte.to_N b1 <= 0x9F) ∧ (c0 = 0xF0 → 0x90 <= Byte.to_N b1) ∧
  (c0 = 0xF4 → Byte.to_N b1 <= 0x8F).
Proof.
  unfold second_ok. rewrite !andb_true_iff, is_cont_spec.
  intros [[[[??] H1] H2] H3].
  split; [done|]; split_and!; intros ->; simpl in *; by apply N.leb_le.
Qed.

Lemma byte_of_N_eq b n : Byte.to_N b = n → byte_of_N n = b.
Proof. intros <-. apply byte_of_N_to_N. Qed.

Local Ltac solve_encodes :=
  split; [apply is_scalar_spec; lia|];
  unfold encode_char;
  repeat match goal with
  | |- context [?x <? ?y] => destruct (N.ltb_spec x y); try lia
  end;
  repeat (f_equal; [apply byte_of_N_eq; lia|..]).

Lemma encodes_1 b0 : Byte.to_N b0 < 0x80 → encodes (Byte.to_N b0) [b0].
Proof. intros. solve_encodes. Qed.

Lemma encodes_2 b0 b1 :
  0xC2 <= Byte.to_N b0 <= 0xDF → is_cont b1 = true →
  encodes ((Byte.to_N b0 - 0xC0) * 64 + payload b1) [b0; b1].
Proof. intros ? ?%is_cont_spec. unfold payload. solve_encodes. Qed.

Lemma encodes_3 b0 b1 b2 :
  0xE0 <= Byte.to_N b0 <= 0xEF → second_ok (Byte.to_N b0) b1 = true →
  is_cont b2 = true →
  encodes ((Byte.to_N b0 - 0xE0) * 4096 + payload b1 * 64 + payload b2) [b0; b1; b2].
Proof. intros ? ?%second_ok_spec ?%is_cont_spec. unfold payload. solve_encodes. Qed.

Lemma encodes_4 b0 b1 b2 b3 :
  0xF0 <= Byte.to_N b0 <= 0xF4 → second_ok (Byte.to_N b0) b1 = true →
  is_cont b2 = true → is_cont b3 = true →
  encodes ((Byte.to_N b0 - 0xF0) * 262144 + payload b1 * 4096
             + payload b2 * 64 + payload b3) [b0; b1; b2; b3].
Proof.
  intros ? ?%second_ok_spec ?%is_cont_spec ?%is_cont_spec.
  unfold payload. solve_encodes.
Qed.

#[local] Hint Resolve encodes_1 encodes_2 encodes_3 encodes_4 : core.

Lemma tokens_inv l c t :
  utf8_tokens l = Some c :: t →
  ∃ l1 l2, l = l1 ++ l2 ∧ encodes c l1 ∧ utf8_tokens l2 = t.
Proof.
  destruct l as [|b0 l1]; [done|]. cbn [utf8_tokens].
  destruct (N.ltb_spec (Byte.to_N b0) 0x80).
  { intros [= <- <-]. exists [b0], l1. eauto. }
  repeat match goal with
  | |- (if (?x <=? ?c0) && (?c0 <=? ?y) then _ else _) = _ → _ =>
    destruct (N.leb_spec x c0), (N.leb_spec c0 y); cbn [andb]
  | |- (if ?b then _ else _) = _ → _ => destruct b eqn:?
  | |- match ?l with _ => _ end = _ → _ => destruct l as [|? ?]
  end; try done; intros [= <- <-];
    first [ by eexists [_], _; eauto | by eexists [_; _], _; eauto
          | by eexists [_; _; _], _; eauto | by eexists [_; _; _; _], _; eauto ].
Qed.

(** Strict decoding inverts encoding... *)
Lemma decode_encode s b : encode s = Some b → decode b = Some s.
Proof.
  unfold encode, decode. case_match eqn:Hs; [intros [= <-]|done].
  pose proof (tokens_encode s [] Hs) as H. rewrite app_nil_r in H.
  rewrite H. simpl. rewrite app_nil_r. by apply mapM_fmap_Some.
Qed.

(** ... and encoding inverts strict decoding: there is one spelling of a text. *)
Lemma encode_decode b s : decode b = Some s → encode s = Some b.
Proof.
  unfold decode, encode. intros H%mapM_Some_1.
  remember (utf8_tokens b) as t eqn:Ht. symmetry in Ht. revert b Ht.
  induction H as [|o c t s Ho _ IH]; intros b Ht; [|cbv [id] in Ho; subst o].
  - destruct b as [|b0 l]; [done|]. exfalso. revert Ht. simpl. by repeat case_match.
  - destruct (tokens_inv _ _ _ Ht) as (l1 & l2 & -> & [Hc <-] & Hl2). csimpl. rewrite Hc.
    specialize (IH l2 Hl2). case_match; [|done]. by simplify_eq.
Qed.

(** ASCII transparency: a character below 128 is one byte of the same value, any
    other one has only bytes from 128 on. *)
Lemma encode_char_ascii c : c < 128 → encode_char c = [byte_of_N c].
Proof. intros H%N.ltb_lt. unfold encode_char. by rewrite H. Qed.

Lemma encode_char_high c :
  is_scalar c = true → 128 <= c → Forall (λ b, 128 <= Byte.to_N b) (encode_char c).
Proof.
  intros Hc%is_scalar_spec ?. unfold encode_char.
  destruct (N.ltb_spec c 0x80); [lia|].
  destruct (N.ltb_spec c 0x800); [|destruct (N.ltb_spec c 0x10000)];
    repeat (constructor; [rewrite byte_to_of_N; lia|]); constructor.
Qed.

Lemma encode_Some s b :
  encode s = Some b ↔ forallb is_scalar s = true ∧ b = s ≫= encode_char.
Proof. unfold encode. case_match; naive_solver. Qed.

(** The text of a string as bytes. *)
Definition enc (s : str) : bytes := s ≫= encode_char.

Lemma enc_app s1 s2 : enc (s1 ++ s2) = enc s1 ++ enc s2.
Proof. apply bind_app. Qed.

Lemma decode_enc s : forallb is_scalar s = true → decode (enc s) = Some s.
Proof. intros Hs. apply decode_encode, encode_Some. done. Qed.

Lemma ascii_in_encode_char c b :
  is_scalar c = true → Byte.to_N b < 128 → b ∈ encode_char c → Byte.to_N b = c.
Proof.
  intros Hc Hb Hin. destruct (N.lt_ge_cases c 128) as [Hlow|Hhigh].
  - rewrite encode_char_ascii in Hin by done.
    apply list_elem_of_singleton in Hin as ->. apply byte_to_of_N. lia.
  - pose proof (encode_char_high c Hc Hhigh) as Hall.
    rewrite Forall_forall in Hall. specialize (Hall b Hin). simpl in Hall. lia.
Qed.

Lemma ascii_in_enc s b :
  forallb is_scalar s = true → Byte.to_N b < 128 → b ∈ enc s → Byte.to_N b ∈ s.
Proof.
  intros Hs Hb (c & Hin & Hc)%list_elem_of_bind.
  rewrite forallb_forall in Hs. specialize (Hs c (proj1 (list_elem_of_In _ _) Hc)).
  by rewrite (ascii_in_encode_char c b).
Qed.
