(* ===== verification/PyInt.v ===== *)
(** * Python integers as text

    [str(n)] and [int(s)] of the Python runtime, which the heart-beat header, the
    [content-length] header and [SendFrame.build] go through.  [int] accepts
    white space around the number, a sign, underscores between digits, and the
    decimal digits of every script; both refuse more than 4300 digits. *)

From S2P Require Import Prelude.

Open Scope N_scope.

(** [sys.int_info.default_max_str_digits]. *)
Definition max_str_digits : nat := 4300.

Definition digit_char (d : N) : N := 48 + d.

(** Decimal digits of [n] in front of [acc]; [fuel] bounds their number. *)
Fixpoint digits_go (fuel : nat) (n : N) (acc : str) : str :=
  match fuel with
  | O => acc
  | S fuel =>
    if n <? 10 then digit_char n :: acc
    else digits_go fuel (n / 10) (digit_char (n mod 10) :: acc)
  end.

(** [str(n)] of a natural number: a number has at most as many decimal digits as
    binary ones, and zero has one. *)
Definition digits_of_N (n : N) : str := digits_go (S (N.size_nat n)) n [].

(** [str(z)]; [None] is the [ValueError] of a number that is too long. *)
Definition str_of_int (z : Z) : option str :=
  let ds := digits_of_N (Z.abs_N z) in
  if decide (length ds ≤ max_str_digits)%nat
  then Some (if (z <? 0)%Z then us "-" ++ ds else ds)
  else None.

(** The characters above ASCII that [str.isspace] accepts, and the zeros of the
    Unicode decimal digits (each is followed by its nine successors). *)
Definition unicode_spaces : list N :=
  [0x85; 0xa0; 0x1680; 0x2000; 0x2001; 0x2002; 0x2003; 0x2004; 0x2005; 0x2006;
   0x2007; 0x2008; 0x2009; 0x200a; 0x2028; 0x2029; 0x202f; 0x205f; 0x3000].

Definition decimal_zeros : list N :=
  [0x660; 0x6f0; 0x7c0; 0x966; 0x9e6; 0xa66; 0xae6; 0xb66; 0xbe6; 0xc66; 0xce6;
   0xd66; 0xde6; 0xe50; 0xed0; 0xf20; 0x1040; 0x1090; 0x17e0; 0x1810; 0x1946;
   0x19d0; 0x1a80; 0x1a90; 0x1b50; 0x1bb0; 0x1c40; 0x1c50; 0xa620; 0xa8d0; 0xa900;
   0xa9d0; 0xa9f0; 0xaa50; 0xabf0; 0xff10; 0x104a0; 0x10d30; 0x11066; 0x110f0;
   0x11136; 0x111d0; 0x112f0; 0x11450; 0x114d0; 0x11650; 0x116c0; 0x11730; 0x118e0;
   0x11950; 0x11c50; 0x11d50; 0x11da0; 0x16a60; 0x16ac0; 0x16b50; 0x1d7ce; 0x1d7d8;
   0x1d7e2; 0x1d7ec; 0x1d7f6; 0x1e140; 0x1e2f0; 0x1e950; 0x1fbf0].

(** The translation to ASCII [int] starts with. *)
Definition transform_char (c : N) : N :=
  if c <? 127 then c
  else if bool_decide (c ∈ unicode_spaces) then 32
  else match List.find (λ z, (z <=? c) && (c <? z + 10)) decimal_zeros with
       | Some z => digit_char (c - z)
       | None => 63
       end.

Definition c_isspace (c : N) : bool := ((9 <=? c) && (c <=? 13)) || (c =? 32).

Definition is_digit (c : N) : bool := (48 <=? c) && (c <=? 57).

Fixpoint skip_spaces (s : str) : str :=
  match s with
  | c :: s' => if c_isspace c then skip_spaces s' else s
  | [] => []
  end.

(** Value and number of the digits at the head of [s], and what follows them.
    Two underscores in a row, or one at either end, are refused: the scan starts
    as if an underscore had just been read. *)
Fixpoint scan_digits (prev acc : N) (n : nat) (s : str) : option (N * nat * str) :=
  match s with
  | [] => if prev =? 95 then None else Some (acc, n, [])
  | c :: s' =>
    if is_digit c then scan_digits c (acc * 10 + (c - 48)) (S n) s'
    else if prev =? 95 then None
    else if c =? 95 then scan_digits c acc n s'
    else Some (acc, n, s)
  end.

Definition split_sign (s : str) : Z * str :=
  match s with
  | c :: s' => if c =? 43 then (1%Z, s') else if c =? 45 then ((-1)%Z, s') else (1%Z, s)
  | [] => (1%Z, s)
  end.

(** [int(s)]; [None] is [ValueError]. *)
Definition int_of_str (s : str) : option Z :=
  let '(sign, s1) := split_sign (skip_spaces (transform_char <$> s)) in
  match scan_digits 95 0 0 s1 with
  | Some (v, n, rest) =>
    match skip_spaces rest with
    | [] => if decide (n ≤ max_str_digits)%nat then Some (sign * Z.of_N v)%Z else None
    | _ :: _ => None
    end
  | None => None
  end.

(** ** Lemmas *)

Local Ltac Zify.zify_post_hook ::= Z.to_euclidean_division_equations.

Lemma digits_go_app fuel n acc : digits_go fuel n acc = digits_go fuel n [] ++ acc.
Proof.
  revert n acc. induction fuel as [|fuel IH]; intros n acc; simpl; [done|].
  case_match; [done|].
  by rewrite IH, (IH _ [_]), <-app_assoc.
Qed.

Lemma digit_char_is_digit d : d < 10 → is_digit (digit_char d) = true.
Proof. intros. unfold is_digit, digit_char. apply andb_true_iff. rewrite !N.leb_le. lia. Qed.

Lemma digits_go_digits fuel n : Forall (λ c, is_digit c = true) (digits_go fuel n []).
Proof.
  revert n. induction fuel as [|fuel IH]; intros n; simpl; [constructor|].
  destruct (N.ltb_spec n 10).
  - repeat constructor. by apply digit_char_is_digit.
  - rewrite digits_go_app. apply Forall_app. split; [apply IH|].
    repeat constructor. apply digit_char_is_digit, N.mod_lt. lia.
Qed.

Lemma digits_of_N_digits n : Forall (λ c, is_digit c = true) (digits_of_N n).
Proof. apply digits_go_digits. Qed.

Lemma digits_of_N_nonempty n : digits_of_N n ≠ [].
Proof.
  unfold digits_of_N. simpl. case_match; [done|].
  rewrite digits_go_app. by destruct (digits_go _ _ []).
Qed.

Lemma size_nat_bound n : n < 10 ^ N.of_nat (S (N.size_nat n)).
Proof.
  apply N.lt_le_trans with (2 ^ N.size n); [apply N.size_gt|].
  replace (N.of_nat (S (N.size_nat n))) with (N.succ (N.size n)).
  - etrans; [apply (N.pow_le_mono_r 2 _ (N.succ (N.size n))); lia|].
    apply N.pow_le_mono_l. lia.
  - destruct n as [|p]; [done|]. simpl. induction p; simpl in *; lia.
Qed.

(** Scanning the digits the printer wrote gives the number back. *)
Lemma scan_digits_go fuel n prev k acc :
  fuel ≠ O → n < 10 ^ N.of_nat fuel →
  ∃ c, is_digit c = true ∧
    scan_digits prev 0 k (digits_go fuel n acc) =
    scan_digits c n (k + length (digits_go fuel n [])) acc.
Proof.
  revert n acc. induction fuel as [|fuel IH]; intros n acc Hf Hn; [done|].
  simpl. destruct (N.ltb_spec n 10).
  - exists (digit_char n). rewrite digit_char_is_digit by done. split; [done|].
    simpl. rewrite digit_char_is_digit by done.
    unfold digit_char. f_equal; simpl; lia.
  - assert (Hm : n mod 10 < 10) by (apply N.mod_lt; lia).
    destruct (IH (n / 10) (digit_char (n mod 10) :: acc)) as (c & Hc & Heq).
    + destruct fuel; [|done]. change (10 ^ N.of_nat 1) with 10 in Hn. lia.
    + apply N.Div0.div_lt_upper_bound.
      by rewrite <-N.pow_succ_r', <-Nat2N.inj_succ.
    + exists (digit_char (n mod 10)). split; [by apply digit_char_is_digit|].
      rewrite Heq. simpl. rewrite digit_char_is_digit by done.
      rewrite (digits_go_app _ _ [_]), length_app. simpl.
      unfold digit_char. f_equal; [|lia].
      rewrite (N.div_mod n 10) at 3 by lia. lia.
Qed.

Lemma transform_digits s :
  Forall (λ c, is_digit c = true) s → transform_char <$> s = s.
Proof.
  induction 1 as [|c s Hc _ IH]; csimpl; [done|]. rewrite IH.
  unfold is_digit in Hc. rewrite andb_true_iff, !N.leb_le in Hc.
  unfold transform_char. replace (c <? 127) with true; [done|].
  symmetry. apply N.ltb_lt. lia.
Qed.

Lemma digit_not_other c :
  is_digit c = true → c_isspace c = false ∧ (c =? 43) = false ∧ (c =? 45) = false
                      ∧ (c =? 95) = false.
Proof.
  unfold is_digit, c_isspace.
  rewrite andb_true_iff, orb_false_iff, andb_false_iff, !N.leb_le, !N.leb_gt, !N.eqb_neq.
  lia.
Qed.

Lemma scan_digits_of_N n :
  scan_digits 95 0 0 (digits_of_N n) = Some (n, length (digits_of_N n), []).
Proof.
  unfold digits_of_N.
  destruct (scan_digits_go (S (N.size_nat n)) n 95 0 []) as (c & Hc & ->);
    [done|apply size_nat_bound|].
  apply digit_not_other in Hc as (_ & _ & _ & Hc). simpl scan_digits. by rewrite Hc.
Qed.

(** [int(str(z)) = z] whenever [str(z)] does not raise. *)
Lemma int_of_str_of_int z s : str_of_int z = Some s → int_of_str s = Some z.
Proof.
  unfold str_of_int, int_of_str. case_decide as Hlen; [|done].
  intros [= <-].
  pose proof (digits_of_N_digits (Z.abs_N z)) as Hds.
  pose proof (digits_of_N_nonempty (Z.abs_N z)) as Hne.
  pose proof (scan_digits_of_N (Z.abs_N z)) as Hscan.
  destruct (digits_of_N (Z.abs_N z)) as [|c ds] eqn:E; [done|].
  assert (is_digit c = true) as Hc by (by inversion Hds).
  destruct (digit_not_other c Hc) as (Hsp & Hplus & Hminus & _).
  assert (split_sign (c :: ds) = (1%Z, c :: ds)) as Hsign
    by (simpl; by rewrite Hplus, Hminus).
  destruct (Z.ltb_spec z 0).
  - change (us "-" ++ c :: ds) with (45 :: c :: ds).
    rewrite fmap_cons, transform_digits by done.
    change (split_sign (skip_spaces _)) with ((-1)%Z, c :: ds).
    cbv beta iota. rewrite Hscan. simpl.
    rewrite decide_True by done. f_equal. lia.
  - rewrite transform_digits by done. cbn [skip_spaces]. rewrite Hsp, Hsign.
    cbv beta iota. rewrite Hscan. simpl. rewrite decide_True by done. f_equal. lia.
Qed.
