(* ===== verification/Frames.v ===== *)
(** * Frames (stompman/frames.py)

    The frame classes, the acknowledgement modes, and the two [build] class
    methods.  A frame is generic in what holds its headers: a finite map for a
    frame that was parsed or is being written, a [dict] for a frame the client
    has built, whose dictionary may be shared with the caller. *)

From S2P Require Import Prelude PyInt.

(** ** Acknowledgement modes *)

Inductive AckMode := client | client_individual | auto.

Definition ack_mode_str (a : AckMode) : str :=
  match a with
  | client => us "client"
  | client_individual => us "client-individual"
  | auto => us "auto"
  end.

#[export] Instance AckMode_eq_dec : EqDecision AckMode.
Proof. solve_decision. Defined.

(** ** Frames *)

Inductive frame (H : Type) :=
  | ConnectFrame (h : H)
  | StompFrame (h : H)
  | ConnectedFrame (h : H)
  | SendFrame (h : H) (body : bytes)
  | SubscribeFrame (h : H)
  | UnsubscribeFrame (h : H)
  | AckFrame (h : H)
  | NackFrame (h : H)
  | BeginFrame (h : H)
  | CommitFrame (h : H)
  | AbortFrame (h : H)
  | DisconnectFrame (h : H)
  | ReceiptFrame (h : H)
  | MessageFrame (h : H) (body : bytes)
  | ErrorFrame (h : H) (body : bytes)
  | HeartbeatFrame.
Arguments ConnectFrame {H} h.
Arguments StompFrame {H} h.
Arguments ConnectedFrame {H} h.
Arguments SendFrame {H} h body.
Arguments SubscribeFrame {H} h.
Arguments UnsubscribeFrame {H} h.
Arguments AckFrame {H} h.
Arguments NackFrame {H} h.
Arguments BeginFrame {H} h.
Arguments CommitFrame {H} h.
Arguments AbortFrame {H} h.
Arguments DisconnectFrame {H} h.
Arguments ReceiptFrame {H} h.
Arguments MessageFrame {H} h body.
Arguments ErrorFrame {H} h body.
Arguments HeartbeatFrame {H}.

#[export] Instance frame_eq_dec `{EqDecision H} : EqDecision (frame H).
Proof. solve_decision. Defined.

(** [type(frame)], for the frames that have a command. *)
Inductive frame_type :=
  | TConnect | TStomp | TConnected | TSend | TSubscribe | TUnsubscribe
  | TAck | TNack | TBegin | TCommit | TAbort | TDisconnect | TReceipt
  | TMessage | TError.

#[export] Instance frame_type_eq_dec : EqDecision frame_type.
Proof. solve_decision. Defined.

(** The attributes of a frame: its class, its headers and its body; a heartbeat
    has none of them. *)
Definition parts {H} (f : frame H) : option (frame_type * H * bytes) :=
  match f with
  | ConnectFrame h => Some (TConnect, h, [])
  | StompFrame h => Some (TStomp, h, [])
  | ConnectedFrame h => Some (TConnected, h, [])
  | SendFrame h b => Some (TSend, h, b)
  | SubscribeFrame h => Some (TSubscribe, h, [])
  | UnsubscribeFrame h => Some (TUnsubscribe, h, [])
  | AckFrame h => Some (TAck, h, [])
  | NackFrame h => Some (TNack, h, [])
  | BeginFrame h => Some (TBegin, h, [])
  | CommitFrame h => Some (TCommit, h, [])
  | AbortFrame h => Some (TAbort, h, [])
  | DisconnectFrame h => Some (TDisconnect, h, [])
  | ReceiptFrame h => Some (TReceipt, h, [])
  | MessageFrame h b => Some (TMessage, h, b)
  | ErrorFrame h b => Some (TError, h, b)
  | HeartbeatFrame => None
  end.

(** [frame_type(headers=..., body=...)]: only the classes in [FRAMES_WITH_BODY]
    keep the body. *)
Definition construct {H} (t : frame_type) (h : H) (body : bytes) : frame H :=
  match t with
  | TConnect => ConnectFrame h
  | TStomp => StompFrame h
  | TConnected => ConnectedFrame h
  | TSend => SendFrame h body
  | TSubscribe => SubscribeFrame h
  | TUnsubscribe => UnsubscribeFrame h
  | TAck => AckFrame h
  | TNack => NackFrame h
  | TBegin => BeginFrame h
  | TCommit => CommitFrame h
  | TAbort => AbortFrame h
  | TDisconnect => DisconnectFrame h
  | TReceipt => ReceiptFrame h
  | TMessage => MessageFrame h body
  | TError => ErrorFrame h body
  end.

Lemma construct_parts {H} (f : frame H) t h b :
  parts f = Some (t, h, b) → construct t h b = f.
Proof. destruct f; simpl; intros [= <- <- <-]; done. Qed.

(** A frame with the same class and body and other headers. *)
#[export] Instance frame_fmap : FMap frame := λ A B f fr,
  match fr with
  | ConnectFrame h => ConnectFrame (f h)
  | StompFrame h => StompFrame (f h)
  | ConnectedFrame h => ConnectedFrame (f h)
  | SendFrame h b => SendFrame (f h) b
  | SubscribeFrame h => SubscribeFrame (f h)
  | UnsubscribeFrame h => UnsubscribeFrame (f h)
  | AckFrame h => AckFrame (f h)
  | NackFrame h => NackFrame (f h)
  | BeginFrame h => BeginFrame (f h)
  | CommitFrame h => CommitFrame (f h)
  | AbortFrame h => AbortFrame (f h)
  | DisconnectFrame h => DisconnectFrame (f h)
  | ReceiptFrame h => ReceiptFrame (f h)
  | MessageFrame h b => MessageFrame (f h) b
  | ErrorFrame h b => ErrorFrame (f h) b
  | HeartbeatFrame => HeartbeatFrame
  end.

(** ** Dictionaries and sharing

    The caller's dictionaries live in a store and are known by their index.  A
    dictionary of a frame is either one that only the frame holds, or one of the
    caller's. *)

Abbreviation store := (list headers).

Inductive dict :=
  | Own (h : headers)
  | Shared (l : nat).

#[export] Instance dict_eq_dec : EqDecision dict.
Proof. solve_decision. Defined.

Definition deref (σ : store) (d : dict) : headers :=
  match d with
  | Own h => h
  | Shared l => default ∅ (σ !! l)
  end.

(** What a frame holds now. *)
Definition snapshot (σ : store) (f : frame dict) : frame headers := deref σ <$> f.

(** ** SendFrame.build *)

(** The item assignments of [SendFrame.build], on the dictionary [all_headers]. *)
Definition send_headers (all_headers : headers) (body : bytes) (destination : str)
    (transaction content_type : option str) (add_content_length : bool) : headers :=
  let h := <[us "destination" := destination]> all_headers in
  let h := if add_content_length
           then <[us "content-length" := digits_of_N (N.of_nat (length body))]> h else h in
  let h := match content_type with
           | Some ct => <[us "content-type" := ct]> h
           | None => h
           end in
  match transaction with
  | Some tx => <[us "transaction" := tx]> h
  | None => h
  end.

(** [headers or {}] is the caller's dictionary when it has items, and a new one
    otherwise; the assignments then update that dictionary in place. *)
Definition SendFrame_build (σ : store) (body : bytes) (destination : str)
    (transaction content_type : option str) (add_content_length : bool)
    (hs : option nat) : store * frame dict :=
  let fresh :=
    Own (send_headers ∅ body destination transaction content_type add_content_length) in
  match hs with
  | Some l =>
    let h := default ∅ (σ !! l) in
    if decide (h = ∅) then (σ, SendFrame fresh body)
    else (<[l := send_headers h body destination transaction content_type
                   add_content_length]> σ,
          SendFrame (Shared l) body)
  | None => (σ, SendFrame fresh body)
  end.

(** ** SubscribeFrame.build

    The items go to a copy of the caller's dictionary. *)
Definition SubscribeFrame_build (σ : store) (subscription_id destination : str)
    (ack : AckMode) (hs : option nat) : frame dict :=
  let all_headers := match hs with Some l => default ∅ (σ !! l) | None => ∅ end in
  SubscribeFrame
    (Own (<[us "ack" := ack_mode_str ack]>
            (<[us "destination" := destination]>
               (<[us "id" := subscription_id]> all_headers)))).

(** ** Header types

    The keys of the header type of each class, and whether a key must be there. *)
Definition header_type (t : frame_type) : list (string * bool) :=
  match t with
  | TConnect | TStomp =>
    [("accept-version", true); ("host", true); ("login", false); ("passcode", false);
     ("heart-beat", false); ("content-length", false)]
  | TConnected =>
    [("version", true); ("server", false); ("heart-beat", false); ("content-length", false)]
  | TSend =>
    [("content-length", false); ("content-type", false); ("destination", true);
     ("transaction", false)]
  | TSubscribe =>
    [("id", true); ("destination", true); ("ack", false); ("content-length", false)]
  | TUnsubscribe => [("id", true); ("content-length", false)]
  | TAck | TNack =>
    [("subscription", true); ("id", true); ("transaction", false); ("content-length", false)]
  | TBegin | TCommit | TAbort => [("transaction", true); ("content-length", false)]
  | TDisconnect => [("receipt", false); ("content-length", false)]
  | TReceipt => [("receipt-id", true); ("content-length", false)]
  | TMessage =>
    [("destination", true); ("message-id", true); ("subscription", true); ("ack", false);
     ("content-type", false); ("content-length", false)]
  | TError => [("message", true); ("content-length", false); ("content-type", false)]
  end%string.

Definition required_keys (t : frame_type) : list str :=
  (us ∘ fst) <$> List.filter snd (header_type t).

(** The frame has the headers that its type requires. *)
Definition conforms (f : frame headers) : bool :=
  match parts f with
  | Some (t, h, _) => forallb (λ k, bool_decide (is_Some (h !! k))) (required_keys t)
  | None => true
  end.

(** ** Who sends what

    The unions of the frame classes. *)
Definition AnyClientFrame {H} (f : frame H) : bool :=
  match f with
  | SendFrame _ _ | SubscribeFrame _ | UnsubscribeFrame _ | BeginFrame _ | CommitFrame _
  | AbortFrame _ | AckFrame _ | NackFrame _ | DisconnectFrame _ | ConnectFrame _
  | StompFrame _ => true
  | _ => false
  end.

Definition AnyRealServerFrame {H} (f : frame H) : bool :=
  match f with ConnectedFrame _ | MessageFrame _ _ | ReceiptFrame _ | ErrorFrame _ _ => true
  | _ => false end.

Definition AnyServerFrame {H} (f : frame H) : bool :=
  AnyRealServerFrame f || match f with HeartbeatFrame => true | _ => false end.

(** Every frame is the client's or the server's, and none is both. *)
Lemma client_or_server {H} (f : frame H) : AnyServerFrame f = negb (AnyClientFrame f).
Proof. by destruct f. Qed.

(** ** What the builders give *)

#[local] Arguments send_headers : simpl never.

(** The headers of the caller. *)
Definition given (σ : store) (hs : option nat) : headers :=
  match hs with Some l => default ∅ (σ !! l) | None => ∅ end.

(** The value that the last assignment to [key] leaves. *)
Lemma send_headers_lookup h body destination transaction content_type acl key :
  send_headers h body destination transaction content_type acl !! key =
  if decide (key = us "transaction") then
    match transaction with Some tx => Some tx | None => h !! key end
  else if decide (key = us "content-type") then
    match content_type with Some ct => Some ct | None => h !! key end
  else if decide (key = us "content-length") then
    if acl then Some (digits_of_N (N.of_nat (length body))) else h !! key
  else if decide (key = us "destination") then Some destination
  else h !! key.
Proof.
  unfold send_headers.
  destruct transaction as [tx|], content_type as [ct|], acl;
    repeat case_decide; subst; by simplify_map_eq.
Qed.

Lemma send_headers_not_empty h body destination transaction content_type acl :
  send_headers h body destination transaction content_type acl ≠ ∅.
Proof.
  intros H. pose proof (send_headers_lookup h body destination transaction content_type acl
                          (us "destination")) as Hd.
  by rewrite H, lookup_empty in Hd.
Qed.

Lemma SendFrame_build_snapshot σ body destination transaction content_type acl hs :
  let '(σ', f) := SendFrame_build σ body destination transaction content_type acl hs in
  snapshot σ' f =
  SendFrame (send_headers (given σ hs) body destination transaction content_type acl) body.
Proof.
  unfold SendFrame_build. destruct hs as [l|]; [|done]. simpl given.
  case_decide as Hh; [by rewrite Hh|]. unfold snapshot. simpl.
  destruct (σ !! l) as [h|] eqn:Hl; [|done]. simpl.
  by rewrite list_lookup_insert_eq by (by eapply lookup_lt_Some).
Qed.

(** [SendFrame.build] gives a frame with the body, in which the destination, and the
    content length, content type and transaction if they are asked for, override what the
    caller's headers say; every other header is the caller's. *)
Theorem SendFrame_build_headers σ body destination transaction content_type acl hs :
  let '(σ', f) := SendFrame_build σ body destination transaction content_type acl hs in
  ∃ h, snapshot σ' f = SendFrame h body ∧
    h !! us "destination" = Some destination ∧
    h !! us "content-length" = (if acl then Some (digits_of_N (N.of_nat (length body)))
                                else given σ hs !! us "content-length") ∧
    h !! us "content-type" = (if content_type is Some _ then content_type
                              else given σ hs !! us "content-type") ∧
    h !! us "transaction" = (if transaction is Some _ then transaction
                             else given σ hs !! us "transaction") ∧
    ∀ key, key ∉ us <$> ["destination"; "content-length"; "content-type"; "transaction"]%string →
      h !! key = given σ hs !! key.
Proof.
  pose proof (SendFrame_build_snapshot σ body destination transaction content_type acl hs) as H.
  destruct (SendFrame_build _ _ _ _ _ _ _) as [σ' f]. eexists. split; [exact H|].
  rewrite !send_headers_lookup. split_and!; [done..|by destruct content_type|by destruct transaction|].
  intros key Hk. rewrite send_headers_lookup.
  repeat (rewrite decide_False by (intros ->; apply Hk; set_solver)). done.
Qed.

(** C38: a dictionary with items that is given to two sends is the headers of both frames:
    after the second, the first frame, which a transaction keeps to send again, has the
    destination and the content length of the second; and if the first was sent in a
    transaction, so is the second. *)
Theorem shared_dictionary_changes_sent_frame σ l h tx body1 dest1 ct1 acl1 body2 dest2 ct2 acl2 :
  σ !! l = Some h → h ≠ ∅ →
  let '(σ1, f1) := SendFrame_build σ body1 dest1 (Some tx) ct1 acl1 (Some l) in
  let '(σ2, f2) := SendFrame_build σ1 body2 dest2 None ct2 acl2 (Some l) in
  ∃ h', snapshot σ2 f1 = SendFrame h' body1 ∧ snapshot σ2 f2 = SendFrame h' body2 ∧
    h' !! us "transaction" = Some tx ∧ h' !! us "destination" = Some dest2 ∧
    (acl2 = true → h' !! us "content-length" = Some (digits_of_N (N.of_nat (length body2)))).
Proof.
  intros Hl Hh. unfold SendFrame_build. rewrite Hl. simpl default. rewrite decide_False by done.
  set (h1 := send_headers h body1 dest1 (Some tx) ct1 acl1).
  pose proof (lookup_lt_Some _ _ _ Hl) as Hlt.
  rewrite list_lookup_insert_eq by done. simpl default.
  rewrite decide_False by apply send_headers_not_empty.
  exists (send_headers h1 body2 dest2 None ct2 acl2). unfold snapshot. simpl.
  rewrite list_lookup_insert_eq by (by rewrite length_insert). simpl.
  rewrite !send_headers_lookup. unfold h1. rewrite send_headers_lookup. split_and!; try done.
  by intros ->.
Qed.

Lemma shared_dictionary_changes_sent_frame_witness :
  let h := {[us "priority" := us "9"]} : headers in
  let '(σ1, f1) :=
    SendFrame_build [h] (bs "one") (us "a") (Some (us "T")) None true (Some 0%nat) in
  let '(σ2, f2) := SendFrame_build σ1 (bs "second") (us "b") None None true (Some 0%nat) in
  ∃ h', snapshot σ2 f1 = SendFrame h' (bs "one") ∧ snapshot σ2 f2 = SendFrame h' (bs "second") ∧
    h' !! us "transaction" = Some (us "T") ∧ h' !! us "destination" = Some (us "b") ∧
    (true = true → h' !! us "content-length" = Some (digits_of_N (N.of_nat (length (bs "second"))))).
Proof.
  exact (shared_dictionary_changes_sent_frame [{[us "priority" := us "9"]}] 0%nat
           {[us "priority" := us "9"]} (us "T") (bs "one") (us "a") None true
           (bs "second") (us "b") None true eq_refl (map_non_empty_singleton _ _)).
Defined.
