(* ===== verification/Serde.v ===== *)
(** * Serialization (stompman/serde.py, lines 29-140)

    The constants of the wire format, [dump_header] and [dump_frame], and the
    header parser [parse_header] with the reference definition it implements. *)

From stdpp Require Import sorting.
From S2P Require Import Prelude Utf8 Frames.

(** ** Constants *)

Definition NEWLINE : byte := x0a.
Definition CARRIAGE : byte := x0d.
Definition NULL : byte := x00.
Definition BACKSLASH : byte := x5c.
Definition COLON_ : byte := x3a.

Definition HEADER_ESCAPE_CHARS (char : N) : option str :=
  if decide (char = Byte.to_N NEWLINE) then Some (us "\n")
  else if decide (char = Byte.to_N COLON_) then Some (us "\c")
  else if decide (char = Byte.to_N BACKSLASH) then Some (us "\\")
  else if decide (char = Byte.to_N CARRIAGE) then Some []
  else None.

Definition HEADER_UNESCAPE_CHARS (b : byte) : option byte :=
  if decide (b = x6e) then Some NEWLINE
  else if decide (b = x63) then Some COLON_
  else if decide (b = BACKSLASH) then Some BACKSLASH
  else None.

Definition COMMANDS_TO_FRAMES : list (bytes * frame_type) :=
  [ (* client frames *)
    (bs "SEND", TSend); (bs "SUBSCRIBE", TSubscribe); (bs "UNSUBSCRIBE", TUnsubscribe);
    (bs "BEGIN", TBegin); (bs "COMMIT", TCommit); (bs "ABORT", TAbort);
    (bs "ACK", TAck); (bs "NACK", TNack); (bs "DISCONNECT", TDisconnect);
    (bs "CONNECT", TConnect); (bs "STOMP", TStomp);
    (* server frames *)
    (bs "CONNECTED", TConnected); (bs "MESSAGE", TMessage); (bs "RECEIPT", TReceipt);
    (bs "ERROR", TError) ].

(** [d[key]] and [d.get(key)] on a dictionary written as a list of items. *)
Fixpoint dict_get {K V} `{EqDecision K} (d : list (K * V)) (key : K) : option V :=
  match d with
  | [] => None
  | (k, v) :: d' => if decide (k = key) then Some v else dict_get d' key
  end.

Definition command_type (command : bytes) : option frame_type :=
  dict_get COMMANDS_TO_FRAMES command.

Definition FRAMES_TO_COMMANDS : list (frame_type * bytes) :=
  (λ kv, (kv.2, kv.1)) <$> COMMANDS_TO_FRAMES.

Definition FRAMES_WITH_BODY (t : frame_type) : bool :=
  match t with TSend | TMessage | TError => true | _ => false end.

(** ** Dumping *)

(** [HEADER_ESCAPE_CHARS.get(char, char)]. *)
Definition escape_char (char : N) : str := default [char] (HEADER_ESCAPE_CHARS char).

Definition encode_or_raise (s : str) : result bytes :=
  of_option UnicodeEncodeError (encode s).

(** A header line, the line feed included. *)
Definition header_line (key value : str) : str := key ++ us ":" ++ value ++ [10%N].

Definition dump_header (key value : str) : result bytes :=
  encode_or_raise (header_line (key ≫= escape_char) (value ≫= escape_char)).

(** The order Python sorts the items by: keys first, code point by code point. *)
Fixpoint str_leb (a b : str) : bool :=
  match a, b with
  | [], _ => true
  | _ :: _, [] => false
  | x :: a', y :: b' => if (x =? y)%N then str_leb a' b' else (x <? y)%N
  end.

Definition item_le (i j : str * str) : Prop :=
  (if decide (i.1 = j.1) then str_leb i.2 j.2 else str_leb i.1 j.1) = true.

#[export] Instance item_le_dec i j : Decision (item_le i j).
Proof. unfold item_le. apply _. Defined.

(** [sorted(headers.items())] *)
Definition sorted_items (h : headers) : list (str * str) :=
  merge_sort item_le (map_to_list h).

Definition dump_frame (f : frame headers) : result bytes :=
  match parts f with
  | None => Err AttributeError
  | Some (t, h, body) =>
    command ← of_option KeyError (dict_get FRAMES_TO_COMMANDS t);
    dumped_headers ←
      mapM (λ kv, if decide (t = TConnect)
                  then encode_or_raise (header_line kv.1 kv.2)
                  else dump_header kv.1 kv.2) (sorted_items h);
    mret (command ++ [NEWLINE] ++ concat dumped_headers ++ [NEWLINE]
            ++ (if FRAMES_WITH_BODY t then body else []) ++ [NULL])
  end.

(** ** Parsing one header line *)

Definition unescape_byte (b : byte) (previous_byte : option byte) : option byte :=
  if decide (previous_byte = Some BACKSLASH) then HEADER_UNESCAPE_CHARS b
  else if decide (b = BACKSLASH) then None
  else Some b.

(** The local variables of the loop of [parse_header]. *)
Record header_loop := HeaderLoop {
  key_buffer : bytes;
  value_buffer : bytes;
  key_parsed : bool;
  hl_previous_byte : option byte;
  just_escaped_line : bool;
}.

Definition header_loop_init : header_loop := HeaderLoop [] [] false None false.

(** [(value_buffer if key_parsed else key_buffer).extend(b)] *)
Definition extend_buffer (s : header_loop) (b : byte) : header_loop :=
  if key_parsed s
  then HeaderLoop (key_buffer s) (value_buffer s ++ [b]) (key_parsed s)
         (hl_previous_byte s) (just_escaped_line s)
  else HeaderLoop (key_buffer s ++ [b]) (value_buffer s) (key_parsed s)
         (hl_previous_byte s) (just_escaped_line s).

Definition set_just_escaped (s : header_loop) (f : bool) : header_loop :=
  HeaderLoop (key_buffer s) (value_buffer s) (key_parsed s) (hl_previous_byte s) f.

Definition set_key_parsed (s : header_loop) : header_loop :=
  HeaderLoop (key_buffer s) (value_buffer s) true (hl_previous_byte s)
    (just_escaped_line s).

Definition set_previous (s : header_loop) (b : byte) : header_loop :=
  HeaderLoop (key_buffer s) (value_buffer s) (key_parsed s) (Some b)
    (just_escaped_line s).

(** The body of the loop; [None] is its [return None]. *)
Definition header_step (s : header_loop) (b : byte) : option header_loop :=
  s' ← (if decide (b = COLON_) then
          if key_parsed s then None else Some (set_key_parsed s)
        else if just_escaped_line s then
          let s' := set_just_escaped s false in
          Some (if decide (b = BACKSLASH) then s' else extend_buffer s' b)
        else match unescape_byte b (hl_previous_byte s) with
             | Some unescaped_byte =>
               Some (extend_buffer (set_just_escaped s true) unescaped_byte)
             | None => Some s
             end);
  Some (set_previous s' b).

Fixpoint header_loop_run (s : header_loop) (buffer : bytes) : option header_loop :=
  match buffer with
  | [] => Some s
  | b :: buffer' => s' ← header_step s b; header_loop_run s' buffer'
  end.

Definition parse_header (buffer : bytes) : option (str * str) :=
  s ← header_loop_run header_loop_init buffer;
  if key_parsed s then
    key ← decode (key_buffer s);
    value ← decode (value_buffer s);
    Some (key, value)
  else None.

(** ** The reference definition of the header parser

    A header is a line with exactly one colon; on each side of it a backslash and
    the byte after it stand for one byte, or for none when the escape is unknown. *)
Fixpoint unescape (l : bytes) : bytes :=
  match l with
  | [] => []
  | b :: l' =>
    if decide (b = BACKSLASH) then
      match l' with
      | [] => []
      | c :: l'' => option_list (HEADER_UNESCAPE_CHARS c) ++ unescape l''
      end
    else b :: unescape l'
  end.

Definition parse_header_spec (buffer : bytes) : option (str * str) :=
  match split_on COLON_ buffer with
  | [k; v] =>
    key ← decode (unescape k);
    value ← decode (unescape v);
    Some (key, value)
  | _ => None
  end.

(** What the loop makes of one escape, or of a byte that needs none. *)
Definition pending (s : header_loop) : bool :=
  negb (just_escaped_line s) && bool_decide (hl_previous_byte s = Some BACKSLASH).

Definition unescape_from (pend : bool) (l : bytes) : bytes :=
  if pend then
    match l with
    | [] => []
    | c :: l' => option_list (HEADER_UNESCAPE_CHARS c) ++ unescape l'
    end
  else unescape l.

Definition extend_with (s : header_loop) (l : bytes) : bytes * bytes :=
  if key_parsed s then (key_buffer s, value_buffer s ++ l)
  else (key_buffer s ++ l, value_buffer s).

(** The bytes one step adds to the active buffer. *)
Lemma header_step_spec s b :
  b ≠ COLON_ →
  ∃ s' out,
    header_step s b = Some s' ∧ key_parsed s' = key_parsed s ∧
    (key_buffer s', value_buffer s') = extend_with s out ∧
    ∀ l, unescape_from (pending s) (b :: l) = out ++ unescape_from (pending s') l.
Proof.
  intros Hb. unfold header_step. rewrite decide_False by done.
  unfold pending, unescape_byte, extend_with, extend_buffer.
  destruct s as [kb vb kp prev je]; simpl.
  destruct je; simpl.
  - destruct (decide (b = BACKSLASH)) as [->|]; simpl.
    + eexists _, []. split_and!; [done..| |]; [by destruct kp; rewrite app_nil_r|].
      intros l. by destruct l.
    + destruct kp; (eexists _, [b]; split_and!; [done..|]; intros l; simpl;
        rewrite bool_decide_eq_false_2 by congruence; by rewrite ?decide_False by done).
  - destruct (decide (prev = Some BACKSLASH)) as [->|Hprev]; simpl.
    + rewrite ?bool_decide_eq_true_2 by done. simpl.
      destruct (HEADER_UNESCAPE_CHARS b) as [u|] eqn:Hu; simpl.
      * destruct kp; (eexists _, [u]; split_and!; [done..|]; intros l; done).
      * eexists _, []. split_and!; [done..| |]; [by destruct kp; rewrite app_nil_r|].
        intros l. simpl.
        rewrite bool_decide_eq_false_2; [done|]. intros [= ->]. done.
    + rewrite (bool_decide_eq_false_2 (prev = _)) by done. simpl.
      destruct (decide (b = BACKSLASH)) as [->|]; simpl.
      * eexists _, []. split_and!; [done..| |]; [by destruct kp; rewrite app_nil_r|].
        intros l. by destruct l.
      * destruct kp; (eexists _, [b]; split_and!; [done..|]; intros l; simpl; done).
Qed.

(** A stretch without a colon adds its unescaped form. *)
Lemma header_loop_segment l rest s :
  COLON_ ∉ l →
  ∃ s', header_loop_run s (l ++ rest) = header_loop_run s' rest ∧
    key_parsed s' = key_parsed s ∧
    (key_buffer s', value_buffer s') = extend_with s (unescape_from (pending s) l).
Proof.
  revert s. induction l as [|b l IH]; intros s Hl.
  - exists s. split_and!; [done..|]. unfold extend_with, unescape_from.
    destruct (pending s), (key_parsed s); by rewrite app_nil_r.
  - apply not_elem_of_cons in Hl as [Hb Hl].
    destruct (header_step_spec s b) as (s1 & out & Hstep & Hkp & Hbuf & Hun); [done|].
    destruct (IH s1 Hl) as (s2 & Hrun & Hkp2 & Hbuf2).
    exists s2. simpl. rewrite Hstep. simpl. split_and!; [done|congruence|].
    rewrite Hbuf2, Hun. unfold extend_with in *. rewrite Hkp in *.
    destruct (key_parsed s); injection Hbuf as -> ->; by rewrite app_assoc.
Qed.

(** The loop, with its flag for a byte just taken and its memory of the previous
    byte, computes the reference definition. *)
Lemma parse_header_reference buffer : parse_header buffer = parse_header_spec buffer.
Proof.
  unfold parse_header, parse_header_spec.
  destruct (split_first COLON_ buffer) as [Hl|(k & rest & -> & Hk)].
  { destruct (header_loop_segment buffer [] header_loop_init Hl) as (s & Hrun & Hkp & _).
    rewrite app_nil_r in Hrun. rewrite Hrun, split_on_none by done. simpl.
    by rewrite Hkp. }
  destruct (header_loop_segment k (COLON_ :: rest) header_loop_init Hk)
    as (s & -> & Hkp & Hbuf).
  rewrite split_on_app by done. simpl. unfold header_step.
  rewrite decide_True by done. rewrite Hkp. simpl.
  set (s1 := set_previous (set_key_parsed s) COLON_).
  assert (pending s1 = false) as Hp1
    by (unfold pending; simpl; by rewrite andb_false_r).
  injection Hbuf as Hkb Hvb.
  destruct (split_first COLON_ rest) as [Hl|(v & rest' & -> & Hv)].
  - destruct (header_loop_segment rest [] s1 Hl) as (s2 & Hrun & Hkp2 & Hbuf2).
    rewrite app_nil_r in Hrun. rewrite Hrun, split_on_none by done. simpl.
    rewrite Hkp2. simpl. rewrite Hp1 in Hbuf2. injection Hbuf2 as -> ->.
    by rewrite Hkb, Hvb.
  - destruct (header_loop_segment v (COLON_ :: rest') s1 Hv) as (s2 & -> & Hkp2 & _).
    rewrite split_on_app by done. simpl. unfold header_step.
    rewrite decide_True by done. rewrite Hkp2. simpl.
    by destruct (split_on_cons COLON_ rest') as (? & ? & ->).
Qed.

(** ** Escaping and unescaping *)

(** Escaping drops the carriage returns of a text and nothing else. *)
Definition strip_cr (s : str) : str := filter (λ c, c ≠ 13%N) s.

Lemma unescape_plain l1 l2 : BACKSLASH ∉ l1 → unescape (l1 ++ l2) = l1 ++ unescape l2.
Proof.
  induction l1 as [|b l1 IH]; intros Hl; simpl; [done|].
  apply not_elem_of_cons in Hl as [Hb Hl].
  by rewrite decide_False, IH by done.
Qed.

(** Case analysis on a character: one of the four special ones, another ASCII
    one, or one above ASCII. *)
Lemma escape_char_cases c :
  (c = 10%N ∧ escape_char c = us "\n") ∨ (c = 58%N ∧ escape_char c = us "\c") ∨
  (c = 92%N ∧ escape_char c = us "\\") ∨ (c = 13%N ∧ escape_char c = []) ∨
  ((c ∉ [10; 58; 92; 13]%N) ∧ escape_char c = [c]).
Proof.
  unfold escape_char, HEADER_ESCAPE_CHARS.
  change (Byte.to_N NEWLINE) with 10%N. change (Byte.to_N COLON_) with 58%N.
  change (Byte.to_N BACKSLASH) with 92%N. change (Byte.to_N CARRIAGE) with 13%N.
  repeat case_decide; subst; simpl; auto 10.
  do 4 right. split; [|done]. set_solver.
Qed.

Lemma escape_scalar s :
  forallb is_scalar (s ≫= escape_char) = forallb is_scalar s.
Proof.
  induction s as [|c s IH]; csimpl; [done|].
  rewrite forallb_app, IH. f_equal.
  destruct (escape_char_cases c) as [[-> ->]|[[-> ->]|[[-> ->]|[[-> ->]|[_ ->]]]]];
    try done. simpl. by rewrite andb_true_r.
Qed.

(** The escaped text has no line feed, colon or carriage return, and no other
    character than those of the text but the letters of the escapes. *)
Lemma escaped_chars s c :
  c ∈ (s ≫= escape_char) →
  (c ∉ [10; 58; 13]%N) ∧ (c ∈ s ∨ c ∈ [92; 99; 110]%N).
Proof.
  intros (d & Hc & Hd)%list_elem_of_bind.
  destruct (escape_char_cases d) as [[-> He]|[[-> He]|[[-> He]|[[-> He]|[Hd' He]]]]];
    rewrite He in Hc; simpl in Hc; set_solver.
Qed.

Lemma strip_cr_cons c s :
  strip_cr (c :: s) = if decide (c = 13%N) then strip_cr s else c :: strip_cr s.
Proof. unfold strip_cr. rewrite filter_cons. by repeat case_decide. Qed.

Lemma strip_cr_scalar s :
  forallb is_scalar s = true → forallb is_scalar (strip_cr s) = true.
Proof.
  induction s as [|c s IH]; simpl; [done|]. intros [Hc Hs]%andb_true_iff.
  rewrite strip_cr_cons. case_decide; simpl; rewrite ?Hc; auto.
Qed.

Lemma strip_cr_id s : 13%N ∉ s → strip_cr s = s.
Proof.
  induction s as [|c s IH]; intros Hs; [done|].
  apply not_elem_of_cons in Hs as [Hc Hs].
  rewrite strip_cr_cons, decide_False, IH by done. done.
Qed.

(** Unescaping undoes escaping, up to the carriage returns. *)
Lemma unescape_escape s l :
  forallb is_scalar s = true →
  unescape (enc (s ≫= escape_char) ++ l) = enc (strip_cr s) ++ unescape l.
Proof.
  induction s as [|c s IH]; [done|]. simpl forallb. intros [Hc Hs]%andb_true_iff.
  rewrite bind_cons, enc_app, <-app_assoc, strip_cr_cons.
  destruct (escape_char_cases c) as [[-> ->]|[[-> ->]|[[-> ->]|[[-> ->]|[Hin ->]]]]].
  1-3: rewrite decide_False by done; simpl; by rewrite IH.
  - rewrite decide_True by done. simpl. by rewrite IH.
  - rewrite decide_False by set_solver.
    change (enc [c]) with (encode_char c ++ []). rewrite app_nil_r.
    change (enc (c :: ?s)) with (encode_char c ++ enc s).
    rewrite unescape_plain; [by rewrite IH, <-app_assoc|].
    intros Hb. apply ascii_in_encode_char in Hb; [|done..].
    subst c. set_solver.
Qed.

Lemma escaped_no_ascii s b :
  forallb is_scalar s = true → (Byte.to_N b < 128)%N →
  (Byte.to_N b ∈ [10; 58; 13]%N ∨ ((Byte.to_N b ∉ s) ∧ Byte.to_N b ∉ [92; 99; 110]%N)) →
  b ∉ enc (s ≫= escape_char).
Proof.
  intros Hs Hb Hor Hin. apply ascii_in_enc in Hin; [|by rewrite escape_scalar|done].
  apply escaped_chars in Hin. set_solver.
Qed.

(** ** One header line *)

(** [dump_header] raises exactly on the surrogates, and otherwise writes the two
    escaped texts around a colon. *)
Lemma dump_header_eq key value :
  dump_header key value =
  if forallb is_scalar key && forallb is_scalar value
  then Ok (enc (key ≫= escape_char) ++ COLON_ :: enc (value ≫= escape_char) ++ [NEWLINE])
  else Err UnicodeEncodeError.
Proof.
  unfold dump_header, encode_or_raise, encode, header_line.
  rewrite !forallb_app, !escape_scalar. simpl. rewrite andb_true_r.
  case_match; simpl; [|done].
  change (?s ≫= encode_char) with (enc s).
  rewrite !enc_app. simpl. by rewrite enc_app.
Qed.

(** Reading back the line [dump_header] wrote gives the key and the value, less
    their carriage returns. *)
Lemma parse_header_escaped key value :
  forallb is_scalar key = true → forallb is_scalar value = true →
  parse_header (enc (key ≫= escape_char) ++ COLON_ :: enc (value ≫= escape_char)) =
  Some (strip_cr key, strip_cr value).
Proof.
  intros Hk Hv. rewrite parse_header_reference. unfold parse_header_spec.
  rewrite split_on_app, split_on_none
    by (apply escaped_no_ascii; [done..|left; simpl; set_solver]).
  pose proof (unescape_escape key [] Hk) as Hkey.
  pose proof (unescape_escape value [] Hv) as Hvalue.
  rewrite !app_nil_r in Hkey, Hvalue. rewrite Hkey, Hvalue. simpl.
  rewrite ?app_nil_r, !decode_enc by (by apply strip_cr_scalar). done.
Qed.

(** ** The order of the headers *)

Lemma str_leb_total a b : str_leb a b = true ∨ str_leb b a = true.
Proof.
  revert b. induction a as [|x a IH]; intros [|y b]; simpl; auto.
  rewrite (N.eqb_sym y x). destruct (N.eqb_spec x y); [apply IH|].
  rewrite !N.ltb_lt. lia.
Qed.

Lemma str_leb_trans a b c :
  str_leb a b = true → str_leb b c = true → str_leb a c = true.
Proof.
  revert b c. induction a as [|x a IH]; intros [|y b] [|z c]; simpl; try done.
  destruct (N.eqb_spec x y), (N.eqb_spec y z), (N.eqb_spec x z);
    rewrite ?N.ltb_lt; subst; try lia; eauto.
Qed.

Lemma str_leb_antisym a b : str_leb a b = true → str_leb b a = true → a = b.
Proof.
  revert b. induction a as [|x a IH]; intros [|y b]; simpl; try done.
  rewrite (N.eqb_sym y x). destruct (N.eqb_spec x y); [|rewrite !N.ltb_lt; lia].
  intros. f_equal; auto.
Qed.

#[export] Instance item_le_total : Total item_le.
Proof.
  intros [k v] [k' v']. unfold item_le. simpl.
  repeat case_decide; try congruence; apply str_leb_total.
Qed.

#[export] Instance item_le_trans : Transitive item_le.
Proof.
  intros [k v] [k' v'] [k2 v2]. unfold item_le. simpl.
  repeat case_decide; subst; try done; eauto using str_leb_trans.
  intros H1 H2. exfalso. eauto using str_leb_antisym.
Qed.

(** ** Properties *)

(** C31: the header parser, a loop with a flag for the byte just taken and a memory
    of the previous byte, returns for every byte string what the reference
    definition returns: the line must have exactly one colon, each side is
    unescaped left to right, and both sides must be UTF-8. *)
Theorem parse_header_equivalence buffer : parse_header buffer = parse_header_spec buffer.
Proof. apply parse_header_reference. Qed.

(** [dump_header] writes one line, without a carriage return, from which
    [parse_header] reads back the key and the value less their carriage returns;
    it raises [UnicodeEncodeError] exactly when a surrogate occurs in either. *)
Theorem dump_header_roundtrip key value :
  match dump_header key value with
  | Ok bytes =>
    ∃ line, bytes = line ++ [NEWLINE] ∧ (NEWLINE ∉ line) ∧ (CARRIAGE ∉ line) ∧
      parse_header line = Some (strip_cr key, strip_cr value)
  | Err e => e = UnicodeEncodeError ∧ forallb is_scalar (key ++ value) = false
  end.
Proof.
  rewrite dump_header_eq, forallb_app.
  destruct (forallb is_scalar key && forallb is_scalar value) eqn:Hs; [|done].
  apply andb_true_iff in Hs as [Hk Hv].
  exists (enc (key ≫= escape_char) ++ COLON_ :: enc (value ≫= escape_char)).
  assert (∀ b, Byte.to_N b ∈ [10; 13]%N →
    b ∉ enc (key ≫= escape_char) ++ COLON_ :: enc (value ≫= escape_char)) as Hno.
  { intros b Hb. assert (Byte.to_N b < 128)%N by set_solver by lia.
    rewrite not_elem_of_app, not_elem_of_cons. split_and!.
    - apply escaped_no_ascii; [done..|left; set_solver].
    - intros ->. simpl in Hb. set_solver.
    - apply escaped_no_ascii; [done..|left; set_solver]. }
  split_and!; [by rewrite <-app_assoc| | |by apply parse_header_escaped];
    apply Hno; simpl; set_solver.
Qed.

(** The headers of a frame are written once each, in strictly increasing order
    of their keys, so the bytes depend on nothing but the mapping. *)
Theorem sorted_items_canonical h :
  sorted_items h ≡ₚ map_to_list h ∧
  StronglySorted (λ i j, str_leb i.1 j.1 = true ∧ i.1 ≠ j.1) (sorted_items h).
Proof.
  assert (sorted_items h ≡ₚ map_to_list h) as Hperm by apply merge_sort_Permutation.
  split; [done|].
  assert (NoDup (sorted_items h).*1) as Hdup
    by (rewrite Hperm; apply NoDup_fst_map_to_list).
  assert (StronglySorted item_le (sorted_items h)) as Hsort
    by (apply StronglySorted_merge_sort; apply _).
  clear Hperm. revert Hdup. induction Hsort as [|i l _ IH Hi]; intros Hdup; constructor.
  - apply NoDup_cons in Hdup as [_ Hdup]. by apply IH.
  - apply NoDup_cons in Hdup as [Hni _]. apply Forall_forall. intros j Hj.
    rewrite Forall_forall in Hi. specialize (Hi j Hj). unfold item_le in Hi.
    assert (i.1 ≠ j.1) as Hne.
    { intros He. apply Hni. rewrite He. by apply list_elem_of_fmap_2. }
    rewrite decide_False in Hi by done. done.
Qed.

(** [COMMANDS_TO_FRAMES] and [FRAMES_TO_COMMANDS] are inverse to each other, and
    every frame class has a command. *)
Theorem commands_bijective t c :
  (dict_get FRAMES_TO_COMMANDS t = Some c ↔ command_type c = Some t) ∧
  is_Some (dict_get FRAMES_TO_COMMANDS t).
Proof.
  split; [|destruct t; by eexists]. split.
  - destruct t; intros [= <-]; reflexivity.
  - unfold command_type. simpl.
    repeat (case_decide; [intros [= <-]; subst; reflexivity|]). done.
Qed.
