(* ===== verification/FrameParser.v ===== *)
(** * The incremental frame parser (stompman/serde.py, lines 137-222)

    [FrameParser] as a state machine fed one byte at a time.  Every method is a
    function from the parser state to the frames it yields and the next state, or
    the exception it raises. *)

From S2P Require Import Prelude Utf8 PyInt Frames Serde.

(** ** State *)

Record FrameParser := mkFrameParser {
  _current_buf : bytes;
  _previous_byte : option byte;
  _headers_processed : bool;
  _command : option bytes;
  _headers : headers;
  _content_length : option Z;
}.

#[export] Instance FrameParser_eq_dec : EqDecision FrameParser.
Proof. solve_decision. Defined.

(** [_reset] leaves the previous byte alone. *)
Definition _reset (p : FrameParser) : FrameParser :=
  mkFrameParser [] (_previous_byte p) false None ∅ None.

(** [FrameParser()] *)
Definition new_parser : FrameParser := mkFrameParser [] None false None ∅ None.

Definition set_buf (p : FrameParser) (b : bytes) : FrameParser :=
  mkFrameParser b (_previous_byte p) (_headers_processed p) (_command p)
    (_headers p) (_content_length p).

Definition set_previous_byte (p : FrameParser) (b : byte) : FrameParser :=
  mkFrameParser (_current_buf p) (Some b) (_headers_processed p) (_command p)
    (_headers p) (_content_length p).

Definition set_headers_processed (p : FrameParser) (f : bool) : FrameParser :=
  mkFrameParser (_current_buf p) (_previous_byte p) f (_command p)
    (_headers p) (_content_length p).

Definition set_command (p : FrameParser) (c : bytes) : FrameParser :=
  mkFrameParser (_current_buf p) (_previous_byte p) (_headers_processed p) (Some c)
    (_headers p) (_content_length p).

Definition set_headers (p : FrameParser) (h : headers) : FrameParser :=
  mkFrameParser (_current_buf p) (_previous_byte p) (_headers_processed p) (_command p)
    h (_content_length p).

Definition set_content_length (p : FrameParser) (n : Z) : FrameParser :=
  mkFrameParser (_current_buf p) (_previous_byte p) (_headers_processed p) (_command p)
    (_headers p) (Some n).

(** ** Methods *)

Definition make_frame_from_parts (command : bytes) (h : headers) (body : bytes)
  : result (frame headers) :=
  t ← of_option KeyError (command_type command);
  mret (construct t h body).

(** [if self._command]: neither [None] nor empty. *)
Definition has_command (p : FrameParser) : bool :=
  match _command p with Some (_ :: _) => true | _ => false end.

(** [self._content_length is not None and self._content_length != len(buf)] *)
Definition body_incomplete (p : FrameParser) : bool :=
  match _content_length p with
  | Some n => negb (n =? Z.of_nat (length (_current_buf p)))%Z
  | None => false
  end.

Definition _handle_null_byte (p : FrameParser)
  : result (list (frame headers) * FrameParser) :=
  match _command p with
  | Some ((_ :: _) as command) =>
    if _headers_processed p then
      if body_incomplete p then mret ([], set_buf p (_current_buf p ++ [NULL]))
      else
        f ← make_frame_from_parts command (_headers p) (_current_buf p);
        mret ([f], _reset p)
    else mret ([], _reset p)
  | _ => mret ([], _reset p)
  end.

Definition _process_command (p : FrameParser) : FrameParser :=
  match command_type (_current_buf p) with
  | None => _reset p
  | Some _ => set_buf (set_command p (_current_buf p)) []
  end.

(** [str.lower()], as far as the comparison with an ASCII text goes: the only
    characters it maps to lower-case ASCII letters, other than K and I with
    their compatibility forms, are the upper-case ASCII letters. *)
Definition lower_char (c : N) : N :=
  if ((65 <=? c) && (c <=? 90))%N then (c + 32)%N else c.

Definition is_content_length (key : str) : bool :=
  bool_decide (lower_char <$> key = us "content-length").

Definition _process_header (p : FrameParser) : FrameParser :=
  match parse_header (_current_buf p) with
  | None => set_buf p []
  | Some (header_key, header_value) =>
    let p :=
      match _headers p !! header_key with
      | Some _ => p
      | None =>
        let p := set_headers p (<[header_key := header_value]> (_headers p)) in
        if is_content_length header_key then
          match int_of_str header_value with
          | Some n => set_content_length p n
          | None => p
          end
        else p
      end in
    set_buf p []
  end.

(** [bytearray.pop()] *)
Definition pop (b : bytes) : result bytes :=
  match b with [] => Err IndexError | _ :: _ => mret (removelast b) end.

Definition is_empty (b : bytes) : bool := match b with [] => true | _ => false end.

Definition _handle_newline_byte (p : FrameParser)
  : result (list (frame headers) * FrameParser) :=
  if is_empty (_current_buf p) && negb (has_command p) then mret ([HeartbeatFrame], p)
  else
    p ← (if decide (_previous_byte p = Some CARRIAGE)
         then b ← pop (_current_buf p); mret (set_buf p b)
         else mret p);
    let p := set_headers_processed p (is_empty (_current_buf p)) in
    mret ([], if has_command p then _process_header p else _process_command p).

Definition _handle_body_byte (p : FrameParser) (b : byte) : FrameParser :=
  match _content_length p with
  | None => set_buf p (_current_buf p ++ [b])
  | Some n =>
    if (n =? Z.of_nat (length (_current_buf p)))%Z then p
    else set_buf p (_current_buf p ++ [b])
  end.

(** The body of the loop of [parse_frames_from_chunk]. *)
Definition feed (p : FrameParser) (b : byte)
  : result (list (frame headers) * FrameParser) :=
  '(fs, p) ← (if decide (b = NULL) then _handle_null_byte p
              else if _headers_processed p then mret ([], _handle_body_byte p b)
              else if decide (b = NEWLINE) then _handle_newline_byte p
              else mret ([], set_buf p (_current_buf p ++ [b])));
  mret (fs, set_previous_byte p b).

Fixpoint parse_frames_from_chunk (p : FrameParser) (chunk : bytes)
  : result (list (frame headers) * FrameParser) :=
  match chunk with
  | [] => mret ([], p)
  | b :: chunk' =>
    '(fs, p) ← feed p b;
    '(fs', p) ← parse_frames_from_chunk p chunk';
    mret (fs ++ fs', p)
  end.

(** The frames a new parser finds in a byte string. *)
Definition load_frames (raw : bytes) : result (list (frame headers)) :=
  fst <$> parse_frames_from_chunk new_parser raw.

(** Feeding a sequence of chunks, as the reading loop of a connection does. *)
Fixpoint parse_chunks (p : FrameParser) (chunks : list bytes)
  : result (list (frame headers) * FrameParser) :=
  match chunks with
  | [] => mret ([], p)
  | c :: chunks' =>
    '(fs, p) ← parse_frames_from_chunk p c;
    '(fs', p) ← parse_chunks p chunks';
    mret (fs ++ fs', p)
  end.

(** ** The parser invariant *)

(** A header that the parser took a content length from. *)
Definition declares (h : headers) (n : Z) : Prop :=
  ∃ k v, h !! k = Some v ∧ is_content_length k = true ∧ int_of_str v = Some n.

(** Every key and every value is a text that UTF-8 can spell. *)
Definition headers_ok (h : headers) : Prop :=
  map_Forall (λ k v, forallb is_scalar k = true ∧ forallb is_scalar v = true) h.

Record core_ok (p : FrameParser) : Prop := {
  ok_command : ∀ c, _command p = Some c → is_Some (command_type c);
  ok_processed : _headers_processed p = true → is_Some (_command p);
  ok_length :
    ∀ n, _content_length p = Some n → declares (_headers p) n;
  ok_declared :
    _content_length p = None → ∀ n, ¬ declares (_headers p) n;
  ok_body_bound :
    ∀ n, _headers_processed p = true → _content_length p = Some n → (0 <= n)%Z →
         (Z.of_nat (length (_current_buf p)) <= n)%Z;
  ok_body_null :
    _headers_processed p = true → _content_length p = None → NULL ∉ _current_buf p;
  ok_headers : headers_ok (_headers p);
}.

(** A carriage return that was just read is still in the buffer. *)
Definition carriage_ok (p : FrameParser) : Prop :=
  _headers_processed p = false → _previous_byte p = Some CARRIAGE → _current_buf p ≠ [].

Definition parser_ok (p : FrameParser) : Prop := core_ok p ∧ carriage_ok p.

(** What holds of a frame the parser yields: its headers are texts; and the body
    of a frame that has one is as long as one of its content-length headers says,
    or free of NULL when there is none that reads as a number. *)
Definition frame_ok (f : frame headers) : Prop :=
  match parts f with
  | None => True
  | Some (t, h, body) =>
    headers_ok h ∧
    (FRAMES_WITH_BODY t = true →
     declares h (Z.of_nat (length body)) ∨ ((∀ n, ¬ declares h n) ∧ NULL ∉ body))
  end.

Lemma command_type_nonempty c t : command_type c = Some t → c ≠ [].
Proof. intros H ->. discriminate H. Qed.

Lemma has_command_true p : core_ok p → has_command p = true ↔ is_Some (_command p).
Proof.
  intros Hp. unfold has_command. destruct (_command p) as [[|b c]|] eqn:E; simpl.
  - destruct (ok_command p Hp _ E) as [t Ht]. by apply command_type_nonempty in Ht.
  - split; eauto.
  - split; [done|by intros [? ?]].
Qed.

Lemma decode_scalar b s : decode b = Some s → forallb is_scalar s = true.
Proof. intros H%encode_decode. by apply encode_Some in H as [? _]. Qed.

Lemma parse_header_ok b k v :
  parse_header b = Some (k, v) →
  forallb is_scalar k = true ∧ forallb is_scalar v = true.
Proof.
  unfold parse_header.
  destruct (header_loop_run header_loop_init b) as [s|]; simpl; [|done].
  destruct (key_parsed s); [|done].
  destruct (decode (key_buffer s)) as [k'|] eqn:Hk; simpl; [|done].
  destruct (decode (value_buffer s)) as [v'|] eqn:Hv; simpl; [|done].
  intros [= <- <-]. eauto using decode_scalar.
Qed.

Lemma not_declares_empty n : ¬ declares ∅ n.
Proof. intros (k & v & Hk & _). by rewrite lookup_empty in Hk. Qed.

Lemma reset_ok p : core_ok (_reset p).
Proof.
  split; simpl; try done. intros _ n. apply not_declares_empty.
Qed.

Lemma new_parser_ok : parser_ok new_parser.
Proof. split; [exact (reset_ok new_parser)|done]. Qed.

(** The methods keep the invariant and never raise. *)
Lemma process_command_ok p :
  core_ok p → _headers_processed p = false →
  core_ok (_process_command (set_headers_processed p (is_empty (_current_buf p)))).
Proof.
  intros Hp Hpr. unfold _process_command. simpl.
  destruct (command_type (_current_buf p)) as [t|] eqn:E; [|apply reset_ok].
  apply command_type_nonempty in E as Hne.
  destruct Hp. split; simpl; eauto using not_elem_of_nil; naive_solver.
Qed.

Lemma declares_insert h k v n :
  h !! k = None →
  declares (<[k := v]> h) n ↔
  (is_content_length k = true ∧ int_of_str v = Some n) ∨ declares h n.
Proof.
  intros Hk. unfold declares. split.
  - intros (k' & v' & [[-> ->]|[Hne Hk']]%lookup_insert_Some & ? & ?); eauto 10.
  - intros [[? ?]|(k' & v' & Hk' & ? & ?)].
    + exists k, v. by rewrite lookup_insert_eq.
    + exists k', v'. rewrite lookup_insert_ne by congruence. done.
Qed.

(** Processing a header keeps the invariant, but for the bound on the body, which
    holds as the buffer is emptied. *)
Lemma process_header_ok p : core_ok p → core_ok (_process_header p).
Proof.
  intros Hp. unfold _process_header.
  destruct (parse_header (_current_buf p)) as [[k v]|] eqn:Hkv.
  2: { destruct Hp. split; simpl; eauto using not_elem_of_nil. }
  apply parse_header_ok in Hkv.
  destruct (_headers p !! k) as [v'|] eqn:Hk.
  { destruct Hp. split; simpl; eauto using not_elem_of_nil. }
  assert (headers_ok (<[k:=v]> (_headers p))) as Hok
    by (apply map_Forall_insert_2; [done|apply Hp]).
  pose proof (λ n, declares_insert (_headers p) k v n Hk) as Hd.
  destruct Hp as [Hc Hpr Hl Hdecl _ _ _].
  destruct (is_content_length k) eqn:Hcl; [destruct (int_of_str v) as [m|] eqn:Hm|];
    (split; simpl; eauto using not_elem_of_nil;
     [intros n; rewrite ?Hd; naive_solver|intros ? n; rewrite ?Hd; naive_solver]).
Qed.

Lemma set_buf_ok p b :
  core_ok p → _headers_processed p = false → core_ok (set_buf p b).
Proof. intros [] Hpr. split; simpl; eauto; congruence. Qed.

Lemma set_processed_ok p :
  core_ok p → is_Some (_command p) →
  core_ok (set_headers_processed (set_buf p []) true).
Proof. intros [] Hc. split; simpl; eauto using not_elem_of_nil. Qed.

Lemma handle_newline_ok p :
  parser_ok p → _headers_processed p = false →
  ∃ fs p', _handle_newline_byte p = Ok (fs, p') ∧ core_ok p' ∧ Forall frame_ok fs.
Proof.
  intros [Hp Hcr] Hpr. unfold _handle_newline_byte.
  destruct (is_empty (_current_buf p) && negb (has_command p)).
  { exists [HeartbeatFrame], p. split_and!; [done..|]. by repeat constructor. }
  assert (∃ b, (if decide (_previous_byte p = Some CARRIAGE)
                then b ← pop (_current_buf p); mret (set_buf p b)
                else mret p) = Ok (set_buf p b)) as [b ->].
  { case_decide as Hprev.
    - destruct (_current_buf p) as [|x l] eqn:E; [by destruct (Hcr Hpr Hprev)|].
      by exists (removelast (x :: l)).
    - exists (_current_buf p). by destruct p. }
  pose proof (set_buf_ok p b Hp Hpr) as Hp'. revert Hp'.
  assert (_headers_processed (set_buf p b) = false) as Hpr' by done. revert Hpr'.
  generalize (set_buf p b) as q. intros q Hqr Hq. simpl.
  eexists [], _. split_and!; [done| |constructor].
  change (has_command (set_headers_processed q _)) with (has_command q).
  destruct (has_command q) eqn:Hc; [|by apply process_command_ok].
  apply process_header_ok. apply has_command_true in Hc; [|done].
  destruct (_current_buf q) as [|x l] eqn:E; simpl.
  - pose proof (set_processed_ok q Hq Hc). destruct q. simpl in *. by subst.
  - destruct q. simpl in *. by subst.
Qed.

Lemma make_frame_ok c t h b :
  command_type c = Some t → headers_ok h →
  declares h (Z.of_nat (length b)) ∨ ((∀ n, ¬ declares h n) ∧ NULL ∉ b) →
  ∃ f, make_frame_from_parts c h b = Ok f ∧ frame_ok f.
Proof.
  intros Ht Hh Hb. unfold make_frame_from_parts. rewrite Ht. simpl.
  eexists. split; [done|]. by destruct t.
Qed.

Lemma handle_null_ok p :
  parser_ok p →
  ∃ fs p', _handle_null_byte p = Ok (fs, p') ∧ core_ok p' ∧ Forall frame_ok fs.
Proof.
  intros [Hp _]. unfold _handle_null_byte.
  destruct (_command p) as [[|x c]|] eqn:Hc;
    [eexists [], _; split_and!; [done|apply reset_ok|done]| |
     eexists [], _; split_and!; [done|apply reset_ok|done]].
  destruct (_headers_processed p) eqn:Hpr;
    [|eexists [], _; split_and!; [done|apply reset_ok|done]].
  destruct (ok_command p Hp _ Hc) as [t Ht].
  unfold body_incomplete.
  destruct (_content_length p) as [n|] eqn:Hn.
  - destruct (Z.eqb_spec n (Z.of_nat (length (_current_buf p)))) as [He|He]; simpl.
    + edestruct (make_frame_ok (x :: c) t (_headers p) (_current_buf p)) as (f & -> & Hf);
        [done|apply Hp|left; rewrite <-He; by apply Hp|].
      simpl. eexists [f], _. split_and!; [done|apply reset_ok|by constructor].
    + eexists [], _. split_and!; [done| |done].
      destruct Hp. split; simpl; eauto; [|congruence].
      intros m Hpr' Hm Hpos. rewrite length_app. simpl.
      specialize (ok_body_bound0 m Hpr' Hm Hpos). simplify_eq. lia.
  - edestruct (make_frame_ok (x :: c) t (_headers p) (_current_buf p)) as (f & -> & Hf);
      [done|apply Hp|right; split; by apply Hp|].
    simpl. eexists [f], _. split_and!; [done|apply reset_ok|by constructor].
Qed.

Lemma handle_body_ok p b :
  core_ok p → _headers_processed p = true → b ≠ NULL → core_ok (_handle_body_byte p b).
Proof.
  intros Hp Hpr Hb. unfold _handle_body_byte.
  destruct (_content_length p) as [n|] eqn:Hn.
  - destruct (Z.eqb_spec n (Z.of_nat (length (_current_buf p)))); [done|].
    destruct Hp. split; simpl; eauto; [|congruence].
    intros m Hpr' Hm Hpos. rewrite length_app. simpl.
    specialize (ok_body_bound0 m Hpr' Hm Hpos). simplify_eq. lia.
  - destruct Hp. split; simpl; eauto; [congruence|].
    intros _ _. rewrite not_elem_of_app, list_elem_of_singleton. auto.
Qed.

(** One byte: the parser never raises, the invariant is kept, and the frames that
    come out are well formed. *)
Lemma feed_ok p b :
  parser_ok p →
  ∃ fs p', feed p b = Ok (fs, p') ∧ parser_ok p' ∧ Forall frame_ok fs.
Proof.
  intros Hp. unfold feed.
  assert (∀ q, core_ok q → b ≠ CARRIAGE → parser_ok (set_previous_byte q b)) as Hset.
  { intros q [] Hb. split; [split; simpl; eauto|]. intros _ [= ->]. done. }
  case_decide as Hnull.
  { destruct (handle_null_ok p Hp) as (fs & q & -> & Hq & Hfs). simpl.
    eexists _, _. split_and!; [done|apply Hset; [done|by subst]|done]. }
  destruct (_headers_processed p) eqn:Hpr.
  { eexists [], _. split_and!; [done| |done].
    pose proof (handle_body_ok p b (proj1 Hp) Hpr Hnull) as [].
    split; [split; simpl; eauto|].
    intros Hf. exfalso. revert Hf. simpl. unfold _handle_body_byte.
    repeat case_match; simpl; congruence. }
  case_decide as Hnl.
  { destruct (handle_newline_ok p Hp Hpr) as (fs & q & -> & Hq & Hfs). simpl.
    eexists _, _. split_and!; [done|apply Hset; [done|by subst]|done]. }
  eexists [], _. split_and!; [done| |done].
  pose proof (set_buf_ok p (_current_buf p ++ [b]) (proj1 Hp) Hpr) as [].
  split; [split; simpl; eauto|]. intros _ _ Hnil. by apply app_nil in Hnil as [_ ?].
Qed.

(** ** Chunks *)

Lemma parse_ok p chunk :
  parser_ok p →
  ∃ fs p', parse_frames_from_chunk p chunk = Ok (fs, p') ∧ parser_ok p' ∧
           Forall frame_ok fs.
Proof.
  revert p. induction chunk as [|b chunk IH]; intros p Hp; simpl.
  { exists [], p. done. }
  destruct (feed_ok p b Hp) as (fs & q & -> & Hq & Hfs).
  destruct (IH q Hq) as (fs' & q' & Hrun & Hq' & Hfs'). simpl. rewrite Hrun. simpl.
  eexists _, _. split_and!; [done..|]. by apply Forall_app.
Qed.

(** Feeding two byte strings one after the other is feeding their concatenation. *)
Lemma parse_app p l1 l2 :
  parse_frames_from_chunk p (l1 ++ l2) =
  '(fs1, p1) ← parse_frames_from_chunk p l1;
  '(fs2, p2) ← parse_frames_from_chunk p1 l2;
  mret (fs1 ++ fs2, p2).
Proof.
  revert p. induction l1 as [|b l1 IH]; intros p; simpl.
  - by destruct (parse_frames_from_chunk p l2) as [[fs q]|e].
  - destruct (feed p b) as [[fs q]|e]; simpl; [|done]. rewrite IH.
    destruct (parse_frames_from_chunk q l1) as [[fs1 q1]|e]; simpl; [|done].
    destruct (parse_frames_from_chunk q1 l2) as [[fs2 q2]|e]; simpl; [|done].
    by rewrite app_assoc.
Qed.

(** ** Properties *)

(** C12: no byte sequence, however it is cut into chunks, makes the parser raise; and
    each frame it yields is well formed: its headers are texts UTF-8 can spell, and
    a body is as long as one of the frame's numeric content-length headers says, or
    free of NULL when the frame has none. *)
Theorem parser_never_raises chunks :
  ∃ fs p, parse_chunks new_parser chunks = Ok (fs, p) ∧ Forall frame_ok fs.
Proof.
  assert (∀ p, parser_ok p →
    ∃ fs q, parse_chunks p chunks = Ok (fs, q) ∧ Forall frame_ok fs) as H;
    [|by apply H, new_parser_ok].
  induction chunks as [|c chunks IH]; intros p Hp; simpl; [by exists [], p|].
  destruct (parse_ok p c Hp) as (fs & q & -> & Hq & Hfs).
  destruct (IH q Hq) as (fs' & q' & Hrun & Hfs'). simpl. rewrite Hrun. simpl.
  eexists _, _. split; [done|]. by apply Forall_app.
Qed.

(** C28: while the body of a frame with a content length of at least zero is read,
    the buffer never holds more than that many bytes. *)
Theorem body_buffer_bounded l fs p n :
  parse_frames_from_chunk new_parser l = Ok (fs, p) →
  _headers_processed p = true → _content_length p = Some n → (0 <= n)%Z →
  (Z.of_nat (length (_current_buf p)) <= n)%Z.
Proof.
  intros Hl Hpr Hn Hpos.
  destruct (parse_ok new_parser l new_parser_ok) as (fs' & p' & Hl' & [Hok _] & _).
  rewrite Hl in Hl'. injection Hl' as <- <-.
  by apply (ok_body_bound p Hok).
Qed.

Lemma body_buffer_bounded_witness :
  (Z.of_nat (length (bs "abc")) <= 5)%Z.
Proof.
  eapply (body_buffer_bounded
            (bs "SEND" ++ NEWLINE :: bs "content-length:5" ++ NEWLINE :: NEWLINE :: bs "abc")
            [] (mkFrameParser (bs "abc") (Some x63) true (Some (bs "SEND"))
                  {[us "content-length" := us "5"]} (Some 5%Z)) 5%Z).
  - vm_compute. reflexivity.
  - reflexivity.
  - reflexivity.
  - lia.
Defined.
