(* ===== verification/Wire.v ===== *)
(** * The wire format: what is written is read back

    The parser run on the output of [dump_frame] and on heartbeats, for a stream
    of any number of frames cut into chunks in any way. *)

From stdpp Require Import sorting.
From S2P Require Import Prelude Utf8 PyInt Frames Serde FrameParser.

(** ** Which frames survive the wire *)

(** The content length the parser is left with after a sequence of headers. *)
Definition update_length (cl : option Z) (kv : str * str) : option Z :=
  if is_content_length kv.1 then
    match int_of_str kv.2 with Some n => Some n | None => cl end
  else cl.

Definition declared_length (items : list (str * str)) : option Z :=
  foldl update_length None items.

(** The characters that cannot travel in a header of a frame of class [t]: NUL and
    the carriage return in all of them; and the characters that need an escape in
    CONNECT, whose headers are written as they are. *)
Definition unsafe_chars (t : frame_type) : list N :=
  if decide (t = TConnect) then [0; 13; 10; 58; 92]%N else [0; 13]%N.

Definition text_safe (t : frame_type) (s : str) : Prop :=
  forallb is_scalar s = true ∧ Forall (λ c, c ∉ unsafe_chars t) s.

(** The parser takes as many bytes of the body as the content length says, or up
    to the first NULL. *)
Definition body_fits (cl : option Z) (body : bytes) : Prop :=
  match cl with
  | Some n => n = Z.of_nat (length body)
  | None => NULL ∉ body
  end.

Definition wire_safe (f : frame headers) : Prop :=
  match parts f with
  | None => True
  | Some (t, h, body) =>
    map_Forall (λ k v, text_safe t k ∧ text_safe t v) h ∧
    body_fits (declared_length (sorted_items h)) body
  end.

#[export] Instance text_safe_dec t s : Decision (text_safe t s).
Proof. unfold text_safe. apply _. Defined.
#[export] Instance body_fits_dec cl body : Decision (body_fits cl body).
Proof. destruct cl; simpl; apply _. Defined.
#[export] Instance wire_safe_dec f : Decision (wire_safe f).
Proof. unfold wire_safe. destruct (parts f) as [[[? ?] ?]|]; apply _. Defined.

(** What [write_heartbeat] and [write_frame] put on the wire. *)
Definition wire (f : frame headers) : result bytes :=
  match f with
  | HeartbeatFrame => Ok [NEWLINE]
  | _ => dump_frame f
  end.

(** ** Stretches of input *)

Definition last_or (prev : option byte) (l : bytes) : option byte :=
  match last l with Some b => Some b | None => prev end.

(** A step without frames. *)
Lemma quiet (r : result (list (frame headers) * FrameParser)) :
  ('(fs, p) ← r; mret ([] ++ fs, p)) = r.
Proof. by destruct r as [[fs p]|e]. Qed.

(** Bytes other than NULL and a line feed pile up in the buffer. *)
Lemma parse_plain buf prev c h cl l rest :
  NULL ∉ l → NEWLINE ∉ l →
  parse_frames_from_chunk (mkFrameParser buf prev false c h cl) (l ++ rest) =
  parse_frames_from_chunk (mkFrameParser (buf ++ l) (last_or prev l) false c h cl) rest.
Proof.
  revert buf prev. induction l as [|b l IH]; intros buf prev H0 Hn.
  { by rewrite app_nil_r. }
  apply not_elem_of_cons in H0 as [? H0]. apply not_elem_of_cons in Hn as [? Hn].
  simpl. unfold feed. rewrite decide_False by congruence. simpl.
  rewrite decide_False by congruence. simpl.
  unfold set_buf, set_previous_byte. simpl. rewrite IH by done.
  rewrite <-app_assoc. simpl.
  assert (last_or (Some b) l = last_or prev (b :: l)) as ->
    by (unfold last_or; rewrite last_cons; by destruct (last l)).
  apply quiet.
Qed.

(** A command line. *)
Lemma parse_command_line c t prev rest :
  command_type c = Some t →
  parse_frames_from_chunk (mkFrameParser [] prev false None ∅ None)
    (c ++ NEWLINE :: rest) =
  parse_frames_from_chunk (mkFrameParser [] (Some NEWLINE) false (Some c) ∅ None) rest.
Proof.
  intros Hc.
  assert ((NULL ∉ c) ∧ (NEWLINE ∉ c) ∧ last c ≠ Some CARRIAGE ∧ c ≠ []) as (H0 & Hn & Hcr & Hne).
  { unfold command_type in Hc. simpl in Hc.
    repeat (case_decide; [subst; vm_compute; split_and!; naive_solver set_solver|]). done. }
  rewrite parse_plain by done.
  assert (last_or prev c ≠ Some CARRIAGE) as Hlast.
  { unfold last_or. destruct (last c) eqn:E; [done|]. by apply last_None in E. }
  destruct c as [|x c]; [done|]. cbn [app]. simpl. unfold feed. simpl.
  unfold _handle_newline_byte. simpl. rewrite decide_False by done.
  simpl. unfold _process_command. simpl. rewrite Hc. simpl.
  apply quiet.
Qed.

(** A header line, and the empty line after the headers. *)
Lemma last_or_not prev l b : l ≠ [] → b ∉ l → last_or prev l ≠ Some b.
Proof.
  intros Hl Hb. unfold last_or. destruct (last l) as [x|] eqn:E.
  - intros [= ->]. by apply Hb, last_Some_elem_of.
  - by apply last_None in E.
Qed.

Lemma parse_header_line c t prev h cl line k v rest :
  command_type c = Some t → line ≠ [] →
  NULL ∉ line → NEWLINE ∉ line → CARRIAGE ∉ line →
  parse_header line = Some (k, v) → h !! k = None →
  parse_frames_from_chunk (mkFrameParser [] prev false (Some c) h cl)
    (line ++ NEWLINE :: rest) =
  parse_frames_from_chunk
    (mkFrameParser [] (Some NEWLINE) false (Some c) (<[k := v]> h)
       (update_length cl (k, v))) rest.
Proof.
  intros Hc%command_type_nonempty Hne H0 Hn Hcr Hkv Hk. rewrite parse_plain by done.
  pose proof (last_or_not prev line CARRIAGE Hne Hcr) as Hlast.
  destruct line as [|x line]; [done|]. destruct c as [|y c]; [done|]. cbn [app].
  simpl. unfold feed. simpl. unfold _handle_newline_byte. simpl.
  rewrite decide_False by done. simpl. unfold _process_header. simpl.
  rewrite Hkv, Hk. unfold update_length. simpl.
  destruct (is_content_length k); [destruct (int_of_str v)|]; simpl;
    apply quiet.
Qed.

Lemma parse_blank_line c t prev h cl rest :
  command_type c = Some t → prev ≠ Some CARRIAGE →
  parse_frames_from_chunk (mkFrameParser [] prev false (Some c) h cl) (NEWLINE :: rest) =
  parse_frames_from_chunk (mkFrameParser [] (Some NEWLINE) true (Some c) h cl) rest.
Proof.
  intros Hc%command_type_nonempty Hprev. destruct c as [|y c]; [done|].
  simpl. unfold feed. simpl. unfold _handle_newline_byte. simpl.
  rewrite decide_False by done. simpl. unfold set_previous_byte. simpl.
  apply quiet.
Qed.

(** The line of one header, and of a list of them. *)
Definition escaped_header (kv : str * str) : bytes :=
  enc (kv.1 ≫= escape_char) ++ COLON_ :: enc (kv.2 ≫= escape_char).

Definition escaped_headers (items : list (str * str)) : bytes :=
  items ≫= λ kv, escaped_header kv ++ [NEWLINE].

Definition item_safe (kv : str * str) : Prop := text_safe TSend kv.1 ∧ text_safe TSend kv.2.

Lemma text_safe_strip s : text_safe TSend s → strip_cr s = s.
Proof.
  intros [_ Hs]. apply strip_cr_id. intros Hin.
  rewrite Forall_forall in Hs. specialize (Hs _ Hin). set_solver.
Qed.

Lemma text_safe_no_ascii s b :
  text_safe TSend s → b ∈ [NULL; NEWLINE; CARRIAGE] → b ∉ enc (s ≫= escape_char).
Proof.
  intros [Hsc Hs] Hb. apply escaped_no_ascii; [done|set_solver|].
  assert (0%N ∉ s) as H0.
  { intros Hin. rewrite Forall_forall in Hs. specialize (Hs _ Hin). set_solver. }
  rewrite !elem_of_cons in Hb.
  destruct Hb as [->|[->|[->|Hb]]]; [right|left; simpl; set_solver..|set_solver].
  split; [done|simpl; set_solver].
Qed.

Lemma escaped_header_no_ascii kv b :
  item_safe kv → b ∈ [NULL; NEWLINE; CARRIAGE] → b ∉ escaped_header kv.
Proof.
  intros [Hk Hv] Hb. unfold escaped_header.
  pose proof (text_safe_no_ascii _ b Hk Hb). pose proof (text_safe_no_ascii _ b Hv Hb).
  rewrite not_elem_of_app, not_elem_of_cons. split_and!; [done| |done].
  intros ->. set_solver.
Qed.

Lemma parse_escaped_headers c t items prev h cl rest :
  command_type c = Some t → Forall item_safe items → NoDup items.*1 →
  (∀ k, k ∈ items.*1 → h !! k = None) → prev ≠ Some CARRIAGE →
  parse_frames_from_chunk (mkFrameParser [] prev false (Some c) h cl)
    (escaped_headers items ++ NEWLINE :: rest) =
  parse_frames_from_chunk
    (mkFrameParser [] (Some NEWLINE) true (Some c) (h ∪ list_to_map items)
       (foldl update_length cl items)) rest.
Proof.
  intros Hc Hsafe. revert prev h cl.
  induction Hsafe as [|[k v] items Hkv _ IH]; intros prev h cl Hdup Hh Hprev.
  { simpl. rewrite (right_id ∅ (∪)). by eapply parse_blank_line. }
  apply NoDup_cons in Hdup as [Hk Hdup]. change (escaped_headers (?x :: ?l)) with
    ((escaped_header x ++ [NEWLINE]) ++ escaped_headers l).
  rewrite <-!app_assoc. simpl.
  rewrite (parse_header_line c t) with (k := k) (v := v); try done.
  - rewrite IH; [|done| |done].
    + simpl. by rewrite <-insert_union_l, insert_union_r by (apply Hh; set_solver).
    + intros k' Hk'. rewrite lookup_insert_ne by set_solver. apply Hh. set_solver.
  - unfold escaped_header. by destruct (enc _).
  - apply escaped_header_no_ascii; [done|set_solver].
  - apply escaped_header_no_ascii; [done|set_solver].
  - apply escaped_header_no_ascii; [done|set_solver].
  - unfold escaped_header. destruct Hkv as [Hk1 Hv1]. simpl.
    rewrite parse_header_escaped by (apply Hk1 || apply Hv1).
    by rewrite !text_safe_strip.
  - apply Hh. set_solver.
Qed.

(** ** The body and the end of the frame *)

Definition idle (prev : option byte) : FrameParser := mkFrameParser [] prev false None ∅ None.

Definition yield (f : frame headers) (r : result (list (frame headers) * FrameParser))
  : result (list (frame headers) * FrameParser) :=
  '(fs, p) ← r; mret (f :: fs, p).

Lemma yield_eq f r :
  ('(fs, p) ← r; mret ([f] ++ fs, p)) = yield f r.
Proof. by destruct r as [[fs p]|e]. Qed.

Lemma parse_body c t buf prev h cl l rest :
  command_type c = Some t → body_fits (cl) (buf ++ l) →
  parse_frames_from_chunk (mkFrameParser buf prev true (Some c) h cl) (l ++ NULL :: rest) =
  yield (construct t h (buf ++ l)) (parse_frames_from_chunk (idle (Some NULL)) rest).
Proof.
  intros Hc. apply command_type_nonempty in Hc as Hne.
  destruct c as [|x c]; [done|].
  revert buf prev. induction l as [|b l IH]; intros buf prev Hfit.
  - rewrite app_nil_r in *.
    assert (body_incomplete (mkFrameParser buf prev true (Some (x :: c)) h cl) = false)
      as Hinc.
    { unfold body_incomplete. destruct cl as [n|]; [|done]. simpl in *. subst.
      by rewrite Z.eqb_refl. }
    simpl. unfold feed, _handle_null_byte. rewrite decide_True by done.
    cbn [_command _headers_processed _headers _current_buf]. rewrite Hinc.
    unfold make_frame_from_parts. rewrite Hc. simpl.
    by destruct (parse_frames_from_chunk _ rest) as [[fs q]|e].
  - assert (parse_frames_from_chunk (mkFrameParser buf prev true (Some (x :: c)) h cl)
              ((b :: l) ++ NULL :: rest) =
            parse_frames_from_chunk
              (mkFrameParser (buf ++ [b]) (Some b) true (Some (x :: c)) h cl)
              (l ++ NULL :: rest)) as ->.
    { assert (∀ n, cl = Some n → (n =? Z.of_nat (length buf))%Z = false) as Hn.
      { intros n ->. simpl in Hfit. rewrite Hfit, length_app. simpl.
        apply Z.eqb_neq. lia. }
      simpl. unfold feed. case_decide as Hb.
      - subst b. destruct cl as [n|]; [|simpl in Hfit; set_solver].
        unfold _handle_null_byte, body_incomplete.
        cbn [_command _headers_processed _content_length _current_buf].
        rewrite Hn by done. simpl. unfold set_previous_byte. simpl.
        apply quiet.
      - unfold _handle_body_byte.
        cbn [_command _headers_processed _content_length _current_buf].
        destruct cl as [n|]; [rewrite Hn by done|]; simpl; unfold set_previous_byte;
          simpl; apply quiet. }
    rewrite IH; rewrite <-app_assoc; done.
Qed.

(** ** One frame *)

Lemma unsafe_chars_TSend t : [0; 13]%N ⊆ unsafe_chars t.
Proof. unfold unsafe_chars. case_decide; set_solver. Qed.

Lemma text_safe_weaken t s : text_safe t s → text_safe TSend s.
Proof.
  intros [Hsc Hs]. split; [done|]. eapply Forall_impl; [done|].
  intros c Hc Hin. apply Hc, (unsafe_chars_TSend t). done.
Qed.

Lemma escape_connect s : text_safe TConnect s → (s ≫= escape_char) = s.
Proof.
  intros [_ Hs]. induction Hs as [|c s Hc _ IH]; [done|].
  rewrite bind_cons, IH.
  destruct (escape_char_cases c) as [[-> _]|[[-> _]|[[-> _]|[[-> _]|[_ ->]]]]];
    [set_solver..|done].
Qed.

Lemma dump_header_safe kv :
  item_safe kv → dump_header kv.1 kv.2 = Ok (escaped_header kv ++ [NEWLINE]).
Proof.
  intros [[Hk _] [Hv _]]. rewrite dump_header_eq, Hk, Hv. simpl.
  unfold escaped_header. by rewrite <-app_assoc.
Qed.

Lemma dump_line_safe t kv :
  text_safe t kv.1 → text_safe t kv.2 →
  (if decide (t = TConnect) then encode_or_raise (header_line kv.1 kv.2)
   else dump_header kv.1 kv.2) = Ok (escaped_header kv ++ [NEWLINE]).
Proof.
  intros Hk Hv. rewrite <-dump_header_safe
    by (split; by eapply text_safe_weaken).
  case_decide; [|done]. subst t. unfold dump_header. by rewrite !escape_connect.
Qed.

Lemma mapM_lines t items :
  Forall (λ kv, text_safe t kv.1 ∧ text_safe t kv.2) items →
  ∃ lines,
    mapM (λ kv, if decide (t = TConnect)
                then encode_or_raise (header_line kv.1 kv.2)
                else dump_header kv.1 kv.2) items = Ok lines ∧
    concat lines = escaped_headers items.
Proof.
  induction 1 as [|kv items [Hk Hv] _ (lines & Hm & Hl)]; simpl; [by eexists|].
  rewrite dump_line_safe, Hm by done. simpl. eexists. split; [done|].
  simpl. by rewrite Hl.
Qed.

Lemma sorted_items_perm h : sorted_items h ≡ₚ map_to_list h.
Proof. apply merge_sort_Permutation. Qed.

Lemma sorted_items_keys h : NoDup (sorted_items h).*1.
Proof. rewrite sorted_items_perm. apply NoDup_fst_map_to_list. Qed.

Lemma sorted_items_map h : list_to_map (sorted_items h) = h.
Proof.
  rewrite <-(list_to_map_to_list h) at 2.
  apply list_to_map_proper; [apply sorted_items_keys|apply sorted_items_perm].
Qed.

Lemma Forall_sorted_items (P : str → str → Prop) h :
  map_Forall P h → Forall (λ kv, P kv.1 kv.2) (sorted_items h).
Proof.
  intros HP. rewrite sorted_items_perm. apply Forall_forall. intros [k v] Hin.
  apply elem_of_map_to_list in Hin. by apply HP.
Qed.

Lemma frame_command t : ∃ c, dict_get FRAMES_TO_COMMANDS t = Some c ∧ command_type c = Some t.
Proof. destruct t; by eexists. Qed.

Lemma body_of_type {H} (f : frame H) t h b :
  parts f = Some (t, h, b) → (if FRAMES_WITH_BODY t then b else []) = b.
Proof. by destruct f; intros [= <- <- <-]. Qed.

(** [dump_frame] of a frame that is safe on the wire does not raise. *)
Lemma dump_frame_safe f t h b :
  parts f = Some (t, h, b) → wire_safe f →
  ∃ c, command_type c = Some t ∧
    dump_frame f =
    Ok (c ++ NEWLINE :: escaped_headers (sorted_items h) ++ NEWLINE :: b ++ [NULL]).
Proof.
  intros Hf Hsafe. unfold wire_safe in Hsafe. rewrite Hf in Hsafe.
  destruct Hsafe as [Hh _]. unfold dump_frame. rewrite Hf.
  destruct (frame_command t) as (c & Hc & Ht). exists c. split; [done|].
  rewrite Hc. simpl.
  destruct (mapM_lines t (sorted_items h)) as (lines & -> & <-);
    [by apply Forall_sorted_items in Hh|].
  simpl. by rewrite (body_of_type f t h b Hf).
Qed.

(** The parser yields the frame that was written and is idle again. *)
Lemma parse_wire f raw prev rest :
  wire_safe f → wire f = Ok raw →
  ∃ prev', parse_frames_from_chunk (idle prev) (raw ++ rest) =
           yield f (parse_frames_from_chunk (idle prev') rest).
Proof.
  intros Hsafe Hraw. destruct (parts f) as [[[t h] b]|] eqn:Hf.
  2: { destruct f; try done. injection Hraw as <-. exists (Some NEWLINE). simpl.
       by destruct (parse_frames_from_chunk _ rest) as [[fs q]|e]. }
  assert (wire f = dump_frame f) as Hw by (by destruct f).
  destruct (dump_frame_safe f t h b Hf Hsafe) as (c & Hc & Hdump).
  rewrite Hw, Hdump in Hraw. injection Hraw as <-.
  unfold wire_safe in Hsafe. rewrite Hf in Hsafe. destruct Hsafe as [Hh Hb].
  exists (Some NULL). rewrite <-app_assoc. cbn [app].
  unfold idle at 1. rewrite (parse_command_line c t) by done.
  rewrite <-app_assoc. cbn [app].
  rewrite (parse_escaped_headers c t); [|done| |apply sorted_items_keys| |done].
  - rewrite (left_id_L ∅ (∪)), sorted_items_map, <-app_assoc. cbn [app].
    rewrite (parse_body c t) by done. simpl. by rewrite (construct_parts f t h b Hf).
  - eapply Forall_impl; [by apply Forall_sorted_items in Hh|].
    intros kv [? ?]. split; by eapply text_safe_weaken.
  - intros k _. apply lookup_empty.
Qed.

(** ** Streams of frames *)

Lemma wire_total f : wire_safe f → ∃ raw, wire f = Ok raw.
Proof.
  intros Hsafe. destruct (parts f) as [[[t h] b]|] eqn:Hf.
  - destruct (dump_frame_safe f t h b Hf Hsafe) as (c & _ & Hd).
    exists (c ++ NEWLINE :: escaped_headers (sorted_items h) ++ NEWLINE :: b ++ [NULL]).
    rewrite <-Hd. by destruct f.
  - destruct f; try done. by eexists.
Qed.

Lemma parse_stream fs prev :
  Forall wire_safe fs →
  ∃ raws prev', mapM wire fs = Ok raws ∧
    parse_frames_from_chunk (idle prev) (concat raws) = Ok (fs, idle prev').
Proof.
  intros Hfs. revert prev. induction Hfs as [|f fs Hf _ IH]; intros prev.
  { by eexists [], prev. }
  destruct (wire_total f Hf) as [raw Hraw].
  destruct (IH None) as (raws & _ & Hraws & _).
  destruct (parse_wire f raw prev (concat raws) Hf Hraw) as [prev1 Hp].
  destruct (IH prev1) as (raws' & prev' & Hraws' & Hp').
  rewrite Hraws in Hraws'. injection Hraws' as <-.
  exists (raw :: raws), prev'. simpl. rewrite Hraw, Hraws. simpl. split; [done|].
  rewrite Hp, Hp'. done.
Qed.

Lemma parse_chunks_concat p chunks :
  parse_chunks p chunks = parse_frames_from_chunk p (concat chunks).
Proof.
  revert p. induction chunks as [|c chunks IH]; intros p; simpl; [done|].
  rewrite parse_app. destruct (parse_frames_from_chunk p c) as [[fs q]|e]; simpl; [|done].
  by rewrite IH.
Qed.

(** ** Resynchronization *)

(** The parser is inside a body whose announced length is not reached. *)
Definition awaiting_body (p : FrameParser) : bool :=
  has_command p && _headers_processed p && body_incomplete p.

Lemma null_resets p :
  parser_ok p → awaiting_body p = false →
  ∃ fs, feed p NULL = Ok (fs, idle (Some NULL)).
Proof.
  intros [Hp _] Haw. unfold feed. rewrite decide_True by done.
  unfold _handle_null_byte. unfold awaiting_body, has_command in Haw.
  destruct (_command p) as [[|x c]|] eqn:Hc; [by eexists|simpl in Haw|by eexists].
  destruct (_headers_processed p); [|by eexists]. simpl in Haw. rewrite Haw.
  destruct (ok_command p Hp _ Hc) as [t Ht].
  unfold make_frame_from_parts. rewrite Ht. simpl. by eexists.
Qed.

(** Inside a body that is already longer than announced nothing is ever found. *)
Definition stuck (p : FrameParser) : Prop :=
  has_command p = true ∧ _headers_processed p = true ∧
  ∃ n, _content_length p = Some n ∧ (n < Z.of_nat (length (_current_buf p)))%Z.

Lemma stuck_forever p l :
  stuck p → ∃ p', parse_frames_from_chunk p l = Ok ([], p') ∧ stuck p'.
Proof.
  revert p. induction l as [|b l IH]; intros p Hp; [by exists p|].
  destruct (IH (set_previous_byte (set_buf p (_current_buf p ++ [b])) b)) as (p' & Hrun & Hp').
  { destruct Hp as (? & ? & n & ? & ?). split_and!; [done..|]. exists n. split; [done|].
    simpl. rewrite length_app. lia. }
  exists p'. split; [|done]. destruct Hp as (Hc & Hpr & n & Hn & Hlt).
  assert ((n =? Z.of_nat (length (_current_buf p)))%Z = false) as Hne
    by (apply Z.eqb_neq; lia).
  simpl. unfold feed, _handle_null_byte, body_incomplete, _handle_body_byte.
  unfold has_command in Hc. rewrite Hpr, Hn, Hne. simpl.
  destruct (_command p) as [[|x c]|]; [done| |done].
  case_decide; subst; simpl; by rewrite Hrun.
Qed.

Lemma parse_command_and_headers c t h rest :
  command_type c = Some t →
  map_Forall (λ k v, text_safe t k ∧ text_safe t v) h →
  parse_frames_from_chunk new_parser
    (c ++ NEWLINE :: escaped_headers (sorted_items h) ++ NEWLINE :: rest) =
  parse_frames_from_chunk
    (mkFrameParser [] (Some NEWLINE) true (Some c) h (declared_length (sorted_items h)))
    rest.
Proof.
  intros Hc Hh. unfold new_parser. rewrite (parse_command_line c t) by done.
  rewrite (parse_escaped_headers c t); [|done| |apply sorted_items_keys| |done].
  - by rewrite (left_id_L ∅ (∪)), sorted_items_map.
  - eapply Forall_impl; [by apply Forall_sorted_items in Hh|].
    intros kv [? ?]. split; by eapply text_safe_weaken.
  - intros k _. apply lookup_empty.
Qed.

(** ** Properties *)

(** C1: what [write_frame] and [write_heartbeat] put on the wire for a sequence of
    wire-safe frames is read back by a new parser as exactly that sequence,
    however the bytes are cut into chunks, and leaves the parser idle. *)
Theorem wire_roundtrip fs chunks :
  Forall wire_safe fs →
  ∃ raws prev, mapM wire fs = Ok raws ∧
    (concat chunks = concat raws → parse_chunks new_parser chunks = Ok (fs, idle prev)).
Proof.
  intros Hfs. destruct (parse_stream fs None Hfs) as (raws & prev & Hw & Hp).
  exists raws, prev. split; [done|]. intros Hc. by rewrite parse_chunks_concat, Hc.
Qed.

(** C6: feeding a byte stream chunk by chunk yields the frames, the final state
    and the exceptions of feeding it in one piece. *)
Theorem chunking_irrelevant p chunks :
  parse_chunks p chunks = parse_frames_from_chunk p (concat chunks).
Proof. apply parse_chunks_concat. Qed.

(** C29: after any input at all, a NULL that does not fall inside a body of
    announced length puts the parser back in step: the frames of a wire-safe
    stream that follows are all found. *)
Theorem resynchronizes garbage fs0 p fs :
  parse_frames_from_chunk new_parser garbage = Ok (fs0, p) →
  awaiting_body p = false → Forall wire_safe fs →
  ∃ raws fs1, mapM wire fs = Ok raws ∧
    load_frames (garbage ++ NULL :: concat raws) = Ok (fs0 ++ fs1 ++ fs).
Proof.
  intros Hg Haw Hfs.
  destruct (parse_ok new_parser garbage new_parser_ok) as (fs0' & p' & Hg' & Hok & _).
  rewrite Hg in Hg'. injection Hg' as <- <-.
  destruct (null_resets p Hok Haw) as [fs1 Hnull].
  destruct (parse_stream fs (Some NULL) Hfs) as (raws & prev & Hw & Hp).
  exists raws, fs1. split; [done|]. unfold load_frames. rewrite parse_app, Hg. simpl.
  rewrite Hnull. simpl. by rewrite Hp.
Qed.

(** C39: a frame whose last numeric content-length header is negative blocks the
    parser for good: no frame is found in whatever follows its headers. *)
Theorem negative_content_length_blocks c t h n rest :
  command_type c = Some t →
  map_Forall (λ k v, text_safe t k ∧ text_safe t v) h →
  declared_length (sorted_items h) = Some n → (n < 0)%Z →
  load_frames (c ++ NEWLINE :: escaped_headers (sorted_items h) ++ NEWLINE :: rest) = Ok [].
Proof.
  intros Hc Hh Hn Hneg. unfold load_frames.
  rewrite (parse_command_and_headers c t), Hn by done.
  edestruct (stuck_forever (mkFrameParser [] (Some NEWLINE) true (Some c) h (Some n)) rest)
    as (p' & -> & _); [|done].
  split_and!; [|done|by exists n].
  apply command_type_nonempty in Hc. by destruct c.
Qed.

(** The headers of a CONNECT frame are written as they are, with no escape, so a
    line feed in a value starts another header line. *)
Theorem connect_headers_verbatim h :
  map_Forall (λ k v, forallb is_scalar k = true ∧ forallb is_scalar v = true) h →
  dump_frame (ConnectFrame h) =
  Ok (bs "CONNECT" ++ NEWLINE
        :: (sorted_items h ≫= λ kv, enc kv.1 ++ COLON_ :: enc kv.2 ++ [NEWLINE])
        ++ [NEWLINE; NULL]).
Proof.
  intros Hh. apply Forall_sorted_items in Hh. unfold dump_frame.
  change (dict_get FRAMES_TO_COMMANDS TConnect) with (Some (bs "CONNECT")).
  cbn [parts of_option].
  assert (∃ lines,
    mapM (λ kv, if decide (TConnect = TConnect)
                then encode_or_raise (header_line kv.1 kv.2)
                else dump_header kv.1 kv.2) (sorted_items h) = Ok lines ∧
    concat lines = sorted_items h ≫= λ kv, enc kv.1 ++ COLON_ :: enc kv.2 ++ [NEWLINE])
    as (lines & Hm & Hl).
  { induction Hh as [|kv items [Hk Hv] _ (lines & Hm & Hl)]; [by eexists|].
    exists ((enc kv.1 ++ COLON_ :: enc kv.2 ++ [NEWLINE]) :: lines). simpl in *.
    rewrite Hm. unfold encode_or_raise, encode, header_line.
    rewrite !forallb_app, Hk, Hv. simpl. rewrite Hl. split; [|done].
    change (?s ≫= encode_char) with (enc s). rewrite !enc_app. simpl.
    by rewrite enc_app. }
  simpl in *. rewrite Hm. simpl. by rewrite Hl.
Qed.

(** The parser unescapes the headers of CONNECTED like those of every other
    frame. *)
Theorem connected_headers_unescaped h :
  map_Forall (λ k v, text_safe TConnected k ∧ text_safe TConnected v) h →
  body_fits (declared_length (sorted_items h)) [] →
  load_frames (bs "CONNECTED" ++ NEWLINE :: escaped_headers (sorted_items h)
                 ++ [NEWLINE; NULL]) = Ok [ConnectedFrame h].
Proof.
  intros Hh Hb. unfold load_frames.
  rewrite (parse_command_and_headers (bs "CONNECTED") TConnected) by done.
  by rewrite (parse_body (bs "CONNECTED") TConnected [] _ _ _ [] []).
Qed.

(** ** Witnesses *)

(** A message with an escaped header and a NULL in its body, a heartbeat, and a
    receipt. *)
Definition sample_message : frame headers :=
  MessageFrame
    (<[us "destination" := us "a:b\c"]> (<[us "content-length" := us "3"]> ∅))
    [x68; NULL; x69].

Definition sample_stream : list (frame headers) :=
  [sample_message; HeartbeatFrame; ReceiptFrame {[us "receipt-id" := us "7"]}].

Lemma sample_stream_safe : Forall wire_safe sample_stream.
Proof. apply (bool_decide_unpack _). vm_compute. exact I. Defined.

Lemma wire_roundtrip_witness :
  ∃ raws prev, mapM wire sample_stream = Ok raws ∧
    (concat ((λ b, [b]) <$> concat raws) = concat raws →
     parse_chunks new_parser ((λ b, [b]) <$> concat raws) = Ok (sample_stream, idle prev)).
Proof.
  destruct (mapM wire sample_stream) as [raws|e] eqn:E; [|by vm_compute in E].
  destruct (wire_roundtrip sample_stream ((λ b, [b]) <$> concat raws) sample_stream_safe)
    as (raws' & prev & Hw & Hp).
  rewrite E in Hw. injection Hw as <-. exists raws, prev. split; [reflexivity|exact Hp].
Defined.

Lemma resynchronizes_witness :
  ∃ raws fs1, mapM wire sample_stream = Ok raws ∧
    load_frames (bs "garbage" ++ NULL :: concat raws) = Ok ([] ++ fs1 ++ sample_stream).
Proof.
  eapply (resynchronizes (bs "garbage") [] _ sample_stream).
  - vm_compute. reflexivity.
  - vm_compute. reflexivity.
  - exact sample_stream_safe.
Defined.

Lemma negative_content_length_blocks_witness :
  load_frames (bs "MESSAGE" ++ NEWLINE
    :: escaped_headers (sorted_items {[us "content-length" := us "-1"]}) ++ NEWLINE
    :: (bs "body" ++ [NULL])) = Ok [].
Proof.
  apply (negative_content_length_blocks (bs "MESSAGE") TMessage _ (-1) (bs "body" ++ [NULL])).
  - reflexivity.
  - apply (bool_decide_unpack _). vm_compute. exact I.
  - vm_compute. reflexivity.
  - lia.
Defined.

Lemma connect_headers_verbatim_witness :
  dump_frame (ConnectFrame {[us "passcode" := us "a:b" ++ [10%N] ++ us "host:evil"]}) =
  Ok (bs "CONNECT" ++ NEWLINE
        :: (sorted_items {[us "passcode" := us "a:b" ++ [10%N] ++ us "host:evil"]}
              ≫= λ kv, enc kv.1 ++ COLON_ :: enc kv.2 ++ [NEWLINE])
        ++ [NEWLINE; NULL]).
Proof.
  apply (connect_headers_verbatim {[us "passcode" := us "a:b" ++ [10%N] ++ us "host:evil"]}).
  apply (bool_decide_unpack _). vm_compute. exact I.
Defined.

Lemma connected_headers_unescaped_witness :
  load_frames (bs "CONNECTED" ++ NEWLINE
                 :: escaped_headers (sorted_items {[us "server" := us "a:b"]})
                 ++ [NEWLINE; NULL]) = Ok [ConnectedFrame {[us "server" := us "a:b"]}].
Proof.
  apply (connected_headers_unescaped {[us "server" := us "a:b"]}).
  - apply (bool_decide_unpack _). vm_compute. exact I.
  - apply (bool_decide_unpack _). vm_compute. exact I.
Defined.
