(* ===== verification/Config.v ===== *)
(** * Configuration (stompman/config.py)

    Heart-beat settings and their header, connection parameters, and the URL
    unquoting of the pass code. *)

From S2P Require Import Prelude Utf8 PyInt.

(** ** Heart-beats *)

Record Heartbeat := mkHeartbeat {
  will_send_interval_ms : Z;
  want_to_receive_interval_ms : Z;
}.

#[export] Instance Heartbeat_eq_dec : EqDecision Heartbeat.
Proof. solve_decision. Defined.

Definition int_text (z : Z) : result str :=
  of_option (ValueError "Exceeds the limit for integer string conversion") (str_of_int z).

Definition to_header (h : Heartbeat) : result str :=
  a ← int_text (will_send_interval_ms h);
  b ← int_text (want_to_receive_interval_ms h);
  mret (a ++ us "," ++ b).

(** [l.split(sep, maxsplit=1)], when the separator occurs. *)
Fixpoint split_once (sep : N) (l : str) : option (str * str) :=
  match l with
  | [] => None
  | c :: l' =>
    if decide (c = sep) then Some ([], l')
    else '(a, b) ← split_once sep l'; Some (c :: a, b)
  end.

Definition parse_int (s : str) : result Z :=
  of_option (ValueError "invalid literal for int()") (int_of_str s).

Definition from_header (header : str) : result Heartbeat :=
  '(first, second) ← of_option (ValueError "not enough values to unpack")
                       (split_once 44 header);
  a ← parse_int first;
  b ← parse_int second;
  mret (mkHeartbeat a b).

(** ** urllib.parse.unquote *)

Definition hex_value (c : N) : option N :=
  if (48 <=? c)%N && (c <=? 57)%N then Some (c - 48)%N
  else if (65 <=? c)%N && (c <=? 70)%N then Some (c - 55)%N
  else if (97 <=? c)%N && (c <=? 102)%N then Some (c - 87)%N
  else None.

(** [unquote_to_bytes] of an ASCII text: a percent sign that two hexadecimal digits
    do not follow stands for itself. *)
Fixpoint unquote_to_bytes (s : str) : bytes :=
  match s with
  | [] => []
  | c :: s1 =>
    if decide (c = 37%N) then
      match s1 with
      | x :: y :: s2 =>
        match hex_value x, hex_value y with
        | Some hx, Some hy => byte_of_N (16 * hx + hy) :: unquote_to_bytes s2
        | _, _ => byte_of_N c :: unquote_to_bytes s1
        end
      | _ => byte_of_N c :: unquote_to_bytes s1
      end
    else byte_of_N c :: unquote_to_bytes s1
  end.

(** Each maximal run of ASCII characters is unquoted and decoded by itself. *)
Fixpoint unquote_runs (run s : str) : str :=
  match s with
  | [] => decode_replace (unquote_to_bytes run)
  | c :: s' =>
    if (c <? 128)%N then unquote_runs (run ++ [c]) s'
    else decode_replace (unquote_to_bytes run) ++ c :: unquote_runs [] s'
  end.

Definition unquote (s : str) : str :=
  if decide (37%N ∈ s) then unquote_runs [] s else s.

(** ** Connection parameters *)

Record ConnectionParameters := mkConnectionParameters {
  host : str;
  port : Z;
  login : str;
  passcode : str;
  ws_uri_path : option str;
  connect_headers : headers;
}.

#[export] Instance ConnectionParameters_eq_dec : EqDecision ConnectionParameters.
Proof. solve_decision. Defined.

Definition unescaped_passcode (p : ConnectionParameters) : str := unquote (passcode p).

Record MultiHostHostLike := mkMultiHostHostLike {
  mh_username : option str;
  mh_password : option str;
  mh_host : option str;
  mh_port : option Z;
}.

(** [cls(host=..., port=..., login=..., passcode=...)] *)
Definition make_parameters (hp : str * Z) (up : str * str) : ConnectionParameters :=
  mkConnectionParameters hp.1 hp.2 up.1 up.2 None ∅.

(** The body of the loop over the hosts: the address, and the credentials if any. *)
Definition scan_host (h : MultiHostHostLike) : result ((str * Z) * option (str * str)) :=
  match mh_host h with
  | None => Err (ValueError "host must be set")
  | Some hh =>
    match mh_port h with
    | None => Err (ValueError "port must be set")
    | Some hp =>
      match mh_username h, mh_password h with
      | None, Some _ => Err (ValueError "password is set, username must be set")
      | None, None => mret ((hh, hp), None)
      | Some _, None => Err (ValueError "username is set, password must be set")
      | Some u, Some p => mret ((hh, hp), Some (u, p))
      end
    end
  end.

Definition from_pydantic_multihost_hosts (hosts : list MultiHostHostLike)
  : result (list ConnectionParameters) :=
  scanned ← mapM scan_host hosts;
  let all_hosts := scanned.*1 in
  let all_credentials := omap snd scanned in
  if decide (length all_credentials = length all_hosts) then
    mret (zip_with make_parameters all_hosts all_credentials)
  else match all_credentials with
       | [up] => mret ((λ hp, make_parameters hp up) <$> all_hosts)
       | [] => Err (ValueError "username and password must be set")
       | _ => Err (ValueError "all username-password pairs or only one pair must be set")
       end.

(** ** Lemmas *)

Lemma split_once_app sep k l : sep ∉ k → split_once sep (k ++ sep :: l) = Some (k, l).
Proof.
  induction k as [|c k IH]; intros Hk; simpl; [by rewrite decide_True|].
  apply not_elem_of_cons in Hk as [Hc Hk]. by rewrite decide_False, IH by done.
Qed.

Lemma str_of_int_no_comma z s : str_of_int z = Some s → 44%N ∉ s.
Proof.
  unfold str_of_int. case_decide; [|done]. intros [= <-].
  pose proof (digits_of_N_digits (Z.abs_N z)) as Hds. rewrite Forall_forall in Hds.
  assert (44%N ∉ digits_of_N (Z.abs_N z)) as Hno
    by (intros Hin; by specialize (Hds _ Hin)).
  case_match; [|done]. change (us "-") with [45%N]. set_solver.
Qed.

Lemma int_text_Ok z s : int_text z = Ok s → str_of_int z = Some s.
Proof. apply of_option_Ok. Qed.

Lemma decode_replace_enc s : forallb is_scalar s = true → decode_replace (enc s) = s.
Proof.
  intros Hs. unfold decode_replace, enc.
  pose proof (tokens_encode s [] Hs) as H. rewrite app_nil_r in H. rewrite H. simpl.
  rewrite app_nil_r, <-list_fmap_compose. apply list_fmap_id.
Qed.

(** [urllib.parse.quote] with a set of characters to leave alone: the others are
    written as the percent-encoded bytes of their UTF-8 form. *)
Definition hex_digit (n : N) : N := if (n <? 10)%N then (48 + n)%N else (55 + n)%N.

Definition percent (b : byte) : str :=
  let n := Byte.to_N b in [37%N; hex_digit (n / 16); hex_digit (n mod 16)].

Definition quote (safe : N → bool) (s : str) : str :=
  s ≫= λ c, if safe c then [c] else encode_char c ≫= percent.

Section quote.
Local Ltac Zify.zify_post_hook ::= Z.to_euclidean_division_equations.

Lemma hex_value_digit n : (n < 16)%N → hex_value (hex_digit n) = Some n.
Proof.
  intros Hn. unfold hex_value, hex_digit.
  destruct (N.ltb_spec n 10);
    repeat match goal with |- context [N.leb ?a ?b] => destruct (N.leb_spec a b) end;
    simpl; (f_equal; lia) || lia.
Qed.

Lemma hex_digit_ascii n : (n < 16)%N → (hex_digit n < 128)%N.
Proof. intros. unfold hex_digit. case_match; lia. Qed.

Lemma byte_nibbles b :
  (Byte.to_N b / 16 < 16)%N ∧ (Byte.to_N b mod 16 < 16)%N
  ∧ byte_of_N (16 * (Byte.to_N b / 16) + Byte.to_N b mod 16) = b.
Proof.
  pose proof (byte_to_N_lt b). split; [lia|split; [lia|]].
  rewrite <-N.div_mod by done. apply byte_of_N_to_N.
Qed.
End quote.

Lemma unquote_percent b s : unquote_to_bytes (percent b ++ s) = b :: unquote_to_bytes s.
Proof.
  destruct (byte_nibbles b) as (Hhi & Hlo & Hb). simpl.
  by rewrite !hex_value_digit, Hb by done.
Qed.

Lemma percent_ascii b : Forall (λ c, (c < 128)%N) (percent b).
Proof.
  destruct (byte_nibbles b) as (Hhi & Hlo & _).
  repeat constructor; by apply hex_digit_ascii.
Qed.

Lemma unquote_runs_ascii run s :
  Forall (λ c, (c < 128)%N) s →
  unquote_runs run s = decode_replace (unquote_to_bytes (run ++ s)).
Proof.
  intros Hs. revert run. induction Hs as [|c s Hc _ IH]; intros run; simpl.
  - by rewrite app_nil_r.
  - rewrite (proj2 (N.ltb_lt _ _) Hc), IH. by rewrite <-(assoc_L (++)).
Qed.

Lemma encode_char_cons c : ∃ b l, encode_char c = b :: l.
Proof. unfold encode_char. repeat case_match; eauto. Qed.

Section quote_unquote.
Context (safe : N → bool).
Hypothesis safe_plain : ∀ c, safe c = true → (c < 128)%N ∧ c ≠ 37%N.

Lemma quote_ascii s : Forall (λ c, (c < 128)%N) (quote safe s).
Proof.
  unfold quote. induction s as [|c s IH]; [constructor|]. csimpl.
  apply Forall_app. split; [|done]. destruct (safe c) eqn:Hc.
  - constructor; [by apply safe_plain|constructor].
  - induction (encode_char c) as [|b l IHl]; [constructor|].
    rewrite bind_cons. apply Forall_app. split; [apply percent_ascii|done].
Qed.

Lemma unquote_quoted_bytes s : unquote_to_bytes (quote safe s) = enc s.
Proof.
  unfold quote, enc. induction s as [|c s IH]; [done|]. csimpl.
  destruct (safe c) eqn:Hc.
  - apply safe_plain in Hc as [Hc Hp]. simpl. rewrite decide_False by done.
    by rewrite IH, encode_char_ascii.
  - induction (encode_char c) as [|b l IHl]; [done|].
    rewrite bind_cons, <-(assoc_L (++)), unquote_percent. simpl. by f_equal.
Qed.

Lemma quote_no_percent s : 37%N ∉ quote safe s → quote safe s = s.
Proof.
  unfold quote. induction s as [|c s IH]; [done|]. csimpl.
  intros [Hc Hs]%not_elem_of_app. rewrite (IH Hs). destruct (safe c); [done|].
  exfalso. apply Hc. apply list_elem_of_bind.
  destruct (encode_char_cons c) as (b & l & ->). exists b. split; [|left].
  unfold percent. left.
Qed.
End quote_unquote.

(** ** Properties *)

(** A heart-beat header that the client writes is read back as the same two
    intervals, whatever the integers are (negative ones included). *)
Theorem heartbeat_roundtrip (h : Heartbeat) (s : str) :
  to_header h = Ok s → from_header s = Ok h.
Proof.
  intros (a & Ha%int_text_Ok & (b & Hb%int_text_Ok & [= <-])%result_bind_Ok)%result_bind_Ok.
  unfold from_header. change (us ",") with [44%N]. simpl app.
  rewrite split_once_app by (by eapply str_of_int_no_comma). simpl.
  unfold parse_int. rewrite (int_of_str_of_int _ _ Ha), (int_of_str_of_int _ _ Hb).
  by destruct h.
Qed.

Lemma heartbeat_roundtrip_witness :
  to_header (mkHeartbeat 1000 (-7)) = Ok (us "1000,-7") ∧
  from_header (us "1000,-7") = Ok (mkHeartbeat 1000 (-7)).
Proof.
  assert (to_header (mkHeartbeat 1000 (-7)) = Ok (us "1000,-7")) as H by reflexivity.
  split; [exact H|exact (heartbeat_roundtrip _ _ H)].
Defined.

(** Unquoting the pass code undoes percent-encoding, for every text and every
    choice of the ASCII characters the encoder leaves as they are. *)
Theorem unescaped_passcode_unquotes (safe : N → bool) (p : ConnectionParameters) (s : str) :
  (∀ c, safe c = true → (c < 128)%N ∧ c ≠ 37%N) →
  forallb is_scalar s = true →
  passcode p = quote safe s →
  unescaped_passcode p = s.
Proof.
  intros Hsafe Hs Hp. unfold unescaped_passcode, unquote. rewrite Hp. case_decide as Hin.
  - rewrite unquote_runs_ascii by (by apply quote_ascii).
    simpl. rewrite unquote_quoted_bytes by done. by apply decode_replace_enc.
  - by apply quote_no_percent.
Qed.

Lemma unescaped_passcode_unquotes_witness :
  let safe c := (97 <=? c)%N && (c <=? 122)%N in
  let p := mkConnectionParameters (us "h") 61613 (us "u") (us "a%2Fb%C3%A9") None ∅ in
  unescaped_passcode p = us "a/b" ++ [233%N].
Proof.
  intros safe p. apply (unescaped_passcode_unquotes safe); [|reflexivity|reflexivity].
  unfold safe. intros c [H1%N.leb_le H2%N.leb_le]%andb_true_iff. split; lia.
Defined.

(** What [from_pydantic_multihost_hosts] reads of one host. *)
Definition host_entry (h : MultiHostHostLike) (e : (str * Z) * option (str * str)) : Prop :=
  mh_host h = Some e.1.1 ∧ mh_port h = Some e.1.2 ∧
  mh_username h = fst <$> e.2 ∧ mh_password h = snd <$> e.2.

Lemma scan_host_Ok h e : scan_host h = Ok e ↔ host_entry h e.
Proof.
  unfold scan_host, host_entry. destruct h as [u p hh hp]; simpl.
  destruct e as [[eh ep] [[eu epw]|]], hh, hp, u, p; csimpl;
    (split; [intros [=]|intros (?&?&?&?)]; simplify_eq/=; done).
Qed.

Lemma mapM_scan_host_Ok hosts es :
  mapM scan_host hosts = Ok es ↔ Forall2 host_entry hosts es.
Proof.
  revert es. induction hosts as [|h hosts IH]; intros es; simpl.
  - split; [by intros [= <-]|by inversion 1].
  - rewrite result_bind_Ok. split.
    + intros (e & He%scan_host_Ok & (es' & Hes%IH & [= <-])%result_bind_Ok).
      by constructor.
    + inversion 1 as [|? e ? es' He Hes]; simplify_eq.
      exists e. rewrite scan_host_Ok. split; [done|].
      apply result_bind_Ok. exists es'. by rewrite IH.
Qed.

Lemma scan_host_error h e : scan_host h = Err e → ∃ msg, e = ValueError msg.
Proof. unfold scan_host. repeat case_match; naive_solver. Qed.

Lemma omap_snd_all {A B} (l : list (A * option B)) :
  (length (omap snd l) ≤ length l)%nat ∧
  (length (omap snd l) = length l → l.*2 = Some <$> omap snd l).
Proof.
  induction l as [|[a [b|]] l [IH1 IH2]]; csimpl; [done|split; [lia|]|split; [lia|lia]].
  intros [= H]. f_equal. by apply IH2.
Qed.

Lemma omap_snd_Some {A B} (l : list (A * option B)) bs :
  l.*2 = Some <$> bs → omap snd l = bs.
Proof.
  revert bs. induction l as [|[a o] l IH]; intros [|b bs]; csimpl; try done.
  intros [= -> H]. f_equal. by apply IH.
Qed.

(** C40: [from_pydantic_multihost_hosts] returns parameters exactly when every host has
    a name, a port and either both credentials or none, and either all hosts have
    their own credentials, which are kept with them, or exactly one of them has and
    its credentials go to every host. *)
Theorem multihost_hosts_spec hosts ps :
  from_pydantic_multihost_hosts hosts = Ok ps ↔
  ∃ es, Forall2 host_entry hosts es ∧
    ((∃ ups, es.*2 = Some <$> ups ∧ ps = zip_with make_parameters es.*1 ups) ∨
     (∃ up, omap snd es = [up] ∧ ps = (λ hp, make_parameters hp up) <$> es.*1)).
Proof.
  unfold from_pydantic_multihost_hosts. rewrite result_bind_Ok.
  apply exist_proper. intros es. rewrite mapM_scan_host_Ok. apply and_iff_compat_l.
  pose proof (omap_snd_all es) as [_ Hall]. case_decide as Hlen.
  - rewrite length_fmap in Hlen. specialize (Hall Hlen). split.
    + intros [= <-]. left. eauto.
    + intros [(ups & Hups & ->)|(up & Hup & ->)].
      * by rewrite (omap_snd_Some _ _ Hups).
      * rewrite Hup in Hlen |- *. by destruct es as [|e [|]].
  - split.
    + case_match eqn:Hc; [done|case_match; [|done]]. intros [= <-]. right. eauto.
    + intros [(ups & Hups & ->)|(up & -> & ->)]; [|done].
      destruct Hlen. rewrite (omap_snd_Some _ _ Hups), length_fmap.
      rewrite <-(length_fmap Some ups), <-Hups. by rewrite length_fmap.
Qed.

(** Whatever the hosts are, a failure of [from_pydantic_multihost_hosts] is a
    [ValueError]. *)
Theorem multihost_hosts_errors hosts e :
  from_pydantic_multihost_hosts hosts = Err e → ∃ msg, e = ValueError msg.
Proof.
  unfold from_pydantic_multihost_hosts.
  destruct (mapM scan_host hosts) as [es|e'] eqn:Hm; simpl.
  - case_decide; [done|]. repeat case_match; naive_solver.
  - intros [= <-]. revert e' Hm. induction hosts as [|h hosts IH]; [done|]. simpl.
    intros e'. destruct (scan_host h) eqn:Hh; simpl.
    + destruct (mapM scan_host hosts) as [|e2]; simpl; [done|]. intros [= <-]. by apply IH.
    + intros [= <-]. by eapply scan_host_error.
Qed.

Lemma multihost_hosts_errors_witness :
  from_pydantic_multihost_hosts [mkMultiHostHostLike None None (Some (us "h")) (Some 1%Z)] =
    Err (ValueError "username and password must be set") ∧
  ∃ msg, ValueError "username and password must be set" = ValueError msg.
Proof.
  assert (from_pydantic_multihost_hosts
            [mkMultiHostHostLike None None (Some (us "h")) (Some 1%Z)] =
          Err (ValueError "username and password must be set")) as H by reflexivity.
  split; [exact H|exact (multihost_hosts_errors _ _ H)].
Defined.
