(* ===== verification/Errors.v ===== *)
(** * Errors (stompman/errors.py)

    The exceptions the running client meets: the library's own error classes, the
    built-in ones its [except] clauses name, and whatever the user's callbacks raise. *)

From S2P Require Import Prelude Frames Config.

(** [ConnectionLostError.reason]: an exception or a text. *)
Inductive lost_reason :=
  | LostByException (name : string)
  | LostByMessage (msg : string).

Inductive connection_issue :=
  | ConnectionConfirmationTimeout (timeout : Z) (frames : list (frame headers))
  | UnsupportedProtocolVersion (given_version supported_version : str)
  | ConnectionLostOnLifespanEnter
  | AllServersUnavailable (servers : list ConnectionParameters) (timeout : Z).

Inductive exn :=
  | ConnectionLostError (reason : lost_reason)
  | FailedAllConnectAttemptsError (retry_attempts : Z) (issues : list connection_issue)
  | FailedAllWriteAttemptsError (retry_attempts : Z)
  | OSError
  | ConnectionError
  | TimeoutError
  | gaierror
  | RuntimeError
  | WebSocketException
  | CancelledError
  | DeadlineExpired
  | ExceptionGroup
  | PyError (e : py_exn)
  | UserException (cls : nat)
  | NotImplementedError
  | SystemExit.

#[export] Instance lost_reason_eq_dec : EqDecision lost_reason.
Proof. solve_decision. Defined.
#[export] Instance connection_issue_eq_dec : EqDecision connection_issue.
Proof. solve_decision. Defined.
#[export] Instance exn_eq_dec : EqDecision exn.
Proof. solve_decision. Defined.

(** What a completed call or await gives. *)
Inductive outcome (A : Type) :=
  | Done (a : A)
  | Raised (e : exn).
Arguments Done {A} _.
Arguments Raised {A} _.

Definition to_outcome {A} (r : result A) : outcome A :=
  match r with Ok a => Done a | Err e => Raised (PyError e) end.

(** ** The except clauses

    The built-in hierarchy has [ConnectionError], [TimeoutError] and [gaierror]
    below [OSError]; [CancelledError] and [SystemExit] are no [Exception]s.  [DeadlineExpired] is the
    cancellation that the timer of [asyncio.wait_for] throws into the coroutine, and
    that [wait_for] itself turns into a [TimeoutError]. *)

Definition is_os_error (e : exn) : bool :=
  match e with OSError | ConnectionError | TimeoutError | gaierror => true | _ => false end.

Definition is_connection_error (e : exn) : bool :=
  match e with ConnectionError => true | _ => false end.

Definition is_runtime_error (e : exn) : bool :=
  match e with RuntimeError => true | _ => false end.

Definition is_timeout (e : exn) : bool :=
  match e with TimeoutError => true | _ => false end.

Definition is_connection_lost (e : exn) : bool :=
  match e with ConnectionLostError _ => true | _ => false end.

Definition is_exception (e : exn) : bool :=
  match e with CancelledError | DeadlineExpired | SystemExit => false | _ => true end.

Definition exn_name (e : exn) : string :=
  match e with
  | ConnectionLostError _ => "ConnectionLostError"
  | FailedAllConnectAttemptsError _ _ => "FailedAllConnectAttemptsError"
  | FailedAllWriteAttemptsError _ => "FailedAllWriteAttemptsError"
  | OSError => "OSError"
  | ConnectionError => "ConnectionError"
  | TimeoutError => "TimeoutError"
  | gaierror => "gaierror"
  | RuntimeError => "RuntimeError"
  | WebSocketException => "WebSocketException"
  | CancelledError | DeadlineExpired => "CancelledError"
  | ExceptionGroup => "ExceptionGroup"
  | PyError _ => "builtin"
  | UserException _ => "user"
  | NotImplementedError => "NotImplementedError"
  | SystemExit => "SystemExit"
  end%string.
