(* ===== verification/Async.v ===== *)
(** * Coroutines

    A coroutine runs without interruption from one await to the next, and while it is
    suspended the other tasks and the outside world run.  [prog] is the syntax of such
    programs: a synchronous step is a function on the shared state, an await names
    what is awaited and continues with its outcome.  The file gives the two semantics
    the development uses: [exec], a run of one task against an environment that
    answers its awaits, and [pool_step], the interleaving of any number of tasks; and
    a program logic for both, [wp], in the rely-guarantee style. *)

From S2P Require Import Prelude Errors.

Section prog.
Context {W aw : Type} {answer : aw → Type}.

(** [OutOfFuel] is where a loop ends that the code does not bound. *)
Inductive prog (A : Type) : Type :=
  | Ret (a : A)
  | Raise (e : exn)
  | Sync (X : Type) (f : nat → W → W * X) (k : X → prog A)
  | Await (a : aw) (k : outcome (answer a) → prog A)
  | OutOfFuel.
#[global] Arguments Ret {A} a.
#[global] Arguments Raise {A} e.
#[global] Arguments Sync {A X} f k.
#[global] Arguments Await {A} a k.
#[global] Arguments OutOfFuel {A}.

Fixpoint bind {A B} (t : prog A) (k : A → prog B) : prog B :=
  match t with
  | Ret a => k a
  | Raise e => Raise e
  | Sync f k' => Sync f (λ x, bind (k' x) k)
  | Await a k' => Await a (λ r, bind (k' r) k)
  | OutOfFuel => OutOfFuel
  end.

(** [handle t k] goes on with the outcome of [t], an exception included. *)
Fixpoint handle {A B} (t : prog A) (k : outcome A → prog B) : prog B :=
  match t with
  | Ret a => k (Done a)
  | Raise e => k (Raised e)
  | Sync f k' => Sync f (λ x, handle (k' x) k)
  | Await a k' => Await a (λ r, handle (k' r) k)
  | OutOfFuel => OutOfFuel
  end.

Definition of_outcome {A} (o : outcome A) : prog A :=
  match o with Done a => Ret a | Raised e => Raise e end.

(** [try: t except classes as e: h e] *)
Definition try_except {A} (t : prog A) (catches : exn → bool) (h : exn → prog A) : prog A :=
  handle t (λ o, match o with
                 | Done a => Ret a
                 | Raised e => if catches e then h e else Raise e
                 end).

(** [try: t finally: f]; what [f] raises takes the place of the outcome of [t]. *)
Definition try_finally {A} (t : prog A) (f : prog unit) : prog A :=
  handle t (λ o, bind f (λ _, of_outcome o)).

Definition await (a : aw) : prog (answer a) := Await a of_outcome.
Definition get : prog W := Sync (λ _ w, (w, w)) Ret.
Definition gets {X} (f : W → X) : prog X := Sync (λ _ w, (w, f w)) Ret.
Definition modify (f : W → W) : prog unit := Sync (λ _ w, (f w, tt)) Ret.
Definition sync {X} (f : W → W * X) : prog X := Sync (λ _, f) Ret.
Definition current_task : prog nat := Sync (λ i w, (w, i)) Ret.
End prog.
Arguments prog : clear implicits.

#[export] Instance prog_ret {W aw answer} : MRet (prog W aw answer) := λ A a, Ret a.
#[export] Instance prog_bind {W aw answer} : MBind (prog W aw answer) := λ A B k t, bind t k.

(** [for x in l: body x] *)
Fixpoint for_each {W aw answer A} (l : list A) (body : A → prog W aw answer unit)
  : prog W aw answer unit :=
  match l with
  | [] => Ret tt
  | x :: l' => bind (body x) (λ _, for_each l' body)
  end.

(** A [while] loop of at most [fuel] rounds; a round gives the next loop state or the
    result. *)
Fixpoint while_loop {W aw answer S A} (fuel : nat) (body : S → prog W aw answer (S + A))
    (s : S) : prog W aw answer A :=
  match fuel with
  | O => OutOfFuel
  | Datatypes.S fuel' =>
    bind (body s) (λ r, match r with
                        | inl s' => while_loop fuel' body s'
                        | inr a => Ret a
                        end)
  end.

(** A program of a component, in a client of it that has a state [S] of its own. *)
Fixpoint lift {W aw answer} (S : Type) {A} (t : prog W aw answer A) : prog (W * S) aw answer A :=
  match t with
  | Ret a => Ret a
  | Raise e => Raise e
  | Sync f k => Sync (λ i '(w, s), let '(w', x) := f i w in ((w', s), x)) (λ x, lift S (k x))
  | Await a k => Await a (λ r, lift S (k r))
  | OutOfFuel => OutOfFuel
  end.

(** ** Runs

    [awaits i a w r w'] says that the await [a] of task [i], resumed when the state is
    [w], may give [r] and leave [w'].  A run of one task needs an environment that picks
    the outcome of the [n]-th await. *)

Section semantics.
Context {W aw : Type} {answer : aw → Type}.
Context (awaits : nat → ∀ a : aw, W → outcome (answer a) → W → Prop).
Abbreviation prog := (prog W aw answer).

Fixpoint exec {A} (env : nat → ∀ a : aw, W → W * outcome (answer a)) (i n : nat)
    (t : prog A) (w : W) : option (outcome A * W * nat) :=
  match t with
  | Ret a => Some (Done a, w, n)
  | Raise e => Some (Raised e, w, n)
  | Sync f k => let '(w', x) := f i w in exec env i n (k x) w'
  | Await a k => let '(w', r) := env n a w in exec env i (S n) (k r) w'
  | OutOfFuel => None
  end.

(** The synchronous steps up to the next await. *)
Fixpoint run_sync {A} (i : nat) (t : prog A) (w : W) : prog A * W :=
  match t with
  | Sync f k => let '(w', x) := f i w in run_sync i (k x) w'
  | _ => (t, w)
  end.

(** [nature w w']: the outside world changes the state; [spawn w t w']: a task with
    body [t] is created. *)
Context (nature : W → W → Prop) (spawn : W → prog unit → W → Prop).

Abbreviation config := (list (prog unit) * W)%type.

Inductive pool_step : config → config → Prop :=
  | step_resume ts w i a k r w1 t w2 :
    ts !! i = Some (Await a k) → awaits i a w r w1 →
    run_sync i (k r) w1 = (t, w2) →
    pool_step (ts, w) (<[i := t]> ts, w2)
  | step_spawn ts w t w1 t' w2 :
    spawn w t w1 → run_sync (length ts) t w1 = (t', w2) →
    pool_step (ts, w) (ts ++ [t'], w2)
  | step_nature ts w w' :
    nature w w' → pool_step (ts, w) (ts, w').

Definition reachable (w0 : W) (c : config) : Prop := rtc pool_step ([], w0) c.

(** ** The program logic

    [wp R G i B t Q w]: from the state [w], task [i] running [t] ends with an outcome
    and a state in [Q], whatever steps in [R] the others take while it is suspended;
    each of its own steps is in [G].  [B] tells whether it may run out of fuel. *)

Section wp.
Context (R G : W → W → Prop) (i : nat) (B : Prop).

Fixpoint wp {A} (t : prog A) (Q : outcome A → W → Prop) (w : W) : Prop :=
  match t with
  | Ret a => Q (Done a) w
  | Raise e => Q (Raised e) w
  | Sync f k => G w (f i w).1 ∧ wp (k (f i w).2) Q (f i w).1
  | Await a k => ∀ w1 r w2, R w w1 → awaits i a w1 r w2 → G w1 w2 ∧ wp (k r) Q w2
  | OutOfFuel => B
  end.

Lemma wp_mono {A} (t : prog A) (Q Q' : outcome A → W → Prop) w :
  wp t Q w → (∀ o w', Q o w' → Q' o w') → wp t Q' w.
Proof.
  intros H HQ. revert w H. induction t as [a|e|X f k IH|a k IH|]; intros w H; simpl in *;
    [by apply HQ..| | |done].
  - destruct H as [HG H]. split; [done|]. by apply IH.
  - intros w1 r w2 HR Ha. destruct (H w1 r w2 HR Ha) as [HG Hk].
    split; [done|]. by apply IH.
Qed.

Lemma wp_handle {A C} (t : prog A) (k : outcome A → prog C) Q w :
  wp t (λ o w', wp (k o) Q w') w → wp (handle t k) Q w.
Proof.
  revert w. induction t as [a|e|X f k' IH|a k' IH|]; intros w; simpl; try done.
  - intros [HG H]. split; [done|]. by apply IH.
  - intros H w1 r w2 HR Ha. destruct (H w1 r w2 HR Ha) as [HG Hk].
    split; [done|]. by apply IH.
Qed.

Lemma wp_bind {A C} (t : prog A) (k : A → prog C) Q w :
  wp t (λ o w', match o with Done a => wp (k a) Q w' | Raised e => Q (Raised e) w' end) w →
  wp (bind t k) Q w.
Proof.
  revert w. induction t as [a|e|X f k' IH|a k' IH|]; intros w; simpl; try done.
  - intros [HG H]. split; [done|]. by apply IH.
  - intros H w1 r w2 HR Ha. destruct (H w1 r w2 HR Ha) as [HG Hk].
    split; [done|]. by apply IH.
Qed.

Lemma wp_of_outcome {A} (o : outcome A) Q w : Q o w → wp (of_outcome o) Q w.
Proof. by destruct o. Qed.

Lemma wp_await a Q w :
  (∀ w1 r w2, R w w1 → awaits i a w1 r w2 → G w1 w2 ∧ Q r w2) → wp (await a) Q w.
Proof.
  intros H w1 r w2 HR Ha. destruct (H w1 r w2 HR Ha). split; [done|].
  by apply wp_of_outcome.
Qed.

Lemma wp_try_except {A} (t : prog A) (catches : exn → bool) (h : exn → prog A) Q w :
  wp t (λ o w', match o with
                | Done a => Q (Done a) w'
                | Raised e => if catches e then wp (h e) Q w' else Q (Raised e) w'
                end) w →
  wp (try_except t catches h) Q w.
Proof.
  intros H. apply wp_handle. eapply wp_mono; [exact H|].
  intros [a|e] w' HQ; simpl; [done|]. by destruct (catches e).
Qed.

Lemma wp_try_finally {A} (t : prog A) (f : prog unit) Q w :
  wp t (λ o w', wp f (λ o' w'', match o' with
                                | Done _ => Q o w''
                                | Raised e => Q (Raised e) w''
                                end) w') w →
  wp (try_finally t f) Q w.
Proof.
  intros H. apply wp_handle. eapply wp_mono; [exact H|]. intros o w' HQ.
  apply wp_bind. eapply wp_mono; [exact HQ|]. intros [[]|e] w'' Hw; simpl; [|done].
  by apply wp_of_outcome.
Qed.

(** A loop keeps an invariant that does not speak of the loop state. *)
Lemma wp_for_each {A} (l : list A) body (I : W → Prop) Q w :
  I w →
  (∀ x w', x ∈ l → I w' →
     wp (body x) (λ o w'', match o with Done _ => I w'' | Raised e => Q (Raised e) w'' end) w') →
  (∀ w', I w' → Q (Done tt) w') →
  wp (for_each l body) Q w.
Proof.
  intros HI Hbody HQ. revert w HI. induction l as [|x l IH]; intros w HI; simpl; [by apply HQ|].
  apply wp_bind. eapply wp_mono; [apply Hbody; [left|done]|].
  intros [[]|e] w' Hw'; [|done]. apply IH; [|done]. intros y w'' Hy. apply Hbody. by right.
Qed.

Lemma wp_while_loop {S A : Type} fuel (body : S → prog (S + A)%type) (I : S → W → Prop) Q s w :
  B → I s w →
  (∀ s' w', I s' w' →
     wp (body s') (λ o w'', match o with
                            | Done (inl s'') => I s'' w''
                            | Done (inr a) => Q (Done a) w''
                            | Raised e => Q (Raised e) w''
                            end) w') →
  wp (while_loop fuel body s) Q w.
Proof.
  intros HB HI Hbody. revert s w HI. induction fuel as [|fuel IH]; intros s w HI; simpl; [done|].
  apply wp_bind. eapply wp_mono; [by apply Hbody|].
  intros [[s'|a]|e] w' Hw'; simpl; [by apply IH|done..].
Qed.

(** A loop whose state has a measure that decreases needs no more fuel than that. *)
Lemma wp_while_loop_measure {S A : Type} fuel (body : S → prog (S + A)%type)
    (I : S → W → Prop) (measure : S → nat) Q s w :
  measure s < fuel ∨ B → I s w →
  (∀ s' w', I s' w' →
     wp (body s') (λ o w'', match o with
                            | Done (inl s'') => I s'' w'' ∧ measure s'' < measure s'
                            | Done (inr a) => Q (Done a) w''
                            | Raised e => Q (Raised e) w''
                            end) w') →
  wp (while_loop fuel body s) Q w.
Proof.
  intros Hm HI Hbody. revert s w Hm HI.
  induction fuel as [|fuel IH]; intros s w Hm HI; simpl; [destruct Hm; [lia|done]|].
  apply wp_bind. eapply wp_mono; [by apply Hbody|].
  intros [[s'|a]|e] w' Hw'; simpl; [|done..]. destruct Hw' as [HI' Hlt].
  apply IH; [|done]. destruct Hm; [left; lia|by right].
Qed.

(** What the others and the task itself keep holds at the end. *)
Lemma wp_keep {A} (t : prog A) (P : W → Prop) Q w :
  (∀ w w', R w w' → P w → P w') → (∀ w w', G w w' → P w → P w') →
  P w → wp t Q w → wp t (λ o w', Q o w' ∧ P w') w.
Proof.
  intros HPR HPG. revert w. induction t as [a|e|X f k IH|a k IH|]; intros w HP; simpl;
    [done|done| | |done].
  - intros [HG H]. split; [done|]. apply IH; [by eapply HPG|done].
  - intros H w1 r w2 HR Ha. destruct (H w1 r w2 HR Ha) as [HG Hk].
    split; [done|]. apply IH; [|done]. eapply HPG; [done|]. by eapply HPR.
Qed.
End wp.

(** The rule of consequence, with a fact [P] that the others and the task keep. *)
Lemma wp_conseq {A} (R R' G G' : W → W → Prop) i (B B' : Prop) (P : W → Prop)
    (t : prog A) (Q Q' : outcome A → W → Prop) w :
  (∀ w w', R' w w' → P w → R w w' ∧ P w') →
  (∀ w w', G w w' → P w → G' w w' ∧ P w') →
  (B → B') → (∀ o w', Q o w' → P w' → Q' o w') →
  P w → wp R G i B t Q w → wp R' G' i B' t Q' w.
Proof.
  intros HR HG HB HQ. revert w.
  induction t as [a|e|X f k IH|a k IH|]; intros w HP; simpl; auto.
  - intros [H1 H]. destruct (HG _ _ H1 HP). auto.
  - intros H w1 r w2 HR' Ha. destruct (HR _ _ HR' HP) as [HR1 HP1].
    destruct (H w1 r w2 HR1 Ha) as [H1 Hk]. destruct (HG _ _ H1 HP1). auto.
Qed.

(** ** Soundness *)

(** An environment that may take steps in [R] before each answer. *)
Definition answers_for (R : W → W → Prop) (i : nat)
    (env : nat → ∀ a : aw, W → W * outcome (answer a)) : Prop :=
  ∀ n a w, ∃ w1, R w w1 ∧ awaits i a w1 (env n a w).2 (env n a w).1.

Lemma wp_exec {A} R G i (B : Prop) env n (t : prog A) Q w :
  answers_for R i env → wp R G i B t Q w →
  match exec env i n t w with Some (o, w', _) => Q o w' | None => B end.
Proof.
  intros Henv. revert n w. induction t as [a|e|X f k IH|a k IH|]; intros n w; simpl; try done.
  - destruct (f i w) as [w' x]. simpl. intros [_ H]. by apply IH.
  - intros H. specialize (Henv n a w). destruct (env n a w) as [w' r]. simpl in Henv.
    destruct Henv as (w1 & HR & Ha). destruct (H w1 r w' HR Ha) as [_ Hk]. by apply IH.
Qed.

(** A run of a sequence is a run of the one and then of the other. *)
Lemma exec_handle {A C} env i n (t : prog A) (k : outcome A → prog C) w :
  exec env i n (handle t k) w =
  match exec env i n t w with
  | Some (o, w', n') => exec env i n' (k o) w'
  | None => None
  end.
Proof.
  revert n w. induction t as [a|e|X f k' IH|a k' IH|]; intros n w; simpl; try done.
  - destruct (f i w) as [w' x]. apply IH.
  - destruct (env n a w) as [w' r]. apply IH.
Qed.

Lemma exec_bind {A C} env i n (t : prog A) (k : A → prog C) w :
  exec env i n (bind t k) w =
  match exec env i n t w with
  | Some (Done a, w', n') => exec env i n' (k a) w'
  | Some (Raised e, w', n') => Some (Raised e, w', n')
  | None => None
  end.
Proof.
  revert n w. induction t as [a|e|X f k' IH|a k' IH|]; intros n w; simpl; try done.
  - destruct (f i w) as [w' x]. apply IH.
  - destruct (env n a w) as [w' r]. apply IH.
Qed.

Lemma wp_run_sync {A} R G i B (t : prog A) Q w t' w' :
  run_sync i t w = (t', w') → wp R G i B t Q w → wp R G i B t' Q w' ∧ rtc G w w'.
Proof.
  revert w. induction t as [a|e|X f k IH|a k IH|]; intros w; simpl;
    try (intros [= <- <-]; by auto using rtc_refl).
  destruct (f i w) as [w1 x] eqn:Hf. simpl. intros Hrun [HG Hk].
  destruct (IH x w1 Hrun Hk). split; [done|]. by eapply rtc_l.
Qed.

Section pool.
Context (R G : nat → W → W → Prop) (Inv : W → Prop).
Hypothesis R_trans : ∀ i w1 w2 w3, R i w1 w2 → R i w2 w3 → R i w1 w3.
Hypothesis R_refl : ∀ i w, R i w w.
Hypothesis G_in_R : ∀ i j w w', i ≠ j → Inv w → G j w w' → R i w w'.
Hypothesis G_inv : ∀ i w w', Inv w → G i w w' → Inv w'.
Hypothesis nature_ok : ∀ w w', Inv w → nature w w' → Inv w' ∧ ∀ i, R i w w'.
Hypothesis spawn_ok : ∀ w t w', Inv w → spawn w t w' →
  Inv w' ∧ (∀ i, R i w w') ∧ ∀ i, wp (R i) (G i) i True t (λ _ _, True) w'.

Definition pool_ok (c : config) : Prop :=
  Inv c.2 ∧ ∀ i t, c.1 !! i = Some t → wp (R i) (G i) i True t (λ _ _, True) c.2.

Lemma G_steps_ok i w w' :
  Inv w → rtc (G i) w w' → Inv w' ∧ ∀ j, j ≠ i → R j w w'.
Proof.
  intros Hw H. induction H as [w|w1 w2 w3 HG _ IH]; [by auto|].
  destruct IH as [Hinv HR]; [by eapply G_inv|]. split; [done|].
  intros j Hj. eapply R_trans; [|by apply HR]. by eapply (G_in_R j i).
Qed.

(** A suspended or finished task is not affected by what the others do. *)
Definition resting {A} (t : prog A) : Prop :=
  match t with Sync _ _ => False | _ => True end.

Lemma run_sync_resting {A} i (t : prog A) w : resting (run_sync i t w).1.
Proof.
  revert w. induction t as [a|e|X f k IH|a k IH|]; intros w; simpl; try done.
  destruct (f i w). apply IH.
Qed.

Lemma resting_stable {A} i (t : prog A) w w' :
  resting t → R i w w' → wp (R i) (G i) i True t (λ _ _, True) w →
  wp (R i) (G i) i True t (λ _ _, True) w'.
Proof.
  destruct t as [a|e|X f k|a k|]; simpl; try done.
  intros _ HR H w1 r w2 HR1 Ha. apply (H w1 r w2); [|done]. by eapply R_trans.
Qed.

Definition config_ok (c : config) : Prop :=
  pool_ok c ∧ ∀ i t, c.1 !! i = Some t → resting t.

Lemma step_preserves c c' : config_ok c → pool_step c c' → config_ok c'.
Proof.
  intros [[Hinv Hts] Hrest] Hstep.
  destruct Hstep as [ts w i a k r w1 t w2 Hi Ha Hrun|ts w t w1 t' w2 Hsp Hrun|ts w w' Hn];
    simpl in *.
  - destruct (Hts i _ Hi w r w1 (R_refl i w) Ha) as [HG Hk].
    destruct (wp_run_sync _ _ _ _ _ _ _ _ _ Hrun Hk) as [Ht Hrtc].
    assert (rtc (G i) w w2) as Hsteps by (by eapply rtc_l).
    destruct (G_steps_ok i w w2 Hinv Hsteps) as [Hinv2 HRs].
    pose proof (run_sync_resting i (k r) w1) as Hr. rewrite Hrun in Hr.
    split; [split; [done|]|]; simpl; intros j t0 [(<- & <- & _)|[Hne Hj]]%list_lookup_insert_Some;
      [done| |done|by eapply Hrest].
    eapply resting_stable; [by eapply Hrest|by apply HRs|by apply Hts].
  - destruct (spawn_ok w t w1 Hinv Hsp) as (Hinv1 & HR1 & Hwp).
    destruct (wp_run_sync _ _ _ _ _ _ _ _ _ Hrun (Hwp _)) as [Ht Hrtc].
    destruct (G_steps_ok _ w1 w2 Hinv1 Hrtc) as [Hinv2 HRs].
    pose proof (run_sync_resting (length ts) t w1) as Hr. rewrite Hrun in Hr.
    split; [split; [done|]|]; simpl; intros j t0 [[Hlt Hj]|[-> <-]]%lookup_snoc_Some.
    all: try done.
    + eapply resting_stable; [by eapply Hrest| |by apply Hts].
      eapply R_trans; [apply HR1|]. apply HRs. lia.
    + by eapply Hrest.
  - destruct (nature_ok w w' Hinv Hn) as [Hinv' HR]. split; [split; [done|]|done].
    simpl. intros j t Hj. eapply resting_stable; [by eapply Hrest|apply HR|by apply Hts].
Qed.

(** What a task that takes no part sees of a step. *)
Lemma step_bystander c c' j :
  config_ok c → pool_step c c' → length c'.1 ≤ j → R j c.2 c'.2.
Proof.
  intros [[Hinv Hts] _] Hstep.
  destruct Hstep as [ts w i a k r w1 t w2 Hi Ha Hrun|ts w t w1 t' w2 Hsp Hrun|ts w w' Hn];
    simpl in *.
  - rewrite length_insert. intros Hj. assert (i < length ts) by (by eapply lookup_lt_Some).
    destruct (Hts i _ Hi w r w1 (R_refl i w) Ha) as [HG Hk].
    destruct (wp_run_sync _ _ _ _ _ _ _ _ _ Hrun Hk) as [_ Hrtc].
    apply (G_steps_ok i w w2 Hinv); [by eapply rtc_l|lia].
  - rewrite length_app. simpl. intros Hj. destruct (spawn_ok w t w1 Hinv Hsp) as (Hinv1 & HR1 & Hwp).
    destruct (wp_run_sync _ _ _ _ _ _ _ _ _ Hrun (Hwp _)) as [_ Hrtc].
    eapply R_trans; [apply HR1|]. apply (G_steps_ok _ w1 w2 Hinv1 Hrtc). lia.
  - intros _. by apply nature_ok.
Qed.

Lemma reachable_ok w0 c : Inv w0 → reachable w0 c → config_ok c.
Proof.
  intros H0 Hc. unfold reachable in Hc.
  remember ([], w0) as c0 eqn:E. assert (config_ok c0) as Hok by (by subst).
  clear E H0. induction Hc as [|c1 c2 c3 Hs _ IH]; [done|]. apply IH.
  by eapply step_preserves.
Qed.

Lemma reachable_inv w0 c : Inv w0 → reachable w0 c → Inv c.2.
Proof. intros H0 Hc. by destruct (reachable_ok w0 c H0 Hc) as [[? _] _]. Qed.
End pool.

(** ** What holds at every await

    A task runs undisturbed from one await to the next, so an assertion may fail in
    between as long as it holds again whenever the task waits or ends: [seg J i t Q w]. *)

Section seg.
Context (J : W → Prop) (i : nat).

Fixpoint seg {A} (t : prog A) (Q : outcome A → W → Prop) (w : W) : Prop :=
  match t with
  | Ret a => Q (Done a) w
  | Raise e => Q (Raised e) w
  | Sync f k => seg (k (f i w).2) Q (f i w).1
  | Await a k => J w ∧ ∀ w1 r w2, J w1 → awaits i a w1 r w2 → seg (k r) Q w2
  | OutOfFuel => J w
  end.

Definition keeps {A} (t : prog A) : Prop := ∀ w, J w → seg t (λ _, J) w.

Lemma seg_mono {A} (t : prog A) (Q Q' : outcome A → W → Prop) w :
  seg t Q w → (∀ o w', Q o w' → Q' o w') → seg t Q' w.
Proof.
  intros H HQ. revert w H. induction t as [a|e|X f k IH|a k IH|]; intros w; simpl; auto.
  intros [HJ H]. split; [done|]. intros w1 r w2 HJ1 Ha. by eapply IH, H.
Qed.

Lemma seg_handle {A C} (t : prog A) (k : outcome A → prog C) Q w :
  seg t (λ o w', seg (k o) Q w') w → seg (handle t k) Q w.
Proof.
  revert w. induction t as [a|e|X f k' IH|a k' IH|]; intros w; simpl; auto.
  intros [HJ H]. split; [done|]. intros w1 r w2 HJ1 Ha. by eapply IH, H.
Qed.

Lemma seg_bind {A C} (t : prog A) (k : A → prog C) Q w :
  seg t (λ o w', match o with Done a => seg (k a) Q w' | Raised e => Q (Raised e) w' end) w →
  seg (bind t k) Q w.
Proof.
  revert w. induction t as [a|e|X f k' IH|a k' IH|]; intros w; simpl; auto.
  intros [HJ H]. split; [done|]. intros w1 r w2 HJ1 Ha. by eapply IH, H.
Qed.

Lemma keeps_ret {A} (a : A) : keeps (Ret a).
Proof. by intros w. Qed.

Lemma keeps_raise {A} e : keeps (Raise e : prog A).
Proof. by intros w. Qed.

Lemma keeps_of_outcome {A} (o : outcome A) : keeps (of_outcome o).
Proof. destruct o; by intros w. Qed.

(** A program whose steps keep the assertion. *)
Lemma wp_seg {A} (G : W → W → Prop) B (t : prog A) Q w :
  (∀ w w', G w w' → J w → J w') → J w → wp (λ _ _, True) G i B t Q w →
  seg t (λ _, J) w.
Proof.
  intros HG. revert w. induction t as [a|e|X f k IH|a k IH|]; intros w HJ; simpl; try done.
  - intros [H Hk]. by apply IH; [eapply HG|].
  - intros H. split; [done|]. intros w1 r w2 HJ1 Ha. destruct (H w1 r w2 I Ha) as [H2 Hk].
    by apply IH; [eapply HG|].
Qed.

Lemma keeps_bind {A C} (t : prog A) (k : A → prog C) :
  keeps t → (∀ a, keeps (k a)) → keeps (bind t k).
Proof.
  intros Ht Hk w HJ. apply seg_bind. eapply seg_mono; [by apply Ht|].
  intros [a|e] w' HJ'; [by apply Hk|done].
Qed.

Lemma keeps_mbind {A C} (t : prog A) (k : A → prog C) :
  keeps t → (∀ a, keeps (k a)) → keeps (t ≫= k).
Proof. apply keeps_bind. Qed.

Lemma keeps_handle {A C} (t : prog A) (k : outcome A → prog C) :
  keeps t → (∀ o, keeps (k o)) → keeps (handle t k).
Proof.
  intros Ht Hk w HJ. apply seg_handle. eapply seg_mono; [by apply Ht|].
  intros o w' HJ'. by apply Hk.
Qed.

Lemma keeps_try_except {A} (t : prog A) catches (h : exn → prog A) :
  keeps t → (∀ e, keeps (h e)) → keeps (try_except t catches h).
Proof.
  intros Ht Hh. apply keeps_handle; [done|]. intros [a|e]; [by apply keeps_ret|].
  destruct (catches e); [done|apply keeps_raise].
Qed.

Lemma keeps_try_finally {A} (t : prog A) f : keeps t → keeps f → keeps (try_finally t f).
Proof.
  intros Ht Hf. apply keeps_handle; [done|]. intros o. apply keeps_bind; [done|].
  intros _. apply keeps_of_outcome.
Qed.

Lemma keeps_while_loop {S A : Type} fuel (body : S → prog (S + A)%type) s :
  (∀ s, keeps (body s)) → keeps (while_loop fuel body s).
Proof.
  intros Hb. revert s. induction fuel as [|fuel IH]; intros s; simpl; [by intros w|].
  apply keeps_bind; [done|]. intros [s'|a]; [apply IH|apply keeps_ret].
Qed.

Lemma seg_run_sync {A} (t : prog A) Q w t' w' :
  run_sync i t w = (t', w') → seg t Q w → seg t' Q w'.
Proof.
  revert w. induction t as [a|e|X f k IH|a k IH|]; intros w Hrun Ht; simpl in *.
  3: destruct (f i w) as [w1 x]; by eapply IH.
  all: by injection Hrun as <- <-.
Qed.

Lemma seg_rest {A} (t : prog A) w :
  match t with Sync _ _ => False | _ => True end → seg t (λ _, J) w → J w.
Proof. destruct t; simpl; try done. by intros _ [? _]. Qed.
End seg.

Section seg_pool.
Context (J : W → Prop).
Hypothesis J_nature : ∀ w w', J w → nature w w' → J w'.
Hypothesis J_spawn : ∀ w t w', J w → spawn w t w' → ∀ i, seg J i t (λ _, J) w'.

(** A task that waits may go on wherever the assertion holds. *)
Definition seg_ok (c : config) : Prop :=
  J c.2 ∧ ∀ i t, c.1 !! i = Some t → ∀ w, J w → seg J i t (λ _, J) w.

Lemma seg_later {A} i (t : prog A) w :
  match t with Sync _ _ => False | _ => True end → seg J i t (λ _, J) w →
  ∀ w', J w' → seg J i t (λ _, J) w'.
Proof. destruct t; simpl; try done. by intros _ [_ H] w' HJ. Qed.

Lemma seg_reached {A} i (t : prog A) w t' w' :
  run_sync i t w = (t', w') → seg J i t (λ _, J) w →
  J w' ∧ ∀ w'', J w'' → seg J i t' (λ _, J) w''.
Proof.
  intros Hrun Ht. pose proof (seg_run_sync _ _ _ _ _ _ _ Hrun Ht) as Ht'.
  pose proof (run_sync_resting i t w) as Hr. rewrite Hrun in Hr. simpl in Hr.
  split; [by eapply seg_rest|]. by eapply seg_later.
Qed.

Lemma step_seg_ok c c' : seg_ok c → pool_step c c' → seg_ok c'.
Proof.
  intros [HJ Hts] Hstep.
  destruct Hstep as [ts w i a k r w1 t w2 Hi Ha Hrun|ts w t w1 t' w2 Hsp Hrun|ts w w' Hn];
    simpl in *.
  - destruct (Hts i _ Hi w HJ) as [_ Hk]. specialize (Hk w r w1 HJ Ha).
    destruct (seg_reached _ _ _ _ _ Hrun Hk) as [HJ2 Ht]. split; [done|]. simpl.
    intros j t0 [(<- & <- & _)|[Hne Hj]]%list_lookup_insert_Some; [done|by apply Hts].
  - pose proof (J_spawn w t w1 HJ Hsp (length ts)) as Ht.
    destruct (seg_reached _ _ _ _ _ Hrun Ht) as [HJ2 Ht']. split; [done|]. simpl.
    intros j t0 [[Hlt Hj]|[-> <-]]%lookup_snoc_Some; [by apply Hts|done].
  - split; [by eapply J_nature|done].
Qed.

Lemma reachable_seg w0 c : J w0 → reachable w0 c → J c.2.
Proof.
  intros H0 Hc. unfold reachable in Hc. remember ([], w0) as c0 eqn:E.
  assert (seg_ok c0) as Hok by (by subst). clear E H0.
  induction Hc as [c|c1 c2 c3 Hs _ IH]; [by destruct Hok|]. apply IH. by eapply step_seg_ok.
Qed.
End seg_pool.
End semantics.

(** ** Lifted programs *)

Section lift.
Context {W aw : Type} {answer : aw → Type} {S : Type}.

(** The environment of a component, which leaves the state of its client alone. *)
Definition lift_env (env : nat → ∀ a : aw, W → W * outcome (answer a))
  : nat → ∀ a : aw, W * S → (W * S) * outcome (answer a) :=
  λ n a '(w, s), let '(w', r) := env n a w in ((w', s), r).

Lemma exec_lift {A} env i n (t : prog W aw answer A) w s :
  exec (lift_env env) i n (lift S t) (w, s) =
  match exec env i n t w with
  | Some (o, w', n') => Some (o, (w', s), n')
  | None => None
  end.
Proof.
  revert n w. induction t as [a|e|X f k IH|a k IH|]; intros n w; simpl; try done.
  - destruct (f i w) as [w' x]. apply IH.
  - destruct (env n a w) as [w' r]. apply IH.
Qed.
End lift.

(** ** Stepping through a program *)

#[global] Arguments prog_bind : simpl never.

Section steps.
Context {W aw : Type} {answer : aw → Type}.
Context (awaits : nat → ∀ a : aw, W → outcome (answer a) → W → Prop).
Context (R G : W → W → Prop) (i : nat) (B : Prop).
Abbreviation wp := (wp awaits R G i B).

Lemma wp_mbind {A C} (t : prog W aw answer A) (k : A → prog W aw answer C) Q w :
  wp t (λ o w', match o with Done a => wp (k a) Q w' | Raised e => Q (Raised e) w' end) w →
  wp (t ≫= k) Q w.
Proof. apply wp_bind. Qed.

Lemma wp_mret {A} (a : A) (Q : outcome A → W → Prop) w : Q (Done a) w → wp (mret a) Q w.
Proof. done. Qed.

Lemma wp_raise {A} e (Q : outcome A → W → Prop) w : Q (Raised e) w → wp (Raise e) Q w.
Proof. done. Qed.

Lemma wp_get {A} (k : W → prog W aw answer A) Q w :
  G w w → wp (k w) Q w → wp (get ≫= k) Q w.
Proof. by split. Qed.

Lemma wp_gets {A X} (f : W → X) (k : X → prog W aw answer A) Q w :
  G w w → wp (k (f w)) Q w → wp (gets f ≫= k) Q w.
Proof. by split. Qed.

Lemma wp_modify_then {A} f (k : unit → prog W aw answer A) Q w :
  G w (f w) → wp (k tt) Q (f w) → wp (modify f ≫= k) Q w.
Proof. by split. Qed.

Lemma wp_modify f Q w : G w (f w) → Q (Done tt) (f w) → wp (modify f) Q w.
Proof. by split. Qed.

Lemma wp_sync {A X} (f : W → W * X) (k : X → prog W aw answer A) Q w :
  G w (f w).1 → wp (k (f w).2) Q (f w).1 → wp (sync f ≫= k) Q w.
Proof. by split. Qed.

Lemma wp_outcome_then {A C} (o : outcome A) (k : A → prog W aw answer C) Q w :
  match o with Done a => wp (k a) Q w | Raised e => Q (Raised e) w end →
  wp (of_outcome o ≫= k) Q w.
Proof. by destruct o. Qed.
End steps.

(** One step of the program at the head of the goal; what is left over is that the step
    is allowed. *)
Ltac wp_step :=
  cbv beta iota;
  lazymatch goal with
  | |- wp _ _ _ _ _ (get ≫= _) _ _ => apply wp_get
  | |- wp _ _ _ _ _ (gets _ ≫= _) _ _ => apply wp_gets
  | |- wp _ _ _ _ _ (modify _ ≫= _) _ _ => apply wp_modify_then
  | |- wp _ _ _ _ _ (modify _) _ _ => apply wp_modify
  | |- wp _ _ _ _ _ (sync _ ≫= _) _ _ => apply wp_sync
  | |- wp _ _ _ _ _ (of_outcome _ ≫= _) _ _ => apply wp_outcome_then
  | |- wp _ _ _ _ _ (of_outcome _) _ _ => apply wp_of_outcome
  | |- wp _ _ _ _ _ (mret _) _ _ => apply wp_mret
  | |- wp _ _ _ _ _ (Raise _) _ _ => apply wp_raise
  | |- wp _ _ _ _ _ (handle _ _) _ _ => apply wp_handle
  | |- wp _ _ _ _ _ (try_except _ _ _) _ _ => apply wp_try_except
  | |- wp _ _ _ _ _ (try_finally _ _) _ _ => apply wp_try_finally
  | |- wp _ _ _ _ _ (_ ≫= _) _ _ => apply wp_mbind
  end; cbv beta iota.
