(* ===== verification/Credits.v ===== *)
(** * Programs that own what they need

    A task owns a resource, which nobody else owns a part of: its steps change it, and an
    invariant relates what all the tasks own together to the state.  A step from [w] to
    [w'] may turn [n] into [n'] if the invariant survives, whatever the others own
    ([pays]); a program whose steps all may is one that [affords] what it does.  Whatever
    the interleaving, the invariant then holds in every state ([reachable_owned]). *)

From S2P Require Import Prelude Errors Async.

(** ** Resources *)

Class Resource (M : Type) := {
  join : M → M → M;
  nothing : M;
  join_comm : Comm (=) join;
  join_assoc : Assoc (=) join;
  nothing_l : LeftId (=) nothing join;
}.

#[export] Existing Instances join_comm join_assoc nothing_l.

(** Credits: what is owned together is the sum. *)
#[export] Instance nat_resource : Resource nat := {|
  join := Nat.add;
  nothing := 0;
  join_comm := Nat.add_comm;
  join_assoc := Nat.add_assoc;
  nothing_l := Nat.add_0_l;
|}.

Section resources.
Context `{RM : Resource M}.

Definition total (ns : list M) : M := foldr join nothing ns.

Lemma total_insert ns i n :
  ns !! i = Some n →
  ∃ rest, total ns = join n rest ∧ ∀ n', total (<[i := n']> ns) = join n' rest.
Proof.
  revert i. induction ns as [|x ns IH]; intros [|i] Hi; try done; simpl in Hi.
  - injection Hi as ->. by exists (total ns).
  - destruct (IH i Hi) as (rest & H1 & H2). exists (join x rest).
    assert (∀ y, join x (join y rest) = join y (join x rest)) as Hswap.
    { intros y. by rewrite (assoc_L join), (comm_L join x y), <-(assoc_L join). }
    split; [simpl; by rewrite H1|]. intros n'. simpl. by rewrite H2.
Qed.

Lemma total_snoc ns n : total (ns ++ [n]) = join n (total ns).
Proof.
  induction ns as [|x ns IH]; simpl; [done|].
  by rewrite IH, !(assoc_L join), (comm_L join x n).
Qed.
End resources.

(** ** Programs *)

Section credits.
Context {W aw : Type} {answer : aw → Type}.
Context (awaits : nat → ∀ a : aw, W → outcome (answer a) → W → Prop).
Context `{RM : Resource M} (Inv : M → W → Prop).
Abbreviation prog := (prog W aw answer).

Definition pays (n : M) (w : W) (n' : M) (w' : W) : Prop :=
  ∀ rest, Inv (join n rest) w → Inv (join n' rest) w'.

Lemma pays_refl n w : pays n w n w.
Proof. by intros rest. Qed.

Lemma pays_trans n1 w1 n2 w2 n3 w3 : pays n1 w1 n2 w2 → pays n2 w2 n3 w3 → pays n1 w1 n3 w3.
Proof. unfold pays. auto. Qed.

Section task.
Context (i : nat).

Fixpoint affords {A} (n : M) (t : prog A) (Q : outcome A → M → Prop) (w : W) : Prop :=
  match t with
  | Ret a => Q (Done a) n
  | Raise e => Q (Raised e) n
  | Sync f k => ∃ n', pays n w n' (f i w).1 ∧ affords n' (k (f i w).2) Q (f i w).1
  | Await a k => ∀ w1 r w2, awaits i a w1 r w2 → ∃ n', pays n w1 n' w2 ∧ affords n' (k r) Q w2
  | OutOfFuel => True
  end.

Lemma affords_mono {A} n (t : prog A) (Q Q' : outcome A → M → Prop) w :
  affords n t Q w → (∀ o n', Q o n' → Q' o n') → affords n t Q' w.
Proof.
  intros H HQ. revert n w H. induction t as [a|e|X f k IH|a k IH|]; intros n w; simpl; auto.
  - intros (n' & Hn & H). exists n'. split; [done|]. by apply IH.
  - intros H w1 r w2 Ha. destruct (H w1 r w2 Ha) as (n' & Hn & Hk). exists n'.
    split; [done|]. by apply IH.
Qed.

Lemma affords_handle {A B} n (t : prog A) (k : outcome A → prog B) Q w :
  affords n t (λ o n', ∀ w', affords n' (k o) Q w') w → affords n (handle t k) Q w.
Proof.
  revert n w. induction t as [a|e|X f k' IH|a k' IH|]; intros n w; simpl; auto.
  - intros (n' & Hn & H). exists n'. split; [done|]. by apply IH.
  - intros H w1 r w2 Ha. destruct (H w1 r w2 Ha) as (n' & Hn & Hk). exists n'.
    split; [done|]. by apply IH.
Qed.

Lemma affords_mbind {A B} n (t : prog A) (k : A → prog B) Q w :
  affords n t (λ o n', match o with
                       | Done a => ∀ w', affords n' (k a) Q w'
                       | Raised e => Q (Raised e) n'
                       end) w →
  affords n (t ≫= k) Q w.
Proof.
  unfold mbind, prog_bind. revert n w.
  induction t as [a|e|X f k' IH|a k' IH|]; intros n w; simpl; auto.
  - intros (n' & Hn & H). exists n'. split; [done|]. by apply IH.
  - intros H w1 r w2 Ha. destruct (H w1 r w2 Ha) as (n' & Hn & Hk). exists n'.
    split; [done|]. by apply IH.
Qed.

(** [P] says what is owned at the start of a round. *)
Lemma affords_while_loop {S A : Type} fuel (body : S → prog (S + A)%type) (P : M → Prop) Q :
  (∀ s n w, P n → affords n (body s) (λ o n', match o with
                                              | Done (inl _) => P n'
                                              | Done (inr a) => Q (Done a) n'
                                              | Raised e => Q (Raised e) n'
                                              end) w) →
  ∀ s n w, P n → affords n (while_loop fuel body s) Q w.
Proof.
  intros Hb. induction fuel as [|fuel IH]; intros s n w Hn; [done|].
  apply affords_mbind. eapply affords_mono; [by apply Hb|].
  intros [[s'|a]|e] n' Hn'; [|by intros w'|done]. intros w'. by apply IH.
Qed.

Lemma affords_modify n f (Q : outcome unit → M → Prop) n' w :
  pays n w n' (f w) → Q (Done tt) n' → affords n (modify f) Q w.
Proof. intros Hp HQ. by exists n'. Qed.

(** A program all of whose steps are for free keeps what it owns. *)
Lemma wp_affords {A} (G : W → W → Prop) B n (t : prog A) Q w :
  (∀ w w', G w w' → pays n w n w') → wp awaits (λ _ _, True) G i B t Q w →
  affords n t (λ o n', n' = n ∧ ∃ w', Q o w') w.
Proof.
  intros HG. revert w. induction t as [a|e|X f k IH|a k IH|]; intros w; simpl; try by eauto.
  - intros [H Hk]. exists n. auto.
  - intros H w1 r w2 Ha. destruct (H w1 r w2 I Ha) as [H2 Hk]. exists n. auto.
Qed.

Lemma affords_run_sync {A} n (t : prog A) Q w t' w' :
  run_sync i t w = (t', w') → affords n t Q w →
  ∃ n', pays n w n' w' ∧ ∀ w'', affords n' t' Q w''.
Proof.
  revert n w. induction t as [a|e|X f k IH|a k IH|]; intros n w Hrun; simpl in *.
  3: { destruct (f i w) as [w1 x]. intros (n1 & Hn1 & H1).
       destruct (IH x n1 w1 Hrun H1) as (n' & Hn' & H'). exists n'. split; [|done].
       by eapply pays_trans. }
  all: injection Hrun as <- <-; intros H; exists n; split; [apply pays_refl|done].
Qed.
End task.

(** ** All the tasks together *)

Section pool.
Context (nature : W → W → Prop) (spawn : W → prog unit → W → Prop).
Hypothesis nature_free : ∀ n w w', nature w w' → pays n w n w'.
Hypothesis spawn_affords : ∀ w t w', spawn w t w' →
  ∃ n, pays nothing w n w' ∧ ∀ i, affords i n t (λ _ _, True) w'.

Definition owned (c : list (prog unit) * W) : Prop :=
  ∃ ns, length ns = length c.1 ∧ Inv (total ns) c.2 ∧
    ∀ i t n, c.1 !! i = Some t → ns !! i = Some n → ∀ w, affords i n t (λ _ _, True) w.

Lemma step_owned c c' : owned c → pool_step awaits nature spawn c c' → owned c'.
Proof.
  intros (ns & Hlen & Hinv & Hts) Hstep.
  destruct Hstep as [ts w i a k r w1 t w2 Hi Ha Hrun|ts w t w1 t' w2 Hsp Hrun|ts w w' Hn];
    simpl in *.
  - destruct (lookup_lt_is_Some_2 ns i) as [n Hn].
    { rewrite Hlen. by eapply lookup_lt_Some. }
    destruct (Hts i _ n Hi Hn w w r w1 Ha) as (n1 & Hn1 & Hk).
    destruct (affords_run_sync _ _ _ _ _ _ _ Hrun Hk) as (n2 & Hn2 & Ht).
    destruct (total_insert ns i n Hn) as (rest & Htot & Hins). rewrite Htot in Hinv.
    exists (<[i := n2]> ns). simpl. rewrite !length_insert, Hins. split; [done|].
    split; [by apply Hn2, Hn1|].
    intros j t0 m [(<- & <- & _)|[Hne Hj]]%list_lookup_insert_Some; simpl.
    + rewrite list_lookup_insert_eq by (by eapply lookup_lt_Some). by intros [= <-].
    + rewrite list_lookup_insert_ne by done. by apply Hts.
  - destruct (spawn_affords w t w1 Hsp) as (n & Hn & Ht).
    destruct (affords_run_sync _ _ _ _ _ _ _ Hrun (Ht _)) as (n2 & Hn2 & Ht').
    exists (ns ++ [n2]). simpl. rewrite !length_app, total_snoc. split; [simpl; lia|].
    split; [apply Hn2, Hn; by rewrite (left_id_L nothing join)|].
    intros j t0 m [[Hlt Hj]|[-> <-]]%lookup_snoc_Some; simpl.
    + rewrite lookup_app_l by lia. by apply Hts.
    + rewrite lookup_app_r, Hlen, Nat.sub_diag by lia. by intros [= <-].
  - exists ns. split; [done|]. split; [|done].
    specialize (nature_free (total ns) w w' Hn nothing).
    rewrite (comm_L join), (left_id_L nothing join) in nature_free. auto.
Qed.

Theorem reachable_owned w0 c :
  Inv nothing w0 → reachable awaits nature spawn w0 c → ∃ n, Inv n c.2.
Proof.
  intros H0 Hc. unfold reachable in Hc. remember ([], w0) as c0 eqn:E.
  assert (owned c0) as Hok by (subst; by exists []). clear E H0.
  induction Hc as [c|c1 c2 c3 Hs _ IH]; [destruct Hok as (ns & _ & Hi & _); by eauto|].
  apply IH. by eapply step_owned.
Qed.
End pool.
End credits.
