(* ===== verification/World.v ===== *)
(** * The shared state of a client

    The attributes of the [ConnectionManager], of the client's [ActiveSubscriptions] and
    of its [Transaction] objects, the connection objects, the attempts to connect that nobody
    waits for any more, and what the outside world can observe: the history of the writes,
    the log records and the like.  The file also lists what the client's coroutines await
    and what an await may give. *)

From S2P Require Import Prelude Frames Config Errors Async.

(** ** Data *)

(** [ActiveConnectionState]; a connection object is known by a number, and there is one
    state object per connection, so [is] compares these numbers. *)
Record ActiveConnectionState := mkActive {
  connection : nat;
  connection_parameters : ConnectionParameters;
  server_heartbeat : Heartbeat;
  connected_at : Z;
}.

(** A connection object: [last_read_time], and whether its transport refuses writes. *)
Record connection_state := mkConn {
  last_read_time : option Z;
  broken : bool;
}.

(** A callback of the program, called and not awaited: what it returns or raises. *)
Abbreviation callback := (frame headers → outcome unit).

Inductive handler_kind :=
  | AutoAckSubscription (suppressed_exception_classes : exn → bool)
      (on_suppressed_exception : exn → callback)
  | ManualAckSubscription.

Record subscription := mkSubscription {
  destination : str;
  sub_headers : option nat;
  ack : AckMode;
  kind : handler_kind;
}.

(** The tasks that the manager and the client create in their task groups. *)
Inductive task_body :=
  | SleepZero
  | SendHeartbeats (send_heartbeat_interval_ms : Z)
  | MonitorNoMessage (interval_ms : Z)
  | ListenToFrames
  | RunHandler (subscription_id : str) (sub : subscription) (h : headers) (body : bytes)
      (epoch : nat).

Record background_task := mkTask {
  task_code : task_body;
  started : bool;
  cancelled : bool;
}.

Inductive level := INFO | WARNING | ERROR.

#[export] Instance level_eq_dec : EqDecision level.
Proof. solve_decision. Defined.

(** What can be observed of the client.  [Installed], [Discarded] and [Released] mark the
    assignments to [_active_connection_state], [Received] a frame that
    [read_frames_reconnecting] yields with its epoch, [HandlerDone] the end of the task of a
    handler. *)
Inductive action :=
  | Opened (c : nat) (server : ConnectionParameters)
  | Wrote (c : nat) (f : frame headers)
  | WroteHeartbeat (c : nat)
  | CloseCalled (c : nat)
  | Installed (c : nat)
  | Discarded (c : nat)
  | Released (c : nat)
  | Received (c : nat) (epoch : nat) (f : frame headers)
  | Slept (ms : Z)
  | Handled (subscription_id : str) (f : frame headers)
  | ErrorHandlerCalled (f : frame headers)
  | Suppressed (e : exn) (f : frame headers)
  | Logged (l : level) (msg : string)
  | HandlerDone (subscription_id : str).

(** The task group of the manager: it can be entered once, refuses new tasks once one of
    its tasks has failed, and once it has been left. *)
Inductive group_state := GroupNew | GroupRunning | GroupAborted | GroupFinished.

#[export] Instance group_state_eq_dec : EqDecision group_state.
Proof. solve_decision. Defined.

Record world := mkWorld {
  _active_connection_state : option ActiveConnectionState;
  _reconnect_lock : option nat;
  _task_group : group_state;
  _send_heartbeat_task : option nat;
  _monitor_no_message_task : option nat;
  _reconnection_count : nat;
  _last_message_received_time : Z;
  subscriptions : list (str * subscription);
  event : bool;
  sent_frames : gmap str (list (dict * bytes));
  _active_transactions : gset str;
  _handler_semaphore : option nat;
  dicts : store;
  conns : gmap nat connection_state;
  tasks : list background_task;
  uuids : nat;
  now : Z;
  trace : list action;
  abandoned : list ConnectionParameters;
}.

Definition set_active (x : option ActiveConnectionState) (w : world) : world :=
  mkWorld x (_reconnect_lock w) (_task_group w) (_send_heartbeat_task w)
    (_monitor_no_message_task w) (_reconnection_count w) (_last_message_received_time w)
    (subscriptions w) (event w) (sent_frames w) (_active_transactions w)
    (_handler_semaphore w) (dicts w) (conns w) (tasks w) (uuids w) (now w) (trace w) (abandoned w).
Definition set_lock (x : option nat) (w : world) : world :=
  mkWorld (_active_connection_state w) x (_task_group w) (_send_heartbeat_task w)
    (_monitor_no_message_task w) (_reconnection_count w) (_last_message_received_time w)
    (subscriptions w) (event w) (sent_frames w) (_active_transactions w)
    (_handler_semaphore w) (dicts w) (conns w) (tasks w) (uuids w) (now w) (trace w) (abandoned w).
Definition set_task_group (x : group_state) (w : world) : world :=
  mkWorld (_active_connection_state w) (_reconnect_lock w) x (_send_heartbeat_task w)
    (_monitor_no_message_task w) (_reconnection_count w) (_last_message_received_time w)
    (subscriptions w) (event w) (sent_frames w) (_active_transactions w)
    (_handler_semaphore w) (dicts w) (conns w) (tasks w) (uuids w) (now w) (trace w) (abandoned w).
Definition set_heartbeat_task (x : option nat) (w : world) : world :=
  mkWorld (_active_connection_state w) (_reconnect_lock w) (_task_group w) x
    (_monitor_no_message_task w) (_reconnection_count w) (_last_message_received_time w)
    (subscriptions w) (event w) (sent_frames w) (_active_transactions w)
    (_handler_semaphore w) (dicts w) (conns w) (tasks w) (uuids w) (now w) (trace w) (abandoned w).
Definition set_monitor_task (x : option nat) (w : world) : world :=
  mkWorld (_active_connection_state w) (_reconnect_lock w) (_task_group w)
    (_send_heartbeat_task w) x (_reconnection_count w) (_last_message_received_time w)
    (subscriptions w) (event w) (sent_frames w) (_active_transactions w)
    (_handler_semaphore w) (dicts w) (conns w) (tasks w) (uuids w) (now w) (trace w) (abandoned w).
Definition set_reconnection_count (x : nat) (w : world) : world :=
  mkWorld (_active_connection_state w) (_reconnect_lock w) (_task_group w)
    (_send_heartbeat_task w) (_monitor_no_message_task w) x (_last_message_received_time w)
    (subscriptions w) (event w) (sent_frames w) (_active_transactions w)
    (_handler_semaphore w) (dicts w) (conns w) (tasks w) (uuids w) (now w) (trace w) (abandoned w).
Definition set_last_message_received_time (x : Z) (w : world) : world :=
  mkWorld (_active_connection_state w) (_reconnect_lock w) (_task_group w)
    (_send_heartbeat_task w) (_monitor_no_message_task w) (_reconnection_count w) x
    (subscriptions w) (event w) (sent_frames w) (_active_transactions w)
    (_handler_semaphore w) (dicts w) (conns w) (tasks w) (uuids w) (now w) (trace w) (abandoned w).
Definition set_subscriptions (x : list (str * subscription)) (w : world) : world :=
  mkWorld (_active_connection_state w) (_reconnect_lock w) (_task_group w)
    (_send_heartbeat_task w) (_monitor_no_message_task w) (_reconnection_count w)
    (_last_message_received_time w) x (event w) (sent_frames w) (_active_transactions w)
    (_handler_semaphore w) (dicts w) (conns w) (tasks w) (uuids w) (now w) (trace w) (abandoned w).
Definition set_event (x : bool) (w : world) : world :=
  mkWorld (_active_connection_state w) (_reconnect_lock w) (_task_group w)
    (_send_heartbeat_task w) (_monitor_no_message_task w) (_reconnection_count w)
    (_last_message_received_time w) (subscriptions w) x (sent_frames w)
    (_active_transactions w) (_handler_semaphore w) (dicts w) (conns w) (tasks w) (uuids w)
    (now w) (trace w) (abandoned w).
Definition set_sent_frames (x : gmap str (list (dict * bytes))) (w : world) : world :=
  mkWorld (_active_connection_state w) (_reconnect_lock w) (_task_group w)
    (_send_heartbeat_task w) (_monitor_no_message_task w) (_reconnection_count w)
    (_last_message_received_time w) (subscriptions w) (event w) x (_active_transactions w)
    (_handler_semaphore w) (dicts w) (conns w) (tasks w) (uuids w) (now w) (trace w) (abandoned w).
Definition set_active_transactions (x : gset str) (w : world) : world :=
  mkWorld (_active_connection_state w) (_reconnect_lock w) (_task_group w)
    (_send_heartbeat_task w) (_monitor_no_message_task w) (_reconnection_count w)
    (_last_message_received_time w) (subscriptions w) (event w) (sent_frames w) x
    (_handler_semaphore w) (dicts w) (conns w) (tasks w) (uuids w) (now w) (trace w) (abandoned w).
Definition set_handler_semaphore (x : option nat) (w : world) : world :=
  mkWorld (_active_connection_state w) (_reconnect_lock w) (_task_group w)
    (_send_heartbeat_task w) (_monitor_no_message_task w) (_reconnection_count w)
    (_last_message_received_time w) (subscriptions w) (event w) (sent_frames w)
    (_active_transactions w) x (dicts w) (conns w) (tasks w) (uuids w) (now w) (trace w) (abandoned w).
Definition set_dicts (x : store) (w : world) : world :=
  mkWorld (_active_connection_state w) (_reconnect_lock w) (_task_group w)
    (_send_heartbeat_task w) (_monitor_no_message_task w) (_reconnection_count w)
    (_last_message_received_time w) (subscriptions w) (event w) (sent_frames w)
    (_active_transactions w) (_handler_semaphore w) x (conns w) (tasks w) (uuids w) (now w)
    (trace w) (abandoned w).
Definition set_conns (x : gmap nat connection_state) (w : world) : world :=
  mkWorld (_active_connection_state w) (_reconnect_lock w) (_task_group w)
    (_send_heartbeat_task w) (_monitor_no_message_task w) (_reconnection_count w)
    (_last_message_received_time w) (subscriptions w) (event w) (sent_frames w)
    (_active_transactions w) (_handler_semaphore w) (dicts w) x (tasks w) (uuids w) (now w)
    (trace w) (abandoned w).
Definition set_tasks (x : list background_task) (w : world) : world :=
  mkWorld (_active_connection_state w) (_reconnect_lock w) (_task_group w)
    (_send_heartbeat_task w) (_monitor_no_message_task w) (_reconnection_count w)
    (_last_message_received_time w) (subscriptions w) (event w) (sent_frames w)
    (_active_transactions w) (_handler_semaphore w) (dicts w) (conns w) x (uuids w) (now w)
    (trace w) (abandoned w).
Definition set_uuids (x : nat) (w : world) : world :=
  mkWorld (_active_connection_state w) (_reconnect_lock w) (_task_group w)
    (_send_heartbeat_task w) (_monitor_no_message_task w) (_reconnection_count w)
    (_last_message_received_time w) (subscriptions w) (event w) (sent_frames w)
    (_active_transactions w) (_handler_semaphore w) (dicts w) (conns w) (tasks w) x (now w)
    (trace w) (abandoned w).
Definition set_now (x : Z) (w : world) : world :=
  mkWorld (_active_connection_state w) (_reconnect_lock w) (_task_group w)
    (_send_heartbeat_task w) (_monitor_no_message_task w) (_reconnection_count w)
    (_last_message_received_time w) (subscriptions w) (event w) (sent_frames w)
    (_active_transactions w) (_handler_semaphore w) (dicts w) (conns w) (tasks w) (uuids w) x
    (trace w) (abandoned w).
Definition set_trace (x : list action) (w : world) : world :=
  mkWorld (_active_connection_state w) (_reconnect_lock w) (_task_group w)
    (_send_heartbeat_task w) (_monitor_no_message_task w) (_reconnection_count w)
    (_last_message_received_time w) (subscriptions w) (event w) (sent_frames w)
    (_active_transactions w) (_handler_semaphore w) (dicts w) (conns w) (tasks w) (uuids w)
    (now w) x (abandoned w).
Definition set_abandoned (x : list ConnectionParameters) (w : world) : world :=
  mkWorld (_active_connection_state w) (_reconnect_lock w) (_task_group w)
    (_send_heartbeat_task w) (_monitor_no_message_task w) (_reconnection_count w)
    (_last_message_received_time w) (subscriptions w) (event w) (sent_frames w)
    (_active_transactions w) (_handler_semaphore w) (dicts w) (conns w) (tasks w) (uuids w)
    (now w) (trace w) x.

Definition record_action (a : action) (w : world) : world := set_trace (trace w ++ [a]) w.
Definition log (l : level) (msg : string) (w : world) : world := record_action (Logged l msg) w.

(** [task_group.create_task(...)] and [task.cancel()]; a task is known by its position. *)
Definition create_task (b : task_body) (w : world) : world * nat :=
  (set_tasks (tasks w ++ [mkTask b false false]) w, length (tasks w)).

Definition cancel_task (k : nat) (w : world) : world :=
  set_tasks (alter (λ t, mkTask (task_code t) (started t) true) k (tasks w)) w.

(** Nothing that happened is forgotten. *)
Definition grows (w w' : world) : Prop := trace w `prefix_of` trace w'.

(** ** Awaits *)

Inductive awaitable :=
  | Sleep (ms : Z)
  | AcquireLock
  | NextConnection (pending : list ConnectionParameters)
  | Drain (c : nat)
  | SendMessage (c : nat) (f : frame headers)
  | WaitClosed (c : nat)
  | ReadChunk (c : nat) (timed : bool)
  | WaitTasks
  | WaitUntilEmpty
  | AcquireSemaphore
  | CallHandler (subscription_id : str) (f : frame headers).

(** The next of the connection attempts to complete, by its position among those still
    pending, with what the opening of the transport gave. *)
Definition answer (a : awaitable) : Type :=
  match a with
  | NextConnection _ => nat * outcome nat
  | ReadChunk _ _ => bytes
  | _ => unit
  end.

Abbreviation M := (prog world awaitable answer).

Definition sleep (ms : Z) : M unit := await (Sleep ms).
Definition acquire_lock : M unit := await AcquireLock.
Definition next_completed (pending : list ConnectionParameters) : M (nat * outcome nat) :=
  await (NextConnection pending).
Definition drain (c : nat) : M unit := await (Drain c).
Definition send_message (c : nat) (f : frame headers) : M unit := await (SendMessage c f).
Definition wait_closed (c : nat) : M unit := await (WaitClosed c).
Definition read_chunk (c : nat) (timed : bool) : M bytes := await (ReadChunk c timed).
Definition wait_tasks : M unit := await WaitTasks.
Definition wait_event : M unit := await WaitUntilEmpty.
Definition acquire_semaphore : M unit := await AcquireSemaphore.
Definition call_handler (subscription_id : str) (f : frame headers) : M unit :=
  await (CallHandler subscription_id f).

(** Exceptions of the operating system and of the transport. *)
Definition transport_error (e : exn) : bool :=
  is_os_error e || match e with RuntimeError | WebSocketException => true | _ => false end.

Definition open_connection (c : nat) (server : ConnectionParameters) (w : world) : world :=
  record_action (Opened c server) (set_conns (<[c := mkConn None false]> (conns w)) w).

(** What each await may give and do; a cancelled one raises and does nothing, save that
    a message may have left.  [dials] tells which servers the connection class attempts
    at all. *)
Definition completes (dials : ConnectionParameters → bool) (i : nat) (a : awaitable)
  : world → outcome (answer a) → world → Prop :=
  match a with
  | Sleep ms => λ w r w', r = Done tt ∧ w' = record_action (Slept ms) w
  | AcquireLock => λ w r w', _reconnect_lock w = None ∧ r = Done tt ∧ w' = set_lock (Some i) w
  | NextConnection pending => λ w r w',
    ∃ j server, pending !! j = Some server ∧
      ((∃ c, dials server = true ∧ conns w !! c = None ∧ r = Done (j, Done c) ∧
             w' = open_connection c server w) ∨
       (∃ e, transport_error e = true ∧ r = Done (j, Raised e) ∧ w' = w))
  | Drain c | WaitClosed c => λ w r w',
    w' = w ∧ (r = Done tt ∨ ∃ e, transport_error e = true ∧ r = Raised e)
  | SendMessage c f => λ w r w',
    (r = Done tt ∧ w' = record_action (Wrote c f) w) ∨
    (∃ e, transport_error e = true ∧ r = Raised e ∧ w' = w)
  | ReadChunk c timed => λ w r w',
    w' = w ∧ ((∃ raw, r = Done raw) ∨ (∃ e, transport_error e = true ∧ r = Raised e) ∨
              (timed = true ∧ r = Raised DeadlineExpired))
  | WaitTasks => λ w r w', w' = w ∧ (r = Done tt ∨ r = Raised ExceptionGroup)
  | WaitUntilEmpty => λ w r w', event w = true ∧ r = Done tt ∧ w' = w
  | AcquireSemaphore => λ w r w',
    ∃ n, _handler_semaphore w = Some (S n) ∧ r = Done tt ∧ w' = set_handler_semaphore (Some n) w
  | CallHandler sub f => λ w r w', w' = w ∧ (r = Done tt ∨ ∃ n, r = Raised (UserException n))
  end.

Definition cancels (a : awaitable) : world → world → Prop :=
  match a with
  | SendMessage c f => λ w w', w' = w ∨ w' = record_action (Wrote c f) w
  | _ => λ w w', w' = w
  end.

Definition awaits (dials : ConnectionParameters → bool) (i : nat) (a : awaitable)
    (w : world) (r : outcome (answer a)) (w' : world) : Prop :=
  completes dials i a w r w' ∨ (r = Raised CancelledError ∧ cancels a w w').
