(* ===== verification/Contract.v ===== *)
(** * What a client promises

    An abstract machine over the actions that can be observed of a client.  Its state says
    which connection is active, how many were lost, whether the client was left, and which
    frames were received; it accepts a history in which connections follow one another,
    received frames carry the epoch of their connection, frames are written with the headers
    of their type, an acknowledgement is written only on the connection its message came
    from, and a handler is called only with a message that was received for its subscription.
    The detailed model of the client refines it: see [Discipline.inv] and [Safety]. *)

From S2P Require Import Prelude Frames Config Errors Async World.

(** ** The machine *)

Record contract := mkContract {
  holds : option nat;
  losses : nat;
  departed : bool;
  inbox : list (nat * frame headers);
}.

Definition acknowledges (f : frame headers) : option headers :=
  match f with AckFrame h | NackFrame h => Some h | _ => None end.

(** The acknowledgement identifier of a message. *)
Definition ack_id (f : frame headers) : option str :=
  match f with
  | MessageFrame h _ => match h !! us "ack" with Some ((_ :: _) as id) => Some id | _ => None end
  | _ => None
  end.

(** The subscription that a message is for. *)
Definition subscription_of (f : frame headers) : option str :=
  match f with MessageFrame h _ => h !! us "subscription" | _ => None end.

Definition deliver (c : nat) (f : frame headers) (l : list (nat * frame headers))
  : list (nat * frame headers) :=
  l ++ [(c, f)].

Definition set_holds (x : option nat) (s : contract) : contract :=
  mkContract x (losses s) (departed s) (inbox s).

Definition may_receive (s : contract) (c epoch : nat) : Prop :=
  epoch ≤ losses s ∧ (epoch = losses s → holds s = Some c ∨ departed s = true).

#[export] Instance may_receive_dec s c epoch : Decision (may_receive s c epoch).
Proof. unfold may_receive. apply _. Defined.

Definition may_acknowledge (s : contract) (c : nat) (h : headers) : bool :=
  match h !! us "id" with
  | Some id => existsb (λ cf, bool_decide (cf.1 = c ∧ ack_id cf.2 = Some id)) (inbox s)
  | None => false
  end.

Definition may_handle (s : contract) (id : str) (f : frame headers) : bool :=
  existsb (λ cf, bool_decide (cf.2 = f ∧ subscription_of f = Some id)) (inbox s).

(** The frame is one that clients send, and its headers are of its type; a SEND is as its
    dictionary is when it is written, which the program may have changed since it was
    built. *)
Definition well_typed (f : frame headers) : bool :=
  AnyClientFrame f && match f with SendFrame _ _ => true | f => conforms f end.

Definition step (s : contract) (a : action) : option contract :=
  match a with
  | Installed c =>
    if decide (holds s = None ∧ departed s = false) then Some (set_holds (Some c) s) else None
  | Discarded c =>
    if decide (holds s = Some c)
    then Some (mkContract None (S (losses s)) (departed s) (inbox s)) else None
  | Released c =>
    if decide (holds s = Some c)
    then Some (mkContract None (losses s) true (inbox s)) else None
  | Received c epoch f =>
    if decide (may_receive s c epoch)
    then Some (mkContract (holds s) (losses s) (departed s) (deliver c f (inbox s))) else None
  | Wrote c f =>
    if negb (well_typed f) then None
    else match acknowledges f with
         | Some h => if may_acknowledge s c h then Some s else None
         | None => Some s
         end
  | Handled id f => if may_handle s id f then Some s else None
  | _ => Some s
  end.

Fixpoint run (s : contract) (l : list action) : option contract :=
  match l with
  | [] => Some s
  | a :: l' => step s a ≫= λ s', run s' l'
  end.

Definition fresh_contract : contract := mkContract None 0 false [].

(** ** What a history says *)

(** The connection that is active after the actions, if connections are installed when
    there is none, and dropped when they are active. *)
Fixpoint replay (current : option nat) (l : list action) : option (option nat) :=
  match l with
  | [] => Some current
  | Installed c :: l' =>
    match current with None => replay (Some c) l' | Some _ => None end
  | Discarded c :: l' | Released c :: l' =>
    if decide (current = Some c) then replay None l' else None
  | _ :: l' => replay current l'
  end.

Definition is_discard (a : action) : bool :=
  match a with Discarded _ => true | _ => false end.

Definition discards (l : list action) : nat := length (List.filter is_discard l).

Definition is_release (a : action) : bool :=
  match a with Released _ => true | _ => false end.

Definition inbox_of (l : list action) : list (nat * frame headers) :=
  omap (λ a, match a with Received c _ f => Some (c, f) | _ => None end) l.

(** The acknowledgement [h] answers a message that came from the connection [c]. *)
Definition answers_message (l : list action) (c : nat) (h : headers) : Prop :=
  ∃ epoch hm body id,
    Received c epoch (MessageFrame hm body) ∈ l ∧
    hm !! us "ack" = Some id ∧ h !! us "id" = Some id ∧ id ≠ [].

(** An action that the contract does not speak of. *)
Definition plain (a : action) : Prop :=
  match a with
  | Installed _ | Discarded _ | Released _ | Received _ _ _ | Handled _ _ => False
  | Wrote _ f => acknowledges f = None ∧ well_typed f = true
  | _ => True
  end.

(** ** Lemmas *)

Lemma run_app s l1 l2 : run s (l1 ++ l2) = run s l1 ≫= λ s', run s' l2.
Proof.
  revert s. induction l1 as [|a l1 IH]; intros s; [done|]. simpl.
  destruct (step s a) as [s'|]; [apply IH|done].
Qed.

Lemma step_plain s a : plain a → step s a = Some s.
Proof. destruct a; try done. simpl. by intros [-> ->]. Qed.

Lemma run_plain s l : Forall plain l → run s l = Some s.
Proof. induction 1 as [|a l Ha _ IH]; [done|]. simpl. by rewrite step_plain. Qed.

Lemma inbox_of_app l1 l2 : inbox_of (l1 ++ l2) = inbox_of l1 ++ inbox_of l2.
Proof. apply omap_app. Qed.

Lemma inbox_of_plain l : Forall plain l → inbox_of l = [].
Proof. induction 1 as [|a l Ha _ IH]; [done|]. by destruct a. Qed.

Lemma deliver_inbox c e f l : deliver c f l = l ++ inbox_of [Received c e f].
Proof. done. Qed.

Lemma ack_id_Some f id :
  ack_id f = Some id ↔ ∃ h body, f = MessageFrame h body ∧ h !! us "ack" = Some id ∧ id ≠ [].
Proof.
  split.
  - destruct f as [| | | | | | | | | | | | |h body| |]; try done. simpl.
    destruct (h !! us "ack") as [[|x id']|] eqn:Hh; try done.
    intros [= <-]. by exists h, body.
  - intros (h & body & -> & Hh & Hid). simpl. rewrite Hh. by destruct id.
Qed.

Lemma elem_of_inbox_of c f l : (c, f) ∈ inbox_of l ↔ ∃ epoch, Received c epoch f ∈ l.
Proof.
  unfold inbox_of. rewrite list_elem_of_omap. split.
  - intros (a & Ha & Hf). destruct a as [| | | | | | |c' e f'| | | | | |]; try done.
    injection Hf as -> ->. by exists e.
  - intros [e Hin]. by exists (Received c e f).
Qed.

Lemma may_acknowledge_true s c h :
  may_acknowledge s c h = true ↔
  ∃ id f, h !! us "id" = Some id ∧ (c, f) ∈ inbox s ∧ ack_id f = Some id.
Proof.
  unfold may_acknowledge. split.
  - destruct (h !! us "id") as [id|]; [|done]. intros ([c' f] & Hin & Hf)%existsb_exists.
    apply bool_decide_eq_true in Hf as [<- Hf]. exists id, f. by rewrite list_elem_of_In.
  - intros (id & f & -> & Hin & Hf). apply existsb_exists. exists (c, f).
    rewrite <-list_elem_of_In. split; [done|]. by apply bool_decide_eq_true.
Qed.

Lemma may_handle_true s id f :
  may_handle s id f = true ↔ subscription_of f = Some id ∧ ∃ c, (c, f) ∈ inbox s.
Proof.
  unfold may_handle. rewrite existsb_exists. split.
  - intros ([c f'] & Hin & Hf). apply bool_decide_eq_true in Hf as [<- Hf].
    split; [done|]. exists c. by rewrite list_elem_of_In.
  - intros (Hf & c & Hin). exists (c, f). rewrite <-list_elem_of_In. split; [done|].
    by apply bool_decide_eq_true.
Qed.

Lemma answers_message_grows l l' c h :
  l ⊆ l' → answers_message l c h → answers_message l' c h.
Proof. intros Hl (e & hm & b & a & H1 & H2). exists e, hm, b, a. split; [by apply Hl|done]. Qed.

(** *** What an accepted history is like *)

(** One step, from its end. *)
Lemma run_snoc s l a s' :
  run s (l ++ [a]) = Some s' ↔ ∃ s1, run s l = Some s1 ∧ step s1 a = Some s'.
Proof.
  rewrite run_app. destruct (run s l) as [s1|]; simpl; [|naive_solver].
  destruct (step s1 a) as [s2|] eqn:Ha; simpl; naive_solver.
Qed.

Lemma step_inv s a s' :
  step s a = Some s' →
  match a with
  | Installed c => holds s = None ∧ departed s = false ∧ s' = set_holds (Some c) s
  | Discarded c =>
    holds s = Some c ∧ s' = mkContract None (S (losses s)) (departed s) (inbox s)
  | Released c => holds s = Some c ∧ s' = mkContract None (losses s) true (inbox s)
  | Received c epoch f =>
    may_receive s c epoch ∧
    s' = mkContract (holds s) (losses s) (departed s) (deliver c f (inbox s))
  | Wrote c f =>
    well_typed f = true ∧
    (∀ h, acknowledges f = Some h → may_acknowledge s c h = true) ∧ s' = s
  | Handled id f => may_handle s id f = true ∧ s' = s
  | _ => s' = s
  end.
Proof.
  destruct a; simpl; try (by intros [= ->]); try (case_decide; [|done]); try (intros [= <-]).
  - destruct (well_typed f); [|done]. simpl. intros Ha. split; [done|].
    destruct (acknowledges f) as [h|]; [|by injection Ha].
    destruct (may_acknowledge s c h) eqn:Hm; [|done]. injection Ha as ->. split; [|done].
    by intros h' [= <-].
  - by destruct H.
  - done.
  - done.
  - done.
  - by destruct (may_handle s subscription_id f); [intros [= ->]|].
Qed.

Ltac inv_step H :=
  apply step_inv in H; simpl in H; destruct_and?; subst; simpl in *.

Lemma run_replay s l s' : run s l = Some s' → replay (holds s) l = Some (holds s').
Proof.
  revert s. induction l as [|a l IH]; intros s; simpl; [by intros [= ->]|].
  intros (s1 & Ha & Hr)%bind_Some. specialize (IH s1 Hr).
  destruct a; inv_step Ha; try done; try by rewrite decide_True.
  by destruct (holds s).
Qed.

Lemma run_losses s l s' : run s l = Some s' → losses s' = losses s + discards l.
Proof.
  unfold discards. revert s. induction l as [|a l IH]; intros s; simpl; [intros [= ->]; lia|].
  intros (s1 & Ha & Hr)%bind_Some. specialize (IH s1 Hr).
  destruct a; inv_step Ha; lia.
Qed.

Lemma run_departed s l s' :
  run s l = Some s' → departed s' = departed s || existsb is_release l.
Proof.
  revert s. induction l as [|a l IH]; intros s; simpl; [intros [= ->]; by rewrite orb_false_r|].
  intros (s1 & Ha & Hr)%bind_Some. specialize (IH s1 Hr).
  destruct a; inv_step Ha; try done. by rewrite IH, orb_true_r.
Qed.

Lemma run_inbox s l s' : run s l = Some s' → inbox s' = inbox s ++ inbox_of l.
Proof.
  revert s. induction l as [|a l IH]; intros s; [intros [= ->]; by rewrite app_nil_r|].
  intros (s1 & Ha & Hr)%bind_Some. rewrite (IH s1 Hr).
  change (inbox_of (a :: l)) with (inbox_of ([a] ++ l)).
  rewrite inbox_of_app, (assoc_L (++)). f_equal.
  destruct a; inv_step Ha; try (by rewrite app_nil_r). by rewrite (deliver_inbox _ epoch).
Qed.

(** Once delivered, a frame stays within what [may_receive] says. *)
Lemma step_may_receive s a s' c epoch :
  step s a = Some s' → may_receive s c epoch → may_receive s' c epoch.
Proof.
  unfold may_receive. intros Ha [Hle Heq].
  destruct a; inv_step Ha; try done.
  - split; [done|]. intros ->. destruct Heq; [done|congruence..].
  - split; lia.
  - by split; [|right].
Qed.

Lemma run_received s l s' c epoch f :
  run s l = Some s' → Received c epoch f ∈ l → may_receive s' c epoch.
Proof.
  revert s'. induction l as [|a l IH] using rev_ind; intros s'; [by intros _ ?%elem_of_nil|].
  intros (s1 & Hr & Ha)%run_snoc [Hin|Hin%list_elem_of_singleton]%elem_of_app.
  - eapply step_may_receive; [done|]. by apply IH.
  - subst a. by inv_step Ha.
Qed.

Lemma run_acks l s' c f h :
  run fresh_contract l = Some s' → Wrote c f ∈ l → acknowledges f = Some h →
  answers_message l c h.
Proof.
  revert s'. induction l as [|a l IH] using rev_ind; intros s'; [by intros _ ?%elem_of_nil|].
  intros (s1 & Hr & Ha)%run_snoc [Hin|Hin%list_elem_of_singleton]%elem_of_app Hf.
  - eapply answers_message_grows; [|by eapply IH]. set_solver.
  - subst a. apply step_inv in Ha as (_ & Ha & _). specialize (Ha h Hf). unfold may_acknowledge in Ha.
    eapply (answers_message_grows l); [set_solver|].
    apply may_acknowledge_true in Ha as (id & f0 & Hh & Hin & Hf0). apply run_inbox in Hr.
    rewrite Hr in Hin. apply elem_of_inbox_of in Hin as [e Hin].
    apply ack_id_Some in Hf0 as (hm & body & -> & Hm & Hne). by exists e, hm, body, id.
Qed.

(** A handler is called with a message that was received before, for its subscription. *)
Lemma run_handled l s' id f :
  run fresh_contract l = Some s' → Handled id f ∈ l →
  subscription_of f = Some id ∧ ∃ c epoch, Received c epoch f ∈ l.
Proof.
  revert s'. induction l as [|a l IH] using rev_ind; intros s'; [by intros _ ?%elem_of_nil|].
  intros (s1 & Hr & Ha)%run_snoc [Hin|Hin%list_elem_of_singleton]%elem_of_app.
  - destruct (IH _ Hr Hin) as (Hf & c & e & H). split; [done|]. exists c, e. set_solver.
  - subst a. apply step_inv in Ha as [Ha _]. apply may_handle_true in Ha as (Hf & c & Ha).
    apply run_inbox in Hr. rewrite Hr in Ha. apply elem_of_inbox_of in Ha as [e Ha].
    split; [done|]. exists c, e. set_solver.
Qed.

Lemma run_typed s l s' c f : run s l = Some s' → Wrote c f ∈ l → well_typed f = true.
Proof.
  revert s. induction l as [|a l IH]; intros s; [by intros _ ?%elem_of_nil|]. simpl.
  intros (s1 & Ha & Hr)%bind_Some [<-|Hin]%elem_of_cons; [|by eapply IH].
  apply step_inv in Ha. by destruct Ha.
Qed.

Lemma conforms_lookup f t h b k :
  conforms f = true → parts f = Some (t, h, b) → k ∈ required_keys t → is_Some (h !! k).
Proof.
  unfold conforms. intros Hc Hp Hk. rewrite Hp in Hc. apply list_elem_of_In in Hk.
  apply forallb_forall with (x := k) in Hc; [|done]. by apply bool_decide_eq_true in Hc.
Qed.

Lemma well_typed_keys f t h b k :
  well_typed f = true → parts f = Some (t, h, b) → t ≠ TSend → k ∈ required_keys t →
  is_Some (h !! k).
Proof.
  intros Hf Hp Ht. eapply conforms_lookup; [|done].
  apply andb_true_iff in Hf as [_ Hf]. destruct f; simpl in Hp; try done. injection Hp. congruence.
Qed.

(** *** Accepted steps *)

Lemma run_installed s c :
  holds s = None → departed s = false → run s [Installed c] = Some (set_holds (Some c) s).
Proof. intros H1 H2. simpl. by rewrite decide_True. Qed.

Lemma run_discarded s c :
  holds s = Some c →
  run s [Discarded c] = Some (mkContract None (S (losses s)) (departed s) (inbox s)).
Proof. intros H. simpl. by rewrite decide_True. Qed.

Lemma run_released s c :
  holds s = Some c → run s [Released c] = Some (mkContract None (losses s) true (inbox s)).
Proof. intros H. simpl. by rewrite decide_True. Qed.

Lemma run_receive s c epoch f :
  may_receive s c epoch →
  run s [Received c epoch f] =
  Some (mkContract (holds s) (losses s) (departed s) (deliver c f (inbox s))).
Proof. intros H. simpl. by rewrite decide_True. Qed.

Lemma run_acknowledge s c f h :
  well_typed f = true → acknowledges f = Some h → may_acknowledge s c h = true →
  run s [Wrote c f] = Some s.
Proof. intros H0 H1 H2. simpl. rewrite H0, H1. simpl. by rewrite H2. Qed.

Lemma run_handles s id f : may_handle s id f = true → run s [Handled id f] = Some s.
Proof. intros H. simpl. by rewrite H. Qed.
