(* ===== verification/Discipline.v ===== *)
(** * The discipline of the shared state

    What every task of a running client respects when it changes the shared state, and
    the invariant that follows.  [guar i] is what task [i] guarantees of each of its
    steps, [rely i] what it may assume of the others. *)

From S2P Require Import Prelude Frames Config Errors Async World Contract.

(** ** The invariant *)

(** The connection was given up because the client was left. *)
Definition released (w : world) : bool := existsb is_release (trace w).

(** The state of the contract that the state of the client stands for. *)
Definition contract_of (w : world) : contract :=
  mkContract (connection <$> _active_connection_state w) (_reconnection_count w) (released w)
    (inbox_of (trace w)).

(** A SUBSCRIBE frame with this identifier was written, on some connection. *)
Definition was_subscribed (l : list action) (id : str) : Prop :=
  ∃ c h, Wrote c (SubscribeFrame h) ∈ l ∧ h !! us "id" = Some id.

Record inv (w : world) : Prop := {
  inv_contract : run fresh_contract (trace w) = Some (contract_of w);
  inv_released :
    released w = true → _task_group w = GroupFinished ∧ _active_connection_state w = None;
  inv_handlers t sub_id sub h body epoch :
    t ∈ tasks w → task_code t = RunHandler sub_id sub h body epoch →
    h !! us "subscription" = Some sub_id ∧
    ∃ c, Received c epoch (MessageFrame h body) ∈ trace w;
  inv_event : event w = bool_decide (subscriptions w = []);
  inv_ids : NoDup (subscriptions w).*1;
  inv_told id : id ∈ (subscriptions w).*1 → was_subscribed (trace w) id;
}.

(** ** Rely and guarantee *)

Record guar (i : nat) (w w' : world) : Prop := {
  guar_grows : grows w w';
  guar_count : _reconnection_count w ≤ _reconnection_count w';
  guar_active s :
    _reconnection_count w' = _reconnection_count w →
    _active_connection_state w = Some s →
    _active_connection_state w' = Some s ∨ released w' = true;
  guar_group : _task_group w = GroupFinished → _task_group w' = GroupFinished;
  guar_lock j :
    j ≠ i → _reconnect_lock w = Some j →
    _reconnect_lock w' = Some j ∧
    (_active_connection_state w = None →
     _active_connection_state w' = None ∧ released w' = released w);
  guar_inv : inv w → inv w';
}.

Record rely (i : nat) (w w' : world) : Prop := {
  rely_grows : grows w w';
  rely_count : _reconnection_count w ≤ _reconnection_count w';
  rely_active s :
    _reconnection_count w' = _reconnection_count w →
    _active_connection_state w = Some s →
    _active_connection_state w' = Some s ∨ released w' = true;
  rely_group : _task_group w = GroupFinished → _task_group w' = GroupFinished;
  rely_lock :
    _reconnect_lock w = Some i →
    _reconnect_lock w' = Some i ∧
    (_active_connection_state w = None →
     _active_connection_state w' = None ∧ released w' = released w);
  rely_inv : inv w → inv w';
}.

Definition is_handler (b : task_body) : bool :=
  match b with RunHandler _ _ _ _ _ => true | _ => false end.

Definition subs_ok (w : world) : Prop :=
  event w = bool_decide (subscriptions w = []) ∧ NoDup (subscriptions w).*1 ∧
  ∀ id, id ∈ (subscriptions w).*1 → was_subscribed (trace w) id.

(** A step that concerns none of this: it adds plain actions to the history, creates no
    handler task, and leaves the connection, the lock and the epoch alone. *)
Record quiet (w w' : world) : Prop := {
  quiet_active : _active_connection_state w' = _active_connection_state w;
  quiet_lock : _reconnect_lock w' = _reconnect_lock w;
  quiet_count : _reconnection_count w' = _reconnection_count w;
  quiet_group : _task_group w' = _task_group w;
  quiet_trace : ∃ l, trace w' = trace w ++ l ∧ Forall plain l;
  quiet_tasks t : t ∈ tasks w' → is_handler (task_code t) = true →
    ∃ t', t' ∈ tasks w ∧ task_code t' = task_code t;
  quiet_subs : subs_ok w → subs_ok w';
}.

(** ** Lemmas *)

Lemma was_subscribed_app l l' id : was_subscribed l id → was_subscribed (l ++ l') id.
Proof. intros (c & h & Hin & Hh). exists c, h. split; [|done]. apply elem_of_app. by left. Qed.

Lemma released_app l w w' :
  trace w' = trace w ++ l → released w' = released w || existsb is_release l.
Proof. unfold released. intros ->. apply existsb_app. Qed.

Lemma released_plain l : Forall plain l → existsb is_release l = false.
Proof. induction 1 as [|a l Ha _ IH]; [done|]. by destruct a. Qed.

Lemma released_grows w w' : grows w w' → released w = true → released w' = true.
Proof. intros [l Hl] H. by rewrite (released_app l w w' Hl), H. Qed.

(** *** What the contract says of a state *)

Lemma inv_history w :
  inv w → replay None (trace w) = Some (connection <$> _active_connection_state w).
Proof. intros Hw%inv_contract. by apply (run_replay _ _ _ Hw). Qed.

Lemma inv_count w : inv w → _reconnection_count w = discards (trace w).
Proof. intros Hw%inv_contract. apply (run_losses _ _ _ Hw). Qed.

Lemma inv_received w :
  inv w → ∀ c epoch f, Received c epoch f ∈ trace w →
  epoch ≤ _reconnection_count w ∧
  (epoch = _reconnection_count w →
   connection <$> _active_connection_state w = Some c ∨ released w = true).
Proof. intros Hw%inv_contract c epoch f. by apply (run_received _ _ _ _ _ _ Hw). Qed.

Lemma inv_acks w :
  inv w → ∀ c f h, Wrote c f ∈ trace w → acknowledges f = Some h → answers_message (trace w) c h.
Proof. intros Hw%inv_contract c f h. by apply (run_acks _ _ _ _ _ Hw). Qed.

(** The actions [l] are those the contract allows next, and lead to the new state. *)
Lemma contract_step l w w' :
  trace w' = trace w ++ l → run (contract_of w) l = Some (contract_of w') →
  run fresh_contract (trace w) = Some (contract_of w) →
  run fresh_contract (trace w') = Some (contract_of w').
Proof. intros -> Hl Hw. by rewrite run_app, Hw. Qed.

Lemma quiet_refl w : quiet w w.
Proof. split; eauto. exists []. by rewrite app_nil_r. Qed.

Lemma quiet_grows w w' : quiet w w' → grows w w'.
Proof. intros [_ _ _ _ (l & Ht & _) _ _]. by exists l. Qed.

Lemma quiet_released w w' : quiet w w' → released w' = released w.
Proof.
  intros [_ _ _ _ (l & Ht & Hl) _ _]. rewrite (released_app l w w' Ht), (released_plain l Hl).
  by destruct (released w).
Qed.

Lemma contract_of_step l w w' :
  trace w' = trace w ++ l →
  contract_of w' =
    mkContract (connection <$> _active_connection_state w') (_reconnection_count w')
      (released w || existsb is_release l) (inbox_of (trace w) ++ inbox_of l).
Proof.
  intros Hl. unfold contract_of. rewrite (released_app l w w' Hl). f_equal.
  by rewrite Hl, inbox_of_app.
Qed.

(** A step that takes actions and touches neither tasks nor subscriptions. *)
Lemma acts_inv l w w' :
  trace w' = trace w ++ l → tasks w' = tasks w →
  subscriptions w' = subscriptions w → event w' = event w →
  (inv w → run (contract_of w) l =
    Some (mkContract (connection <$> _active_connection_state w') (_reconnection_count w')
            (released w || existsb is_release l) (inbox_of (trace w) ++ inbox_of l))) →
  (inv w → released w || existsb is_release l = true →
   _task_group w' = GroupFinished ∧ _active_connection_state w' = None) →
  inv w → inv w'.
Proof.
  intros Hl Ht Hs He Hrun Hrel Hw. pose proof (Hrun Hw) as Hrun'. pose proof (Hrel Hw) as Hrel'.
  destruct Hw as [H1 H0 H5 H6 H7 H8]. split.
  - eapply (contract_step l w); [done| |done]. by rewrite (contract_of_step l w w' Hl).
  - by rewrite (released_app l w w' Hl).
  - rewrite Ht. intros t id sub h b e Hin Hcode.
    destruct (H5 t id sub h b e Hin Hcode) as [Hid [c Hc']]. split; [done|]. exists c. rewrite Hl.
    set_solver.
  - by rewrite He, Hs.
  - by rewrite Hs.
  - rewrite Hs, Hl. intros id Hid. by apply was_subscribed_app, H8.
Qed.

Lemma quiet_contract w w' : quiet w w' → contract_of w' = contract_of w.
Proof.
  intros Hq. unfold contract_of. rewrite (quiet_released w w' Hq).
  destruct Hq as [-> _ -> _ (l & -> & Hl) _ _].
  by rewrite inbox_of_app, (inbox_of_plain l Hl), app_nil_r.
Qed.

Lemma quiet_inv w w' : quiet w w' → inv w → inv w'.
Proof.
  intros Hq. pose proof (quiet_released w w' Hq) as Hrel.
  pose proof (quiet_contract w w' Hq) as Hcon.
  destruct Hq as [Ha Hl Hc Hg (l & Ht & Hpl) Htk Hs]. intros [H1 H0 H5 H6 H7 H8].
  destruct (Hs (conj H6 (conj H7 H8))) as (H6' & H7' & H8').
  split; [..|done|done|done].
  - eapply (contract_step l w); [done| |done]. rewrite Hcon. by apply run_plain.
  - by rewrite Hrel, Hg, Ha.
  - intros t id sub h b e Hin Hcode.
    destruct (Htk t Hin) as (t' & Hin' & Hcode'); [by rewrite Hcode|].
    rewrite Hcode in Hcode'. destruct (H5 t' id sub h b e Hin' Hcode') as [Hid [c Hc']].
    split; [done|]. exists c. rewrite Ht. set_solver.
Qed.

Lemma quiet_guar i w w' : quiet w w' → guar i w w'.
Proof.
  intros Hq. pose proof (quiet_grows w w' Hq). pose proof (quiet_inv w w' Hq).
  pose proof (quiet_released w w' Hq) as Hr. destruct Hq as [Ha Hl Hc Hg _ _ _].
  split; [done|lia|by intros; rewrite Ha; left|by rewrite Hg|by intros; rewrite Hl, Ha, Hr|done].
Qed.

(** An action that the contract allows where it stands. *)
Lemma record_guar i a w :
  match a with Wrote _ _ | Handled _ _ => True | _ => False end →
  (inv w → run (contract_of w) [a] = Some (contract_of w)) → guar i w (record_action a w).
Proof.
  intros Ha Hrun. set (w' := record_action a w).
  assert (released w' = released w) as Hr.
  { rewrite (released_app [a] w w'); [|done]. by destruct a; rewrite ?orb_false_r. }
  split; simpl; [by eexists|lia|by left|done| |].
  { intros j _ Hj. split; [done|]. by split. }
  apply (acts_inv [a]); try done.
  - intros Hw. rewrite (Hrun Hw). unfold contract_of. by destruct a; rewrite ?orb_false_r, ?app_nil_r.
  - intros Hw Hrel. apply (inv_released w Hw). revert Hrel.
    by destruct a; simpl; rewrite ?orb_false_r.
Qed.

Lemma guar_rely i j w w' : i ≠ j → guar j w w' → rely i w w'.
Proof. intros Hij [H1 H2 H3 H4 H5 H6]. split; eauto. Qed.

Lemma rely_refl i w : rely i w w.
Proof. split; eauto. by unfold grows. Qed.

Lemma rely_trans i w1 w2 w3 : rely i w1 w2 → rely i w2 w3 → rely i w1 w3.
Proof.
  intros [a1 a2 a3 a4 a5 a6] [b1 b2 b3 b4 b5 b6]. split.
  - unfold grows in *. by etrans.
  - lia.
  - intros s Hc Hs. destruct (a3 s) as [Hs2|Hr]; [lia|done|apply b3; [lia|done]|].
    right. by eapply released_grows.
  - auto.
  - intros Hl. destruct (a5 Hl) as [Hl2 Ha2]. destruct (b5 Hl2) as [Hl3 Ha3].
    split; [done|]. intros Ha. destruct (Ha2 Ha) as [Hn Hr]. destruct (Ha3 Hn). split; congruence.
  - auto.
Qed.

(** ** Facts that stay true *)

(** A predicate that the others and a well-behaved task keep. *)
Definition stable (i : nat) (P : world → Prop) : Prop :=
  (∀ w w', rely i w w' → P w → P w') ∧ (∀ w w', guar i w w' → P w → P w').

Lemma stable_true i : stable i (λ _, True).
Proof. by split. Qed.

Lemma stable_and i P P' : stable i P → stable i P' → stable i (λ w, P w ∧ P' w).
Proof. intros [H1 H2] [H3 H4]. split; naive_solver. Qed.

Lemma stable_inv i : stable i inv.
Proof. split; intros w w' H; [apply (rely_inv _ _ _ H)|apply (guar_inv _ _ _ H)]. Qed.

Lemma stable_happened i a : stable i (λ w, a ∈ trace w).
Proof.
  split; intros w w' H Ha.
  - destruct (rely_grows _ _ _ H) as [l Hl]. rewrite Hl. set_solver.
  - destruct (guar_grows _ _ _ H) as [l Hl]. rewrite Hl. set_solver.
Qed.

(** The epoch is over, or the connection it belongs to is still the active one, or the
    client has been left. *)
Definition epoch_of (s : ActiveConnectionState) (epoch : nat) (w : world) : Prop :=
  epoch ≤ _reconnection_count w ∧
  (epoch = _reconnection_count w → _active_connection_state w = Some s ∨ released w = true).

Lemma stable_epoch i s epoch : stable i (epoch_of s epoch).
Proof.
  split; intros w w' H [Hle Heq].
  - pose proof (rely_count _ _ _ H). split; [lia|].
    intros ->. destruct Heq as [Ha|Hr]; [lia| |].
    + apply (rely_active _ _ _ H); [lia|done].
    + right. eapply released_grows; [by eapply rely_grows|done].
  - pose proof (guar_count _ _ _ H). split; [lia|].
    intros ->. destruct Heq as [Ha|Hr]; [lia| |].
    + apply (guar_active _ _ _ H); [lia|done].
    + right. eapply released_grows; [by eapply guar_grows|done].
Qed.

(** An assertion that is stable and implies the invariant. *)
Record tight (i : nat) (P : world → Prop) : Prop := {
  tight_stable : stable i P;
  tight_inv w : P w → inv w;
}.

Lemma inv_tight i : tight i inv.
Proof. split; [apply stable_inv|done]. Qed.

Lemma tight_and i P P' : stable i P → tight i P' → tight i (λ w, P w ∧ P' w).
Proof. intros H1 [H2 H3]. split; [by apply stable_and|]. intros w [_ H]. auto. Qed.

(** The task group of the manager was left, and is not entered again. *)
Lemma stable_finished i : stable i (λ w, _task_group w = GroupFinished).
Proof. split; intros w w' H; [apply (rely_group _ _ _ H)|apply (guar_group _ _ _ H)]. Qed.

(** ** Quiet steps *)

Lemma quiet_trans w1 w2 w3 : quiet w1 w2 → quiet w2 w3 → quiet w1 w3.
Proof.
  intros [a1 a2 a3 a0 (l & a4 & Hl) a5 a6] [b1 b2 b3 b0 (l' & b4 & Hl') b5 b6]. split.
  1-4: congruence.
  - exists (l ++ l'). rewrite b4, a4, (assoc_L (++)). split; [done|]. by apply Forall_app.
  - intros t Ht Hh. destruct (b5 t Ht Hh) as (t2 & Ht2 & Hc2).
    destruct (a5 t2 Ht2) as (t1 & Ht1 & Hc1); [by rewrite Hc2|]. exists t1. by rewrite Hc1.
  - auto.
Qed.

(** What concerns neither the connection, the lock, the epoch nor the subscriptions. *)
Lemma quiet_same w w' :
  _active_connection_state w' = _active_connection_state w →
  _reconnect_lock w' = _reconnect_lock w →
  _reconnection_count w' = _reconnection_count w → _task_group w' = _task_group w →
  trace w' = trace w → tasks w' = tasks w →
  subscriptions w' = subscriptions w → event w' = event w → quiet w w'.
Proof.
  intros H1 H2 H3 H0 H4 H5 H6 H7. split; [done..| | |].
  - exists []. by rewrite app_nil_r.
  - rewrite H5. by eauto.
  - unfold subs_ok. by rewrite H4, H6, H7.
Qed.

Lemma quiet_record a w : plain a → quiet w (record_action a w).
Proof.
  intros Ha. split; simpl; try done; [by exists [a]; auto|by eauto|].
  intros (H1 & H2 & H3). split_and!; [done..|]. intros id Hid. by apply was_subscribed_app, H3.
Qed.

Lemma quiet_create_task b w : is_handler b = false → quiet w (create_task b w).1.
Proof.
  intros Hb. split; simpl; try done; [exists []; by rewrite app_nil_r|].
  intros t [Ht|Ht]%elem_of_app; [by eauto|]. apply list_elem_of_singleton in Ht as ->.
  simpl. by rewrite Hb.
Qed.

Lemma elem_of_alter {A} (f : A → A) (k : nat) (l : list A) x :
  x ∈ alter f k l → x ∈ l ∨ ∃ y, y ∈ l ∧ x = f y.
Proof.
  intros [j Hj]%list_elem_of_lookup. rewrite list_lookup_alter in Hj. case_decide.
  - apply fmap_Some in Hj as (y & Hy & ->). right. exists y. split; [|done].
    by eapply list_elem_of_lookup_2.
  - left. by eapply list_elem_of_lookup_2.
Qed.

Lemma quiet_cancel_task k w : quiet w (cancel_task k w).
Proof.
  split; simpl; try done; [exists []; by rewrite app_nil_r|].
  intros t [Ht|(t' & Ht & ->)]%elem_of_alter; by eauto.
Qed.

(** The state of the task group changes, but not once it is finished; no action is taken. *)
Lemma group_guar i g w :
  (_task_group w = GroupFinished → g = GroupFinished) → guar i w (set_task_group g w).
Proof.
  intros Hg. split; simpl; [by exists []; rewrite app_nil_r|lia|by left|done|done|].
  intros [H1 H0 H5 H6 H7 H8]. split; simpl; try done.
  intros Hr. destruct (H0 Hr). auto.
Qed.

Definition is_ack {H} (f : frame H) : bool :=
  match f with AckFrame _ | NackFrame _ => true | _ => false end.

(** A frame that may be written at any time: it is a client's, no acknowledgement and,
    whatever the program does to its dictionaries, has the headers of its type. *)
Definition sendable (f : frame dict) : bool :=
  negb (is_ack f) && AnyClientFrame f &&
  match f with
  | SendFrame _ _ => true
  | f => match parts f with
         | Some (_, Own _, _) => conforms (snapshot [] f)
         | Some (_, Shared _, _) => false
         | None => true
         end
  end.

Lemma sendable_plain c σ f : sendable f = true → plain (Wrote c (snapshot σ f)).
Proof. by destruct f as [[]|[]|[]|[] b|[]|[]|[]|[]|[]|[]|[]|[]|[]|[] b|[] b|]. Qed.

(** A new dictionary that begins with the keys its type requires. *)
Lemma conforms_keys f t h b :
  parts f = Some (t, h, b) → Forall (λ k, is_Some (h !! k)) (required_keys t) →
  conforms f = true.
Proof.
  unfold conforms. intros -> H. apply forallb_forall. intros k Hk.
  apply bool_decide_eq_true. rewrite Forall_forall in H. apply H. by apply list_elem_of_In.
Qed.
