(* ===== verification/Connection.v ===== *)
(** * Connections (stompman/connection.py, stompman/connection_ws.py)

    The protocol [AbstractConnection] as a class of operations, its TCP and WebSocket
    implementations, and the part of [read_frames] they share. *)

From S2P Require Import Prelude Frames Serde FrameParser PyInt Config Errors Async World.

(** [with reraise_connection_lost(causes): t] *)
Definition reraise_connection_lost {A} (causes : exn → bool) (t : M A) : M A :=
  try_except t causes (λ e, Raise (ConnectionLostError (LostByException (exn_name e)))).

(** [with suppress(causes): t] *)
Definition suppress (causes : exn → bool) (t : M unit) : M unit :=
  try_except t causes (λ _, Ret tt).

(** [dump_frame(frame)], with what the frame's dictionary holds now. *)
Definition dumped (f : frame dict) : M (frame headers) :=
  w ← get;
  let fr := snapshot (dicts w) f in
  _ ← of_outcome (to_outcome (dump_frame fr));
  mret fr.

Class AbstractConnection := {
  (** the servers that [connect] dials at all *)
  dials : ConnectionParameters → bool;
  (** [connect], given what the opening of the transport gave *)
  connect : ConnectionParameters → outcome nat → outcome (option nat);
  close : nat → M unit;
  write_heartbeat : nat → M unit;
  write_frame : nat → frame dict → M unit;
  (** the [await] of [read_frames], with its checks; the flag says that a timer runs *)
  read_bytes : nat → bool → M bytes;
}.

(** [ws_uri_path] is a non-empty text. *)
Definition has_ws_path (server : ConnectionParameters) : bool :=
  match ws_uri_path server with Some (_ :: _) => true | _ => false end.

(** ** Connection *)

Module Tcp.
Definition connect (server : ConnectionParameters) (opened : outcome nat)
  : outcome (option nat) :=
  if has_ws_path server then
    Raised (PyError (AssertionError
      "only stompman.connection_ws.WebSocketConnection supports ws_uri_path argument"))
  else match opened with
       | Done c => Done (Some c)
       | Raised (TimeoutError | ConnectionError | gaierror) => Done None
       | Raised e => Raised e
       end.

(** [self.writer.write(...)], which raises when the transport refuses. *)
Definition writer_write (c : nat) (a : action) : M unit :=
  ok ← sync (λ w, match conns w !! c with
                  | Some (mkConn _ true) => (w, false)
                  | _ => (record_action a w, true)
                  end);
  if (ok : bool) then mret tt else Raise RuntimeError.

Definition close (c : nat) : M unit :=
  _ ← modify (record_action (CloseCalled c));
  suppress is_connection_error (wait_closed c).

Definition write_heartbeat (c : nat) : M unit :=
  reraise_connection_lost is_runtime_error (writer_write c (WroteHeartbeat c)).

Definition write_frame (c : nat) (f : frame dict) : M unit :=
  _ ← reraise_connection_lost is_runtime_error
        (fr ← dumped f; writer_write c (Wrote c fr));
  reraise_connection_lost is_connection_error (drain c).

Definition _read_non_empty_bytes (c : nat) (timed : bool) : M bytes :=
  chunk ← read_chunk c timed;
  match chunk with
  | [] => Raise (ConnectionLostError (LostByMessage "eof"))
  | _ => mret chunk
  end.

Definition read_bytes (c : nat) (timed : bool) : M bytes :=
  reraise_connection_lost is_connection_error (_read_non_empty_bytes c timed).
End Tcp.

Definition Connection : AbstractConnection := {|
  dials server := negb (has_ws_path server);
  connect := Tcp.connect;
  close := Tcp.close;
  write_heartbeat := Tcp.write_heartbeat;
  write_frame := Tcp.write_frame;
  read_bytes := Tcp.read_bytes;
|}.

(** ** WebSocketConnection *)

Module Ws.
Definition strip_slashes (s : str) : str :=
  let drop_left := fix go (l : str) := match l with
                                       | c :: l' => if decide (c = 47%N) then go l' else l
                                       | [] => []
                                       end in
  reverse (drop_left (reverse (drop_left s))).

Definition uri (server : ConnectionParameters) : result str :=
  let path := match ws_uri_path server with Some p => strip_slashes p | None => [] end in
  port_text ← int_text (port server);
  mret (us "ws://" ++ host server ++ us ":" ++ port_text ++ us "/" ++ path).

Definition is_lost (e : exn) : bool :=
  is_os_error e || match e with RuntimeError | WebSocketException => true | _ => false end.

Definition connect (server : ConnectionParameters) (opened : outcome nat)
  : outcome (option nat) :=
  match uri server with
  | Err e => Raised (PyError e)
  | Ok _ =>
    match opened with
    | Done c => Done (Some c)
    | Raised (TimeoutError | OSError | ConnectionError | gaierror | WebSocketException) =>
      Done None
    | Raised e => Raised e
    end
  end.

Definition close (c : nat) : M unit :=
  _ ← modify (record_action (CloseCalled c));
  suppress (λ e, match e with WebSocketException => true | _ => false end)
           (wait_closed c).

(** The send runs in a task of its own, so nothing is raised here. *)
Definition write_heartbeat (c : nat) : M unit :=
  reraise_connection_lost is_lost (modify (record_action (WroteHeartbeat c))).

Definition write_frame (c : nat) (f : frame dict) : M unit :=
  reraise_connection_lost is_lost (fr ← dumped f; send_message c fr).

Definition read_bytes (c : nat) (timed : bool) : M bytes :=
  reraise_connection_lost is_lost (read_chunk c timed).
End Ws.

Definition WebSocketConnection : AbstractConnection := {|
  dials server := is_ok (Ws.uri server);
  connect := Ws.connect;
  close := Ws.close;
  write_heartbeat := Ws.write_heartbeat;
  write_frame := Ws.write_frame;
  read_bytes := Ws.read_bytes;
|}.

(** ** read_frames

    One round of the generator: the frames of one chunk, which the loop over them then
    yields, and the parser for the next round.  The parser belongs to the generator, so
    parsing the chunk at once is the same as parsing it while its frames are taken. *)

Definition set_last_read_time (c : nat) (w : world) : world :=
  set_conns (alter (λ cs, mkConn (Some (now w)) (broken cs)) c (conns w)) w.

Definition read_frames_chunk `{AbstractConnection} (c : nat) (timed : bool) (p : FrameParser)
  : M (list (frame headers) * FrameParser) :=
  raw ← read_bytes c timed;
  _ ← modify (set_last_read_time c);
  of_outcome (to_outcome (parse_frames_from_chunk p raw)).

(** ** What a connection promises

    Each operation touches nothing but its own traces, whatever the other tasks do
    meanwhile; a write that returns has put its frame on the wire; [close] always closes
    the transport; a heart-beat that cannot be written is a lost connection. *)

Definition wrote_step (c : nat) (f : frame dict) (w w' : world) : Prop :=
  w' = w ∨ ∃ σ, w' = record_action (Wrote c (snapshot σ f)) w.

Definition heartbeat_step (c : nat) (w w' : world) : Prop :=
  w' = w ∨ w' = record_action (WroteHeartbeat c) w.

Definition close_step (c : nat) (w w' : world) : Prop :=
  w' = w ∨ w' = record_action (CloseCalled c) w.

Definition read_step_of (c : nat) (w w' : world) : Prop :=
  w' = w ∨ w' = set_last_read_time c w.

(** What an operation on a connection may raise: that the connection is lost, an error of
    the operating system or of the transport, a Python error such as [KeyError] for the data
    on it, or the cancellation of the task. *)
Definition io_error (e : exn) : bool :=
  match e with
  | ConnectionLostError _ | CancelledError | PyError _ => true
  | e => transport_error e
  end.

Definition raises_io_error {A} (o : outcome A) : Prop :=
  match o with Done _ => True | Raised e => io_error e = true end.

(** A read under a timer may be cut short as well. *)
Definition raises_read_error {A} (timed : bool) (o : outcome A) : Prop :=
  raises_io_error o ∨ timed = true ∧ o = Raised DeadlineExpired.

(** Any of these but the loss of the connection. *)
Definition other_error (e : exn) : bool := io_error e && negb (is_connection_lost e).

Definition raises_other_error {A} (o : outcome A) : Prop :=
  match o with Done _ => True | Raised e => other_error e = true end.

(** The action has been taken between the two states. *)
Definition happened_since (w : world) (a : action) (w' : world) : Prop :=
  ∃ l, trace w' = trace w ++ l ∧ a ∈ l.

(** While a task that runs alone is suspended, only time passes. *)
Definition solo (w w' : world) : Prop := ∃ t, w' = set_now t w.

Class ConnectionLaws (AC : AbstractConnection) := {
  connect_opened server opened c :
    connect server opened = Done (Some c) → opened = Done c;
  connect_io server opened e :
    (∀ e', opened = Raised e' → transport_error e' = true) →
    connect server opened = Raised e → other_error e = true;
  connect_keeps server c : dials server = true → connect server (Done c) = Done (Some c);
  write_frame_law R i c f w :
    (∀ w w', R w w' → grows w w') →
    wp (awaits dials) R (wrote_step c f) i False (write_frame c f)
      (λ o w', raises_io_error o ∧
               (o = Done tt → happened_since w (Wrote c (snapshot (dicts w) f)) w')) w;
  write_frame_solo i c f w :
    wp (awaits dials) solo (λ _ _, True) i False (write_frame c f)
      (λ o w', raises_io_error o ∧ ∃ t,
         w' = set_now t (record_action (Wrote c (snapshot (dicts w) f)) w) ∨
         (w' = set_now t w ∧ o ≠ Done tt)) w;
  write_heartbeat_law R i c w :
    wp (awaits dials) R (heartbeat_step c) i False (write_heartbeat c)
      (λ o w', match o with
               | Done _ => WroteHeartbeat c ∈ trace w'
               | Raised e => is_connection_lost e = true
               end) w;
  close_law R i c w :
    (∀ w w', R w w' → grows w w') →
    wp (awaits dials) R (close_step c) i False (close c)
      (λ o w', raises_other_error o ∧ happened_since w (CloseCalled c) w') w;
  read_bytes_law R i c timed w :
    wp (awaits dials) R eq i False (read_bytes c timed)
      (λ o _, raises_read_error timed o) w;
}.

(** ** Lemmas *)

Lemma grows_refl w : grows w w.
Proof. by unfold grows. Qed.

Lemma grows_trans w1 w2 w3 : grows w1 w2 → grows w2 w3 → grows w1 w3.
Proof. apply (transitivity (R := prefix)). Qed.

Lemma grows_record a w : grows w (record_action a w).
Proof. by exists [a]. Qed.

Lemma elem_of_record a b w : a ∈ trace (record_action b w) ↔ a ∈ trace w ∨ a = b.
Proof. unfold record_action. simpl. rewrite elem_of_app, list_elem_of_singleton. done. Qed.

Lemma recorded a w : a ∈ trace (record_action a w).
Proof. apply elem_of_record. by right. Qed.

Lemma recorded_since a w w' : grows (record_action a w) w' → happened_since w a w'.
Proof.
  intros [l Hl]. exists (a :: l). simpl in Hl. split; [|left].
  by rewrite Hl, <-(assoc_L (++)).
Qed.

Lemma happened_later w1 w2 w3 a : grows w1 w2 → happened_since w2 a w3 → happened_since w1 a w3.
Proof.
  intros [l Hl] (l' & Hl' & Ha). exists (l ++ l'). rewrite Hl', Hl, (assoc_L (++)).
  split; [done|]. apply elem_of_app. by right.
Qed.

Lemma happened w a w' : happened_since w a w' → a ∈ trace w'.
Proof. intros (l & -> & Ha). apply elem_of_app. by right. Qed.

Lemma other_io_error e : other_error e = true → io_error e = true.
Proof. by intros [? _]%andb_true_iff. Qed.

Lemma other_error_kinds e :
  other_error e = true → transport_error e = true ∨ e = CancelledError ∨ ∃ e', e = PyError e'.
Proof. destruct e; try done; eauto. Qed.

Lemma transport_other e : transport_error e = true → other_error e = true.
Proof. by destruct e. Qed.

(** The awaits of the transport; what they may raise on their own account. *)
Definition on_transport (a : awaitable) : bool :=
  match a with Drain _ | WaitClosed _ => true | _ => false end.

Lemma awaits_transport dials i a w r w' :
  on_transport a = true → awaits dials i a w r w' → w' = w ∧ raises_other_error r.
Proof.
  pose proof transport_other. intros Ha [H'|[-> H']]; destruct a; simpl in *; try done.
  all: destruct H' as [-> H']; split; [done|]; unfold raises_other_error; naive_solver.
Qed.

Lemma wp_on_transport dials R (G : world → world → Prop) i B a Q w :
  on_transport a = true → (∀ w', G w' w') →
  (∀ r w1, R w w1 → raises_other_error r → Q r w1) →
  wp (awaits dials) R G i B (await a) Q w.
Proof.
  intros Ha HG HQ. apply wp_await. intros w1 r w2 HR Hr.
  destruct (awaits_transport _ _ _ _ _ _ Ha Hr) as [-> Hio]. auto.
Qed.

(** A read, under a timer or not. *)
Lemma wp_read_chunk dials R (G : world → world → Prop) i B c timed w :
  (∀ w', G w' w') →
  wp (awaits dials) R G i B (read_chunk c timed) (λ o _, raises_read_error timed o) w.
Proof.
  intros HG. apply (wp_await (answer := answer)). intros w1 r w2 _ [[-> Hr]|[-> ->]].
  - split; [done|]. destruct Hr as [[raw ->]|[(e & He & ->)|[-> ->]]]; [by left| |by right].
    left. by apply other_io_error, transport_other.
  - split; [done|by left].
Qed.

Lemma wp_reraise_read dials R (G : world → world → Prop) i B {A} causes timed (t : M A) w :
  wp (awaits dials) R G i B t (λ o _, raises_read_error timed o) w →
  wp (awaits dials) R G i B (reraise_connection_lost causes t)
    (λ o _, raises_read_error timed o) w.
Proof.
  intros H. apply wp_try_except. eapply wp_mono; [exact H|].
  intros [a|e] w' Ho; [done|]. destruct (causes e); [by left|done].
Qed.

(** What a [with reraise_connection_lost] lets out is a connection loss or what came in. *)
Lemma wp_reraise dials R G i B {A} (causes : exn → bool) (t : M A) (E : world → Prop) Q w :
  wp (awaits dials) R G i B t
    (λ o w', match o with
             | Done a => Q (Done a) w'
             | Raised e => io_error e = true ∧ E w' ∨
                           causes e = true ∧ E w'
             end) w →
  (∀ e w', io_error e = true → E w' → Q (Raised e) w') →
  wp (awaits dials) R G i B (reraise_connection_lost causes t) Q w.
Proof.
  intros H HQ. apply wp_try_except. eapply wp_mono; [exact H|].
  intros [a|e] w'; simpl; [done|]. destruct (causes e); simpl; naive_solver.
Qed.

(** [dumped] raises what [dump_frame] raises, or gives what the frame holds. *)
Lemma wp_dumped dials R (G : world → world → Prop) i B f Q w :
  G w w → (∀ e, Q (Raised (PyError e)) w) →
  Q (Done (snapshot (dicts w) f)) w →
  wp (awaits dials) R G i B (dumped f) Q w.
Proof.
  intros HG He HQ. unfold dumped. wp_step; [done|]. wp_step.
  destruct (dump_frame (snapshot (dicts w) f)); simpl; auto.
Qed.

Lemma writer_write_spec dials R (G : world → world → Prop) i B c a Q w :
  G w w → G w (record_action a w) →
  Q (Raised RuntimeError) w → Q (Done tt) (record_action a w) →
  wp (awaits dials) R G i B (Tcp.writer_write c a) Q w.
Proof.
  intros HG1 HG2 HQ1 HQ2. unfold Tcp.writer_write.
  wp_step; destruct (conns w !! c) as [[t []]|]; simpl; auto.
Qed.

Lemma tcp_write_frame R (G : world → world → Prop) i B c f (Q : outcome unit → world → Prop) w :
  let w' := record_action (Wrote c (snapshot (dicts w) f)) w in
  (∀ w1, G w1 w1) → G w w' →
  (∀ e, io_error e = true → Q (Raised e) w) →
  (∀ r w1, R w' w1 → raises_io_error r → Q r w1) →
  wp (awaits (dials (AbstractConnection := Connection))) R G i B (Tcp.write_frame c f) Q w.
Proof.
  intros w' HG1 HG2 HQe HQ. unfold Tcp.write_frame.
  apply wp_bind, (wp_reraise _ _ _ _ _ _ _ (λ w1, w1 = w)); [|by intros e ? ? ->; apply HQe].
  apply wp_bind, wp_dumped; [done|by left|]. apply writer_write_spec; [done|done|by right|].
  apply (wp_reraise _ _ _ _ _ _ _ (R w')); [|by intros e w1 ? ?; apply HQ].
  apply (wp_on_transport _ _ _ _ _ (Drain c)); [done|done|].
  intros [[]|e] w1 Hw1 Hio; [by apply HQ|left]. by split; [apply other_io_error|].
Qed.

Lemma ws_write_frame dials R (G : world → world → Prop) i B c f (Q : outcome unit → world → Prop) w :
  let wrote w1 := record_action (Wrote c (snapshot (dicts w) f)) w1 in
  (∀ w1, G w1 w1) → (∀ w1, R w w1 → G w1 (wrote w1)) →
  (∀ e w1, w1 = w ∨ (∃ w2, R w w2 ∧ (w1 = w2 ∨ w1 = wrote w2)) → io_error e = true →
     Q (Raised e) w1) →
  (∀ w1, R w w1 → Q (Done tt) (wrote w1)) →
  wp (awaits dials) R G i B (Ws.write_frame c f) Q w.
Proof.
  intros wrote HG1 HG2 HQe HQ.
  assert (∀ e, transport_error e = true → io_error e = true) as Hio by (by intros []).
  apply (wp_reraise _ _ _ _ _ _ _
           (λ w1, w1 = w ∨ ∃ w2, R w w2 ∧ (w1 = w2 ∨ w1 = wrote w2))); [|by auto].
  apply wp_bind, wp_dumped; [done|left; by auto|].
  apply (wp_await (answer := answer)). intros w1 r w2 HR Hr.
  assert (w2 = w1 ∨ w2 = wrote w1) as Hw2
    by (destruct Hr as [[[_ ->]|(e & _ & _ & ->)]|[_ [->| ->]]]; auto).
  split; [by destruct Hw2 as [-> | ->]; auto|].
  destruct r as [[]|e].
  - destruct Hr as [[[_ ->]|(e & _ & ? & _)]|[? _]]; [by apply HQ|done..].
  - left. split; [|by eauto].
    destruct Hr as [[[? _]|(e' & He & [= ->] & _)]|[[= ->] _]]; [done|by apply Hio|done].
Qed.

(** Closing, with the exceptions of [wait_closed] that are not suppressed. *)
Lemma wp_close dials R i c (causes : exn → bool) w :
  (∀ w w', R w w' → grows w w') →
  wp (awaits dials) R (close_step c) i False
    (bind (modify (record_action (CloseCalled c))) (λ _, suppress causes (wait_closed c)))
    (λ o w', raises_other_error o ∧ happened_since w (CloseCalled c) w') w.
Proof.
  intros HR. split; [by right|].
  apply wp_try_except, (wp_on_transport _ _ _ _ _ (WaitClosed c)); [done|by left|].
  intros r w1 Hw1 Hio. assert (happened_since w (CloseCalled c) w1)
    by (by apply recorded_since, HR).
  destruct r as [[]|e]; [done|]. by destruct (causes e).
Qed.

(** The two ways [write_frame] is specified follow from the general lemmas. *)
Lemma solo_refl w : solo w w.
Proof. exists (now w). by destruct w. Qed.

#[export] Instance Connection_laws : ConnectionLaws Connection.
Proof.
  split.
  - intros server opened c. simpl. unfold Tcp.connect.
    destruct (has_ws_path server); [done|]. destruct opened as [c'|[]]; naive_solver.
  - intros server opened e Ho. simpl. unfold Tcp.connect.
    destruct (has_ws_path server); [by intros [= <-]|].
    destruct opened as [c'|e']; [done|]. specialize (Ho e' eq_refl).
    destruct e'; try done; by intros [= <-].
  - intros server c. simpl. unfold Tcp.connect. by destruct (has_ws_path server).
  - intros R i c f w HR. apply tcp_write_frame; [by left|right; by eexists|done|].
    intros r w1 Hw1 Hio. split; [done|]. intros _. by apply recorded_since, HR.
  - intros i c f w. apply tcp_write_frame; [done|done| |].
    + intros e He. split; [done|]. destruct (solo_refl w) as [t Ht]. exists t. right. done.
    + intros r w1 [t ->] Hio. split; [done|]. exists t. by left.
  - intros R i c w. change (@write_heartbeat Connection c) with (Tcp.write_heartbeat c).
    apply wp_try_except, writer_write_spec; simpl; [by left|by right|done|apply recorded].
  - intros R i c w HR. by apply wp_close.
  - intros R i c timed w. change (@read_bytes Connection c timed) with (Tcp.read_bytes c timed).
    apply wp_reraise_read, wp_bind. eapply wp_mono; [by apply wp_read_chunk|].
    intros [[|b raw]|e] w1 Ho; [by left..|]. by destruct Ho as [?|[-> [= ->]]]; [left|right].
Qed.

#[export] Instance WebSocketConnection_laws : ConnectionLaws WebSocketConnection.
Proof.
  split.
  - intros server opened c. simpl. unfold Ws.connect. destruct (Ws.uri server); [|done].
    destruct opened as [c'|[]]; naive_solver.
  - intros server opened e Ho. simpl. unfold Ws.connect.
    destruct (Ws.uri server); [|by intros [= <-]].
    destruct opened as [c'|e']; [done|]. specialize (Ho e' eq_refl).
    destruct e'; try done; by intros [= <-].
  - intros server c. simpl. unfold Ws.connect. by destruct (Ws.uri server).
  - intros R i c f w HR. apply ws_write_frame; [by left|right; by eexists|done|].
    intros w1 Hw1. split; [done|]. intros _. eapply happened_later; [by apply HR|].
    apply recorded_since, grows_refl.
  - intros i c f w. apply ws_write_frame; [done|done| |].
    + intros e w1 Hw1 He. split; [done|].
      destruct Hw1 as [-> |(w2 & [t ->] & [-> | ->])].
      * destruct (solo_refl w) as [t Ht]. exists t. by right.
      * exists t. by right.
      * exists t. by left.
    + intros w1 [t ->]. split; [done|]. exists t. by left.
  - intros R i c w. simpl. split; [by right|]. apply recorded.
  - intros R i c w HR. by apply wp_close.
  - intros R i c timed w.
    change (@read_bytes WebSocketConnection c timed) with (Ws.read_bytes c timed).
    by apply wp_reraise_read, wp_read_chunk.
Qed.
