(* ===== verification/Manager.v ===== *)
(** * The connection manager (stompman/connection_manager.py)

    One task at a time may look for a connection, under the reconnect lock; any task may
    write, and any task that finds the connection lost discards it, once.  The manager is
    written against the class [AbstractConnection] and the class
    [AbstractConnectionLifespan], which stands for the protocol of that name. *)

From S2P Require Import Prelude Frames FrameParser Config Errors Async World Connection.

(** [connection_lifespan.AbstractConnectionLifespan]: [enter] gives the server's
    heart-beat or says what was wrong. *)
Class AbstractConnectionLifespan := {
  enter : nat → ConnectionParameters → M (Heartbeat + connection_issue);
  exit : nat → ConnectionParameters → M unit;
}.

Record ConnectionManager := mkConnectionManager {
  servers : list ConnectionParameters;
  connect_retry_attempts : Z;
  connect_retry_interval : Z;
  connect_timeout : Z;
  write_retry_attempts : Z;
  check_server_alive_interval_factor : Z;
  no_message_restart_interval : option Z;
  keep_alive_on_connection_failure : bool;
}.

(** ** ActiveConnectionState

    Times are in milliseconds, so the division by 1000 has gone to the other side. *)

Definition is_alive (check_factor : Z) (s : ActiveConnectionState) (w : world) : bool :=
  let threshold := (will_send_interval_ms (server_heartbeat s) * check_factor)%Z in
  match conns w !! connection s ≫= last_read_time with
  | None => (now w - connected_at s <? threshold)%Z
  | Some t => (now w - t <? threshold)%Z
  end.

(** [self._active_connection_state is connection_state] *)
Definition is_active (s : ActiveConnectionState) (w : world) : bool :=
  match _active_connection_state w with
  | Some s' => bool_decide (connection s' = connection s)
  | None => false
  end.

Definition log_dropped_frame (f : frame dict) (reason : string) (w : world) : world :=
  match f with
  | NackFrame _ => log ERROR ("dropping NACK: " +:+ reason) w
  | AckFrame _ => log WARNING ("dropping ACK: " +:+ reason) w
  | _ => log INFO ("dropping: " +:+ reason) w
  end.

(** [try: t except ConnectionLostError as error: h error] *)
Definition catch_lost {A} (t : M A) (h : lost_reason → M A) : M A :=
  handle t (λ o, match o with
                 | Raised (ConnectionLostError reason) => h reason
                 | o => of_outcome o
                 end).

(** ** Background tasks *)

(** [self._task_group.create_task(...)] *)
Definition create_group_task (b : task_body) : M nat :=
  created ← sync (λ w, match _task_group w with
                       | GroupRunning => let '(w', k) := create_task b w in (w', Some k)
                       | _ => (w, None)
                       end);
  match (created : option nat) with
  | Some k => mret k
  | None => Raise RuntimeError
  end.

(** [set_heartbeat_interval] of the lifespan *)
Definition _restart_background_tasks (hb : Heartbeat) : M unit :=
  w ← get;
  match _send_heartbeat_task w with
  | None => Raise (PyError AttributeError)
  | Some k =>
    _ ← modify (cancel_task k);
    k' ← create_group_task (SendHeartbeats (want_to_receive_interval_ms hb));
    modify (set_heartbeat_task (Some k'))
  end.

Definition cancel_monitor (w : world) : world :=
  match _monitor_no_message_task w with Some k => cancel_task k w | None => w end.

Definition _restart_no_message_monitor (interval : option Z) : M unit :=
  _ ← modify cancel_monitor;
  match interval with
  | Some ms =>
    k ← create_group_task (MonitorNoMessage ms);
    modify (set_monitor_task (Some k))
  | None => mret tt
  end.

(** ** Losing a connection *)

Definition discard (s : ActiveConnectionState) (w : world) : world :=
  record_action (Discarded (connection s))
    (set_reconnection_count (S (_reconnection_count w))
       (set_active None (log WARNING "connection lost" w))).

Definition _discard_failed_connection_state `{AbstractConnection} (s : ActiveConnectionState)
    (reason : lost_reason) : M unit :=
  w ← get;
  if is_active s w then
    _ ← modify (discard s);
    close (connection s)
  else mret tt.

Definition maybe_write_frame `{AbstractConnection} (f : frame dict) : M bool :=
  w ← get;
  match _active_connection_state w with
  | None => _ ← modify (log_dropped_frame f "no active connection"); mret false
  | Some s =>
    catch_lost (_ ← write_frame (connection s) f; mret true)
      (λ reason,
         _ ← modify (log_dropped_frame f "connection lost mid-write");
         _ ← _discard_failed_connection_state s reason;
         mret false)
  end.

Section manager.
Context `{AC : AbstractConnection} `{AL : AbstractConnectionLifespan} (cm : ConnectionManager).

(** ** Looking for a connection *)

(** The attempts that [asyncio.as_completed] has started go on when nobody waits for them
    any more. *)
Definition abandon (pending : list ConnectionParameters) (w : world) : world :=
  set_abandoned (abandoned w ++ pending) w.

(** [asyncio.as_completed]: the attempts are taken in the order they complete, until one
    has connected or raised. *)
Fixpoint next_connection (n : nat) (pending : list ConnectionParameters)
  : M (option (nat * ConnectionParameters)) :=
  match n with
  | O => mret None
  | S n' =>
    handle (next_completed pending)
      (λ o, match o with
            | Raised e => _ ← modify (abandon pending); Raise e
            | Done (j, opened) =>
              match pending !! j with
              | None => mret None
              | Some server =>
                match connect server opened with
                | Done None => next_connection n' (delete j pending)
                | Done (Some c) =>
                  _ ← modify (abandon (delete j pending)); mret (Some (c, server))
                | Raised e => _ ← modify (abandon (delete j pending)); Raise e
                end
              end
            end)
  end.

Definition _create_connection_to_any_server : M (option (nat * ConnectionParameters)) :=
  next_connection (length (servers cm)) (servers cm).

Definition enter_lifespan (c : nat) (server : ConnectionParameters)
  : M (ActiveConnectionState + connection_issue) :=
  catch_lost
    (r ← enter c server;
     match r with
     | inl hb => t ← gets now; mret (inl (mkActive c server hb t))
     | inr issue => mret (inr issue)
     end)
    (λ _, mret (inr ConnectionLostOnLifespanEnter)).

(** The [try] with [connection_established]: a connection that is not established is
    closed, whatever happened to it. *)
Definition try_connection (c : nat) (server : ConnectionParameters)
  : M (ActiveConnectionState + connection_issue) :=
  handle (enter_lifespan c server)
    (λ o, match o with
          | Done (inl s) => mret (inl s)
          | o => _ ← close c; of_outcome o
          end).

Definition _connect_to_any_server : M (ActiveConnectionState + connection_issue) :=
  r ← _create_connection_to_any_server;
  match r with
  | None => mret (inr (AllServersUnavailable (servers cm) (connect_timeout cm)))
  | Some (c, server) => try_connection c server
  end.

Definition mark_installed (s : ActiveConnectionState) (w : world) : world :=
  record_action (Installed (connection s)) (set_active (Some s) w).

Definition install (s : ActiveConnectionState) (is_initial_call : bool) : M unit :=
  _ ← modify (mark_installed s);
  _ ← modify (λ w, set_last_message_received_time (now w) w);
  _ ← _restart_no_message_monitor (no_message_restart_interval cm);
  if is_initial_call then mret tt
  else modify (log WARNING "reconnected after connection failure").

(** [for attempt in range(...)], from [attempt] on with [n] to go. *)
Fixpoint connect_attempts (is_initial_call : bool) (attempt : Z) (n : nat)
    (issues : list connection_issue)
  : M (ActiveConnectionState + list connection_issue) :=
  match n with
  | O => mret (inr issues)
  | S n' =>
    r ← _connect_to_any_server;
    match r with
    | inl s => _ ← install s is_initial_call; mret (inl s)
    | inr issue =>
      _ ← sleep (1000 * (connect_retry_interval cm * (attempt + 1)));
      connect_attempts is_initial_call (attempt + 1) n' (issues ++ [issue])
    end
  end.

(** [async with self._reconnect_lock: t] *)
Definition with_lock {A} (t : M A) : M A :=
  _ ← acquire_lock;
  try_finally t (modify (set_lock None)).

Definition _get_active_connection_state (is_initial_call : bool) : M ActiveConnectionState :=
  w ← get;
  match _active_connection_state w with
  | Some s => mret s
  | None =>
    r ← with_lock
          (w' ← get;
           match _active_connection_state w' with
           | Some s => mret (inl s)
           | None =>
             connect_attempts is_initial_call 0 (Z.to_nat (connect_retry_attempts cm)) []
           end);
    match r with
    | inl s => mret s
    | inr issues =>
      Raise (FailedAllConnectAttemptsError (connect_retry_attempts cm) issues)
    end
  end.

(** ** Writing *)

(** [for _ in range(n)] of the two methods that write and reconnect. *)
Fixpoint write_attempts (n : nat) (write : nat → M unit) : M unit :=
  match n with
  | O => Raise (FailedAllWriteAttemptsError (write_retry_attempts cm))
  | S n' =>
    s ← _get_active_connection_state false;
    written ← catch_lost (_ ← write (connection s); mret true)
                (λ reason, _ ← _discard_failed_connection_state s reason; mret false);
    if (written : bool) then mret tt else write_attempts n' write
  end.

Definition write_heartbeat_reconnecting : M unit :=
  write_attempts (Z.to_nat (write_retry_attempts cm)) write_heartbeat.

Definition write_frame_reconnecting (f : frame dict) : M unit :=
  write_attempts (Z.to_nat (write_retry_attempts cm)) (λ c, write_frame c f).

(** ** Reading

    The generator [read_frames_reconnecting]: between two frames it has no connection
    yet, or it reads from one, with the frames of the last chunk still to yield. *)

Inductive reading :=
  | Outer
  | Reading (s : ActiveConnectionState) (epoch : nat) (p : FrameParser)
      (pending : list (frame headers)).

Definition read_step (g : reading) : M (reading + (frame headers * nat * nat * reading)) :=
  match g with
  | Outer =>
    handle (_get_active_connection_state false)
      (λ o, match o with
            | Done s => epoch ← gets _reconnection_count; mret (inl (Reading s epoch new_parser []))
            | Raised (FailedAllConnectAttemptsError _ _ as e) =>
              if keep_alive_on_connection_failure cm then
                _ ← modify (log WARNING "background read recovery exhausted; keeping client alive");
                _ ← sleep (1000 * connect_retry_interval cm);
                mret (inl Outer)
              else Raise e
            | Raised e => Raise e
            end)
  | Reading s epoch p (f :: pending) =>
    _ ← modify (record_action (Received (connection s) epoch f));
    mret (inr (f, epoch, connection s, Reading s epoch p pending))
  | Reading s epoch p [] =>
    catch_lost
      ('(fs, p') ← read_frames_chunk (connection s) false p;
       mret (inl (Reading s epoch p' fs)))
      (λ reason, _ ← _discard_failed_connection_state s reason; mret (inl Outer))
  end.

(** The next frame, its epoch, and the generator after it; the connection the frame came
    from is given for the sake of the theorems. *)
Definition read_frames_reconnecting (fuel : nat) (g : reading)
  : M (frame headers * nat * nat * reading) :=
  while_loop fuel read_step g.

(** ** Background loops *)

Definition heartbeat_round (interval_ms : Z) : M unit :=
  handle write_heartbeat_reconnecting
    (λ o, match o with
          | Raised (FailedAllConnectAttemptsError _ _ | FailedAllWriteAttemptsError _) =>
            if keep_alive_on_connection_failure cm then
              _ ← modify (log WARNING
                            "background heartbeat recovery exhausted; keeping client alive");
              sleep (1000 * connect_retry_interval cm)
            else of_outcome o
          | Raised e => Raise e
          | Done _ => sleep interval_ms
          end).

Definition _send_heartbeats_forever (fuel : nat) (interval_ms : Z) : M unit :=
  while_loop fuel (λ _, _ ← heartbeat_round interval_ms; mret (inl tt)) tt.

Definition force_reconnect (connection_state : option ActiveConnectionState) : M unit :=
  match connection_state with
  | Some s =>
    _ ← modify (log WARNING "no messages received, forcing reconnect");
    _discard_failed_connection_state s (LostByMessage "no messages received within timeout")
  | None => mret tt
  end.

Definition monitor_round (interval_ms : Z) : M unit :=
  w ← get;
  let remaining := (interval_ms - (now w - _last_message_received_time w))%Z in
  if (0 <? remaining)%Z then sleep remaining
  else
    _ ← force_reconnect (_active_connection_state w);
    sleep interval_ms.

Definition _monitor_no_message_timeout (fuel : nat) (interval_ms : Z) : M unit :=
  while_loop fuel (λ _, _ ← monitor_round interval_ms; mret (inl tt)) tt.

(** ** Entering and leaving *)

Definition _close_active_connection_state : M unit :=
  w ← get;
  match _active_connection_state w with
  | None => mret tt
  | Some s =>
    try_finally (try_except (exit (connection s) (connection_parameters s))
                   is_connection_lost (λ _, mret tt))
      (_ ← modify (λ w, if is_active s w
                        then record_action (Released (connection s)) (set_active None w)
                        else w);
       close (connection s))
  end.

(** [self._task_group.__aenter__()] *)
Definition enter_group : M unit :=
  entered ← sync (λ w, match _task_group w with
                       | GroupNew => (set_task_group GroupRunning w, true)
                       | _ => (w, false)
                       end);
  if (entered : bool) then mret tt else Raise RuntimeError.

Definition aenter : M unit :=
  _ ← enter_group;
  k ← create_group_task SleepZero;
  _ ← modify (set_heartbeat_task (Some k));
  s ← _get_active_connection_state true;
  modify (set_active (Some s)).

(** [self._task_group.__aexit__(...)], which waits for the tasks and then closes the
    group, also when the wait is cut short. *)
Definition exit_group : M unit :=
  try_finally wait_tasks (modify (set_task_group GroupFinished)).

Definition aexit : M unit :=
  w ← get;
  match _send_heartbeat_task w with
  | None => Raise (PyError AttributeError)
  | Some k =>
    _ ← modify (λ w, cancel_monitor (cancel_task k w));
    _ ← wait_tasks;
    try_finally exit_group _close_active_connection_state
  end.
End manager.

#[global] Arguments _restart_background_tasks : simpl never.
#[global] Arguments _discard_failed_connection_state : simpl never.
#[global] Arguments maybe_write_frame : simpl never.
#[global] Arguments _create_connection_to_any_server : simpl never.
#[global] Arguments enter_lifespan : simpl never.
#[global] Arguments try_connection : simpl never.
#[global] Arguments _connect_to_any_server : simpl never.
#[global] Arguments _get_active_connection_state : simpl never.
#[global] Arguments write_heartbeat_reconnecting : simpl never.
#[global] Arguments write_frame_reconnecting : simpl never.
#[global] Arguments read_frames_reconnecting : simpl never.
#[global] Arguments _close_active_connection_state : simpl never.
