(* ===== verification/ManagerSpec.v ===== *)
(** * The manager keeps the discipline

    The operations of the connection manager are correct whatever the other tasks do
    while they are suspended: each of their steps is one that [guar] allows, and they
    give what they promise. *)

From S2P Require Import Prelude Frames FrameParser Config Errors Async World Contract Discipline.
From S2P Require Import Connection Manager.

(** What the manager relies on in a lifespan: entering and leaving a connection are quiet
    and raise nothing but errors of the connection and of the data on it. *)
(** A fact about the state that the others keep, and every quiet step. *)
Definition kept (R : world → world → Prop) (P : world → Prop) : Prop :=
  (∀ w w', R w w' → P w → P w') ∧ (∀ w w', quiet w w' → P w → P w').

(** [enter] is quiet, and it succeeds only if at some moment the task group was running;
    what held then and is kept holds at the end. *)
Class LifespanLaws (AC : AbstractConnection) (AL : AbstractConnectionLifespan) := {
  enter_law R i (P K : world → Prop) c p w :
    (∀ w w', R w w' → grows w w') → kept R P → kept R K →
    (∀ w, P w → _task_group w = GroupRunning → K w) → P w →
    wp (awaits dials) R quiet i True (enter c p)
      (λ o w', raises_io_error o ∧ P w' ∧ (∀ hb, o = Done (inl hb) → K w')) w;
  exit_law i c p w :
    wp (awaits dials) (rely i) (guar i) i True (exit c p) (λ _ _, True) w;
}.

(** ** Lifting *)

Lemma guar_refl i w : guar i w w.
Proof. apply quiet_guar, quiet_refl. Qed.

Lemma wrote_step_quiet c f w w' : sendable f = true → wrote_step c f w w' → quiet w w'.
Proof.
  intros Hf [->|[σ ->]]; [apply quiet_refl|]. apply quiet_record. by apply sendable_plain.
Qed.

Lemma heartbeat_step_quiet c w w' : heartbeat_step c w w' → quiet w w'.
Proof. intros [->| ->]; [apply quiet_refl|by apply quiet_record]. Qed.

Lemma close_step_quiet c w w' : close_step c w w' → quiet w w'.
Proof. intros [->| ->]; [apply quiet_refl|by apply quiet_record]. Qed.

Section lifting.
Context `{AC : AbstractConnection} (i : nat).

(** A fact that the others and quiet steps keep. *)
Definition calm (P : world → Prop) : Prop :=
  (∀ w w', rely i w w' → P w → P w') ∧ (∀ w w', quiet w w' → P w → P w').

Lemma stable_calm P : stable i P → calm P.
Proof. intros [HR HS]. split; [done|]. intros w w' Hq. by apply HS, quiet_guar. Qed.

Lemma wp_quietly {A} (G : world → world → Prop) (B : Prop) (P : world → Prop) (t : M A) Q w :
  (∀ w w', G w w' → quiet w w') → calm P → P w →
  wp (awaits dials) (rely i) G i B t Q w →
  wp (awaits dials) (rely i) (guar i) i True t (λ o w', Q o w' ∧ P w') w.
Proof.
  intros HG [HR HP]. apply wp_conseq; [by eauto| |done|done].
  intros w1 w2 H1 HPw. split; [by apply quiet_guar, HG|by eauto].
Qed.

Lemma wp_discipline {A} (G : world → world → Prop) (B : Prop) (P : world → Prop) (t : M A) Q w :
  (∀ w w', G w w' → quiet w w') → stable i P → P w →
  wp (awaits dials) (rely i) G i B t Q w →
  wp (awaits dials) (rely i) (guar i) i True t (λ o w', Q o w' ∧ P w') w.
Proof. intros HG HS. by apply wp_quietly, stable_calm. Qed.

Lemma sleep_quiet (R : world → world → Prop) ms w :
  wp (awaits dials) R quiet i False (sleep ms) (λ o _, raises_other_error o) w.
Proof.
  apply (wp_await (answer := answer)). intros w1 r w2 _ [[-> ->]|[-> ->]].
  - split; [by apply quiet_record|done].
  - split; [apply quiet_refl|done].
Qed.

Lemma wp_sleep P ms w :
  calm P → P w →
  wp (awaits dials) (rely i) (guar i) i True (sleep ms)
    (λ o w', raises_other_error o ∧ P w') w.
Proof. intros HS HP. eapply wp_quietly; [|done|done|apply sleep_quiet]. done. Qed.

Lemma wp_catch_lost {A} (R G : world → world → Prop) B (t : M A) h Q w :
  wp (awaits dials) R G i B t
    (λ o w', match o with
             | Raised (ConnectionLostError reason) =>
               wp (awaits dials) R G i B (h reason) Q w'
             | o => Q o w'
             end) w →
  wp (awaits dials) R G i B (catch_lost t h) Q w.
Proof.
  intros H. apply wp_handle. eapply wp_mono; [exact H|]. intros [a|e] w'; [done|by destruct e].
Qed.
End lifting.

(** ** Discarding *)

(** The connection [s] was given up because the client was left, or counted as lost. *)
Definition given_up (since : nat) (w : world) : Prop :=
  released w = true ∨ since < _reconnection_count w.

Lemma stable_grows i w : stable i (grows w).
Proof.
  split; intros w1 w2 H Hw; eapply grows_trans;
    [exact Hw|apply (rely_grows _ _ _ H)|exact Hw|apply (guar_grows _ _ _ H)].
Qed.

Lemma stable_given_up i since : stable i (given_up since).
Proof.
  split; intros w w' H [Hr|Hc].
  - left. eapply released_grows; [by eapply rely_grows|done].
  - right. pose proof (rely_count _ _ _ H). lia.
  - left. eapply released_grows; [by eapply guar_grows|done].
  - right. pose proof (guar_count _ _ _ H). lia.
Qed.

Lemma is_active_spec s w :
  is_active s w = true ↔ connection <$> _active_connection_state w = Some (connection s).
Proof.
  unfold is_active. destruct (_active_connection_state w) as [s'|]; simpl; [|done].
  rewrite bool_decide_eq_true. naive_solver.
Qed.

Lemma discard_guar i s w : is_active s w = true → guar i w (discard s w).
Proof.
  intros Ha%is_active_spec. split.
  - unfold grows. simpl. eexists. by rewrite <-(assoc_L (++)).
  - simpl. lia.
  - simpl. lia.
  - done.
  - simpl. intros j _ Hj. split; [done|]. by destruct (_active_connection_state w).
  - apply (acts_inv [Logged WARNING "connection lost"; Discarded (connection s)]); try done.
    + simpl. by rewrite <-(assoc_L (++)).
    + intros _. simpl. rewrite decide_True by (by rewrite Ha).
      by rewrite orb_false_r, app_nil_r.
    + simpl. rewrite orb_false_r. intros Hw Hr. by destruct (inv_released w Hw Hr).
Qed.

Section discarding.
Context `{AC : AbstractConnection} `{!ConnectionLaws AC} (i : nat).

Lemma rely_all_grow : ∀ w w', rely i w w' → grows w w'.
Proof. intros w w' H. apply (rely_grows _ _ _ H). Qed.

(** A connection of an epoch that has been found lost is given up afterwards. *)
Definition gives_up (s : ActiveConnectionState) (w w' : world) : Prop :=
  ∀ since, epoch_of s since w → given_up since w'.

Lemma stable_gives_up s w : stable i (gives_up s w).
Proof.
  split; intros w1 w2 H Hw since He.
  - eapply (proj1 (stable_given_up i since)); [exact H|by apply Hw].
  - eapply (proj2 (stable_given_up i since)); [exact H|by apply Hw].
Qed.

Lemma discard_gives_up s w :
  gives_up s w (if is_active s w then discard s w else w).
Proof.
  intros since [Hle Heq]. destruct (is_active s w) eqn:Ha; [right; simpl; lia|].
  destruct (decide (since = _reconnection_count w)) as [He|He]; [|right; lia].
  destruct (Heq He) as [Hs|Hr]; [|by left]. unfold is_active in Ha. rewrite Hs in Ha.
  by rewrite bool_decide_eq_true_2 in Ha.
Qed.

(** A connection that was active when it was found lost is closed by whoever discards
    it; others find it discarded and do nothing. *)
Lemma discard_spec P s reason w :
  stable i P → P w →
  wp (awaits dials) (rely i) (guar i) i True (_discard_failed_connection_state s reason)
    (λ o w', P w' ∧ raises_other_error o ∧
             (is_active s w = true → happened_since w (CloseCalled (connection s)) w') ∧
             gives_up s w w') w.
Proof.
  intros HS HP. pose proof (discard_gives_up s w) as Hup. unfold _discard_failed_connection_state. wp_step; [apply guar_refl|].
  destruct (is_active s w) eqn:Ha; [|done]. wp_step; [by apply discard_guar|].
  eapply wp_mono.
  - apply (wp_discipline i (close_step (connection s)) False (λ w', P w' ∧ gives_up s w w'));
      [apply close_step_quiet|by apply stable_and, stable_gives_up| |
       by apply close_law, rely_all_grow].
    split; [|done]. eapply HS; [by apply discard_guar|done].
  - intros o w' [[Hio Hc] [HP' Hup']]. split_and!; [done..| |done]. intros _.
    eapply happened_later; [|done]. by apply (guar_grows i), discard_guar.
Qed.

(** ** maybe_write_frame *)

Lemma log_dropped_quiet f reason w : quiet w (log_dropped_frame f reason w).
Proof. destruct f; by apply quiet_record. Qed.

Lemma maybe_write_spec P f w :
  sendable f = true → stable i P → P w →
  wp (awaits dials) (rely i) (guar i) i True (maybe_write_frame f)
    (λ o w', P w' ∧ raises_other_error o ∧
             (o = Done true → ∃ c σ, Wrote c (snapshot σ f) ∈ trace w')) w.
Proof.
  intros Hf HS HP. unfold maybe_write_frame. wp_step; [apply guar_refl|].
  destruct (_active_connection_state w) as [s|].
  - apply wp_catch_lost. wp_step. eapply wp_mono.
    { apply (wp_discipline i (wrote_step (connection s) f) False P);
        [by intros; eapply wrote_step_quiet|done|done|].
      apply write_frame_law, rely_all_grow. }
    intros [[]|e] w' [[Hio Hw] HP'].
    { wp_step. split_and!; [done..|]. intros _. eexists _, _. by eapply happened, Hw. }
    destruct e; try done.
    pose proof (log_dropped_quiet f "connection lost mid-write" w') as Hq%(quiet_guar i).
    wp_step; [done|]. wp_step. eapply wp_mono.
    + apply (discard_spec P); [done|]. by eapply HS.
    + by intros [[]|e'] w'' (HP'' & Hio' & _).
  - pose proof (log_dropped_quiet f "no active connection" w) as Hq%(quiet_guar i).
    wp_step; [done|]. split; [by eapply HS|done].
Qed.
End discarding.

(** ** Connecting *)

Section connecting.
Context `{AC : AbstractConnection} `{!ConnectionLaws AC}.
Context `{AL : AbstractConnectionLifespan} `{!LifespanLaws AC AL}.
Context (cm : ConnectionManager) (i : nat).

Lemma next_connection_quiet (R : world → world → Prop) n pending w :
  wp (awaits dials) R quiet i True (next_connection n pending)
    (λ o _, raises_other_error o) w.
Proof.
  revert pending w. induction n as [|n IH]; intros pending w; [done|].
  assert (∀ l w, quiet w (abandon l w)) as Habandon by (intros l w'; by apply quiet_same).
  cbn [next_connection]. wp_step. apply (wp_await (answer := answer)).
  intros w1 r w2 HR Hr.
  assert (quiet w1 w2 ∧ (r = Raised CancelledError ∨
            ∃ j opened, r = Done (j, opened) ∧
              ∀ e, opened = Raised e → transport_error e = true)) as [Hq Hr'].
  { destruct Hr as [(j & server & Hj & [(c & _ & _ & -> & ->)|(e & He & -> & ->)])|[-> ->]].
    - split; [|right; exists j, (Done c); split; [done|by intros ? [=]]].
      eapply quiet_trans; [|by apply quiet_record]. by apply quiet_same.
    - split; [apply quiet_refl|]. right. exists j, (Raised e).
      split; [done|]. by intros ? [= <-].
    - split; [apply quiet_refl|by left]. }
  split; [done|]. destruct Hr' as [->|(j & opened & -> & Ho)]; cbv beta iota.
  { wp_step; [apply Habandon|done]. }
  destruct (pending !! j) as [server|]; [|done].
  destruct (connect server opened) as [[c|]|e] eqn:Hc; [|apply IH|].
  - wp_step; [apply Habandon|done].
  - wp_step; [apply Habandon|]. wp_step. by eapply connect_io.
Qed.

Lemma close_quietly (R : world → world → Prop) c w :
  (∀ w w', R w w' → grows w w') →
  wp (awaits dials) R quiet i True (close c)
    (λ o w', raises_other_error o ∧ happened_since w (CloseCalled c) w') w.
Proof.
  intros HR. eapply (wp_conseq _ _ _ _ _ _ _ _ (λ _, True)); [..|by apply (close_law R)].
  - done.
  - intros w1 w2 H _. split; [by eapply close_step_quiet|done].
  - done.
  - done.
  - done.
Qed.

Section attempt.
Context (R : world → world → Prop) (P K : world → Prop).
Hypothesis R_grows : ∀ w w', R w w' → grows w w'.
Hypothesis (P_kept : kept R P) (K_kept : kept R K).
Hypothesis opens : ∀ w, P w → _task_group w = GroupRunning → K w.

Lemma enter_lifespan_quiet c server w :
  P w →
  wp (awaits dials) R quiet i True (enter_lifespan c server)
    (λ o w', raises_other_error o ∧ P w' ∧ ∀ s, o = Done (inl s) → connection s = c ∧ K w') w.
Proof.
  intros HP. apply wp_handle. wp_step. eapply wp_mono; [by apply (enter_law R i P K)|].
  intros [[hb|issue]|e] w' (Hio & HP' & HK).
  - wp_step; [apply quiet_refl|]. wp_step. split; [done|]. split; [done|].
    intros s [= <-]. split; [done|]. by eapply HK.
  - wp_step. by split_and!.
  - destruct e; try done; by split_and!.
Qed.

Lemma try_connection_quiet c server w :
  P w →
  wp (awaits dials) R quiet i True (try_connection c server)
    (λ o w', raises_other_error o ∧ P w' ∧
             match o with
             | Done (inl s) => connection s = c ∧ K w'
             | _ => happened_since w (CloseCalled c) w'
             end) w.
Proof.
  intros HP. unfold try_connection. wp_step. eapply wp_mono.
  { apply (wp_keep _ _ _ _ _ _ (grows w)); [..|by apply enter_lifespan_quiet].
    - intros w1 w2 H1 H2. eapply grows_trans; [done|]. by apply R_grows.
    - intros w1 w2 H1 H2. eapply grows_trans; [done|]. by apply quiet_grows.
    - apply grows_refl. }
  intros o w' [(Hio & HP' & Hs) Hg].
  assert (wp (awaits dials) R quiet i True (close c)
            (λ o w'', (raises_other_error o ∧ happened_since w' (CloseCalled c) w'') ∧ P w'') w')
    as Hclose.
  { destruct P_kept. apply (wp_keep _ _ _ _ _ _ P); [done..|]. by apply close_quietly. }
  destruct o as [[s|issue]|e]; [wp_step; by eauto| |].
  all: wp_step; eapply wp_mono; [exact Hclose|].
  all: intros [[]|e'] w'' [[Hio' Hcl] HP'']; split_and!; try done; by eapply happened_later.
Qed.

Lemma connect_to_any_server_quiet w :
  P w →
  wp (awaits dials) R quiet i True (_connect_to_any_server cm)
    (λ o w', raises_other_error o ∧ P w' ∧ ∀ s, o = Done (inl s) → K w') w.
Proof.
  intros HP. unfold _connect_to_any_server. wp_step. eapply wp_mono.
  { destruct P_kept. apply (wp_keep _ _ _ _ _ _ P); [done..|]. apply next_connection_quiet. }
  intros [[[c server]|]|e] w' [Hio HP']; [|wp_step; by split_and!|by split_and!].
  eapply wp_mono; [by apply try_connection_quiet|].
  intros o w'' (Hio' & HP'' & Ho). split_and!; [done..|]. intros s ->. by destruct Ho.
Qed.
End attempt.

(** *** Installing *)

Lemma guar_trans w1 w2 w3 : guar i w1 w2 → guar i w2 w3 → guar i w1 w3.
Proof.
  intros [a1 a2 a3 a4 a5 a6] [b1 b2 b3 b4 b5 b6]. split.
  - unfold grows in *. by etrans.
  - lia.
  - intros s Hc Hs. destruct (a3 s) as [Hs2|Hr]; [lia|done|apply b3; [lia|done]|].
    right. by eapply released_grows.
  - auto.
  - intros j Hj Hl. destruct (a5 j Hj Hl) as [Hl2 Ha2]. destruct (b5 j Hj Hl2) as [Hl3 Ha3].
    split; [done|]. intros Ha. destruct (Ha2 Ha) as [Hn Hr]. destruct (Ha3 Hn). split; congruence.
  - auto.
Qed.

Lemma install_mark_guar s w :
  _reconnect_lock w = Some i → _active_connection_state w = None → released w = false →
  guar i w (mark_installed s w).
Proof.
  intros Hl Ha Hnr. unfold mark_installed. split; simpl.
  - eexists. done.
  - lia.
  - intros s' _. by rewrite Ha.
  - done.
  - intros j Hj. rewrite Hl. by intros [= ->].
  - apply (acts_inv [Installed (connection s)]); try done; rewrite Hnr; [|done].
    intros _. rewrite (run_installed (contract_of w)); [|simpl; by rewrite Ha|done].
    unfold set_holds. simpl. by rewrite Hnr, app_nil_r.
Qed.

(** A task is created in the group, or [RuntimeError] is raised. *)
Lemma create_group_task_quiet (R : world → world → Prop) b (Q : outcome nat → world → Prop) w :
  is_handler b = false →
  (∀ k w', _task_group w = GroupRunning → quiet w w' → Q (Done k) w') →
  Q (Raised RuntimeError) w →
  wp (awaits dials) R quiet i True (create_group_task b) Q w.
Proof.
  intros Hb HQ Hraise. unfold create_group_task.
  pose proof (quiet_create_task b w Hb) as Hq.
  wp_step; destruct (_task_group w) eqn:Hg; cbn [fst snd create_task];
    try wp_step; try apply quiet_refl; try done. by apply HQ.
Qed.

Lemma cancel_monitor_quiet w : quiet w (cancel_monitor w).
Proof. unfold cancel_monitor. case_match; [apply quiet_cancel_task|apply quiet_refl]. Qed.

Lemma restart_monitor_quiet (R : world → world → Prop) interval w :
  wp (awaits dials) R quiet i True (_restart_no_message_monitor interval)
    (λ o w', raises_other_error o ∧ quiet w w') w.
Proof.
  unfold _restart_no_message_monitor. pose proof (cancel_monitor_quiet w) as Hq.
  wp_step; [done|]. destruct interval as [ms|]; [|by wp_step]. wp_step.
  apply create_group_task_quiet; [done| |done]. intros k w' _ Hq'.
  assert (quiet w' (set_monitor_task (Some k) w')) as Hq2 by (by apply quiet_same).
  wp_step; [done|]. split; [done|]. eapply quiet_trans; [done|]. by eapply quiet_trans.
Qed.

(** *** Attempts *)

(** This task looks for a connection, and there is none. *)
Definition connecting (w : world) : Prop :=
  _reconnect_lock w = Some i ∧ _active_connection_state w = None ∧ inv w.

Lemma connecting_calm : calm i connecting.
Proof.
  split; intros w w' H (Hl & Ha & Hinv).
  - destruct (rely_lock _ _ _ H Hl) as [Hl' Ha']. split_and!; [done|by apply Ha'|].
    by apply (rely_inv _ _ _ H).
  - split_and!; [by rewrite (quiet_lock _ _ H)|by rewrite (quiet_active _ _ H)|].
    by apply (quiet_inv w).
Qed.

(** And the client has not been left. *)
Definition connecting_open (w : world) : Prop := connecting w ∧ released w = false.

Lemma connecting_open_calm : calm i connecting_open.
Proof.
  destruct connecting_calm as [Hrely Hquiet]. split; intros w w' H [Hc Hr]; split.
  - by eapply Hrely.
  - destruct Hc as (Hl & Ha & _). destruct (rely_lock _ _ _ H Hl) as [_ Ha'].
    by destruct (Ha' Ha) as [_ ->].
  - by eapply Hquiet.
  - by rewrite (quiet_released _ _ H).
Qed.

Lemma running_open w : connecting w → _task_group w = GroupRunning → connecting_open w.
Proof.
  intros Hc Hg. split; [done|]. destruct (released w) eqn:Hr; [|done].
  destruct Hc as (_ & _ & Hinv). destruct (inv_released w Hinv Hr). congruence.
Qed.

(** [s] is the active connection, and this task has the lock. *)
Definition installed (s : ActiveConnectionState) (w : world) : Prop :=
  _reconnect_lock w = Some i ∧ _active_connection_state w = Some s.

Lemma install_spec s b w :
  connecting_open w →
  wp (awaits dials) (rely i) (guar i) i True (install cm s b)
    (λ o w', raises_other_error o ∧ installed s w') w.
Proof.
  intros [(Hl & Ha & Hinv) Hr]. unfold install. wp_step; [by apply install_mark_guar|].
  assert (installed s (mark_installed s w)) as Hs by done.
  set (w1 := mark_installed s w) in *. clearbody w1.
  assert (quiet w1 (set_last_message_received_time (now w1) w1)) as Hq1 by (by apply quiet_same).
  wp_step; [by apply quiet_guar|].
  assert (∀ w2, quiet w1 w2 → installed s w2) as Hkeep.
  { intros w2 Hq. destruct Hs as [Hs1 Hs2].
    split; [by rewrite (quiet_lock _ _ Hq)|by rewrite (quiet_active _ _ Hq)]. }
  wp_step. eapply (wp_conseq _ _ _ _ _ _ _ _ (λ _, True));
    [..|apply (restart_monitor_quiet (rely i))]; [done| |done| |done].
  - intros w2 w3 Hq _. by split; [apply quiet_guar|].
  - intros [[]|e] w2 [Hio Hq2] _; pose proof (quiet_trans _ _ _ Hq1 Hq2) as Hq3; [|by auto].
    destruct b; [by wp_step; auto|].
    pose proof (quiet_record (Logged WARNING "reconnected after connection failure") w2 I) as Hq4.
    wp_step; [by apply quiet_guar|]. split; [done|]. apply Hkeep. by eapply quiet_trans.
Qed.

Lemma connect_attempts_spec b attempt n issues w :
  connecting w →
  wp (awaits dials) (rely i) (guar i) i True (connect_attempts cm b attempt n issues)
    (λ o w', _reconnect_lock w' = Some i ∧
             match o with
             | Done (inl s) => _active_connection_state w' = Some s
             | Done (inr issues') => length issues' = length issues + n
             | Raised e => other_error e = true
             end) w.
Proof.
  revert attempt issues w. induction n as [|n IH]; intros attempt issues w Hw.
  { cbn [connect_attempts]. wp_step. split; [apply Hw|lia]. }
  cbn [connect_attempts]. wp_step. eapply wp_mono.
  { apply (wp_quietly i quiet True connecting); [done|apply connecting_calm|done|].
    apply (connect_to_any_server_quiet (rely i) connecting connecting_open);
      [apply rely_all_grow|apply connecting_calm|apply connecting_open_calm|apply running_open|done]. }
  intros [[s|issue]|e] w1 [(Hio & _ & HK) Hw1]; [| |by split; [apply Hw1|]].
  - wp_step. eapply wp_mono; [by eapply install_spec, HK|].
    intros [[]|e] w2 [Hio2 [Hl Ha]]; [by wp_step|done].
  - wp_step. eapply wp_mono; [by apply (wp_sleep i connecting), Hw1; apply connecting_calm|].
    intros [[]|e] w2 [Hio2 Hw2]; [|by split; [apply Hw2|]].
    eapply wp_mono; [by apply IH|]. intros o w3 [Hl Ho]. split; [done|].
    destruct o as [[s|issues']|e]; [done| |done]. rewrite Ho, length_app. simpl. lia.
Qed.

(** *** _get_active_connection_state *)

(** What a call that looks for a connection may raise; that one was lost is not among it. *)
Definition connect_error (e : exn) : Prop :=
  other_error e = true ∨
  ∃ issues, e = FailedAllConnectAttemptsError (connect_retry_attempts cm) issues ∧
            length issues = Z.to_nat (connect_retry_attempts cm).

Lemma acquire_guar w1 r w2 :
  awaits dials i AcquireLock w1 r w2 →
  guar i w1 w2 ∧ (r = Done tt ∧ _reconnect_lock w2 = Some i ∨ r = Raised CancelledError).
Proof.
  intros [(Hl & -> & ->)|[-> ->]]; [|split; [apply guar_refl|by right]].
  split; [|by left]. split; simpl; [by exists []; rewrite app_nil_r|lia|by left|done| |].
  - intros j _. by rewrite Hl.
  - by intros [].
Qed.

Lemma release_guar w : _reconnect_lock w = Some i → guar i w (set_lock None w).
Proof.
  intros Hl. split; simpl; [by exists []; rewrite app_nil_r|lia|by left|done| |].
  - intros j Hj. rewrite Hl. by intros [= ->].
  - by intros [].
Qed.

Lemma get_active_locked b P w :
  tight i P → P w →
  wp (awaits dials) (rely i) (guar i) i True
    (with_lock
       (w' ← get;
        match _active_connection_state w' with
        | Some s => mret (inl s)
        | None => connect_attempts cm b 0 (Z.to_nat (connect_retry_attempts cm)) []
        end))
    (λ o w', match o with
             | Done (inl s) => _active_connection_state w' = Some s
             | Done (inr issues) => length issues = Z.to_nat (connect_retry_attempts cm)
             | Raised e => other_error e = true
             end) w.
Proof.
  intros HT HP. unfold with_lock. wp_step. apply (wp_await (answer := answer)).
  intros w1 r w2 HR Hr.
  destruct (acquire_guar w1 r w2 Hr) as [HG Hr']. split; [done|].
  destruct Hr' as [[-> Hl]| ->]; [|done]. wp_step. wp_step; [apply guar_refl|].
  destruct (_active_connection_state w2) as [s|] eqn:Ha.
  { wp_step. wp_step; [by apply release_guar|]. done. }
  assert (inv w2) as Hinv.
  { apply (tight_inv i P HT). destruct (tight_stable i P HT) as [Hrely Hguar].
    eapply Hguar; [exact HG|]. by eapply Hrely. }
  eapply wp_mono; [by apply connect_attempts_spec|]. intros o w3 [Hl3 Ho].
  wp_step; [by apply release_guar|]. by destruct o as [[s|issues]|e].
Qed.

Lemma get_active_spec b P w :
  tight i P → P w →
  wp (awaits dials) (rely i) (guar i) i True (_get_active_connection_state cm b)
    (λ o w', P w' ∧ match o with
                    | Done s => _active_connection_state w' = Some s
                    | Raised e => connect_error e
                    end) w.
Proof.
  intros HT HP. pose proof (tight_stable i P HT) as [HR HS]. unfold _get_active_connection_state. wp_step; [apply guar_refl|].
  destruct (_active_connection_state w) as [s|] eqn:Ha; [by wp_step|]. wp_step.
  eapply wp_mono; [by apply (wp_keep _ _ _ _ _ _ P); [..|apply (get_active_locked b P)]|].
  intros [[s|issues]|e] w' [Ho HP']; [by wp_step| |by split; [|left]].
  wp_step. split; [done|]. right. eauto.
Qed.

(** ** Writing *)

(** The client was left, or has lost [n] connections since. *)
Definition lost_each_time (n since : nat) (w : world) : Prop :=
  released w = true ∨ since + n ≤ _reconnection_count w.

(** What a write may raise that began when [since] connections had been lost and makes [n]
    attempts. *)
Definition write_error (n since : nat) (e : exn) (w : world) : Prop :=
  e = FailedAllWriteAttemptsError (write_retry_attempts cm) ∧ lost_each_time n since w ∨
  connect_error e.

Lemma stable_lost n since : stable i (lost_each_time n since).
Proof.
  split; intros w w' H [Hr|Hc].
  - left. eapply released_grows; [by eapply rely_grows|done].
  - right. pose proof (rely_count _ _ _ H). lia.
  - left. eapply released_grows; [by eapply guar_grows|done].
  - right. pose proof (guar_count _ _ _ H). lia.
Qed.

Lemma lost_once_more n since w w' :
  lost_each_time n since w → given_up (_reconnection_count w) w' → grows w w' →
  lost_each_time (S n) since w'.
Proof.
  intros [Hr|Hc] [Hr'|Hc'] Hg; [by left|left; by eapply released_grows|by left|right; lia].
Qed.

Lemma write_attempts_spec P (write : nat → M unit) (written : nat → world → Prop) n k since w :
  (∀ P c w, stable i P → P w →
     wp (awaits dials) (rely i) (guar i) i True (write c)
       (λ o w', P w' ∧ raises_io_error o ∧ (o = Done tt → written c w')) w) →
  tight i P → P w → lost_each_time k since w →
  wp (awaits dials) (rely i) (guar i) i True (write_attempts cm n write)
    (λ o w', P w' ∧ match o with
                    | Done _ => ∃ c, written c w'
                    | Raised e => write_error (n + k) since e w'
                    end) w.
Proof.
  intros Hwrite HT. pose proof (tight_stable i P HT) as HS. revert k w.
  induction n as [|n IH]; intros k w HP Hk; cbn [write_attempts].
  { wp_step. by split; [|left]. }
  set (P1 w' := lost_each_time k since w' ∧ P w').
  assert (tight i P1) as HT1 by (by apply tight_and, HT; apply stable_lost).
  wp_step. eapply wp_mono; [by apply (get_active_spec false P1)|].
  intros [s|e] w1 [[Hk1 HP1] Ha]; [|by split; [|right]].
  set (P2 w' := (epoch_of s (_reconnection_count w1) w' ∧ grows w1 w') ∧ P w').
  assert (stable i P2) as HS2
    by (apply stable_and, HS; apply stable_and; [apply stable_epoch|apply stable_grows]).
  wp_step. apply wp_catch_lost. wp_step. eapply wp_mono.
  { apply (Hwrite P2 (connection s)); [done|]. split; [|done].
    split; [split; [done|by left]|apply grows_refl]. }
  intros [[]|e] w2 ([[He2 Hg2] HP2] & Hio & Hw); [by wp_step; wp_step; eauto|].
  destruct e; try (by split; [|right; left]).
  wp_step. eapply wp_mono.
  { apply (discard_spec i (λ w', grows w1 w' ∧ P w')); [|done]. apply stable_and, HS. apply stable_grows. }
  intros [[]|e] w3 ([Hg3 HP3] & Hio3 & _ & Hup); [|by split; [|right; left]].
  wp_step. rewrite Nat.add_succ_comm. apply (IH (S k)); [done|].
  by eapply lost_once_more; [|apply Hup|].
Qed.

Lemma write_frame_spec P f c w :
  sendable f = true → stable i P → P w →
  wp (awaits dials) (rely i) (guar i) i True (write_frame c f)
    (λ o w', P w' ∧ raises_io_error o ∧
             (o = Done tt → ∃ σ, Wrote c (snapshot σ f) ∈ trace w')) w.
Proof.
  intros Hf HS HP. eapply wp_mono.
  - apply (wp_discipline i (wrote_step c f) False P);
      [by intros; eapply wrote_step_quiet|done|done|apply write_frame_law, rely_all_grow].
  - intros o w' [[Hio Hw] HP']. split_and!; [done..|]. intros Ho. eexists. by eapply happened, Hw.
Qed.

Lemma attempts_write_error since e w :
  write_error (Z.to_nat (write_retry_attempts cm) + 0) since e w →
  write_error (Z.to_nat (write_retry_attempts cm)) since e w.
Proof. by rewrite Nat.add_0_r. Qed.

Lemma write_frame_reconnecting_spec P f w :
  sendable f = true → tight i P → P w →
  wp (awaits dials) (rely i) (guar i) i True (write_frame_reconnecting cm f)
    (λ o w', P w' ∧ match o with
                    | Done _ => ∃ c σ, Wrote c (snapshot σ f) ∈ trace w'
                    | Raised e =>
                      write_error (Z.to_nat (write_retry_attempts cm)) (_reconnection_count w) e w'
                    end) w.
Proof.
  intros Hf HT HP. unfold write_frame_reconnecting. eapply wp_mono.
  { apply (write_attempts_spec P _ (λ c w', ∃ σ, Wrote c (snapshot σ f) ∈ trace w')
             _ 0 (_reconnection_count w)); [|done..|right; lia].
    intros P' c w' HS HP'. by apply write_frame_spec. }
  intros [[]|e] w' [HP' Ho]; split; auto using attempts_write_error.
Qed.

Lemma write_heartbeat_reconnecting_spec P w :
  tight i P → P w →
  wp (awaits dials) (rely i) (guar i) i True (write_heartbeat_reconnecting cm)
    (λ o w', P w' ∧ match o with
                    | Done _ => ∃ c, WroteHeartbeat c ∈ trace w'
                    | Raised e =>
                      write_error (Z.to_nat (write_retry_attempts cm)) (_reconnection_count w) e w'
                    end) w.
Proof.
  intros HT HP. unfold write_heartbeat_reconnecting. eapply wp_mono.
  { apply (write_attempts_spec P _ (λ c w', WroteHeartbeat c ∈ trace w')
             _ 0 (_reconnection_count w)); [|done..|right; lia].
    intros P' c w' HS HP'. eapply wp_mono.
    - apply (wp_discipline i (heartbeat_step c) False P');
        [apply heartbeat_step_quiet|done|done|apply write_heartbeat_law].
    - intros [[]|e] w2 [H1 H2]; [by auto|]. by destruct e. }
  intros [[]|e] w' [HP' Ho]; split; auto using attempts_write_error.
Qed.

(** ** Background loops *)

Lemma sleep_spec ms w :
  wp (awaits dials) (rely i) (guar i) i True (sleep ms) (λ _ _, True) w.
Proof. eapply wp_mono; [by apply (wp_sleep i (λ _, True))|done]. Qed.

Lemma sleep_inv ms w :
  inv w → wp (awaits dials) (rely i) (guar i) i True (sleep ms) (λ _ w', inv w') w.
Proof.
  intros Hinv. eapply wp_mono; [apply (wp_sleep i inv); [apply stable_calm, stable_inv|done]|].
  by intros o w' [_ ?].
Qed.

Lemma heartbeats_safe fuel ms w :
  inv w →
  wp (awaits dials) (rely i) (guar i) i True (_send_heartbeats_forever cm fuel ms)
    (λ _ _, True) w.
Proof.
  intros Hinv. apply (wp_while_loop _ _ _ _ _ _ _ (λ _, inv)); [done|done|].
  intros [] w' Hinv'. wp_step. unfold heartbeat_round. wp_step.
  eapply wp_mono; [by apply (write_heartbeat_reconnecting_spec inv); [apply inv_tight|]|].
  intros [[]|e] w1 [Hinv1 _].
  - eapply wp_mono; [by apply sleep_inv|]. by intros [[]|e] w2 Hinv2.
  - destruct e; try done; (case_match; [|done]).
    all: match goal with
         | |- context [modify (log ?l ?m)] =>
           assert (quiet w1 (log l m w1)) as Hq by (by apply quiet_record)
         end.
    all: wp_step; [by apply quiet_guar|].
    all: eapply wp_mono; [by apply sleep_inv, (quiet_inv w1)|]; by intros [[]|e] w2 Hinv2.
Qed.

Lemma monitor_safe fuel ms w :
  wp (awaits dials) (rely i) (guar i) i True (_monitor_no_message_timeout fuel ms)
    (λ _ _, True) w.
Proof.
  apply (wp_while_loop _ _ _ _ _ _ _ (λ _ _, True)); [done|done|]. intros [] w' _. wp_step.
  unfold monitor_round. wp_step; [apply guar_refl|]. cbv zeta. case_match.
  { eapply wp_mono; [apply sleep_spec|]. by intros [[]|e] w2 _. }
  wp_step. unfold force_reconnect.
  destruct (_active_connection_state w') as [s|].
  - wp_step; [by apply quiet_guar, quiet_record|].
    eapply wp_mono; [by apply (discard_spec i (λ _, True)); [apply stable_true|]|].
    intros [[]|e] w1 _; [|done]. eapply wp_mono; [apply sleep_spec|]. by intros [[]|e] w2 _.
  - wp_step. eapply wp_mono; [apply sleep_spec|]. by intros [[]|e] w2 _.
Qed.

(** ** Reading *)

(** The generator knows which connection it reads from and since which epoch. *)
Definition reading_ok (g : reading) (w : world) : Prop :=
  match g with Outer => True | Reading s epoch _ _ => epoch_of s epoch w end ∧ inv w.

Lemma tight_reading g : tight i (reading_ok g).
Proof. destruct g; (apply tight_and; [|apply inv_tight]); [apply stable_true|apply stable_epoch]. Qed.

Lemma stable_reading g : stable i (reading_ok g).
Proof. apply tight_stable, tight_reading. Qed.

Lemma receive_guar s epoch f w :
  epoch_of s epoch w → guar i w (record_action (Received (connection s) epoch f) w).
Proof.
  intros [Hle Heq]. split; simpl; [by eexists|lia|by left|done| |].
  { intros j _ Hj. split; [done|]. intros Ha. split; [done|].
    by rewrite (released_app [Received (connection s) epoch f] w), orb_false_r. }
  apply (acts_inv [Received (connection s) epoch f]); try done.
  - intros _. rewrite (run_receive (contract_of w)).
    + by rewrite (deliver_inbox _ epoch), orb_false_r.
    + split; [done|]. intros He. destruct (Heq He) as [Ha|?]; [left|by right].
      simpl. by rewrite Ha.
  - simpl. rewrite orb_false_r. intros Hw. by apply inv_released.
Qed.

Lemma read_chunk_quiet (R : world → world → Prop) c timed p w :
  wp (awaits dials) R quiet i False (read_frames_chunk c timed p)
    (λ o _, raises_read_error timed o) w.
Proof.
  unfold read_frames_chunk. wp_step.
  eapply (wp_conseq _ _ _ _ _ _ _ _ (λ _, True)); [..|by apply (read_bytes_law R)].
  - done.
  - intros w1 w2 -> _. split; [apply quiet_refl|done].
  - done.
  - intros [raw|e] w1 Hio _; [|destruct Hio as [?|[-> [= ->]]]; [by left|by right]].
    wp_step; [by apply quiet_same|]. wp_step. left.
    by destruct (parse_frames_from_chunk p raw).
  - done.
Qed.

Lemma read_chunk_spec P c timed p w :
  stable i P → P w →
  wp (awaits dials) (rely i) (guar i) i True (read_frames_chunk c timed p)
    (λ o w', P w' ∧ raises_read_error timed o) w.
Proof.
  intros HS HP. eapply wp_mono.
  - eapply (wp_discipline i quiet False P); [done|done|done|apply read_chunk_quiet].
  - by intros o w' [? ?].
Qed.

Lemma read_step_spec g w :
  reading_ok g w →
  wp (awaits dials) (rely i) (guar i) i True (read_step cm g)
    (λ o w', match o with
             | Done (inl g') => reading_ok g' w'
             | Done (inr (f, epoch, c, g')) =>
               reading_ok g' w' ∧ Received c epoch f ∈ trace w'
             | Raised e => connect_error e
             end) w.
Proof.
  intros [Hg Hinv]. destruct g as [|s epoch p [|f pending]]; cbn [read_step].
  - wp_step. eapply wp_mono; [by apply (get_active_spec false inv); [apply inv_tight|]|].
    intros [s|e] w1 [Hinv1 Ho].
    + wp_step; [apply guar_refl|]. wp_step. split; [|done]. split; [done|]. intros _. by left.
    + destruct e; try done. case_match; [|done].
      assert (quiet w1 (log WARNING "background read recovery exhausted; keeping client alive" w1))
        as Hq by (by apply quiet_record).
      wp_step; [by apply quiet_guar|]. wp_step.
      eapply wp_mono; [apply (wp_sleep i inv); [apply stable_calm, stable_inv|by eapply quiet_inv]|].
      intros [[]|e] w2 [Hio Hinv2]; [by wp_step|by left].
  - apply wp_catch_lost. wp_step.
    eapply wp_mono; [by apply (read_chunk_spec (reading_ok (Reading s epoch p [])));
                     [apply stable_reading|]|].
    intros [[fs p']|e] w1 [HP1 Hio]; [by wp_step|]. destruct Hio as [Hio|[? _]]; [|done].
    destruct e; try (by left). wp_step.
    eapply wp_mono; [by apply (discard_spec i inv), HP1; apply stable_inv|].
    intros [[]|e] w2 (Hinv2 & Hio2 & _); [by wp_step|by left].
  - pose proof (receive_guar s epoch f w Hg) as HG. wp_step; [done|]. wp_step.
    split; [|apply recorded]. by apply (proj2 (stable_reading (Reading s epoch p pending)) w).
Qed.

Lemma read_frames_spec fuel g w :
  reading_ok g w →
  wp (awaits dials) (rely i) (guar i) i True (read_frames_reconnecting cm fuel g)
    (λ o w', match o with
             | Done (f, epoch, c, g') => reading_ok g' w' ∧ Received c epoch f ∈ trace w'
             | Raised e => connect_error e
             end) w.
Proof.
  intros Hg. apply (wp_while_loop _ _ _ _ _ _ _ reading_ok); [done|done|].
  intros g' w' Hg'. eapply wp_mono; [by apply read_step_spec|].
  by intros [[g''|[[[f epoch] c] g'']]|e] w'' Ho.
Qed.

(** ** Entering *)

Lemma quietly_guar {A} (B : Prop) (t : M A) (Q : outcome A → world → Prop) w :
  wp (awaits dials) (rely i) quiet i B t Q w → wp (awaits dials) (rely i) (guar i) i B t Q w.
Proof.
  intros H. eapply (wp_conseq _ _ _ _ _ _ _ _ (λ _, True)); [done| |done|..|exact H]; try done.
  intros w1 w2 Hq _. by split; [apply quiet_guar|].
Qed.

Lemma enter_group_spec w :
  inv w → wp (awaits dials) (rely i) (guar i) i True enter_group (λ _ w', inv w') w.
Proof.
  intros Hinv. unfold enter_group.
  wp_step; destruct (_task_group w) eqn:Hg; try apply guar_refl; cbn [fst snd]; try done.
  all: assert (guar i w (set_task_group GroupRunning w)) as HG by (apply group_guar; congruence).
  - done.
  - by apply (guar_inv _ _ _ HG).
Qed.

Lemma aenter_spec w :
  inv w → wp (awaits dials) (rely i) (guar i) i True (aenter cm) (λ _ w', inv w') w.
Proof.
  intros Hinv. unfold aenter. wp_step. eapply wp_mono; [by apply enter_group_spec|].
  intros [[]|e] w1 Hinv1; [|done]. wp_step.
  apply quietly_guar, create_group_task_quiet; [done| |done]. intros k w2 _ Hq.
  assert (quiet w2 (set_heartbeat_task (Some k) w2)) as Hq2 by (by apply quiet_same).
  wp_step; [by apply quiet_guar|]. wp_step. eapply wp_mono.
  { apply (get_active_spec true inv); [apply inv_tight|].
    eapply quiet_inv; [exact Hq2|]. by eapply quiet_inv. }
  intros [s|e] w3 [Hinv3 Ho]; [|done].
  assert (quiet w3 (set_active (Some s) w3)) as Hq3 by (by apply quiet_same).
  wp_step; [by apply quiet_guar|]. by eapply quiet_inv.
Qed.

(** ** Leaving *)

Lemma wait_tasks_spec P w :
  stable i P → P w →
  wp (awaits dials) (rely i) (guar i) i True wait_tasks (λ _ w', P w') w.
Proof.
  intros HS HP. apply (wp_await (answer := answer)). intros w1 r w2 HR Hr.
  assert (w2 = w1) as -> by (destruct Hr as [[-> _]|[_ ->]]; done).
  split; [apply guar_refl|]. by apply (proj1 HS w).
Qed.

(** What the others keep, and does not depend on the state of the group, holds when the
    group has been left. *)
Lemma exit_group_spec (R : world → world → Prop) (P : world → Prop) w :
  (∀ w w', R w w' → P w → P w') → (∀ w, P w → P (set_task_group GroupFinished w)) →
  P w →
  wp (awaits dials) R (guar i) i True exit_group
    (λ _ w', P w' ∧ _task_group w' = GroupFinished) w.
Proof.
  intros HR HP Hw. unfold exit_group. wp_step.
  apply (wp_await (answer := answer)). intros w1 r w2 H1 Hr.
  assert (w2 = w1) as -> by (destruct Hr as [[-> _]|[_ ->]]; done).
  split; [apply guar_refl|]. wp_step; [by apply group_guar|].
  assert (P (set_task_group GroupFinished w1)) by eauto. by destruct r.
Qed.

Lemma release_spec_guar s w :
  is_active s w = true → _task_group w = GroupFinished →
  guar i w (record_action (Released (connection s)) (set_active None w)).
Proof.
  intros Ha%is_active_spec Hg. set (w' := record_action _ _).
  assert (released w' = true) as Hr
    by (by rewrite (released_app [Released (connection s)] w), orb_true_r).
  split; simpl.
  - by eexists.
  - lia.
  - by right.
  - done.
  - intros j _ Hj. split; [done|]. by destruct (_active_connection_state w).
  - apply (acts_inv [Released (connection s)]); try done.
    intros _. simpl. rewrite decide_True by (by rewrite Ha). by rewrite orb_true_r, app_nil_r.
Qed.

Lemma release_gives_up s since w :
  epoch_of s since w →
  given_up since (if is_active s w
                  then record_action (Released (connection s)) (set_active None w) else w).
Proof.
  intros [Hle Heq]. destruct (is_active s w) eqn:Ha.
  - left. by rewrite (released_app [Released (connection s)] w), orb_true_r.
  - destruct (decide (since = _reconnection_count w)) as [He|He]; [|right; lia].
    destruct (Heq He) as [Hs|Hr]; [|by left]. unfold is_active in Ha. rewrite Hs in Ha.
    by rewrite bool_decide_eq_true_2 in Ha.
Qed.

Lemma close_released_spec s since w0 w :
  grows w0 w → _task_group w = GroupFinished → epoch_of s since w →
  wp (awaits dials) (rely i) (guar i) i True
    (_ ← modify (λ w, if is_active s w
                      then record_action (Released (connection s)) (set_active None w) else w);
     close (connection s))
    (λ _ w', happened_since w0 (CloseCalled (connection s)) w' ∧ given_up since w') w.
Proof.
  intros Hw0 Hg He.
  set (w1 := if is_active s w
             then record_action (Released (connection s)) (set_active None w) else w).
  assert (guar i w w1) as HG.
  { subst w1. destruct (is_active s w) eqn:Ha; [by apply release_spec_guar|apply guar_refl]. }
  wp_step; [exact HG|]. apply quietly_guar. fold w1.
  eapply (wp_mono _ _ _ _ _ _ (λ o w', (raises_other_error o ∧
    happened_since w1 (CloseCalled (connection s)) w') ∧ given_up since w')).
  - apply wp_keep; [apply (stable_given_up i since)| |by apply release_gives_up|].
    + intros w2 w3 Hq. apply (proj2 (stable_given_up i since)). by apply quiet_guar.
    + apply close_quietly, rely_all_grow.
  - intros o w2 [[_ Hc] Hup]. split; [|done]. eapply happened_later; [|exact Hc].
    eapply grows_trans; [exact Hw0|]. apply (guar_grows _ _ _ HG).
Qed.

(** A connection that is active when the client is left is closed, and not kept. *)
Lemma close_active_spec w :
  _task_group w = GroupFinished →
  wp (awaits dials) (rely i) (guar i) i True _close_active_connection_state
    (λ _ w', ∀ s, _active_connection_state w = Some s →
       happened_since w (CloseCalled (connection s)) w' ∧
       given_up (_reconnection_count w) w') w.
Proof.
  intros Hg. unfold _close_active_connection_state. wp_step; [apply guar_refl|].
  destruct (_active_connection_state w) as [s|] eqn:Hs; [|done]. wp_step. wp_step.
  set (since := _reconnection_count w). set (P w1 := _task_group w1 = GroupFinished ∧
                                                   epoch_of s since w1 ∧ grows w w1).
  assert (stable i P) as HP.
  { apply stable_and; [apply stable_finished|]. apply stable_and; [apply stable_epoch|apply stable_grows]. }
  eapply wp_mono.
  { apply (wp_keep _ _ _ _ _ _ P); [apply HP|apply HP| |apply exit_law].
    split; [done|]. split; [split; [done|by left]|apply grows_refl]. }
  intros o w1 [_ (Hg1 & He1 & Hw1)].
  assert (wp (awaits dials) (rely i) (guar i) i True
     (_ ← modify (λ w, if is_active s w
                       then record_action (Released (connection s)) (set_active None w) else w);
      close (connection s))
     (λ _ w'', happened_since w (CloseCalled (connection s)) w'' ∧ given_up since w'') w1)
    as Hclose by (by apply close_released_spec).
  destruct o as [[]|e]; [|destruct (is_connection_lost e); [wp_step|]];
    (eapply wp_mono; [exact Hclose|]); intros [[]|e'] w2 Hw2 s' [= <-]; exact Hw2.
Qed.

Lemma aexit_spec w : wp (awaits dials) (rely i) (guar i) i True aexit (λ _ _, True) w.
Proof.
  unfold aexit. wp_step; [apply guar_refl|]. destruct (_send_heartbeat_task w) as [k|]; [|done].
  wp_step.
  { apply quiet_guar. eapply quiet_trans; [apply quiet_cancel_task|apply cancel_monitor_quiet]. }
  wp_step. eapply wp_mono; [by apply (wait_tasks_spec (λ _, True)); [apply stable_true|]|].
  intros [[]|e] w1 _; [|done]. wp_step.
  eapply wp_mono; [by apply (exit_group_spec _ (λ _, True))|].
  intros o w2 [_ Hg]. eapply wp_mono; [by apply close_active_spec|]. by intros [[]|e] w3 _.
Qed.

Lemma inv_not_released w s : inv w → _active_connection_state w = Some s → released w = false.
Proof.
  intros Hw Hs. destruct (released w) eqn:Hr; [|done]. destruct (inv_released w Hw Hr). congruence.
Qed.

(** Left while nobody else leaves it, the client closes the connection that is active when
    its group has been left; the one that was active before is that one, or was lost. *)
Definition nobody_leaves (w w' : world) : Prop := rely i w w' ∧ released w' = released w.

Lemma leave_spec s w0 w :
  grows w0 w → released w = false → epoch_of s (_reconnection_count w0) w →
  wp (awaits dials) nobody_leaves (guar i) i True
    (try_finally exit_group _close_active_connection_state)
    (λ _ w', _reconnection_count w0 < _reconnection_count w' ∨
             happened_since w0 (CloseCalled (connection s)) w' ∧ released w' = true) w.
Proof.
  intros Hw0 Hr He. set (since := _reconnection_count w0) in *.
  set (P w1 := (grows w0 w1 ∧ epoch_of s since w1) ∧ released w1 = false).
  wp_step. eapply wp_mono.
  { apply (exit_group_spec _ P); [|exact (λ w1 H1, H1)|exact (conj (conj Hw0 He) Hr)].
    intros w1 w2 [H12 Hr12] [H1 H2]. split; [|congruence].
    destruct (stable_and i _ _ (stable_grows i w0) (stable_epoch i s since)) as [HP _].
    exact (HP w1 w2 H12 H1). }
  intros o w1 [[[Hw1 [Hle Heq]] Hr1] Hg1].
  eapply (wp_mono _ _ _ _ _ _ (λ _ w', since < _reconnection_count w' ∨
             happened_since w0 (CloseCalled (connection s)) w' ∧ released w' = true));
    [|by intros [[]|e] w2 H2].
  eapply (wp_conseq _ (rely i) _ (guar i) _ _ _ _ (λ w', _reconnection_count w1 ≤ _reconnection_count w'));
    [..|done|by apply close_active_spec].
  - intros w2 w3 [H _] Hc. split; [done|]. pose proof (rely_count _ _ _ H). lia.
  - intros w2 w3 H Hc. split; [done|]. pose proof (guar_count _ _ _ H). lia.
  - done.
  - intros o2 w2 Hs Hc. destruct (decide (since < _reconnection_count w2)); [by left|right].
    destruct Heq as [Ha|?]; [lia| |congruence]. destruct (Hs s Ha) as [Hcl [Hrel|Hlt]]; [|lia].
    split; [|done]. by eapply happened_later.
Qed.
End connecting.
