(* ===== verification/Subscription.v ===== *)
(** * Subscriptions (stompman/subscription.py)

    [ActiveSubscriptions], a dictionary that remembers the order of insertion together
    with an event that is set while it is empty, and the subscription objects, which
    subscribe, unsubscribe and acknowledge. *)

From S2P Require Import Prelude Frames Serde Config Errors Async World Contract Discipline Connection.
From S2P Require Import Manager ManagerSpec.

(** ** ActiveSubscriptions *)

(** [d[key] = value] on an insertion-ordered dictionary *)
Fixpoint dict_set {V} (key : str) (value : V) (d : list (str * V)) : list (str * V) :=
  match d with
  | [] => [(key, value)]
  | (k, v) :: d' => if decide (k = key) then (k, value) :: d' else (k, v) :: dict_set key value d'
  end.

(** [del d[key]] *)
Definition dict_del {V} (key : str) (d : list (str * V)) : list (str * V) :=
  filter (λ kv, kv.1 ≠ key) d.

Definition get_by_id (subscription_id : str) (w : world) : option subscription :=
  dict_get (subscriptions w) subscription_id.

Definition get_all (w : world) : list (str * subscription) := subscriptions w.

Definition get_ids (w : world) : list str := (subscriptions w).*1.

Definition contains_by_id (subscription_id : str) (w : world) : bool :=
  bool_decide (subscription_id ∈ get_ids w).

Definition delete_by_id (subscription_id : str) (w : world) : world :=
  let w := if contains_by_id subscription_id w
           then set_subscriptions (dict_del subscription_id (subscriptions w)) w else w in
  match subscriptions w with [] => set_event true w | _ => w end.

Definition add_subscription (subscription_id : str) (sub : subscription) (w : world) : world :=
  set_event false (set_subscriptions (dict_set subscription_id sub (subscriptions w)) w).

Definition wait_until_empty : M unit := wait_event.

(** ** BaseSubscription *)

(** [headers[key]] *)
Definition getitem (h : headers) (key : str) : M str :=
  of_outcome (to_outcome (of_option KeyError (h !! key))).

Definition subscribe_frame (subscription_id : str) (sub : subscription) (σ : store) : frame dict :=
  SubscribeFrame_build σ subscription_id (destination sub) (ack sub) (sub_headers sub).

Definition _subscribe `{AbstractConnection} `{AbstractConnectionLifespan}
    (cm : ConnectionManager) (subscription_id : str) (sub : subscription) : M unit :=
  w ← get;
  _ ← write_frame_reconnecting cm (subscribe_frame subscription_id sub (dicts w));
  modify (add_subscription subscription_id sub).

Definition unsubscribe `{AbstractConnection} (subscription_id : str) : M unit :=
  _ ← modify (delete_by_id subscription_id);
  _ ← maybe_write_frame (UnsubscribeFrame (Own {[us "id" := subscription_id]}));
  mret tt.

Definition ack_headers (ack_id subscription_id : str) : headers :=
  <[us "id" := ack_id]> {[us "subscription" := subscription_id]}.

(** [_nack] and [_ack] differ in the frame and in the level of the last log record; the
    log calls look up the message identifier. *)
Definition acknowledge `{AbstractConnection} (frame_of : dict → frame dict) (verb : string)
    (stale_level : level) (subscription_id : str) (h : headers)
    (received_at_reconnection_count : nat) : M unit :=
  w ← get;
  if negb (contains_by_id subscription_id w) then
    _ ← getitem h (us "message-id");
    modify (log WARNING ("failed to " +:+ verb +:+ " message frame: subscription is not active"))
  else
    match h !! us "ack" with
    | None | Some [] =>
      _ ← getitem h (us "message-id");
      modify (log WARNING ("failed to " +:+ verb +:+ " message frame: it has no ack header"))
    | Some ack_id =>
      if bool_decide (received_at_reconnection_count ≠ _reconnection_count w) then
        _ ← getitem h (us "message-id");
        modify (log stale_level ("skipping " +:+ verb +:+
                  " for message frame: connection changed since message was received"))
      else
        _ ← maybe_write_frame (frame_of (Own (ack_headers ack_id subscription_id)));
        mret tt
    end.

Definition _nack `{AbstractConnection} := acknowledge NackFrame "nack" ERROR.
Definition _ack `{AbstractConnection} := acknowledge AckFrame "ack" WARNING.

(** ** AutoAckSubscription *)

Definition _should_handle_ack_nack (sub : subscription) : bool :=
  match ack sub with client | client_individual => true | auto => false end.

(** [await self.handler(frame)] *)
Definition run_user_handler (subscription_id : str) (f : frame headers) : M unit :=
  _ ← modify (record_action (Handled subscription_id f));
  call_handler subscription_id f.

(** [self.on_suppressed_exception(exception, frame)] *)
Definition call_on_suppressed (on_suppressed : exn → callback) (e : exn) (f : frame headers)
  : M unit :=
  _ ← modify (record_action (Suppressed e f));
  of_outcome (on_suppressed e f).

Definition _run_handler `{AbstractConnection} (suppressed : exn → bool)
    (on_suppressed : exn → callback) (subscription_id : str) (sub : subscription)
    (h : headers) (body : bytes) (epoch : nat) : M unit :=
  handle (run_user_handler subscription_id (MessageFrame h body))
    (λ o, match o with
          | Raised e =>
            if suppressed e then
              _ ← (if _should_handle_ack_nack sub then _nack subscription_id h epoch else mret tt);
              call_on_suppressed on_suppressed e (MessageFrame h body)
            else Raise e
          | Done _ =>
            if _should_handle_ack_nack sub then _ack subscription_id h epoch else mret tt
          end).

(** ** AckableMessageFrame *)

Record AckableMessageFrame := mkAckable {
  message_headers : headers;
  message_body : bytes;
  _subscription : str;
  _received_at_reconnection_count : nat;
}.

Definition ackable_ack `{AbstractConnection} (m : AckableMessageFrame) : M unit :=
  _ack (_subscription m) (message_headers m) (_received_at_reconnection_count m).

Definition ackable_nack `{AbstractConnection} (m : AckableMessageFrame) : M unit :=
  _nack (_subscription m) (message_headers m) (_received_at_reconnection_count m).

(** ** All subscriptions at once *)

Definition resubscribe_to_active_subscriptions `{AbstractConnection} (c : nat) : M unit :=
  subs ← gets get_all;
  for_each subs (λ '(subscription_id, sub),
    w ← get; write_frame c (subscribe_frame subscription_id sub (dicts w))).

Definition unsubscribe_from_all_active_subscriptions `{AbstractConnection} : M unit :=
  subs ← gets get_all;
  for_each subs (λ '(subscription_id, _), unsubscribe subscription_id).

(** ** ActiveSubscriptions as a dictionary *)

Lemma dict_get_set {V} (key key' : str) (v : V) d :
  dict_get (dict_set key v d) key' = if decide (key = key') then Some v else dict_get d key'.
Proof.
  induction d as [|[k x] d IH]; simpl; [done|].
  destruct (decide (k = key)) as [->|Hk]; simpl.
  - by destruct (decide (key = key')).
  - rewrite IH. destruct (decide (k = key')) as [->|]; [|done]. by rewrite decide_False.
Qed.

Lemma dict_get_del {V} (key key' : str) (d : list (str * V)) :
  dict_get (dict_del key d) key' = if decide (key = key') then None else dict_get d key'.
Proof.
  unfold dict_del. induction d as [|[k x] d IH]; [by case_decide|].
  rewrite filter_cons. simpl. destruct (decide (k ≠ key)) as [Hk|Hk%dec_stable]; simpl; rewrite ?IH.
  - destruct (decide (k = key')) as [->|]; [|done]. by rewrite decide_False.
  - subst. by destruct (decide (key = key')).
Qed.

Lemma dict_set_keys {V} (key : str) (v : V) d :
  (dict_set key v d).*1 = if decide (key ∈ d.*1) then d.*1 else d.*1 ++ [key].
Proof.
  induction d as [|[k x] d IH]; csimpl; [done|].
  destruct (decide (k = key)) as [->|Hk]; csimpl.
  - by rewrite decide_True by left.
  - rewrite IH. destruct (decide (key ∈ d.*1)) as [Hin|Hin].
    + by rewrite decide_True by (by right).
    + rewrite decide_False; [done|]. rewrite not_elem_of_cons. auto.
Qed.

Lemma dict_set_not_nil {V} (key : str) (v : V) d : dict_set key v d ≠ [].
Proof. destruct d as [|[k x] d]; simpl; [done|]. by case_decide. Qed.

Lemma NoDup_dict_set {V} (key : str) (v : V) d : NoDup d.*1 → NoDup (dict_set key v d).*1.
Proof.
  rewrite dict_set_keys. case_decide; [done|]. intros Hd. apply NoDup_app.
  split; [done|]. split; [|apply NoDup_singleton].
  intros x Hx ->%list_elem_of_singleton. done.
Qed.

Lemma NoDup_dict_del {V} (key : str) (d : list (str * V)) : NoDup d.*1 → NoDup (dict_del key d).*1.
Proof.
  unfold dict_del. induction d as [|[k x] d IH]; csimpl; [done|]. intros [Hk Hd]%NoDup_cons.
  rewrite filter_cons. case_decide; csimpl; [|by apply IH]. apply NoDup_cons. split; [|by apply IH].
  intros Hin. apply Hk. apply list_elem_of_fmap in Hin as (kv & -> & Hkv).
  apply list_elem_of_filter in Hkv as [_ Hkv]. by apply list_elem_of_fmap_2.
Qed.

Lemma dict_del_in {V} (key key' : str) (d : list (str * V)) :
  key' ∈ (dict_del key d).*1 → key' ∈ d.*1.
Proof.
  intros (kv & -> & Hin)%list_elem_of_fmap. unfold dict_del in Hin.
  apply list_elem_of_filter in Hin as [_ Hin]. by apply list_elem_of_fmap_2.
Qed.

(** The SUBSCRIBE frame of a subscription says so. *)
Lemma subscribed_frame id sub σ σ' c l :
  Wrote c (snapshot σ' (subscribe_frame id sub σ)) ∈ l → was_subscribed l id.
Proof. intros Hin. eexists c, _. split; [exact Hin|]. by simplify_map_eq. Qed.

Lemma add_subscription_quiet id sub w :
  was_subscribed (trace w) id → quiet w (add_subscription id sub w).
Proof.
  intros Hid. split; simpl; try done; [by exists []; rewrite app_nil_r|by eauto|].
  intros (_ & Hd & Ht). split_and!; simpl; [|by apply NoDup_dict_set|].
  - by rewrite bool_decide_eq_false_2 by apply dict_set_not_nil.
  - intros id'. rewrite dict_set_keys. case_decide; [by apply Ht|].
    rewrite elem_of_app, list_elem_of_singleton. intros [?| ->]; [by apply Ht|done].
Qed.

Lemma delete_by_id_subs id w :
  subscriptions (delete_by_id id w) = dict_del id (subscriptions w) ∨
  (subscriptions (delete_by_id id w) = subscriptions w ∧ id ∉ get_ids w).
Proof.
  unfold delete_by_id, contains_by_id. case_bool_decide as Hin.
  - left. simpl. by destruct (dict_del id (subscriptions w)) eqn:E; simpl.
  - right. split; [|done]. by destruct (subscriptions w) eqn:E; simpl.
Qed.

Lemma delete_by_id_quiet id w : quiet w (delete_by_id id w).
Proof.
  assert (∀ l w1, (l = subscriptions w1 ∨ ∃ id, l = dict_del id (subscriptions w1)) →
    quiet w1 (match l with [] => set_event true (set_subscriptions l w1)
              | _ => set_subscriptions l w1 end)) as H.
  { intros l w1 Hl. destruct l as [|kv l]; (split; simpl; try done;
      [by exists []; rewrite app_nil_r|by eauto|]).
    - intros _. split_and!; simpl; [done|constructor|by intros ? ?%elem_of_nil].
    - intros (He & Hd & Ht). split_and!; simpl.
      + rewrite He. destruct Hl as [Hl|[id' Hl]]; [by rewrite <-Hl|].
        destruct (subscriptions w1); [done|]. by rewrite !bool_decide_eq_false_2.
      + change (NoDup (kv :: l).*1).
        destruct Hl as [Hl|[id' Hl]]; rewrite Hl; [done|by apply NoDup_dict_del].
      + change (∀ id, id ∈ (kv :: l).*1 → was_subscribed (trace w1) id).
        destruct Hl as [Hl|[id' Hl]]; rewrite Hl; [done|]. intros id1 Hid.
        apply Ht. by eapply dict_del_in. }
  unfold delete_by_id. destruct (contains_by_id id w); cbv zeta.
  - pose proof (H (dict_del id (subscriptions w)) w) as Hq. simpl.
    destruct (dict_del id (subscriptions w)) eqn:E; apply Hq; right; by exists id.
  - destruct (subscriptions w) eqn:E; [|apply quiet_refl].
    eapply quiet_trans; [by apply (H [] w); left|]. by apply quiet_same.
Qed.

Lemma dict_get_absent {V} (key : str) (d : list (str * V)) : key ∉ d.*1 → dict_get d key = None.
Proof.
  induction d as [|[k x] d IH]; [done|]. csimpl. intros [Hk Hd]%not_elem_of_cons.
  rewrite decide_False by done. by apply IH.
Qed.

Lemma deleted_is_gone id w : get_by_id id (delete_by_id id w) = None.
Proof.
  unfold get_by_id. destruct (delete_by_id_subs id w) as [->|[-> Hid]].
  - by rewrite dict_get_del, decide_True.
  - by apply dict_get_absent.
Qed.

Lemma deleted_keeps id w :
  let w' := delete_by_id id w in
  _active_connection_state w' = _active_connection_state w ∧ conns w' = conns w ∧
  trace w' = trace w.
Proof.
  unfold delete_by_id. destruct (contains_by_id id w); cbn [subscriptions set_subscriptions];
    [destruct (dict_del _ _)|destruct (subscriptions w)]; split_and!; reflexivity.
Qed.

(** ** The frames have the headers of their types *)

Lemma subscribe_sendable id sub σ : sendable (subscribe_frame id sub σ) = true.
Proof.
  unfold subscribe_frame, SubscribeFrame_build, sendable. cbn [is_ack negb andb parts].
  eapply conforms_keys; [done|]. repeat constructor; simplify_map_eq; by eexists.
Qed.

Lemma ack_well_typed σ F id ack_id :
  F = AckFrame ∨ F = NackFrame →
  well_typed (snapshot σ (F (Own (ack_headers ack_id id)))) = true.
Proof. by intros [-> | ->]. Qed.

(** ** Subscriptions keep the discipline *)

Section subscription.
Context `{AC : AbstractConnection} `{!ConnectionLaws AC} (i : nat).

Lemma unsubscribe_spec id w :
  wp (awaits dials) (rely i) (guar i) i True (unsubscribe id) (λ _ _, True) w.
Proof.
  unfold unsubscribe. wp_step; [apply quiet_guar, delete_by_id_quiet|]. wp_step.
  eapply wp_mono; [by apply (maybe_write_spec i (λ _, True)); [|apply stable_true|]|].
  by intros [b|e] w1 _.
Qed.

Lemma resubscribe_quiet (R : world → world → Prop) c w :
  (∀ w w', R w w' → grows w w') →
  wp (awaits dials) R quiet i True (resubscribe_to_active_subscriptions c)
    (λ o _, raises_io_error o) w.
Proof.
  intros HR. unfold resubscribe_to_active_subscriptions. wp_step; [apply quiet_refl|].
  apply (wp_for_each _ _ _ _ _ _ _ (λ _, True)); [done| |done].
  intros [id sub] w' _ _. wp_step; [apply quiet_refl|].
  eapply (wp_conseq _ _ _ _ _ _ _ _ (λ _, True)); [..|by apply (write_frame_law R)].
  - done.
  - intros w1 w2 Hw _. split; [|done]. eapply wrote_step_quiet; [|exact Hw].
    apply subscribe_sendable.
  - done.
  - by intros [[]|e] w2 [Hio _] _.
  - done.
Qed.

(** An acknowledgement is written on the connection its message came from. *)
Lemma ack_step_guar c F id ack_id w w' :
  F = AckFrame ∨ F = NackFrame →
  (∃ epoch hm body, Received c epoch (MessageFrame hm body) ∈ trace w ∧
                    hm !! us "ack" = Some ack_id) → ack_id ≠ [] →
  wrote_step c (F (Own (ack_headers ack_id id))) w w' → guar i w w'.
Proof.
  intros HF (e & hm & b & Hin & Hack) Hne [->|[σ ->]]; [apply guar_refl|].
  apply record_guar; [done|]. intros _.
  apply (run_acknowledge (contract_of w) c _ (ack_headers ack_id id)).
  - by apply ack_well_typed.
  - by destruct HF as [-> | ->].
  - apply may_acknowledge_true. exists ack_id, (MessageFrame hm b). split_and!.
    + by apply lookup_insert_eq.
    + apply elem_of_inbox_of. by exists e.
    + apply ack_id_Some. by exists hm, b.
Qed.

(** A handler is called with a message that was received for its subscription. *)
Lemma handled_guar id h body c epoch w :
  h !! us "subscription" = Some id → Received c epoch (MessageFrame h body) ∈ trace w →
  guar i w (record_action (Handled id (MessageFrame h body)) w).
Proof.
  intros Hid Hin. apply record_guar; [done|]. intros _. apply run_handles, may_handle_true.
  split; [done|]. exists c. apply elem_of_inbox_of. by exists epoch.
Qed.

Lemma run_user_handler_spec id h body c epoch (Q : outcome unit → world → Prop) w :
  h !! us "subscription" = Some id → Received c epoch (MessageFrame h body) ∈ trace w →
  (∀ o w', rely i (record_action (Handled id (MessageFrame h body)) w) w' → Q o w') →
  wp (awaits dials) (rely i) (guar i) i True
    (run_user_handler id (MessageFrame h body)) Q w.
Proof.
  intros Hid Hin HQ. unfold run_user_handler.
  wp_step; [by apply (handled_guar _ _ _ c epoch)|]. apply (wp_await (answer := answer)). intros w1 r w2 HR Hr.
  assert (w2 = w1) as -> by (destruct Hr as [[-> _]|[_ ->]]; done).
  split; [apply guar_refl|]. destruct r; by apply HQ.
Qed.

Lemma getitem_spec G (B : Prop) h key Q w :
  (∀ v, Q (Done v) w) → Q (Raised (PyError KeyError)) w →
  wp (awaits dials) (rely i) G i B (getitem h key) Q w.
Proof. intros H1 H2. unfold getitem. apply wp_of_outcome. by destruct (h !! key); simpl. Qed.

Lemma acknowledge_spec F verb lvl id h body c epoch w :
  F = AckFrame ∨ F = NackFrame →
  inv w → Received c epoch (MessageFrame h body) ∈ trace w →
  wp (awaits dials) (rely i) (guar i) i True (acknowledge F verb lvl id h epoch)
    (λ _ _, True) w.
Proof.
  intros HF Hinv Hin. unfold acknowledge. wp_step; [apply guar_refl|].
  assert (∀ l msg w, wp (awaits dials) (rely i) (guar i) i True
            (_ ← getitem h (us "message-id"); modify (log l msg)) (λ _ _, True) w) as Hlog.
  { intros l msg w'. wp_step. apply getitem_spec; [|done]. intros _.
    wp_step; [|done]. by apply quiet_guar, quiet_record. }
  destruct (contains_by_id id w); simpl negb; cbv iota; [|apply Hlog].
  destruct (h !! us "ack") as [[|a ack_id]|] eqn:Hack; [apply Hlog| |apply Hlog].
  case_bool_decide as Hepoch; [apply Hlog|]. wp_step.
  unfold maybe_write_frame. wp_step; [apply guar_refl|].
  destruct (inv_received w Hinv c epoch _ Hin) as [_ Hactive]. specialize (Hactive Hepoch).
  pose proof (inv_released w Hinv) as Hreleased.
  destruct (_active_connection_state w) as [s|].
  2:{ wp_step; [by apply quiet_guar, log_dropped_quiet|done]. }
  assert (connection s = c) as Hs.
  { destruct Hactive as [[= ?]|Hr]; [done|]. by destruct (Hreleased Hr). }
  set (P w := Received c epoch (MessageFrame h body) ∈ trace w).
  pose proof (stable_happened i (Received c epoch (MessageFrame h body))) as HS.
  apply wp_catch_lost. wp_step.
  eapply (wp_conseq _ _ _ _ _ _ _ _ P); [..|exact Hin|apply write_frame_law, rely_all_grow].
  - intros w1 w2 H1 HP1. split; [done|]. apply (proj1 HS w1); done.
  - intros w1 w2 H1 HP1.
    assert (guar i w1 w2) as HG; [|split; [done|apply (proj2 HS w1); done]].
    rewrite Hs in H1. eapply ack_step_guar; [exact HF| | |exact H1]; [by eauto 10|done].
  - done.
  - intros [[]|e] w1 _ HP1; [done|]. destruct e; try done.
    wp_step; [apply quiet_guar, log_dropped_quiet|]. wp_step.
    eapply wp_mono; [by apply (discard_spec i (λ _, True)); [apply stable_true|]|].
    by intros [[]|e] w2 _.
Qed.

Lemma run_handler_spec suppressed on_suppressed id sub h body c epoch w :
  h !! us "subscription" = Some id →
  inv w → Received c epoch (MessageFrame h body) ∈ trace w →
  wp (awaits dials) (rely i) (guar i) i True
    (_run_handler suppressed on_suppressed id sub h body epoch) (λ _ _, True) w.
Proof.
  intros Hid Hinv Hin. unfold _run_handler. wp_step.
  set (P w := inv w ∧ Received c epoch (MessageFrame h body) ∈ trace w).
  assert (stable i P) as HS by (apply stable_and; [apply stable_inv|apply stable_happened]).
  apply (run_user_handler_spec id h body c epoch); [done..|]. intros o w1 HR.
  assert (P w1) as [Hinv1 Hin1].
  { apply (proj1 HS _ _ HR). apply (proj2 HS w); [|done]. by apply (handled_guar _ _ _ c epoch). }
  destruct o as [[]|e].
  - destruct (_should_handle_ack_nack sub); [|done].
    apply (acknowledge_spec _ _ _ _ _ body c); by auto.
  - destruct (suppressed e); [|done]. wp_step.
    assert (∀ w', wp (awaits dials) (rely i) (guar i) i True
              (call_on_suppressed on_suppressed e (MessageFrame h body)) (λ _ _, True) w')
      as Hsup.
    { intros w'. unfold call_on_suppressed. wp_step; [by apply quiet_guar, quiet_record|].
      by apply wp_of_outcome. }
    destruct (_should_handle_ack_nack sub); [|by wp_step].
    eapply wp_mono; [by apply (acknowledge_spec _ _ _ _ _ body c); auto|].
    by intros [[]|e'] w'' _.
Qed.

Lemma subscribe_spec `{AL : AbstractConnectionLifespan} `{!LifespanLaws AC AL} cm id sub w :
  inv w →
  wp (awaits dials) (rely i) (guar i) i True (_subscribe cm id sub) (λ _ _, True) w.
Proof.
  intros Hinv. unfold _subscribe. wp_step; [apply guar_refl|]. wp_step. eapply wp_mono.
  { by apply (write_frame_reconnecting_spec cm i inv); [apply subscribe_sendable|apply inv_tight|]. }
  intros [[]|e] w1 [_ Hw]; [|done]. wp_step; [|done]. destruct Hw as (c & σ & Hw).
  by eapply quiet_guar, add_subscription_quiet, subscribed_frame.
Qed.
End subscription.
