(* ===== verification/Transaction.v ===== *)
(** * Transactions (stompman/transaction.py)

    A transaction records the frames it sends.  [ActiveTransactions] is the set of those
    that were begun and not finished; on a new connection their frames are sent again and
    committed. *)

From S2P Require Import Prelude Frames Config Errors Async World Contract Discipline Connection Manager.
From S2P Require Import ManagerSpec.

Definition transaction_headers (transaction_id : str) : headers :=
  {[us "transaction" := transaction_id]}.

Definition add_transaction (transaction_id : str) (w : world) : world :=
  set_active_transactions ({[transaction_id]} ∪ _active_transactions w) w.

(** [self._active_transactions.remove(self)] *)
Definition remove_transaction (transaction_id : str) : M unit :=
  w ← get;
  if decide (transaction_id ∈ _active_transactions w) then
    modify (set_active_transactions (_active_transactions w ∖ {[transaction_id]}))
  else Raise (PyError KeyError).

(** [transaction.sent_frames], a list of SEND frames: their dictionaries and bodies *)
Definition frames_of (transaction_id : str) (w : world) : list (dict * bytes) :=
  default [] (sent_frames w !! transaction_id).

Definition append_frame (transaction_id : str) (f : frame dict) (w : world) : world :=
  match f with
  | SendFrame h body =>
    set_sent_frames
      (<[transaction_id := frames_of transaction_id w ++ [(h, body)]]> (sent_frames w)) w
  | _ => w
  end.

(** [SendFrame.build(...)], which may update a dictionary of the caller *)
Definition build_send_frame (body : bytes) (destination : str) (transaction content_type : option str)
    (add_content_length : bool) (headers : option nat) : M (frame dict) :=
  sync (λ w,
    let '(σ, f) := SendFrame_build (dicts w) body destination transaction content_type
                     add_content_length headers in
    (set_dicts σ w, f)).

Section transaction.
Context `{AC : AbstractConnection} `{AL : AbstractConnectionLifespan} (cm : ConnectionManager).

Definition transaction_aenter (transaction_id : str) : M unit :=
  _ ← write_frame_reconnecting cm (BeginFrame (Own (transaction_headers transaction_id)));
  modify (add_transaction transaction_id).

(** [__aexit__]; the flag says whether the body raised. *)
Definition transaction_aexit (transaction_id : str) (exc_value : bool) : M unit :=
  if exc_value then
    _ ← maybe_write_frame (AbortFrame (Own (transaction_headers transaction_id)));
    remove_transaction transaction_id
  else
    committed ← maybe_write_frame (CommitFrame (Own (transaction_headers transaction_id)));
    if (committed : bool) then remove_transaction transaction_id else mret tt.

Definition transaction_send (transaction_id : str) (body : bytes) (destination : str)
    (content_type : option str) (add_content_length : bool) (headers : option nat) : M unit :=
  f ← build_send_frame body destination (Some transaction_id) content_type add_content_length
        headers;
  _ ← modify (append_frame transaction_id f);
  write_frame_reconnecting cm f.
End transaction.

(** ** commit_pending_transactions *)

(** [for frame in transaction.sent_frames]: a list iterator, which sees frames appended
    while it runs. *)
Definition replay_frames `{AbstractConnection} (fuel : nat) (c : nat) (transaction_id : str)
  : M unit :=
  while_loop fuel (λ k : nat,
    w ← get;
    match frames_of transaction_id w !! k with
    | Some (h, body) => _ ← write_frame c (SendFrame h body); mret (inl (S k))
    | None => mret (inr tt)
    end) O.

(** [for transaction in active_transactions]: a set iterator raises when the size of the
    set has changed since it was made. *)
Fixpoint commit_transactions `{AbstractConnection} (fuel : nat) (c : nat) (size_at_start : nat)
    (ids : list str) : M unit :=
  w ← get;
  if bool_decide (size (_active_transactions w) ≠ size_at_start) then Raise RuntimeError
  else match ids with
       | [] => mret tt
       | transaction_id :: ids' =>
         _ ← replay_frames fuel c transaction_id;
         _ ← write_frame c (CommitFrame (Own (transaction_headers transaction_id)));
         commit_transactions fuel c size_at_start ids'
       end.

Definition commit_pending_transactions `{AbstractConnection} (fuel : nat) (c : nat) : M unit :=
  w ← get;
  _ ← commit_transactions fuel c (size (_active_transactions w))
        (elements (_active_transactions w));
  modify (set_active_transactions ∅).

(** ** Transactions keep the discipline *)

Lemma SendFrame_build_is_send σ body destination tx ct acl hs :
  ∃ h, (SendFrame_build σ body destination tx ct acl hs).2 = SendFrame h body.
Proof. unfold SendFrame_build. destruct hs; [case_decide|]; by eexists. Qed.

Lemma append_frame_quiet id f w : quiet w (append_frame id f w).
Proof. destruct f; try apply quiet_refl. by apply quiet_same. Qed.

Section transaction_spec.
Context `{AC : AbstractConnection} `{!ConnectionLaws AC} (i : nat).

Lemma remove_transaction_spec id w :
  wp (awaits dials) (rely i) (guar i) i True (remove_transaction id) (λ _ _, True) w.
Proof.
  unfold remove_transaction. wp_step; [apply guar_refl|]. case_decide; [|done].
  wp_step; [|done]. by apply quiet_guar, quiet_same.
Qed.

Lemma transaction_aenter_spec `{AL : AbstractConnectionLifespan} `{!LifespanLaws AC AL} cm id w :
  inv w →
  wp (awaits dials) (rely i) (guar i) i True (transaction_aenter cm id) (λ _ _, True) w.
Proof.
  intros Hinv. unfold transaction_aenter. wp_step. eapply wp_mono.
  { by apply (write_frame_reconnecting_spec cm i inv); [|apply inv_tight|]. }
  intros [[]|e] w1 _; [|done]. wp_step; [|done]. by apply quiet_guar, quiet_same.
Qed.

Lemma transaction_aexit_spec id exc w :
  wp (awaits dials) (rely i) (guar i) i True (transaction_aexit id exc) (λ _ _, True) w.
Proof.
  unfold transaction_aexit. destruct exc; wp_step.
  - eapply wp_mono; [by apply (maybe_write_spec i (λ _, True)); [|apply stable_true|]|].
    intros [b|e] w1 _; [apply remove_transaction_spec|done].
  - eapply wp_mono; [by apply (maybe_write_spec i (λ _, True)); [|apply stable_true|]|].
    intros [[]|e] w1 _; [apply remove_transaction_spec|done..].
Qed.

(** A SEND frame is built and written; in between [k] may file it. *)
Lemma build_then_write_spec `{AL : AbstractConnectionLifespan} `{!LifespanLaws AC AL} cm body destination tx ct acl hs (file : frame dict → world → world) w :
  inv w → (∀ f w, quiet w (file f w)) →
  wp (awaits dials) (rely i) (guar i) i True
    (f ← build_send_frame body destination tx ct acl hs;
     _ ← modify (file f);
     write_frame_reconnecting cm f) (λ _ _, True) w.
Proof.
  intros Hinv Hfile. unfold build_send_frame.
  pose proof (SendFrame_build_is_send (dicts w) body destination tx ct acl hs) as [h Hh].
  wp_step; destruct (SendFrame_build (dicts w) body destination tx ct acl hs) as [σ f];
    simpl in Hh; subst f; [by apply quiet_guar, quiet_same|].
  wp_step; [by apply quiet_guar, Hfile|]. eapply wp_mono.
  { apply (write_frame_reconnecting_spec cm i inv); [done|apply inv_tight|].
    eapply quiet_inv; [apply Hfile|]. eapply quiet_inv; [|exact Hinv]. by apply quiet_same. }
  done.
Qed.

Lemma transaction_send_spec `{AL : AbstractConnectionLifespan} `{!LifespanLaws AC AL} cm id body destination ct acl hs w :
  inv w →
  wp (awaits dials) (rely i) (guar i) i True
    (transaction_send cm id body destination ct acl hs) (λ _ _, True) w.
Proof. intros Hinv. apply build_then_write_spec; [done|apply append_frame_quiet]. Qed.

(** *** Replaying *)

Lemma write_quietly (R : world → world → Prop) c f w :
  sendable f = true → (∀ w w', R w w' → grows w w') →
  wp (awaits dials) R quiet i True (write_frame c f) (λ o _, raises_io_error o) w.
Proof.
  intros Hf HR.
  eapply (wp_conseq _ _ _ _ _ _ _ _ (λ _, True)); [..|by apply (write_frame_law R)].
  - done.
  - intros w1 w2 Hw _. split; [by eapply wrote_step_quiet|done].
  - done.
  - by intros o w2 [Hio _] _.
  - done.
Qed.

Lemma replay_frames_quiet (R : world → world → Prop) fuel c id w :
  (∀ w w', R w w' → grows w w') →
  wp (awaits dials) R quiet i True (replay_frames fuel c id) (λ o _, raises_io_error o) w.
Proof.
  intros HR. apply (wp_while_loop _ _ _ _ _ _ _ (λ _ _, True)); [done|done|].
  intros k w' _. wp_step; [apply quiet_refl|].
  destruct (frames_of id w' !! k) as [[h body]|]; [|by wp_step]. wp_step.
  eapply wp_mono; [by apply write_quietly|]. by intros [[]|e] w2 Hio.
Qed.

Lemma commit_transactions_quiet (R : world → world → Prop) fuel c n ids w :
  (∀ w w', R w w' → grows w w') →
  wp (awaits dials) R quiet i True (commit_transactions fuel c n ids)
    (λ o _, raises_io_error o) w.
Proof.
  intros HR. revert w. induction ids as [|id ids IH]; intros w; cbn [commit_transactions];
    (wp_step; [apply quiet_refl|]); (case_bool_decide; [done|]); [by wp_step|].
  wp_step. eapply wp_mono; [by apply replay_frames_quiet|]. intros [[]|e] w1 Hio; [|done].
  wp_step. eapply wp_mono; [by apply write_quietly|]. intros [[]|e] w2 Hio2; [|done]. apply IH.
Qed.

Lemma commit_pending_quiet (R : world → world → Prop) fuel c w :
  (∀ w w', R w w' → grows w w') →
  wp (awaits dials) R quiet i True (commit_pending_transactions fuel c)
    (λ o _, raises_io_error o) w.
Proof.
  intros HR. unfold commit_pending_transactions. wp_step; [apply quiet_refl|]. wp_step.
  eapply wp_mono; [by apply commit_transactions_quiet|]. intros [[]|e] w1 Hio; [|done].
  wp_step; [by apply quiet_same|done].
Qed.
End transaction_spec.
