(* ===== verification/Lifespan.v ===== *)
(** * The life of one connection (stompman/connection_lifespan.py)

    The STOMP handshake on a new connection, with the replay of subscriptions and
    transactions, and the farewell. *)

From S2P Require Import Prelude Frames Serde FrameParser Config Errors Async World Contract Discipline.
From S2P Require Import Connection Manager ManagerSpec Subscription Transaction.

Record ConnectionLifespan := mkConnectionLifespan {
  protocol_version : str;
  client_heartbeat : Heartbeat;
  connection_confirmation_timeout : Z;
  disconnect_confirmation_timeout : Z;
}.

(** The members of a union of dictionaries, the later ones winning. *)
Definition connect_frame_headers (cl : ConnectionLifespan) (p : ConnectionParameters)
  : result headers :=
  heart_beat ← to_header (client_heartbeat cl);
  mret (<[us "passcode" := unescaped_passcode p]>
          (<[us "login" := login p]>
             (<[us "host" := host p]>
                (<[us "heart-beat" := heart_beat]>
                   (<[us "accept-version" := protocol_version cl]> (connect_headers p)))))).

(** The frames up to the first CONNECTED, and its headers. *)
Fixpoint take_until_connected (fs collected : list (frame headers))
  : option headers * list (frame headers) :=
  match fs with
  | [] => (None, collected)
  | ConnectedFrame h :: _ => (Some h, collected)
  | f :: fs' => take_until_connected fs' (collected ++ [f])
  end.

Definition has_receipt (fs : list (frame headers)) : bool :=
  existsb (λ f, match f with ReceiptFrame _ => true | _ => false end) fs.

(** [_make_receipt_id] and the like *)
Definition make_id (uuid4 : nat → str) : M str :=
  sync (λ w, (set_uuids (S (uuids w)) w, uuid4 (uuids w))).

Section lifespan.
Context `{AC : AbstractConnection} (cl : ConnectionLifespan) (uuid4 : nat → str) (fuel : nat).

(** [take_connected_frame_and_collect_other_frames] under [wait_for]: nothing is
    awaited but the reads, so that is where the time runs out. *)
Definition take_connected_round (c : nat) (s : FrameParser * list (frame headers))
  : M (FrameParser * list (frame headers) + option headers * list (frame headers)) :=
  let '(p, collected) := s in
  handle (read_frames_chunk c true p)
    (λ o, match o with
          | Raised (DeadlineExpired | TimeoutError) => mret (inr (None, collected))
          | Raised e => Raise e
          | Done (fs, p') =>
            match take_until_connected fs collected with
            | (Some h, collected') => mret (inr (Some h, collected'))
            | (None, collected') => mret (inl (p', collected'))
            end
          end).

Definition take_connected_frame (c : nat) : M (option headers * list (frame headers)) :=
  while_loop fuel (take_connected_round c) (new_parser, []).

Definition _establish_connection (c : nat) (p : ConnectionParameters)
  : M (Heartbeat + connection_issue) :=
  h ← of_outcome (to_outcome (connect_frame_headers cl p));
  _ ← write_frame c (ConnectFrame (Own h));
  '(connected, collected) ← take_connected_frame c;
  match connected with
  | None => mret (inr (ConnectionConfirmationTimeout (connection_confirmation_timeout cl) collected))
  | Some headers =>
    version ← getitem headers (us "version");
    if decide (version = protocol_version cl) then
      heart_beat ← getitem headers (us "heart-beat");
      server_heartbeat ← of_outcome (to_outcome (from_header heart_beat));
      _ ← _restart_background_tasks server_heartbeat;
      mret (inl server_heartbeat)
    else mret (inr (UnsupportedProtocolVersion version (protocol_version cl)))
  end.

Definition lifespan_enter (c : nat) (p : ConnectionParameters) : M (Heartbeat + connection_issue) :=
  r ← _establish_connection c p;
  match r with
  | inl hb =>
    _ ← resubscribe_to_active_subscriptions c;
    _ ← commit_pending_transactions fuel c;
    mret (inl hb)
  | inr issue => mret (inr issue)
  end.

(** [_take_receipt_frame] *)
Definition take_receipt_round (c : nat) (p : FrameParser) : M (FrameParser + unit) :=
  '(fs, p') ← read_frames_chunk c true p;
  if has_receipt fs then mret (inr tt) else mret (inl p').

Definition _take_receipt_frame (c : nat) : M unit :=
  while_loop fuel (take_receipt_round c) new_parser.

Definition is_expired (e : exn) : bool :=
  match e with DeadlineExpired | TimeoutError => true | _ => false end.

Definition lifespan_exit (c : nat) (p : ConnectionParameters) : M unit :=
  _ ← unsubscribe_from_all_active_subscriptions;
  receipt ← make_id uuid4;
  _ ← write_frame c (DisconnectFrame (Own {[us "receipt" := receipt]}));
  suppress is_expired (_take_receipt_frame c).

Definition lifespan : AbstractConnectionLifespan := {|
  enter := lifespan_enter;
  exit := lifespan_exit;
|}.
End lifespan.

(** ** The lifespan fulfils what the manager relies on *)

(** The CONNECT frame has the headers of its type. *)
Lemma connect_sendable cl p h :
  connect_frame_headers cl p = Ok h → sendable (ConnectFrame (Own h)) = true.
Proof.
  unfold connect_frame_headers. destruct (to_header (client_heartbeat cl)) as [hb|]; [|done].
  intros [= <-]. eapply (conforms_keys (ConnectFrame _)); [done|].
  repeat constructor; simplify_map_eq; by eexists.
Qed.

(** It succeeds only while the task group of the manager is running. *)
Lemma restart_background_tasks_quiet `{AC : AbstractConnection} (R : world → world → Prop) i hb w :
  wp (awaits dials) R quiet i True (_restart_background_tasks hb)
    (λ o w', raises_io_error o ∧ (o = Done tt → _task_group w = GroupRunning)) w.
Proof.
  unfold _restart_background_tasks. wp_step; [apply quiet_refl|].
  destruct (_send_heartbeat_task w) as [k|]; [|done]. wp_step; [apply quiet_cancel_task|].
  wp_step. apply create_group_task_quiet; [done| |done]. intros k' w' Hg _.
  wp_step; [by apply quiet_same|done].
Qed.

Section lifespan_spec.
Context `{AC : AbstractConnection} `{!ConnectionLaws AC}.
Context (cl : ConnectionLifespan) (uuid4 : nat → str) (fuel : nat) (i : nat).

Lemma take_connected_quiet (R : world → world → Prop) c w :
  wp (awaits dials) R quiet i True (take_connected_frame fuel c) (λ o _, raises_io_error o) w.
Proof.
  apply (wp_while_loop _ _ _ _ _ _ _ (λ _ _, True)); [done|done|].
  intros [p collected] w' _. unfold take_connected_round. wp_step.
  eapply (wp_conseq _ _ _ _ _ _ _ _ (λ _, True)); [..|by apply (read_chunk_quiet i R)].
  - done.
  - by intros w1 w2 Hq _.
  - done.
  - intros [[fs p']|e] w1 Hio _.
    + by destruct (take_until_connected fs collected) as [[h|] l].
    + destruct Hio as [Hio|[_ [= ->]]]; [|done]. by destruct e.
  - done.
Qed.

Lemma outcome_io {A} (r : result A) : raises_io_error (to_outcome r).
Proof. by destruct r. Qed.

Section entering.
Context (R : world → world → Prop) (P K : world → Prop).
Hypothesis R_grows : ∀ w w', R w w' → grows w w'.
Hypothesis (P_kept : kept R P) (K_kept : kept R K).
Hypothesis opens : ∀ w, P w → _task_group w = GroupRunning → K w.

Lemma keeping {A} (P' : world → Prop) (t : M A) Q w :
  kept R P' → P' w →
  wp (awaits dials) R quiet i True t Q w →
  wp (awaits dials) R quiet i True t (λ o w', Q o w' ∧ P' w') w.
Proof. intros [H1 H2]. by apply wp_keep. Qed.

Lemma establish_quiet c p w :
  P w →
  wp (awaits dials) R quiet i True (_establish_connection cl fuel c p)
    (λ o w', raises_io_error o ∧ P w' ∧ (∀ hb, o = Done (inl hb) → K w')) w.
Proof.
  intros HP. unfold _establish_connection. wp_step.
  destruct (connect_frame_headers cl p) as [h|e] eqn:Hh; [|done]. simpl to_outcome. cbv iota.
  wp_step. eapply wp_mono.
  { apply (keeping P); [done..|]. by apply write_quietly; [apply (connect_sendable cl p)|]. }
  intros [[]|e] w1 [Hio HP1]; [|done].
  wp_step. eapply wp_mono; [by apply (keeping P), take_connected_quiet|].
  intros [[[h'|] collected]|e] w2 [Hio2 HP2]; [|by wp_step|done].
  unfold getitem. wp_step.
  destruct (h' !! us "version"); [|done]. cbn [of_option to_outcome]. cbv beta iota.
  case_decide; [|by wp_step]. wp_step.
  destruct (h' !! us "heart-beat") as [hb|]; [|done]. cbn [of_option to_outcome]. wp_step.
  destruct (from_header hb) as [server_hb|e]; [|done]. cbn [to_outcome]. wp_step.
  set (K' w := P w ∧ (_task_group w2 = GroupRunning → K w)).
  assert (kept R K') as HK'.
  { destruct P_kept as [HR1 HQ1], K_kept as [HR2 HQ2]. split; intros v v' H' [HPw HKw].
    - split; [by eapply HR1|]. intros Hg. eapply HR2; [exact H'|auto].
    - split; [by eapply HQ1|]. intros Hg. eapply HQ2; [exact H'|auto]. }
  eapply wp_mono; [apply (keeping K'); [done|by split; [|apply opens]|
                   apply restart_background_tasks_quiet]|].
  intros [[]|e] w3 [[Hio3 Hg] [HP3 HK3]]; [|done]. wp_step. split_and!; [done..|]. auto.
Qed.

Lemma lifespan_enter_quiet c p w :
  P w →
  wp (awaits dials) R quiet i True (lifespan_enter cl fuel c p)
    (λ o w', raises_io_error o ∧ P w' ∧ (∀ hb, o = Done (inl hb) → K w')) w.
Proof.
  intros HP. unfold lifespan_enter. wp_step. eapply wp_mono; [by apply establish_quiet|].
  intros [[hb|issue]|e] w1 (Hio & HP1 & HK1); [|by wp_step|done].
  specialize (HK1 hb eq_refl).
  assert (kept R (λ w, P w ∧ K w)) as HPK
    by (destruct P_kept, K_kept; split; naive_solver).
  wp_step. eapply wp_mono; [by apply (keeping (λ w, P w ∧ K w)), resubscribe_quiet|].
  intros [[]|e] w2 [Hio2 HPK2]; [|by destruct HPK2].
  wp_step. eapply wp_mono; [by apply (keeping (λ w, P w ∧ K w)), commit_pending_quiet|].
  intros [[]|e] w3 [Hio3 [HP3 HK3]]; [|done]. by wp_step.
Qed.
End entering.

(** ** Leaving keeps the discipline *)

Lemma lifespan_exit_spec c p w :
  wp (awaits dials) (rely i) (guar i) i True (lifespan_exit uuid4 fuel c p) (λ _ _, True) w.
Proof.
  unfold lifespan_exit. wp_step.
  assert (wp (awaits dials) (rely i) (guar i) i True unsubscribe_from_all_active_subscriptions
            (λ _ _, True) w) as Hunsub.
  { unfold unsubscribe_from_all_active_subscriptions. wp_step; [apply guar_refl|].
    apply (wp_for_each _ _ _ _ _ _ _ (λ _, True)); [done| |done].
    intros [id sub] w1 _ _. eapply wp_mono; [apply unsubscribe_spec|]. by intros [[]|e] w2 _. }
  eapply wp_mono; [exact Hunsub|]. intros [[]|e] w1 _; [|done].
  unfold make_id. wp_step; [by apply quiet_guar, quiet_same|]. wp_step.
  apply quietly_guar. eapply wp_mono; [by apply write_quietly, rely_all_grow|].
  intros [[]|e] w2 _; [|done]. unfold suppress. wp_step. apply quietly_guar.
  apply (wp_while_loop _ _ _ _ _ _ _ (λ _ _, True)); [done|done|].
  - intros parser w3 _. unfold take_receipt_round. wp_step.
    eapply (wp_conseq _ _ _ _ _ _ _ _ (λ _, True)); [..|by apply (read_chunk_quiet i (rely i))];
      [done|done|done| |done].
    intros [[fs p']|e] w4 _ _; [by destruct (has_receipt fs)|]. by destruct (is_expired e).
Qed.
End lifespan_spec.

#[export] Instance lifespan_laws `{AC : AbstractConnection} `{!ConnectionLaws AC}
    (cl : ConnectionLifespan) (uuid4 : nat → str) (fuel : nat)
  : LifespanLaws AC (lifespan cl uuid4 fuel).
Proof.
  split.
  - intros R i P K c p w HR HP HK Hopen Hw. by apply lifespan_enter_quiet.
  - intros i c p w. apply lifespan_exit_spec.
Qed.
