(* ===== verification/Replay.v ===== *)
(** * What a new connection is told (connection_lifespan.py, subscription.py, transaction.py)

    When nothing else runs meanwhile, a lifespan that is entered writes, on the new
    connection and in this order: CONNECT, a SUBSCRIBE for every active subscription, and
    for every active transaction the frames it has sent and a COMMIT.  *)

From S2P Require Import Prelude Frames FrameParser Config Errors Async World Contract Discipline.
From S2P Require Import Connection Manager ManagerSpec Subscription Transaction Lifespan.

(** ** The frames *)

Definition connect_frames (cl : ConnectionLifespan) (p : ConnectionParameters)
  : list (frame headers) :=
  match connect_frame_headers cl p with Ok h => [ConnectFrame h] | Err _ => [] end.

Definition subscribe_headers (sub_id : str) (sub : subscription) (σ : store) : headers :=
  <[us "ack" := ack_mode_str (ack sub)]>
    (<[us "destination" := destination sub]>
       (<[us "id" := sub_id]>
          (match sub_headers sub with Some l => default ∅ (σ !! l) | None => ∅ end))).

Definition resubscribe_frames (w : world) : list (frame headers) :=
  (λ kv, SubscribeFrame (subscribe_headers kv.1 kv.2 (dicts w))) <$> subscriptions w.

Definition commit_frames_of (w : world) (transaction_id : str) : list (frame headers) :=
  ((λ hb, SendFrame (deref (dicts w) hb.1) hb.2) <$> frames_of transaction_id w)
    ++ [CommitFrame (transaction_headers transaction_id)].

Definition commit_frames (w : world) : list (frame headers) :=
  elements (_active_transactions w) ≫= commit_frames_of w.

(** ** Progress *)

(** The frames were written on [c], and nothing was changed that the replay reads. *)
Record progress (c : nat) (fs : list (frame headers)) (w w' : world) : Prop := {
  progress_trace : trace w' = trace w ++ (Wrote c <$> fs);
  progress_dicts : dicts w' = dicts w;
  progress_subscriptions : subscriptions w' = subscriptions w;
  progress_sent_frames : sent_frames w' = sent_frames w;
  progress_transactions : _active_transactions w' = _active_transactions w;
}.

Lemma progress_refl c w : progress c [] w w.
Proof. split; try done. by rewrite app_nil_r. Qed.

Lemma progress_trans c fs1 fs2 w1 w2 w3 :
  progress c fs1 w1 w2 → progress c fs2 w2 w3 → progress c (fs1 ++ fs2) w1 w3.
Proof.
  intros [a1 a2 a3 a4 a5] [b1 b2 b3 b4 b5]. split; [|congruence..].
  by rewrite b1, a1, fmap_app, (assoc_L (++)).
Qed.

Lemma progress_solo c fs w w1 w2 : progress c fs w w1 → solo w1 w2 → progress c fs w w2.
Proof. intros [] [t ->]. by split. Qed.

Lemma progress_commit_frames_of c fs w w' id :
  progress c fs w w' → commit_frames_of w' id = commit_frames_of w id.
Proof. intros [_ H1 _ H2 _]. unfold commit_frames_of, frames_of. by rewrite H1, H2. Qed.

Section replay.
Context `{AC : AbstractConnection} `{!ConnectionLaws AC}.
Context (cl : ConnectionLifespan) (fuel : nat) (i : nat) (B : Prop).
Abbreviation alone := (wp (awaits dials) solo (λ _ _, True) i B).

(** [done_after Q]: if the operation returns, [Q] holds. *)
Abbreviation done_after Q := (λ o w', match o with Done a => Q a w' | Raised _ => True end).

Lemma write_alone c f w :
  alone (write_frame c f) (done_after (λ _, progress c [snapshot (dicts w) f] w)) w.
Proof.
  eapply (wp_conseq _ _ _ _ _ _ _ _ (λ _, True)); [..|apply (write_frame_solo i c f w)].
  - done.
  - done.
  - done.
  - intros [[]|e] w' (_ & t & [-> |[_ ?]]) _; done.
  - done.
Qed.

Lemma read_alone c timed p w :
  alone (read_frames_chunk c timed p) (λ _, progress c [] w) w.
Proof.
  unfold read_frames_chunk. wp_step.
  eapply (wp_conseq _ _ _ _ _ _ _ _ (progress c [] w));
    [..|apply (read_bytes_law solo i c timed w)].
  - intros w1 w2 Hs Hp. split; [done|]. by eapply progress_solo.
  - by intros w1 w2 ->.
  - done.
  - intros [raw|e] w' _ Hp; [|done]. wp_step; [done|]. wp_step.
    by destruct (parse_frames_from_chunk p raw); destruct Hp.
  - apply progress_refl.
Qed.

Lemma take_connected_alone c w :
  B →
  alone (take_connected_frame fuel c) (done_after (λ _, progress c [] w)) w.
Proof.
  intros HB. apply (wp_while_loop _ _ _ _ _ _ _ (λ _, progress c [] w)); [done|apply progress_refl|].
  intros [p collected] w' Hp. unfold take_connected_round. wp_step.
  eapply wp_mono; [apply read_alone|]. intros o w1 Hp1.
  pose proof (progress_trans _ _ _ _ _ _ Hp Hp1) as Hp2.
  destruct o as [[fs p']|e]; [|by destruct e].
  by destruct (take_until_connected fs collected) as [[h|] l].
Qed.

Lemma restart_alone c hb w :
  alone (_restart_background_tasks hb) (done_after (λ _, progress c [] w)) w.
Proof.
  unfold _restart_background_tasks. wp_step; [done|].
  destruct (_send_heartbeat_task w) as [k|]; [|done]. wp_step; [done|].
  unfold create_group_task. wp_step. wp_step; destruct (_task_group (cancel_task k w)); try done.
  cbn [fst snd create_task]. wp_step. wp_step; [done|]. split; try done. by rewrite app_nil_r.
Qed.

Lemma establish_alone c p w :
  B →
  alone (_establish_connection cl fuel c p)
    (done_after (λ r w', match r with inl _ => progress c (connect_frames cl p) w w'
                                    | inr _ => True end)) w.
Proof.
  intros HB. unfold _establish_connection, connect_frames. wp_step.
  destruct (connect_frame_headers cl p) as [h|e]; [|done]. cbn [to_outcome].
  wp_step. eapply wp_mono; [apply write_alone|]. intros [[]|e] w1 H1; [|done].
  wp_step. eapply wp_mono; [by apply take_connected_alone|].
  intros [[[h'|] collected]|e] w2 H2; [|by wp_step|done].
  unfold getitem. wp_step.
  destruct (h' !! us "version"); [|done]. cbn [of_option to_outcome]. cbv beta iota.
  case_decide; [|by wp_step]. wp_step.
  destruct (h' !! us "heart-beat") as [hb|]; [|done]. cbn [of_option to_outcome]. wp_step.
  destruct (from_header hb) as [server_hb|e]; [|done]. cbn [to_outcome]. wp_step.
  eapply wp_mono; [apply (restart_alone c)|]. intros [[]|e] w3 H3; [|done]. wp_step.
  pose proof (progress_trans _ _ _ _ _ _ H1 (progress_trans _ _ _ _ _ _ H2 H3)) as H4.
  exact H4.
Qed.

Lemma resubscribe_each_alone c w0 fs0 subs w :
  progress c fs0 w0 w →
  alone (for_each subs (λ '(sub_id, sub),
           w ← get; write_frame c (subscribe_frame sub_id sub (dicts w))))
    (done_after (λ _, progress c
       (fs0 ++ ((λ kv, SubscribeFrame (subscribe_headers kv.1 kv.2 (dicts w0))) <$> subs)) w0)) w.
Proof.
  revert fs0 w. induction subs as [|[sub_id sub] subs IH]; intros fs0 w Hp; cbn [for_each].
  { by rewrite app_nil_r. }
  apply wp_bind. wp_step; [done|]. eapply wp_mono; [apply write_alone|].
  intros [[]|e] w1 H1; [|done].
  pose proof (progress_trans _ _ _ _ _ _ Hp H1) as H2.
  rewrite (progress_dicts _ _ _ _ Hp) in H2.
  eapply wp_mono; [apply (IH _ _ H2)|]. intros [[]|e] w2 H3; [|done].
  by rewrite fmap_cons, <-(assoc_L (++)) in *.
Qed.

Lemma resubscribe_alone c w :
  alone (resubscribe_to_active_subscriptions c)
    (done_after (λ _, progress c (resubscribe_frames w) w)) w.
Proof.
  unfold resubscribe_to_active_subscriptions. wp_step; [done|].
  apply (resubscribe_each_alone c w []), progress_refl.
Qed.

(** [S k] frames are written once the [k]-th has been. *)
Definition replayed (w : world) (transaction_id : str) (k : nat) : list (frame headers) :=
  (λ hb, SendFrame (deref (dicts w) hb.1) hb.2) <$> take k (frames_of transaction_id w).

Lemma replay_frames_alone c id w0 fs0 w :
  length (frames_of id w0) < fuel ∨ B →
  progress c fs0 w0 w →
  alone (replay_frames fuel c id)
    (done_after (λ _, progress c
       (fs0 ++ ((λ hb, SendFrame (deref (dicts w0) hb.1) hb.2) <$> frames_of id w0)) w0)) w.
Proof.
  intros Hfuel Hp.
  apply (wp_while_loop_measure _ _ _ _ _ _ _
           (λ k w, k ≤ length (frames_of id w0) ∧ progress c (fs0 ++ replayed w0 id k) w0 w)
           (λ k, length (frames_of id w0) - k));
    [by rewrite Nat.sub_0_r|split; [lia|by rewrite app_nil_r]|].
  intros k w1 [Hk H1]. wp_step; [done|].
  assert (frames_of id w1 = frames_of id w0) as Hf
    by (unfold frames_of; by rewrite (progress_sent_frames _ _ _ _ H1)).
  rewrite Hf. destruct (frames_of id w0 !! k) as [[h body]|] eqn:Hl.
  - wp_step. eapply wp_mono; [apply write_alone|]. intros [[]|e] w2 H2; [|done]. wp_step.
    pose proof (lookup_lt_Some _ _ _ Hl) as Hlt. split; [split; [lia|]|lia].
    pose proof (progress_trans _ _ _ _ _ _ H1 H2) as H3.
    rewrite (progress_dicts _ _ _ _ H1) in H3. unfold replayed.
    by rewrite (take_S_r _ _ _ Hl), fmap_app, (assoc_L (++)).
  - wp_step. apply lookup_ge_None in Hl.
    replace (frames_of id w0) with (take k (frames_of id w0)); [done|].
    by apply take_ge.
Qed.

Lemma commit_transactions_alone c n ids w0 fs0 w :
  (∀ id, length (frames_of id w0) < fuel) ∨ B →
  progress c fs0 w0 w →
  alone (commit_transactions fuel c n ids)
    (done_after (λ _, progress c (fs0 ++ (ids ≫= commit_frames_of w0)) w0)) w.
Proof.
  intros Hfuel. revert fs0 w. induction ids as [|id ids IH]; intros fs0 w Hp; cbn [commit_transactions];
    (wp_step; [done|]); (case_bool_decide; [done|]).
  { wp_step. by rewrite app_nil_r. }
  wp_step. eapply wp_mono; [apply (replay_frames_alone c id w0 fs0); [|done]|].
  { destruct Hfuel; auto. }
  intros [[]|e] w1 H1; [|done]. wp_step. eapply wp_mono; [apply write_alone|].
  intros [[]|e] w2 H2; [|done].
  pose proof (progress_trans _ _ _ _ _ _ H1 H2) as H3.
  eapply wp_mono; [apply (IH _ _ H3)|]. intros [[]|e] w3 H4; [|done].
  rewrite bind_cons. unfold commit_frames_of at 1. by rewrite <-!(assoc_L (++)) in *.
Qed.

(** Everything but the set of active transactions, which is empty at the end. *)
Definition replayed_all (c : nat) (fs : list (frame headers)) (w w' : world) : Prop :=
  trace w' = trace w ++ (Wrote c <$> fs) ∧ _active_transactions w' = ∅ ∧
  subscriptions w' = subscriptions w.

Lemma lifespan_enter_alone c p w :
  B →
  alone (lifespan_enter cl fuel c p)
    (done_after (λ r, match r with
       | inl _ => replayed_all c (connect_frames cl p ++ resubscribe_frames w ++ commit_frames w) w
       | inr _ => λ _, True
       end)) w.
Proof.
  intros HB. unfold lifespan_enter. wp_step. eapply wp_mono; [by apply establish_alone|].
  intros [[hb|issue]|e] w1 H1; [|by wp_step|done].
  wp_step. eapply wp_mono; [apply resubscribe_alone|]. intros [[]|e] w2 H2; [|done].
  pose proof (progress_trans _ _ _ _ _ _ H1 H2) as H3.
  assert (resubscribe_frames w1 = resubscribe_frames w) as Hr.
  { unfold resubscribe_frames. destruct H1 as [_ -> -> _ _]. done. }
  wp_step. unfold commit_pending_transactions. wp_step; [done|]. wp_step.
  eapply wp_mono; [by apply (commit_transactions_alone c _ _ w _ _ (or_intror HB) H3)|].
  intros [[]|e] w3 H4; [|done]. wp_step; [done|]. wp_step.
  rewrite (progress_transactions _ _ _ _ H3), Hr, <-(assoc_L (++)) in H4.
  destruct H4 as [Ht _ Hs _ _]. by split_and!.
Qed.
End replay.
