(* ===== verification/Client.v ===== *)
(** * The client (stompman/client.py)

    The client ties the manager to the lifespan, runs the task that listens for frames
    and hands messages to handlers, at most so many at a time. *)

From S2P Require Import Prelude Frames FrameParser Config Errors Async World Contract Discipline.
From S2P Require Import Connection Manager ManagerSpec Subscription Transaction Lifespan.

Record Client := mkClient {
  client_servers : list ConnectionParameters;
  on_error_frame : option callback;
  heartbeat : Heartbeat;
  client_connect_retry_attempts : Z;
  client_connect_retry_interval : Z;
  client_connect_timeout : Z;
  client_write_retry_attempts : Z;
  client_connection_confirmation_timeout : Z;
  client_disconnect_confirmation_timeout : Z;
  client_check_server_alive_interval_factor : Z;
  client_no_message_restart_interval : option Z;
  client_keep_alive_on_connection_failure : bool;
  max_concurrent_handlers : option nat;
}.

Definition PROTOCOL_VERSION : str := us "1.2".

(** [__post_init__] *)
Definition make_manager (cl : Client) : ConnectionManager := {|
  servers := client_servers cl;
  connect_retry_attempts := client_connect_retry_attempts cl;
  connect_retry_interval := client_connect_retry_interval cl;
  connect_timeout := client_connect_timeout cl;
  write_retry_attempts := client_write_retry_attempts cl;
  check_server_alive_interval_factor := client_check_server_alive_interval_factor cl;
  no_message_restart_interval := client_no_message_restart_interval cl;
  keep_alive_on_connection_failure := client_keep_alive_on_connection_failure cl;
|}.

Definition make_lifespan (cl : Client) : ConnectionLifespan := {|
  protocol_version := PROTOCOL_VERSION;
  client_heartbeat := heartbeat cl;
  connection_confirmation_timeout := client_connection_confirmation_timeout cl;
  disconnect_confirmation_timeout := client_disconnect_confirmation_timeout cl;
|}.

(** The state of a client that was constructed at time [t]. *)
Definition initial_world (cl : Client) (σ : store) (t : Z) : world :=
  mkWorld None None GroupNew None None 0 t [] true ∅ ∅ (max_concurrent_handlers cl) σ ∅ [] 0 t
    [] [].

Section client.
Context `{AC : AbstractConnection} (cl : Client) (uuid4 : nat → str) (fuel : nat).

#[local] Instance client_lifespan : AbstractConnectionLifespan :=
  lifespan (make_lifespan cl) uuid4 fuel.
Local Abbreviation cm := (make_manager cl).

(** ** Handlers *)

(** [except Exception: LOGGER.exception(...)] *)
Definition _run_handler_with_safety_net (coro : M unit) : M unit :=
  try_except coro is_exception (λ _, modify (log ERROR "unhandled exception in message handler")).

Definition release_semaphore (subscription_id : str) (w : world) : world :=
  record_action (HandlerDone subscription_id)
    (set_handler_semaphore (S <$> _handler_semaphore w) w).

(** The task of a handler, and the callback that runs when it is done. *)
Definition handler_task (subscription_id : str) (sub : subscription) (h : headers)
    (body : bytes) (epoch : nat) : M unit :=
  try_finally
    (_run_handler_with_safety_net
       (match kind sub with
        | AutoAckSubscription suppressed on_suppressed =>
          _run_handler suppressed on_suppressed subscription_id sub h body epoch
        | ManualAckSubscription => run_user_handler subscription_id (MessageFrame h body)
        end))
    (modify (release_semaphore subscription_id)).

(** A task that is cancelled before its first step does not run, but its callback does. *)
Definition dropped_handler (subscription_id : str) : M unit :=
  _ ← modify (release_semaphore subscription_id);
  Raise CancelledError.

(** ** _listen_to_frames *)

Definition dispatch_message (h : headers) (body : bytes) (epoch : nat) : M unit :=
  _ ← modify (λ w, set_last_message_received_time (now w) w);
  subscription_id ← getitem h (us "subscription");
  found ← gets (get_by_id subscription_id);
  match found with
  | None => mret tt
  | Some sub =>
    limited ← gets (λ w, bool_decide (is_Some (_handler_semaphore w)));
    _ ← (if (limited : bool) then acquire_semaphore else mret tt);
    modify (λ w, (create_task (RunHandler subscription_id sub h body epoch) w).1)
  end.

Definition dispatch (f : frame headers) (epoch : nat) : M unit :=
  match f with
  | MessageFrame h body => dispatch_message h body epoch
  | ErrorFrame _ _ =>
    match on_error_frame cl with
    | Some on_error => _ ← modify (record_action (ErrorHandlerCalled f)); of_outcome (on_error f)
    | None => mret tt
    end
  | _ => mret tt
  end.

Definition listen_round (g : reading) : M (reading + unit) :=
  '(f, epoch, _, g') ← read_frames_reconnecting cm fuel g;
  _ ← dispatch f epoch;
  mret (inl g').

Definition _listen_to_frames : M unit := while_loop fuel listen_round Outer.

(** ** Operations *)

Definition send (body : bytes) (destination : str) (content_type : option str)
    (add_content_length : bool) (headers : option nat) : M unit :=
  f ← build_send_frame body destination None content_type add_content_length headers;
  write_frame_reconnecting cm f.

Definition begin_transaction : M str :=
  transaction_id ← make_id uuid4;
  _ ← transaction_aenter cm transaction_id;
  mret transaction_id.

Definition subscribe (sub : subscription) : M str :=
  subscription_id ← make_id uuid4;
  _ ← _subscribe cm subscription_id sub;
  mret subscription_id.

Definition client_is_alive (listen_task_done : bool) (w : world) : bool :=
  if listen_task_done then false
  else match _active_connection_state w with
       | None => false
       | Some s => is_alive (client_check_server_alive_interval_factor cl) s w
       end.

Definition client_aenter : M unit :=
  _ ← aenter cm;
  modify (λ w, (create_task ListenToFrames w).1).

Definition cancel_listen_task (w : world) : world :=
  set_tasks ((λ t, match task_code t with
                   | ListenToFrames => mkTask ListenToFrames (started t) true
                   | _ => t
                   end) <$> tasks w) w.

(** [self._exit_stack] leaves the manager first and then the task group. *)
Definition client_aexit (exc_value : bool) : M unit :=
  try_finally (if exc_value then mret tt else wait_until_empty)
    (_ ← modify cancel_listen_task;
     _ ← wait_tasks;
     try_finally aexit wait_tasks).

(** The code of the tasks that the client creates. *)
Definition task_program (b : task_body) : M unit :=
  match b with
  | SleepZero => sleep 0
  | SendHeartbeats ms => _send_heartbeats_forever cm fuel ms
  | MonitorNoMessage ms => _monitor_no_message_timeout fuel ms
  | ListenToFrames => _listen_to_frames
  | RunHandler id sub h body epoch => handler_task id sub h body epoch
  end.
End client.

(** ** The client keeps the discipline *)

Section client_spec.
Context `{AC : AbstractConnection} `{!ConnectionLaws AC}.
Context (cl : Client) (uuid4 : nat → str) (fuel : nat) (i : nat).
Local Abbreviation cm := (make_manager cl).
#[local] Instance this_lifespan : AbstractConnectionLifespan := client_lifespan cl uuid4 fuel.
#[local] Instance this_laws : LifespanLaws AC this_lifespan.
Proof. apply lifespan_laws. Qed.

Lemma release_semaphore_quiet id w : quiet w (release_semaphore id w).
Proof. eapply quiet_trans; [|by apply quiet_record]. by apply quiet_same. Qed.

Lemma wp_any {A} (t : M A) Q w :
  wp (awaits dials) (rely i) (guar i) i True t Q w →
  wp (awaits dials) (rely i) (guar i) i True t (λ _ _, True) w.
Proof. intros H. by eapply wp_mono. Qed.

Lemma handler_task_spec id sub h body c epoch w :
  h !! us "subscription" = Some id → inv w → Received c epoch (MessageFrame h body) ∈ trace w →
  wp (awaits dials) (rely i) (guar i) i True (handler_task id sub h body epoch)
    (λ _ _, True) w.
Proof.
  intros Hid Hinv Hin. unfold handler_task. wp_step. unfold _run_handler_with_safety_net. wp_step.
  eapply wp_mono.
  - destruct (kind sub).
    + by apply (run_handler_spec i _ _ _ _ _ _ c).
    + by apply (run_user_handler_spec i id h body c epoch).
  - intros [[]|e] w' _.
    + wp_step; [apply quiet_guar, release_semaphore_quiet|done].
    + destruct (is_exception e).
      * wp_step; [by apply quiet_guar, quiet_record|].
        wp_step; [apply quiet_guar, release_semaphore_quiet|done].
      * wp_step; [apply quiet_guar, release_semaphore_quiet|done].
Qed.

Lemma create_handler_guar id sub h body c epoch w :
  h !! us "subscription" = Some id →
  Received c epoch (MessageFrame h body) ∈ trace w →
  guar i w (create_task (RunHandler id sub h body epoch) w).1.
Proof.
  intros Hid Hin. split; simpl; [by exists []; rewrite app_nil_r|lia|by left|done|done|].
  intros [H1 H0 H5 H6 H7]. split; simpl; try done.
  intros t id' sub' h' b' e'. rewrite elem_of_app, list_elem_of_singleton.
  intros [Ht| ->] Hc; [by eapply H5|]. injection Hc as <- <- <- <- <-. eauto.
Qed.

Lemma dispatch_spec P f c epoch w :
  stable i P → P w → Received c epoch f ∈ trace w →
  wp (awaits dials) (rely i) (guar i) i True (dispatch cl f epoch) (λ _ w', P w') w.
Proof.
  intros HS HP Hin. destruct f as [| | | | | | | | | | | | |h body|h body|]; try done; simpl dispatch.
  - set (P' w := P w ∧ Received c epoch (MessageFrame h body) ∈ trace w).
    assert (stable i P') as HS' by (apply stable_and; [done|apply stable_happened]).
    assert (P' w) as HP' by done.
    unfold dispatch_message.
    assert (guar i w (set_last_message_received_time (now w) w)) as HG
      by (by apply quiet_guar, quiet_same).
    wp_step; [done|]. wp_step. unfold getitem.
    assert (P' (set_last_message_received_time (now w) w)) as HP1 by (by apply (proj2 HS' w)).
    destruct (h !! us "subscription") as [id|] eqn:Hid; [|by apply HP1]. cbn [of_option to_outcome].
    change (of_outcome (Done id)) with (mret (M := M) id). wp_step.
    wp_step; [apply guar_refl|]. destruct (get_by_id id _) as [sub|]; [|by apply HP1].
    wp_step; [apply guar_refl|]. wp_step.
    assert (∀ w', P' w' →
      wp (awaits dials) (rely i) (guar i) i True
        (modify (λ w, (create_task (RunHandler id sub h body epoch) w).1)) (λ _ w', P w') w')
      as Hcreate.
    { intros w' HP2. assert (guar i w' (create_task (RunHandler id sub h body epoch) w').1)
        by (by apply (create_handler_guar _ _ _ _ c), HP2).
      wp_step; [done|]. by apply (proj2 HS w'); [|apply HP2]. }
    case_bool_decide; [|by apply Hcreate].
    apply (wp_await (answer := answer)). intros w1 r w2 HR Hr.
    assert (P' w1) as HP2 by (by eapply (proj1 HS')).
    destruct Hr as [(n & _ & -> & ->)|[-> ->]].
    + assert (guar i w1 (set_handler_semaphore (Some n) w1)) by (by apply quiet_guar, quiet_same).
      split; [done|]. apply Hcreate. by apply (proj2 HS' w1).
    + split; [apply guar_refl|]. by apply HP2.
  - destruct (on_error_frame cl) as [on_error|]; [|done].
    assert (guar i w (record_action (ErrorHandlerCalled (ErrorFrame h body)) w))
      by (by apply quiet_guar, quiet_record).
    split; [done|]. apply wp_of_outcome. by apply (proj2 HS w).
Qed.

Lemma listen_spec w :
  inv w →
  wp (awaits dials) (rely i) (guar i) i True (_listen_to_frames cl uuid4 fuel) (λ _ _, True) w.
Proof.
  intros Hinv. apply (wp_while_loop _ _ _ _ _ _ _ reading_ok); [done|by split|].
  intros g w' Hg. unfold listen_round. wp_step.
  eapply wp_mono; [by apply (read_frames_spec cm i)|].
  intros [[[[f epoch] c] g']|e] w1 Ho; [|done]. destruct Ho as [Hg' Hin]. wp_step.
  eapply wp_mono; [by apply (dispatch_spec (reading_ok g') f c); [apply stable_reading|..]|].
  by intros [[]|e] w2 Hg2.
Qed.

Lemma send_spec body destination ct acl hs w :
  inv w →
  wp (awaits dials) (rely i) (guar i) i True
    (send cl uuid4 fuel body destination ct acl hs) (λ _ _, True) w.
Proof.
  intros Hinv. unfold send, build_send_frame.
  pose proof (SendFrame_build_is_send (dicts w) body destination None ct acl hs) as [h Hh].
  wp_step; destruct (SendFrame_build (dicts w) body destination None ct acl hs) as [σ f];
    simpl in Hh; subst f; [by apply quiet_guar, quiet_same|].
  eapply wp_any, (write_frame_reconnecting_spec cm i inv); [done|apply inv_tight|].
  eapply quiet_inv; [|exact Hinv]. by apply quiet_same.
Qed.

Lemma make_id_quiet w : quiet w (set_uuids (S (uuids w)) w).
Proof. by apply quiet_same. Qed.

Lemma begin_spec w :
  inv w →
  wp (awaits dials) (rely i) (guar i) i True (begin_transaction cl uuid4 fuel) (λ _ _, True) w.
Proof.
  intros Hinv. unfold begin_transaction, make_id.
  wp_step; [apply quiet_guar, make_id_quiet|]. wp_step.
  eapply wp_mono; [apply (transaction_aenter_spec i); eapply quiet_inv; [apply make_id_quiet|done]|]. by intros [[]|e] w1 _.
Qed.

Lemma client_subscribe_spec sub w :
  inv w →
  wp (awaits dials) (rely i) (guar i) i True (subscribe cl uuid4 fuel sub) (λ _ _, True) w.
Proof.
  intros Hinv. unfold subscribe, make_id.
  wp_step; [apply quiet_guar, make_id_quiet|]. wp_step.
  eapply wp_mono; [apply (subscribe_spec i); eapply quiet_inv; [apply make_id_quiet|done]|]. by intros [[]|e] w1 _.
Qed.

Lemma client_aenter_spec w :
  inv w →
  wp (awaits dials) (rely i) (guar i) i True (client_aenter cl uuid4 fuel) (λ _ _, True) w.
Proof.
  intros Hinv. unfold client_aenter. wp_step. eapply wp_mono; [by apply (aenter_spec cm i)|].
  intros [[]|e] w1 _; [|done]. wp_step; [|done].
  apply quiet_guar. by apply (quiet_create_task ListenToFrames).
Qed.

Lemma cancel_listen_quiet w : quiet w (cancel_listen_task w).
Proof.
  split; simpl; try done; [by exists []; rewrite app_nil_r|].
  intros t (t' & -> & Ht')%list_elem_of_fmap. by destruct (task_code t') eqn:Hc; eauto.
Qed.

Lemma client_aexit_spec exc w :
  wp (awaits dials) (rely i) (guar i) i True (client_aexit cl uuid4 fuel exc) (λ _ _, True) w.
Proof.
  unfold client_aexit. wp_step.
  assert (∀ w', wp (awaits dials) (rely i) (guar i) i True
    (_ ← modify cancel_listen_task; _ ← wait_tasks; try_finally aexit wait_tasks) (λ _ _, True) w')
    as Hleave.
  { intros w'. wp_step; [apply quiet_guar, cancel_listen_quiet|]. wp_step.
    eapply wp_mono; [by apply (wait_tasks_spec i (λ _, True)); [apply stable_true|]|].
    intros [[]|e] w1 _; [|done]. wp_step. eapply wp_mono; [apply (aexit_spec i)|]. intros o w2 _.
    eapply wp_mono; [by apply (wait_tasks_spec i (λ _, True)); [apply stable_true|]|].
    by intros [[]|e] w3 _; [destruct o|]. }
  assert (∀ o : outcome unit, ∀ w', wp (awaits dials) (rely i) (guar i) i True
    (_ ← modify cancel_listen_task; _ ← wait_tasks; try_finally aexit wait_tasks)
    (λ o' w'', match o' with Done _ => True | Raised e => True end) w') as Hleave'.
  { intros o w'. eapply wp_mono; [apply Hleave|]. by intros [[]|e]. }
  destruct exc; [wp_step; apply (Hleave' (Done tt))|].
  apply (wp_await (answer := answer)). intros w1 r w2 _ Hr.
  assert (w2 = w1) as -> by (destruct Hr as [(_ & _ & ->)|[_ ->]]; done).
  split; [apply guar_refl|apply (Hleave' r)].
Qed.
End client_spec.
