(* ===== verification/System.v ===== *)
(** * The running client

    All the tasks of a client together: the ones it creates, the operations the program
    calls from any number of tasks of its own, and the outside world, in every
    interleaving, from the construction of the client until it has been left. *)

From S2P Require Import Prelude Frames Config Errors Async World Contract Discipline Connection Manager.
From S2P Require Import ManagerSpec Subscription Transaction Lifespan Client.

(** A task that was created starts once, if it was not cancelled before; a handler's task
    may also be cancelled by the task group it belongs to. *)
Definition start_task (k : nat) (w : world) : world :=
  set_tasks (alter (λ t, mkTask (task_code t) true (cancelled t)) k (tasks w)) w.

(** A task of the manager's group has failed: the group takes no new tasks. *)
Definition abort_group (w : world) : world :=
  match _task_group w with GroupRunning => set_task_group GroupAborted w | _ => w end.

(** Time passes, transports break and connections change, and the program changes its own
    header dictionaries; the manager's task group is aborted; or an attempt to connect for
    which nobody waits comes to its end. *)
Definition nature (dials : ConnectionParameters → bool) (w w' : world) : Prop :=
  (∃ cs t σ, w' = set_conns cs (set_now t (set_dicts σ w))) ∨
  w' = abort_group w ∨
  ∃ j server, abandoned w !! j = Some server ∧
    let w1 := set_abandoned (delete j (abandoned w)) w in
    w' = w1 ∨
    ∃ c, dials server = true ∧ conns w !! c = None ∧ w' = open_connection c server w1.

Section system.
Context `{AC : AbstractConnection} `{!ConnectionLaws AC}.
Context (cl : Client) (uuid4 : nat → str) (fuel : nat).
Local Abbreviation cm := (make_manager cl).
#[local] Instance system_lifespan : AbstractConnectionLifespan := client_lifespan cl uuid4 fuel.
#[local] Instance system_laws : LifespanLaws AC system_lifespan.
Proof. apply lifespan_laws. Qed.

(** What the program may call, each from a task of its own. *)
Inductive operation :=
  | Enter
  | Send (body : bytes) (destination : str) (content_type : option str)
      (add_content_length : bool) (headers : option nat)
  | Begin
  | TransactionSend (id : str) (body : bytes) (destination : str) (content_type : option str)
      (add_content_length : bool) (headers : option nat)
  | TransactionExit (id : str) (exc_value : bool)
  | Subscribe (sub : subscription)
  | Unsubscribe (id : str)
  | Ack (m : AckableMessageFrame)
  | Nack (m : AckableMessageFrame)
  | Exit (exc_value : bool).

Definition operation_program (op : operation) : M unit :=
  match op with
  | Enter => client_aenter cl uuid4 fuel
  | Send body destination content_type add_content_length headers =>
    send cl uuid4 fuel body destination content_type add_content_length headers
  | Begin => _ ← begin_transaction cl uuid4 fuel; mret tt
  | TransactionSend id body destination content_type add_content_length headers =>
    transaction_send cm id body destination content_type add_content_length headers
  | TransactionExit id exc_value => transaction_aexit id exc_value
  | Subscribe sub => _ ← subscribe cl uuid4 fuel sub; mret tt
  | Unsubscribe id => unsubscribe id
  | Ack m => ackable_ack m
  | Nack m => ackable_nack m
  | Exit exc_value => client_aexit cl uuid4 fuel exc_value
  end.

(** The program acknowledges messages it was given. *)
Definition was_received (m : AckableMessageFrame) (w : world) : bool :=
  existsb (λ a, match a with
                | Received _ epoch f =>
                  bool_decide (epoch = _received_at_reconnection_count m ∧
                               f = MessageFrame (message_headers m) (message_body m))
                | _ => false
                end) (trace w).

Definition allowed (op : operation) (w : world) : bool :=
  match op with Ack m | Nack m => was_received m w | _ => true end.

Inductive spawn : world → M unit → world → Prop :=
  | spawn_created w k t :
    tasks w !! k = Some t → started t = false → cancelled t = false →
    spawn w (task_program cl uuid4 fuel (task_code t)) (start_task k w)
  | spawn_dropped w k t id sub h body epoch :
    tasks w !! k = Some t → started t = false → task_code t = RunHandler id sub h body epoch →
    spawn w (dropped_handler id) (start_task k w)
  | spawn_operation w op :
    allowed op w = true → spawn w (operation_program op) w.

(** The states a client constructed at time [t] can get into. *)
Definition reachable_world (σ : store) (t : Z) (w : world) : Prop :=
  ∃ ts, reachable (awaits dials) (nature dials) spawn (initial_world cl σ t) (ts, w).

Lemma initial_inv σ t : inv (initial_world cl σ t).
Proof.
  split; simpl; try done; try (intros; set_solver). constructor.
Qed.

Lemma start_task_quiet k w : quiet w (start_task k w).
Proof.
  split; simpl; try done; [by exists []; rewrite app_nil_r|].
  intros t [Ht|(t' & Ht & ->)]%elem_of_alter; by eauto.
Qed.

Lemma nature_guar i w w' : nature dials w w' → guar i w w'.
Proof.
  intros [(cs & t & σ & ->)|[->|(j & server & _ & [->|(c & _ & _ & ->)])]].
  1, 3: by apply quiet_guar, quiet_same.
  2: { apply quiet_guar. eapply quiet_trans; [|by apply quiet_record]. by apply quiet_same. }
  unfold abort_group. destruct (_task_group w) eqn:Hg; try apply guar_refl.
  apply group_guar. congruence.
Qed.

Lemma other_rely i w w' : (∀ j, guar j w w') → rely i w w'.
Proof. intros HG. apply (guar_rely i (S i)); [lia|apply HG]. Qed.

Lemma quiet_rely i w w' : quiet w w' → rely i w w'.
Proof. intros Hq. apply other_rely. intros j. by apply quiet_guar. Qed.

Lemma task_program_spec i k t w :
  inv w → tasks w !! k = Some t →
  wp (awaits dials) (rely i) (guar i) i True (task_program cl uuid4 fuel (task_code t))
    (λ _ _, True) (start_task k w).
Proof.
  intros Hinv Hk.
  assert (inv (start_task k w)) as Hinv' by (eapply quiet_inv; [apply start_task_quiet|done]).
  destruct (task_code t) as [|ms|ms| |id sub h body epoch] eqn:Hcode;
    simpl task_program.
  - apply sleep_spec.
  - apply (heartbeats_safe cm i), Hinv'.
  - apply monitor_safe.
  - apply listen_spec, Hinv'.
  - destruct (inv_handlers w Hinv t id sub h body epoch) as [Hid [c Hc]];
      [by eapply list_elem_of_lookup_2|done|].
    apply (handler_task_spec i _ _ _ _ c); [done| |done].
    apply (quiet_inv w); [apply start_task_quiet|done].
Qed.

Lemma was_received_spec m w :
  was_received m w = true →
  ∃ c, Received c (_received_at_reconnection_count m)
         (MessageFrame (message_headers m) (message_body m)) ∈ trace w.
Proof.
  intros (a & Ha & Hm)%existsb_exists. destruct a as [| | | | | | |c e f| | | | | |]; try done.
  apply bool_decide_eq_true in Hm as [-> ->]. exists c. by apply list_elem_of_In.
Qed.

Lemma operation_spec i op w :
  inv w → allowed op w = true →
  wp (awaits dials) (rely i) (guar i) i True (operation_program op) (λ _ _, True) w.
Proof.
  intros Hinv Hop. destruct op as [| | | | | | |m|m|exc]; cbn [operation_program].
  - by apply client_aenter_spec.
  - by apply send_spec.
  - wp_step. eapply wp_mono; [by apply begin_spec|]. by intros [id|e] w' _.
  - by apply (transaction_send_spec i cm).
  - apply transaction_aexit_spec.
  - wp_step. eapply wp_mono; [by apply client_subscribe_spec|]. by intros [id|e] w' _.
  - apply unsubscribe_spec.
  - apply was_received_spec in Hop as [c Hc].
    apply (acknowledge_spec i _ _ _ _ _ (message_body m) c); by auto.
  - apply was_received_spec in Hop as [c Hc].
    apply (acknowledge_spec i _ _ _ _ _ (message_body m) c); by auto.
  - apply client_aexit_spec.
Qed.

Lemma spawn_safe w t w' :
  inv w → spawn w t w' →
  inv w' ∧ (∀ i, rely i w w') ∧
  ∀ i, wp (awaits dials) (rely i) (guar i) i True t (λ _ _, True) w'.
Proof.
  intros Hinv Hs. destruct Hs as [w0 k t' Hk Hst Hc|w0 k t' id sub h body epoch _ _ _|w0 op Hop].
  - pose proof (start_task_quiet k w0) as Hq. split; [by apply (quiet_inv w0)|].
    split; [by intros; apply quiet_rely|]. intros i. by apply task_program_spec.
  - pose proof (start_task_quiet k w0) as Hq. split; [by apply (quiet_inv w0)|].
    split; [by intros; apply quiet_rely|]. intros i. unfold dropped_handler.
    wp_step; [apply quiet_guar, release_semaphore_quiet|done].
  - split; [done|]. split; [by intros; apply rely_refl|]. intros i. by apply operation_spec.
Qed.

Lemma nature_ok w w' : inv w → nature dials w w' → inv w' ∧ ∀ i, rely i w w'.
Proof.
  intros Hinv Hn. split; [by apply (guar_inv _ _ _ (nature_guar 0 _ _ Hn))|]. intros i.
  apply other_rely. intros j. by apply nature_guar.
Qed.

(** The rely and the guarantee fit together, so that every configuration is in order. *)
Lemma system_ok σ t c :
  reachable (awaits dials) (nature dials) spawn (initial_world cl σ t) c →
  config_ok (awaits dials) rely guar inv c.
Proof.
  apply (Async.reachable_ok (awaits dials) (nature dials) spawn rely guar inv rely_trans rely_refl).
  - intros i j w1 w2 Hij _. by apply guar_rely.
  - intros i w1 w2 Hinv HG. by apply (guar_inv i w1).
  - apply nature_ok.
  - apply spawn_safe.
  - apply initial_inv.
Qed.

Lemma world_inv σ t w : reachable_world σ t w → inv w.
Proof. intros [ts [[Hw _] _]%system_ok]. exact Hw. Qed.

Lemma system_grows σ t c c' :
  reachable (awaits dials) (nature dials) spawn (initial_world cl σ t) c →
  pool_step (awaits dials) (nature dials) spawn c c' → grows c.2 c'.2.
Proof.
  intros Hc Hs. eapply (rely_grows (length c'.1)).
  eapply (Async.step_bystander (awaits dials) (nature dials) spawn rely guar inv rely_trans rely_refl);
    [..|by eapply system_ok|exact Hs|done].
  - intros i j w1 w2 Hij _. by apply guar_rely.
  - intros i w1 w2 Hinv HG. by apply (guar_inv i w1).
  - apply nature_ok.
  - apply spawn_safe.
Qed.
End system.
