(* ===== verification/Footprint.v ===== *)
(** * The footprint of the operations

    What the operations of a client leave alone: the task that listens, the handlers' tasks,
    their permits and their calls.  Every step of every operation is [calm], but for the
    dispatch of a message and the task of a handler, and for the three places where the
    manager creates a task of its own and the one where the client creates the task that
    listens.  The walk through the code that shows it is done here once, for any predicate
    on programs that is closed the way [Walk] says: for [mild], the programs whose steps are
    all [tame], and for those that keep an assertion whenever they wait ([Bookkeeping]). *)

From S2P Require Import Prelude Frames FrameParser Config Errors Async World Contract Discipline.
From S2P Require Import Connection Manager Subscription Transaction Lifespan Client System.

(** ** Tame steps *)

Definition codes (w : world) : list task_body := task_code <$> tasks w.

(** The tasks, and whether they were started. *)
Definition starts (w : world) : list (task_body * bool) :=
  (λ t, (task_code t, started t)) <$> tasks w.

Definition is_heartbeat_body (b : task_body) : bool :=
  match b with SleepZero | SendHeartbeats _ => true | _ => false end.

(** A task of the manager's, neither the one that listens nor a handler's. *)
Definition is_background (b : task_body) : bool :=
  match b with ListenToFrames | RunHandler _ _ _ _ _ => false | _ => true end.

Definition is_monitor_body (b : task_body) : bool :=
  match b with MonitorNoMessage _ => true | _ => false end.

(** The task that is referred to exists and has a body of that kind. *)
Definition refers (kind_of : task_body → bool) (k : option nat) (bs : list task_body) : Prop :=
  ∀ j, k = Some j → ∃ b, bs !! j = Some b ∧ kind_of b = true.

(** The actions by which handlers are called and end. *)
Definition of_handler (a : action) : bool :=
  match a with Handled _ _ | HandlerDone _ => true | _ => false end.

(** A task that was cancelled stays so. *)
Definition not_revived (w w' : world) : Prop :=
  ∀ j t', tasks w' !! j = Some t' → cancelled t' = false →
    ∃ t, tasks w !! j = Some t ∧ cancelled t = false.

(** A step that concerns none of this; when [d] holds, it does not change a dictionary of
    the program's either. *)
Record calm (d : bool) (w w' : world) : Prop := {
  calm_tasks : starts w' = starts w;
  calm_cancelled : not_revived w w';
  calm_semaphore : _handler_semaphore w' = _handler_semaphore w;
  calm_trace : ∃ l, trace w' = trace w ++ l ∧ Forall (λ a, of_handler a = false) l;
  calm_heartbeat : _send_heartbeat_task w' = _send_heartbeat_task w;
  calm_monitor : _monitor_no_message_task w' = _monitor_no_message_task w;
  calm_group : _task_group w = GroupNew ∨ _task_group w' ≠ GroupNew;
  calm_dicts : d = true → dicts w' = dicts w;
}.

(** The same, but tasks of the manager's may be created and referred to. *)
Record tame (d : bool) (w w' : world) : Prop := {
  tame_tasks : ∃ l, starts w' = starts w ++ l ∧ Forall (λ v, is_background v.1 = true) l;
  tame_semaphore : _handler_semaphore w' = _handler_semaphore w;
  tame_trace : ∃ l, trace w' = trace w ++ l ∧ Forall (λ a, of_handler a = false) l;
  tame_group : _task_group w = GroupNew ∨ _task_group w' ≠ GroupNew;
  tame_dicts : d = true → dicts w' = dicts w;
}.

Lemma codes_starts w : codes w = (starts w).*1.
Proof. unfold codes, starts. by rewrite <-list_fmap_compose. Qed.

Lemma starts_start k t w :
  tasks w !! k = Some t → starts (start_task k w) = <[k := (task_code t, true)]> (starts w).
Proof.
  intros Hk. unfold starts. simpl. apply list_eq. intros j.
  rewrite list_lookup_fmap, list_lookup_alter, list_lookup_insert, list_lookup_fmap, length_fmap.
  destruct (decide (k = j)) as [->|Hj].
  - rewrite Hk, decide_True; [done|]. split; [done|]. by eapply lookup_lt_Some.
  - rewrite decide_False by naive_solver. done.
Qed.

(** The start of a task in a count of the tasks. *)
Lemma count_start (P : task_body * bool → bool) k t w :
  tasks w !! k = Some t → started t = false →
  length (List.filter P (starts (start_task k w))) + (if P (task_code t, false) then 1 else 0) =
  length (List.filter P (starts w)) + (if P (task_code t, true) then 1 else 0).
Proof.
  intros Hk Hst. rewrite (starts_start k t w Hk). apply filter_insert.
  unfold starts. by rewrite list_lookup_fmap, Hk, <-Hst.
Qed.

Lemma codes_start k w : codes (start_task k w) = codes w.
Proof.
  unfold codes. simpl. apply list_eq. intros j.
  rewrite !list_lookup_fmap, list_lookup_alter. case_decide; [|done]. subst.
  by destruct (tasks w !! j).
Qed.

Lemma refers_app P k bs l : refers P k bs → refers P k (bs ++ l).
Proof.
  intros H j Hj. destruct (H j Hj) as (b & Hb & HP). exists b. split; [|done].
  by apply lookup_app_l_Some.
Qed.

Lemma refers_lookup P j b bs : bs !! j = Some b → P b = true → refers P (Some j) bs.
Proof. intros Hj HP j' [= <-]. by exists b. Qed.

Lemma tame_codes d w w' : tame d w w' →
  ∃ l, codes w' = codes w ++ l ∧ Forall (λ b, is_background b = true) l.
Proof.
  intros [(l & Hl & HF) _ _ _ _]. exists l.*1. rewrite !codes_starts, Hl, fmap_app.
  split; [done|]. by apply Forall_fmap.
Qed.

(** What concerns neither tasks, references, permits nor the history. *)
Lemma calm_same d w w' :
  tasks w' = tasks w → _handler_semaphore w' = _handler_semaphore w → trace w' = trace w →
  _send_heartbeat_task w' = _send_heartbeat_task w →
  _monitor_no_message_task w' = _monitor_no_message_task w →
  _task_group w' = _task_group w ∨ _task_group w' ≠ GroupNew →
  dicts w' = dicts w → calm d w w'.
Proof.
  intros H1 H2 H3 H4 H5 H6 H7. split; try done.
  - unfold starts. by rewrite H1.
  - intros j t'. rewrite H1. eauto.
  - exists []. by rewrite app_nil_r.
  - destruct H6 as [->|]; [|by right]. destruct (_task_group w); [by left|by right..].
Qed.

Lemma calm_refl d w : calm d w w.
Proof. apply calm_same; try done. by left. Qed.

Lemma calm_trans d w1 w2 w3 : calm d w1 w2 → calm d w2 w3 → calm d w1 w3.
Proof.
  intros [a1 a2 a3 (t1 & a4 & g1) a5 a6 a7 a8] [b1 b2 b3 (t2 & b4 & g2) b5 b6 b7 b8].
  split; try congruence.
  - intros j t' Hj Hc. destruct (b2 j t' Hj Hc) as (t2' & Hj2 & Hc2). by eapply a2.
  - exists (t1 ++ t2). rewrite b4, a4, (assoc_L (++)). split; [done|]. by apply Forall_app.
  - destruct a7; [by left|]. destruct b7; [congruence|by right].
  - intros Hd. by rewrite b8, a8.
Qed.

Lemma tame_trans d w1 w2 w3 : tame d w1 w2 → tame d w2 w3 → tame d w1 w3.
Proof.
  intros [(l1 & a1 & f1) a2 (t1 & a3 & g1) a6 a7] [(l2 & b1 & f2) b2 (t2 & b3 & g2) b6 b7]. split.
  - exists (l1 ++ l2). rewrite b1, a1, (assoc_L (++)). split; [done|]. by apply Forall_app.
  - congruence.
  - exists (t1 ++ t2). rewrite b3, a3, (assoc_L (++)). split; [done|]. by apply Forall_app.
  - destruct a6; [by left|]. destruct b6; [congruence|by right].
  - intros Hd. by rewrite b7, a7.
Qed.

Lemma calm_tame d w w' : calm d w w' → tame d w w'.
Proof. intros [H1 _ H3 H4 _ _ H7 H8]. split; try done. exists []. by rewrite app_nil_r. Qed.

Lemma tame_refl d w : tame d w w.
Proof. apply calm_tame, calm_refl. Qed.

Section after.
Context (d : bool) (w0 w : world).
Abbreviation calm := (calm d).

Lemma calm_then w' :
  tasks w' = tasks w → _handler_semaphore w' = _handler_semaphore w → trace w' = trace w →
  _send_heartbeat_task w' = _send_heartbeat_task w →
  _monitor_no_message_task w' = _monitor_no_message_task w →
  _task_group w' = _task_group w → dicts w' = dicts w → calm w0 w → calm w0 w'.
Proof.
  intros H1 H2 H3 H4 H5 H6 H7 H. eapply calm_trans; [exact H|]. apply calm_same; auto.
Qed.

(** The task group is not new again. *)
Lemma calm_set_group x : x ≠ GroupNew → calm w0 w → calm w0 (set_task_group x w).
Proof. intros Hx H. eapply calm_trans; [exact H|]. apply calm_same; auto. Qed.

Lemma same_group w' :
  _task_group w' = _task_group w → _task_group w = GroupNew ∨ _task_group w' ≠ GroupNew.
Proof. intros ->. destruct (_task_group w); [by left|by right..]. Qed.

Lemma calm_record a : of_handler a = false → calm w0 w → calm w0 (record_action a w).
Proof.
  intros Ha H. eapply calm_trans; [exact H|].
  split; try done; [by intros j t'; eauto|exists [a]; by auto|by apply same_group].
Qed.

Lemma calm_log l msg : calm w0 w → calm w0 (log l msg w).
Proof. by apply calm_record. Qed.

(** Some tasks are cancelled. *)
Lemma calm_set_tasks ts :
  starts (set_tasks ts w) = starts w → not_revived w (set_tasks ts w) →
  calm w0 w → calm w0 (set_tasks ts w).
Proof.
  intros H1 H2 H. eapply calm_trans; [exact H|].
  split; try done; [exists []; by rewrite app_nil_r|by apply same_group].
Qed.

Lemma starts_alter k (f : background_task → background_task) :
  (∀ t, (task_code (f t), started (f t)) = (task_code t, started t)) →
  starts (set_tasks (alter f k (tasks w)) w) = starts w.
Proof.
  intros Hf. unfold starts. simpl. apply list_eq. intros j.
  rewrite !list_lookup_fmap, list_lookup_alter. case_decide; [|done]. subst.
  destruct (tasks w !! j); simpl; [|done]. by rewrite Hf.
Qed.

Lemma calm_cancel k : calm w0 w → calm w0 (cancel_task k w).
Proof.
  apply calm_set_tasks; [by apply starts_alter|]. intros j t'. simpl.
  rewrite list_lookup_alter. case_decide; [|eauto]. subst.
  destruct (tasks w !! j) as [t|]; [|done]. by intros [= <-].
Qed.

Lemma calm_cancel_monitor : calm w0 w → calm w0 (cancel_monitor w).
Proof. unfold cancel_monitor. destruct (_monitor_no_message_task w); [apply calm_cancel|done]. Qed.

Lemma calm_cancel_listen : calm w0 w → calm w0 (cancel_listen_task w).
Proof.
  apply calm_set_tasks.
  - unfold starts. simpl. rewrite <-list_fmap_compose. apply list_fmap_ext.
    intros j [b st ca] _. by destruct b.
  - intros j t'. simpl. rewrite list_lookup_fmap.
    destruct (tasks w !! j) as [[b st ca]|] eqn:Hj; [|done]. intros [= <-] Hc.
    eexists. split; [reflexivity|]. by destruct b.
Qed.

Lemma starts_create b : starts (create_task b w).1 = starts w ++ [(b, false)].
Proof. unfold starts. simpl. by rewrite fmap_app. Qed.

Lemma codes_create b : codes (create_task b w).1 = codes w ++ [b].
Proof. unfold codes. simpl. by rewrite fmap_app. Qed.

Lemma tame_create b : is_background b = true → tame d w (create_task b w).1.
Proof.
  intros Hb. split; [|done| |by apply same_group|done].
  - exists [(b, false)]. rewrite starts_create. split; [done|]. by repeat constructor.
  - exists []. by rewrite app_nil_r.
Qed.

(** A reference to a task is stored. *)
Lemma tame_set_reference w' :
  starts w' = starts w → _handler_semaphore w' = _handler_semaphore w → trace w' = trace w →
  _task_group w' = _task_group w → dicts w' = dicts w → tame d w w'.
Proof.
  intros H1 H2 H3 H4 H5. split; [|done| |by apply same_group|done];
    exists []; by rewrite app_nil_r.
Qed.
End after.

(** The program changes its dictionaries. *)
Lemma calm_set_dicts w0 w σ : calm false w0 w → calm false w0 (set_dicts σ w).
Proof.
  intros H. eapply calm_trans; [exact H|].
  split; try done; [by intros j t'; eauto|exists []; by rewrite app_nil_r|by apply same_group].
Qed.

Create HintDb calm.
#[export] Hint Resolve calm_refl calm_record calm_log calm_cancel calm_cancel_monitor
  calm_cancel_listen : calm.
#[export] Hint Extern 1 (of_handler _ = false) => reflexivity : calm.
#[export] Hint Extern 2 (calm _ _ (set_dicts _ _)) => apply calm_set_dicts : calm.
#[export] Hint Extern 2 (calm _ _ (set_task_group _ _)) => apply calm_set_group; [discriminate|] : calm.
#[export] Hint Extern 3 (calm ?d ?w0 (_ _ ?w)) =>
  apply (calm_then d w0 w); [reflexivity..|] : calm.

Ltac calm_it := simpl; repeat case_match; simpl; auto with calm.

Lemma awaits_calm d dials i a w r w' :
  a ≠ AcquireSemaphore → awaits dials i a w r w' → calm d w w'.
Proof.
  intros Ha [H|[_ H]]; destruct a; simpl in H; try done.
  all: repeat match goal with
         | H : _ ∨ _ |- _ => destruct H
         | H : _ ∧ _ |- _ => destruct H
         | H : ∃ _, _ |- _ => destruct H
         end; subst; auto with calm.
  apply calm_record; auto with calm.
Qed.

(** ** Walks *)

(** The manager enters its task group and creates the task it begins with. *)
Definition enter_and_start (t : M unit) : M unit :=
  _ ← enter_group;
  k ← create_group_task SleepZero;
  _ ← modify (set_heartbeat_task (Some k));
  t.

(** A predicate on the programs of task [i] that holds of calm steps, of awaits, of the
    places where the manager creates a task, and of what is composed of such programs. *)
Class Walk (d : bool) (dials : ConnectionParameters → bool) (i : nat)
    (Φ : ∀ A, M A → Prop) := {
  walk_ret {A} (a : A) : Φ A (Ret a);
  walk_raise {A} e : Φ A (Raise e);
  walk_fuel {A} : Φ A OutOfFuel;
  walk_handle {A B} (t : M A) (k : outcome A → M B) :
    Φ A t → (∀ o, Φ B (k o)) → Φ B (handle t k);
  walk_mbind {A B} (t : M A) (k : A → M B) : Φ A t → (∀ a, Φ B (k a)) → Φ B (t ≫= k);
  walk_get {A} (k : world → M A) : (∀ w, Φ A (k w)) → Φ A (get ≫= k);
  walk_gets {A X} (f : world → X) (k : X → M A) : (∀ x, Φ A (k x)) → Φ A (gets f ≫= k);
  walk_sync {X} (f : world → world * X) : (∀ w, calm d w (f w).1) → Φ X (sync f);
  walk_modify f : (∀ w, calm d w (f w)) → Φ unit (modify f);
  walk_await a : a ≠ AcquireSemaphore → Φ _ (await a);
  walk_enter t : Φ unit t → Φ unit (enter_and_start t);
  walk_restart_background hb : Φ unit (_restart_background_tasks hb);
  walk_restart_monitor interval : Φ unit (_restart_no_message_monitor interval);
}.

Section walks.
Context {d dials i} {Φ : ∀ A, M A → Prop} `{HW : !Walk d dials i Φ}.

Lemma walk_mret {A} (a : A) : Φ A (mret a).
Proof. apply walk_ret. Qed.

Lemma walk_of_outcome {A} (o : outcome A) : Φ A (of_outcome o).
Proof. destruct o; [apply walk_ret|apply walk_raise]. Qed.

Lemma walk_try_except {A} (t : M A) catches (h : exn → M A) :
  Φ A t → (∀ e, Φ A (h e)) → Φ A (try_except t catches h).
Proof.
  intros Ht Hh. apply walk_handle; [done|]. intros [a|e]; [apply walk_ret|].
  destruct (catches e); [done|apply walk_raise].
Qed.

Lemma walk_try_finally {A} (t : M A) f : Φ A t → Φ unit f → Φ A (try_finally t f).
Proof.
  intros Ht Hf. apply walk_handle; [done|]. intros o.
  apply (walk_mbind (Φ := Φ)); [done|]. intros _. apply walk_of_outcome.
Qed.

Lemma walk_for_each {A} (l : list A) body :
  (∀ x, Φ unit (body x)) → Φ unit (for_each l body).
Proof. intros Hb. induction l; [apply walk_ret|]. by apply (walk_mbind (Φ := Φ)). Qed.

Lemma walk_while_loop {S A : Type} fuel (body : S → M (S + A)%type) s :
  (∀ s, Φ _ (body s)) → Φ A (while_loop fuel body s).
Proof.
  intros Hb. revert s. induction fuel as [|fuel IH]; intros s; [apply walk_fuel|].
  apply (walk_mbind (Φ := Φ)); [done|]. intros [s'|a]; [apply IH|apply walk_ret].
Qed.
End walks.

(** The operations of a connection are such programs. *)
Class MildConnection (AC : AbstractConnection) := {
  close_mild {d i} {Φ : ∀ A, M A → Prop} `{!Walk d dials i Φ} c : Φ _ (close c);
  write_heartbeat_mild {d i} {Φ : ∀ A, M A → Prop} `{!Walk d dials i Φ} c : Φ _ (write_heartbeat c);
  write_frame_mild {d i} {Φ : ∀ A, M A → Prop} `{!Walk d dials i Φ} c f : Φ _ (write_frame c f);
  read_bytes_mild {d i} {Φ : ∀ A, M A → Prop} `{!Walk d dials i Φ} c timed : Φ _ (read_bytes c timed);
}.

(** One step through the code of an operation. *)
Ltac mild_step :=
  lazymatch goal with
  | |- ∀ _, _ => intros ?
  | |- _ (close _) => apply close_mild
  | |- _ (write_heartbeat _) => apply write_heartbeat_mild
  | |- _ (write_frame _ _) => apply write_frame_mild
  | |- _ (read_bytes _ _) => apply read_bytes_mild
  | |- _ (get ≫= _) => apply walk_get
  | |- _ (gets _ ≫= _) => apply walk_gets
  | |- _ (_ ≫= _) => apply walk_mbind
  | |- _ (handle _ _) => apply walk_handle
  | |- _ (try_except _ _ _) => apply walk_try_except
  | |- _ (try_finally _ _) => apply walk_try_finally
  | |- _ (for_each _ _) => apply walk_for_each
  | |- _ (while_loop _ _ _) => apply walk_while_loop
  | |- _ (await ?a) => apply (walk_await a); discriminate
  | |- _ (modify _) => apply walk_modify; intros ?; solve [calm_it]
  | |- _ (sync _) => apply walk_sync; intros ?; solve [calm_it]
  | |- _ (mret _) => apply walk_mret
  | |- _ (Ret _) => apply walk_ret
  | |- _ (Raise _) => apply walk_raise
  | |- _ (of_outcome _) => apply walk_of_outcome
  | |- _ (catch_lost _ _) => unfold catch_lost
  | |- _ (match ?x with _ => _ end) => destruct x
  end.

Ltac mildly := repeat (solve [auto] || mild_step).

(** *** Connections *)

#[export] Instance Connection_mild : MildConnection Connection.
Proof.
  split; intros; cbn [close write_heartbeat write_frame read_bytes Connection].
  - unfold Tcp.close, suppress, wait_closed. mildly.
  - unfold Tcp.write_heartbeat, reraise_connection_lost, Tcp.writer_write. mildly.
  - unfold Tcp.write_frame, reraise_connection_lost, Tcp.writer_write, dumped, drain. mildly.
  - unfold Tcp.read_bytes, reraise_connection_lost, Tcp._read_non_empty_bytes, read_chunk. mildly.
Qed.

#[export] Instance WebSocketConnection_mild : MildConnection WebSocketConnection.
Proof.
  split; intros; cbn [close write_heartbeat write_frame read_bytes WebSocketConnection].
  - unfold Ws.close, suppress, wait_closed. mildly.
  - unfold Ws.write_heartbeat, reraise_connection_lost. mildly.
  - unfold Ws.write_frame, reraise_connection_lost, dumped, send_message. mildly.
  - unfold Ws.read_bytes, reraise_connection_lost, read_chunk. mildly.
Qed.

Section operations.
Context `{AC : AbstractConnection} `{MC : !MildConnection AC} {d : bool} {i : nat}.
Context {Φ : ∀ A, M A → Prop} `{HW : !Walk d dials i Φ}.
Abbreviation mild t := (Φ _ t).

(** *** The manager *)

Lemma discard_mild s reason : mild (_discard_failed_connection_state s reason).
Proof. unfold _discard_failed_connection_state, discard. mildly. Qed.

Lemma maybe_write_mild f : mild (maybe_write_frame f).
Proof.
  assert (∀ reason, mild (modify (log_dropped_frame f reason))) as Hlog
    by (intros reason; unfold log_dropped_frame; mildly).
  unfold maybe_write_frame. mildly; first [apply discard_mild].
Qed.

Lemma next_connection_mild n pending : mild (next_connection n pending).
Proof.
  revert pending. induction n as [|n IH]; intros pending; cbn [next_connection];
    unfold next_completed, abandon; mildly.
Qed.

Section manager.
Context `{AL : AbstractConnectionLifespan} (cm : ConnectionManager).
Hypothesis enter_mild : ∀ c p, mild (enter c p).
Hypothesis exit_mild : ∀ c p, mild (exit c p).

Lemma try_connection_mild c server : mild (try_connection c server).
Proof. unfold try_connection, enter_lifespan. mildly. Qed.

Lemma install_mild s b : mild (install cm s b).
Proof.
  unfold install, mark_installed. mild_step; [mildly|]. intros []. mild_step; [mildly|]. intros [].
  mild_step; [apply walk_restart_monitor|]. mildly.
Qed.

Lemma connect_attempts_mild b attempt n issues :
  mild (connect_attempts cm b attempt n issues).
Proof.
  revert attempt issues. induction n as [|n IH]; intros attempt issues; cbn [connect_attempts];
    [mildly|].
  unfold _connect_to_any_server, _create_connection_to_any_server, sleep.
  mild_step; [|mildly; apply install_mild].
  mild_step; [apply next_connection_mild|]. intros [[c server]|]; [apply try_connection_mild|mildly].
Qed.

Lemma get_active_mild b : mild (_get_active_connection_state cm b).
Proof.
  unfold _get_active_connection_state, with_lock, acquire_lock.
  mild_step. intros w. destruct (_active_connection_state w); [mildly|].
  mild_step; [|mildly]. mild_step; [mildly|]. intros []. mild_step; [|mildly].
  mild_step. intros w'. destruct (_active_connection_state w'); [mildly|].
  apply connect_attempts_mild.
Qed.

Lemma write_attempts_mild n write : (∀ c, mild (write c)) → mild (write_attempts cm n write).
Proof.
  intros Hw. induction n as [|n IH]; cbn [write_attempts]; [mildly|].
  mild_step; [apply get_active_mild|]. intros s. unfold catch_lost.
  mildly; first [apply discard_mild].
Qed.

Lemma write_frame_reconnecting_mild f : mild (write_frame_reconnecting cm f).
Proof. apply write_attempts_mild. mildly. Qed.

Lemma heartbeats_mild fuel ms : mild (_send_heartbeats_forever cm fuel ms).
Proof.
  unfold _send_heartbeats_forever, heartbeat_round, sleep. mild_step. intros [].
  mild_step; [|mildly]. mild_step; [apply write_attempts_mild; mildly|].
  intros [[]|[]]; mildly.
Qed.

Lemma monitor_mild fuel ms : mild (_monitor_no_message_timeout fuel ms).
Proof.
  unfold _monitor_no_message_timeout, monitor_round, force_reconnect, sleep.
  mildly; first [apply discard_mild].
Qed.

Lemma read_frames_mild fuel g : mild (read_frames_reconnecting cm fuel g).
Proof.
  unfold read_frames_reconnecting, read_step, read_frames_chunk, sleep. mild_step. intros g'.
  destruct g' as [|s epoch p [|f pending]].
  - mild_step; [apply get_active_mild|]. intros [s|[]]; mildly.
  - mildly; first [apply discard_mild].
  - mildly.
Qed.

Lemma aenter_mild : mild (aenter cm).
Proof.
  change (aenter cm) with
    (enter_and_start (s ← _get_active_connection_state cm true; modify (set_active (Some s)))).
  apply walk_enter. mild_step; [apply get_active_mild|]. mildly.
Qed.

Lemma close_active_mild : mild _close_active_connection_state.
Proof. unfold _close_active_connection_state. mildly. Qed.

Lemma aexit_mild : mild aexit.
Proof. unfold aexit, exit_group, wait_tasks. mildly; apply close_active_mild. Qed.
End manager.

(** *** Subscriptions and transactions *)

Lemma acknowledge_mild F verb lvl id h epoch : mild (acknowledge F verb lvl id h epoch).
Proof. unfold acknowledge, getitem. mildly; apply maybe_write_mild. Qed.

Lemma unsubscribe_mild id : mild (unsubscribe id).
Proof.
  unfold unsubscribe. mild_step; [|mildly; apply maybe_write_mild].
  apply walk_modify. intros w. unfold delete_by_id. calm_it.
Qed.

Lemma resubscribe_mild c : mild (resubscribe_to_active_subscriptions c).
Proof. unfold resubscribe_to_active_subscriptions. mildly. Qed.

Lemma remove_transaction_mild id : mild (remove_transaction id).
Proof. unfold remove_transaction. mildly. Qed.

Lemma transaction_aexit_mild id exc : mild (transaction_aexit id exc).
Proof.
  unfold transaction_aexit. mildly; first [apply maybe_write_mild|apply remove_transaction_mild].
Qed.

Lemma commit_pending_mild fuel c : mild (commit_pending_transactions fuel c).
Proof.
  assert (∀ n ids, mild (commit_transactions fuel c n ids)) as H.
  { intros n ids. induction ids as [|id ids IH]; cbn [commit_transactions]; mildly.
    unfold replay_frames. mildly. }
  unfold commit_pending_transactions. mildly; apply H.
Qed.

(** *** The lifespan *)

Lemma lifespan_enter_mild cl fuel c p : mild (lifespan_enter cl fuel c p).
Proof.
  unfold lifespan_enter, _establish_connection, take_connected_frame, take_connected_round,
    read_frames_chunk, getitem.
  mildly; first [apply walk_restart_background|apply resubscribe_mild|apply commit_pending_mild].
Qed.

Lemma make_id_mild uuid4 : mild (make_id uuid4).
Proof. unfold make_id. mildly. Qed.

Lemma lifespan_exit_mild uuid4 fuel c p : mild (lifespan_exit uuid4 fuel c p).
Proof.
  unfold lifespan_exit, unsubscribe_from_all_active_subscriptions, suppress,
    _take_receipt_frame, take_receipt_round, read_frames_chunk.
  mildly; first [apply unsubscribe_mild|apply make_id_mild].
Qed.

(** *** The client *)

Section client.
Context (cl : Client) (uuid4 : nat → str) (fuel : nat).
#[local] Instance footprint_lifespan : AbstractConnectionLifespan := client_lifespan cl uuid4 fuel.
Local Abbreviation cm := (make_manager cl).

Lemma enter_mild c p : mild (enter c p).
Proof. apply lifespan_enter_mild. Qed.

Lemma exit_mild c p : mild (exit c p).
Proof. apply lifespan_exit_mild. Qed.

Lemma reconnecting_write_mild f : mild (write_frame_reconnecting cm f).
Proof. apply write_frame_reconnecting_mild, enter_mild. Qed.

Lemma client_aexit_mild exc : mild (client_aexit cl uuid4 fuel exc).
Proof.
  unfold client_aexit, wait_until_empty, wait_event, wait_tasks. mild_step; [mildly|].
  mild_step; [|mildly; apply aexit_mild, exit_mild].
  apply walk_modify. intros w. apply calm_cancel_listen, calm_refl.
Qed.
End client.
End operations.

(** A new frame is a new dictionary. *)
Section sending.
Context `{AC : AbstractConnection} `{MC : !MildConnection AC} {i : nat}.
Context {Φ : ∀ A, M A → Prop} `{HW : !Walk false dials i Φ}.

Lemma build_send_frame_mild body destination tx ct acl hs :
  Φ _ (build_send_frame body destination tx ct acl hs).
Proof.
  unfold build_send_frame. apply walk_sync. intros w.
  destruct (SendFrame_build (dicts w) body destination tx ct acl hs). simpl. auto with calm.
Qed.

Lemma operation_mild cl uuid4 fuel op :
  op ≠ Enter → Φ _ (operation_program cl uuid4 fuel op).
Proof.
  intros Hop. destruct op; cbn [operation_program].
  - done.
  - unfold send. mild_step; [apply build_send_frame_mild|]. intros f.
    apply reconnecting_write_mild.
  - unfold begin_transaction, transaction_aenter, add_transaction.
    mildly; first [apply make_id_mild|apply reconnecting_write_mild].
  - unfold transaction_send. mild_step; [apply build_send_frame_mild|]. intros f.
    mild_step; [|intros []; apply reconnecting_write_mild].
    apply walk_modify. intros w. unfold append_frame. destruct f; calm_it.
  - apply transaction_aexit_mild.
  - unfold subscribe, _subscribe, add_subscription.
    mildly; first [apply make_id_mild|apply reconnecting_write_mild].
  - apply unsubscribe_mild.
  - apply acknowledge_mild.
  - apply acknowledge_mild.
  - apply client_aexit_mild.
Qed.
End sending.

(** The outside world takes calm steps only. *)
Lemma nature_calm `{AC : AbstractConnection} w w' : nature dials w w' → calm false w w'.
Proof.
  intros [(cs & t & σ & ->)|[->|(j & server & _ & [->|(c & _ & _ & ->)])]];
    [auto 10 with calm| |auto with calm|apply calm_record; auto with calm].
  unfold abort_group. destruct (_task_group w); auto with calm.
Qed.

(** ** Programs whose every step is tame *)

Section mild.
Context (d : bool) (dials : ConnectionParameters → bool) (i : nat).

Definition mild {A} (t : M A) : Prop :=
  ∀ w, wp (awaits dials) (λ _ _, True) (tame d) i True t (λ _ _, True) w.

Lemma mild_wp {A} (t : M A) w :
  mild t → wp (awaits dials) (λ _ _, True) (tame d) i True t (λ _ _, True) w.
Proof. intros H. apply H. Qed.

Lemma mild_mbind {A B} (t : M A) (k : A → M B) :
  mild t → (∀ a, mild (k a)) → mild (t ≫= k).
Proof.
  intros Ht Hk w. apply wp_bind. eapply wp_mono; [apply Ht|].
  intros [a|e] w' _; [apply Hk|done].
Qed.

Lemma mild_modify f : (∀ w, tame d w (f w)) → mild (modify f).
Proof. intros Hf w. by split; [apply Hf|]. Qed.

Lemma create_group_task_mild b : is_background b = true → mild (create_group_task b).
Proof.
  intros Hb w. unfold create_group_task. wp_step.
  - destruct (_task_group w); [apply tame_refl|by apply (tame_create d w b)|apply tame_refl..].
  - by destruct (_task_group w).
Qed.

(** What entering the manager does when the task group is entered. *)
Lemma start_mild (t : M unit) :
  mild t → mild (k ← create_group_task SleepZero; _ ← modify (set_heartbeat_task (Some k)); t).
Proof.
  intros Ht. apply mild_mbind; [by apply create_group_task_mild|]. intros k.
  apply mild_mbind; [|done]. apply mild_modify. intros w. by apply tame_set_reference.
Qed.

Lemma restart_background_mild hb : mild (_restart_background_tasks hb).
Proof.
  unfold _restart_background_tasks. intros w. wp_step; [apply tame_refl|].
  destruct (_send_heartbeat_task w) as [k|]; [|done]. revert w. apply mild_mbind; [apply mild_modify; intros w; apply calm_tame; auto with calm|].
  intros _. apply mild_mbind; [by apply create_group_task_mild|]. intros k'.
  apply mild_modify. intros w. by apply tame_set_reference.
Qed.

Lemma restart_monitor_mild interval : mild (_restart_no_message_monitor interval).
Proof.
  unfold _restart_no_message_monitor.
  apply mild_mbind; [apply mild_modify; intros w; apply calm_tame; auto with calm|].
  intros _. destruct interval as [ms|]; [|by intros w].
  apply mild_mbind; [by apply create_group_task_mild|]. intros k.
  apply mild_modify. intros w. by apply tame_set_reference.
Qed.

#[export] Instance mild_walk : Walk d dials i (@mild).
Proof.
  split; try apply restart_background_mild; try apply restart_monitor_mild;
    try by intros; intros w.
  - intros A B t k Ht Hk w. apply wp_handle. eapply wp_mono; [apply Ht|]. intros o w' _. apply Hk.
  - intros A B t k. apply mild_mbind.
  - intros A k Hk w. split; [apply tame_refl|]. apply Hk.
  - intros A X f k Hk w. split; [apply tame_refl|]. apply Hk.
  - intros X f Hf w. split; [|done]. apply calm_tame, Hf.
  - intros f Hf. apply mild_modify. intros w. apply calm_tame, Hf.
  - intros a Ha w w1 r w2 _ Hr. split; [by eapply calm_tame, awaits_calm|]. by apply wp_of_outcome.
  - intros t Ht. unfold enter_and_start. apply mild_mbind; [|intros _; by apply start_mild].
    intros w. unfold enter_group. wp_step; destruct (_task_group w); simpl;
      try apply tame_refl; try done. by apply calm_tame, calm_set_group; [|apply calm_refl].
Qed.
End mild.
