(* ===== verification/Scheduler.v ===== *)
(** * Playing a schedule

    An executable version of the interleaving semantics: a schedule says which task is
    resumed next and with what reply, and the configuration it leads to is computed.  It
    is sound for the step relation, so that a computed run shows a state reachable. *)

From S2P Require Import Prelude Frames Config Errors Async World Contract Discipline Connection Manager.
From S2P Require Import ManagerSpec Subscription Transaction Lifespan Client System.

(** ** Replies *)

Inductive reply :=
  | Finish
  | Give (raw : bytes)
  | Connect (j c : nat)
  | Refuse (j : nat) (e : exn)
  | Fault (e : exn)
  | Expire
  | Cancel.

Definition check {A} (b : bool) (x : A) : option A := if b then Some x else None.

(** What a reply makes of an await; [None] when it is not one the await may have. *)
Definition reply_to (dials : ConnectionParameters → bool) (i : nat) (a : awaitable) (rp : reply)
    (w : world) : option (outcome (answer a) * world) :=
  match a with
  | Sleep ms =>
    match rp with
    | Finish => Some (Done tt, record_action (Slept ms) w)
    | Cancel => Some (Raised CancelledError, w)
    | _ => None
    end
  | AcquireLock =>
    match rp with
    | Finish => check (bool_decide (_reconnect_lock w = None)) (Done tt, set_lock (Some i) w)
    | Cancel => Some (Raised CancelledError, w)
    | _ => None
    end
  | NextConnection pending =>
    match rp with
    | Connect j c =>
      match pending !! j with
      | Some server =>
        check (dials server && bool_decide (conns w !! c = None))
          (Done (j, Done c), open_connection c server w)
      | None => None
      end
    | Refuse j e =>
      match pending !! j with
      | Some _ => check (transport_error e) (Done (j, Raised e), w)
      | None => None
      end
    | Cancel => Some (Raised CancelledError, w)
    | _ => None
    end
  | Drain _ | WaitClosed _ =>
    match rp with
    | Finish => Some (Done tt, w)
    | Fault e => check (transport_error e) (Raised e, w)
    | Cancel => Some (Raised CancelledError, w)
    | _ => None
    end
  | SendMessage c f =>
    match rp with
    | Finish => Some (Done tt, record_action (Wrote c f) w)
    | Fault e => check (transport_error e) (Raised e, w)
    | Cancel => Some (Raised CancelledError, w)
    | _ => None
    end
  | ReadChunk _ timed =>
    match rp with
    | Give raw => Some (Done raw, w)
    | Fault e => check (transport_error e) (Raised e, w)
    | Expire => check timed (Raised DeadlineExpired, w)
    | Cancel => Some (Raised CancelledError, w)
    | _ => None
    end
  | WaitTasks =>
    match rp with
    | Finish => Some (Done tt, w)
    | Cancel => Some (Raised CancelledError, w)
    | _ => None
    end
  | WaitUntilEmpty =>
    match rp with
    | Finish => check (event w) (Done tt, w)
    | Cancel => Some (Raised CancelledError, w)
    | _ => None
    end
  | AcquireSemaphore =>
    match rp with
    | Finish =>
      match _handler_semaphore w with
      | Some (S n) => Some (Done tt, set_handler_semaphore (Some n) w)
      | _ => None
      end
    | Cancel => Some (Raised CancelledError, w)
    | _ => None
    end
  | CallHandler _ _ =>
    match rp with
    | Finish => Some (Done tt, w)
    | Fault (UserException n) => Some (Raised (UserException n), w)
    | Cancel => Some (Raised CancelledError, w)
    | _ => None
    end
  end.

Lemma check_Some {A} b (x y : A) : check b x = Some y → b = true ∧ y = x.
Proof. destruct b; simpl; [by intros [= ->]|done]. Qed.

Lemma reply_to_sound dials i a rp w r w' :
  reply_to dials i a rp w = Some (r, w') → awaits dials i a w r w'.
Proof.
  assert (∀ a w1, Some (Raised CancelledError, w1) = Some (r, w') → cancels a w1 w1 → w1 = w →
    r = Raised CancelledError ∧ cancels a w w') as Hcancel by (by intros ? ? [= <- <-] ? ->).
  destruct a as [ms| |pending|c|c f|c|c timed| | | |id f]; simpl; destruct rp; try discriminate;
    try (intros H; right; apply (Hcancel _ w); [exact H|simpl; by auto|done]);
    intros H; left; clear Hcancel.
  all: try (injection H as <- <-; simpl; by eauto).
  all: try (apply check_Some in H as [Hb [= -> ->]]; simpl;
            try apply bool_decide_eq_true in Hb; by eauto 10).
  - destruct (pending !! j) as [server|] eqn:Hj; [|done].
    apply check_Some in H as [[Hd Hc%bool_decide_eq_true]%andb_true_iff [= -> ->]].
    exists j, server. eauto 10.
  - destruct (pending !! j) as [server|] eqn:Hj; [|done].
    apply check_Some in H as [He [= -> ->]]. exists j, server. eauto 10.
  - destruct (_handler_semaphore w) as [[|n]|] eqn:Hs; try done. injection H as <- <-.
    simpl. eauto.
  - destruct e; try done. injection H as <- <-. simpl. eauto.
Qed.

(** The environment of a single run that gives the replies in turn, and cancels when it
    has none. *)
Definition env_of (dials : ConnectionParameters → bool) (i : nat) (rps : list reply) (n : nat)
    (a : awaitable) (w : world) : world * outcome (answer a) :=
  match rps !! n ≫= λ rp, reply_to dials i a rp w with
  | Some (r, w') => (w', r)
  | None => (w, Raised CancelledError)
  end.

Lemma env_of_answers dials R i rps :
  (∀ w, R w w) → answers_for (awaits dials) R i (env_of dials i rps).
Proof.
  intros HR n a w. exists w. split; [done|]. unfold env_of.
  destruct (rps !! n ≫= _) as [[r w']|] eqn:H; simpl.
  - apply bind_Some in H as (rp & _ & H). by eapply reply_to_sound.
  - right. split; [done|]. destruct a; simpl; auto.
Qed.

(** ** Schedules *)

Inductive choice :=
  | Start (k : nat)
  | Drop (k : nat)
  | Call (op : operation)
  | Resume (i : nat) (rp : reply)
  | Pass (t : Z)
  | Break (c : nat)
  | FailTask
  | Attempt (j : nat) (c : option nat).

Section play.
Context `{AC : AbstractConnection} `{!ConnectionLaws AC}.
Context (cl : Client) (uuid4 : nat → str) (fuel : nat).

Definition add_task (t : M unit) (c : list (M unit) * world) : list (M unit) * world :=
  let '(t', w') := run_sync (length c.1) t c.2 in (c.1 ++ [t'], w').

Definition play_one (ch : choice) (c : list (M unit) * world)
  : option (list (M unit) * world) :=
  let '(ts, w) := c in
  match ch with
  | Start k =>
    match tasks w !! k with
    | Some t =>
      check (negb (started t) && negb (cancelled t))
        (add_task (task_program cl uuid4 fuel (task_code t)) (ts, start_task k w))
    | None => None
    end
  | Drop k =>
    match tasks w !! k with
    | Some (mkTask (RunHandler id _ _ _ _) false _) =>
      Some (add_task (dropped_handler id) (ts, start_task k w))
    | _ => None
    end
  | Call op =>
    check (allowed op w) (add_task (operation_program cl uuid4 fuel op) (ts, w))
  | Resume i rp =>
    match ts !! i with
    | Some (Await a k) =>
      '(r, w1) ← reply_to dials i a rp w;
      let '(t, w2) := run_sync i (k r) w1 in
      Some (<[i := t]> ts, w2)
    | _ => None
    end
  | Pass t => Some (ts, set_now t w)
  | Break c =>
    Some (ts, set_conns (alter (λ cs, mkConn (last_read_time cs) true) c (conns w)) w)
  | FailTask => Some (ts, abort_group w)
  | Attempt j opened =>
    match abandoned w !! j with
    | Some server =>
      let w1 := set_abandoned (delete j (abandoned w)) w in
      match opened with
      | None => Some (ts, w1)
      | Some c =>
        check (dials server && bool_decide (conns w !! c = None)) (ts, open_connection c server w1)
      end
    | None => None
    end
  end.

Fixpoint play (chs : list choice) (c : list (M unit) * world)
  : option (list (M unit) * world) :=
  match chs with
  | [] => Some c
  | ch :: chs' => play_one ch c ≫= play chs'
  end.

Definition play_from (σ : store) (t : Z) (chs : list choice) : option (list (M unit) * world) :=
  play chs ([], initial_world cl σ t).

Lemma play_one_sound ch c c' :
  play_one ch c = Some c' →
  pool_step (awaits dials) (nature dials) (spawn cl uuid4 fuel) c c'.
Proof.
  destruct c as [ts w]. destruct ch as [k|k|op|i rp|t|c| |j opened]; simpl.
  - destruct (tasks w !! k) as [t|] eqn:Hk; [|done].
    intros [[Hs Hc]%andb_true_iff ->]%check_Some. unfold add_task. simpl.
    destruct (run_sync _ _ _) as [t' w'] eqn:Hrun. eapply step_spawn; [|done].
    apply spawn_created; [done|by apply negb_true_iff..].
  - destruct (tasks w !! k) as [[[| | | |id sub h body epoch] [] x]|] eqn:Hk; try done.
    unfold add_task. cbn [fst snd].
    destruct (run_sync (length ts) (dropped_handler id) (start_task k w)) as [t' w'] eqn:Hrun.
    intros [= <-]. eapply step_spawn; [by eapply spawn_dropped|exact Hrun].
  - intros [Hop ->]%check_Some. unfold add_task. simpl.
    destruct (run_sync _ _ _) as [t' w'] eqn:Hrun. eapply step_spawn; [|done].
    by apply spawn_operation.
  - destruct (ts !! i) as [[| | |a k|]|] eqn:Hi; try done.
    destruct (reply_to dials i a rp w) as [[r w1]|] eqn:Hr; [|done]. csimpl.
    destruct (run_sync i (k r) w1) as [t w2] eqn:Hrun. intros [= <-].
    eapply step_resume; [done| |done]. by eapply reply_to_sound.
  - intros [= <-]. apply step_nature. left. exists (conns w), t, (dicts w). by destruct w.
  - intros [= <-]. apply step_nature. left. eexists _, (now w), (dicts w). by destruct w.
  - intros [= <-]. apply step_nature. right. by left.
  - destruct (abandoned w !! j) as [server|] eqn:Hj; [|done]. destruct opened as [c|].
    + intros [[Hd Hc%bool_decide_eq_true]%andb_true_iff ->]%check_Some. apply step_nature.
      right; right. exists j, server. split; [done|]. right. by exists c.
    + intros [= <-]. apply step_nature. right; right. exists j, server. split; [done|]. by left.
Qed.

Lemma play_sound chs c c' :
  play chs c = Some c' → rtc (pool_step (awaits dials) (nature dials) (spawn cl uuid4 fuel)) c c'.
Proof.
  revert c. induction chs as [|ch chs IH]; intros c; simpl; [by intros [= ->]|].
  intros (c1 & H1 & H2)%bind_Some. eapply rtc_l; [by eapply play_one_sound|]. by apply IH.
Qed.

Lemma play_reachable σ t chs ts w :
  play_from σ t chs = Some (ts, w) → reachable_world cl uuid4 fuel σ t w.
Proof. intros H%play_sound. by exists ts. Qed.
End play.

(** ** A client and a server to play with *)

Definition example_server : ConnectionParameters :=
  mkConnectionParameters (us "broker") 61613 (us "user") (us "pass") None ∅.

Definition example_client : Client :=
  mkClient [example_server] (Some (λ _, Done tt)) (mkHeartbeat 1000 1000) 3 1 2 3 2 2 3 None false None.

Definition example_ids (n : nat) : str := [N.of_nat (65 + n)].

Definition lines (l : list string) : bytes := l ≫= λ s, bs s ++ [x0a].

Definition connected_bytes : bytes :=
  lines ["CONNECTED"; "version:1.2"; "heart-beat:0,0"]%string ++ [x0a; x00].

Definition message_bytes : bytes :=
  lines ["MESSAGE"; "subscription:A"; "message-id:1"; "ack:7"; "destination:q"]%string
    ++ [x0a; x68; x69; x00].

Definition example_subscription : subscription :=
  mkSubscription (us "q") None client_individual (AutoAckSubscription is_exception (λ _ _, Done tt)).

(** The client is entered, and task 0 gets connection [c] and the server's answer. *)
Definition handshake (i c : nat) : list choice :=
  [Resume i Finish; Resume i (Connect 0 c); Resume i Finish; Resume i (Give connected_bytes)].

Definition entered : list choice := Call Enter :: handshake 0 0.

Definition example_play (chs : list choice) : option (list (M unit) * world) :=
  play_from (AC := Connection) example_client example_ids 10 [] 0 chs.

Definition has_returned (i : nat) (ts : list (M unit)) : bool :=
  match ts !! i with Some (Ret _) => true | _ => false end.

(** A message is received, handled and acknowledged. *)
Definition acked : list choice :=
  entered ++ [Start 2; Call (Subscribe example_subscription); Resume 2 Finish;
              Resume 1 (Give message_bytes); Start 3; Resume 3 Finish; Resume 3 Finish].

(** A fact about what a schedule leads to, found by playing it. *)
Lemma example_fact (chs : list choice) (P : list (M unit) * world → Prop) :
  match example_play chs with Some c => P c | None => False end →
  ∃ ts w, example_play chs = Some (ts, w) ∧
    reachable_world (AC := Connection) example_client example_ids 10 [] 0 w ∧ P (ts, w).
Proof.
  destruct (example_play chs) as [[ts w]|] eqn:Hp; [|done]. intros HP. exists ts, w.
  split; [done|]. split; [by eapply play_reachable|done].
Qed.

(** ** Single runs of the example *)

Definition example_lifespan `{AbstractConnection} : AbstractConnectionLifespan :=
  lifespan (make_lifespan example_client) example_ids 10.

(** The state in which the manager looks for its first connection. *)
Definition entering_world : world :=
  set_heartbeat_task (Some 0)
    (create_task SleepZero (set_task_group GroupRunning (initial_world example_client [] 0))).1.

Definition example_state : ActiveConnectionState :=
  mkActive 0 example_server (mkHeartbeat 0 0) 0.

(** A connection, a subscription, and an active transaction that has sent a frame. *)
Definition connected_world : world :=
  record_action (Wrote 0 (snapshot [] (subscribe_frame (us "A") example_subscription [])))
    (mark_installed example_state
       (set_conns {[0 := mkConn None false]}
          (add_transaction (us "T")
             (append_frame (us "T") (SendFrame (Own {[us "destination" := us "q"]}) (bs "x"))
                (add_subscription (us "A") example_subscription entering_world))))).

Lemma entering_inv : inv entering_world.
Proof.
  set (w0 := initial_world example_client [] 0).
  apply (quiet_inv (create_task SleepZero (set_task_group GroupRunning w0)).1).
  { by apply quiet_same. }
  apply (quiet_inv (set_task_group GroupRunning w0)).
  { by apply (quiet_create_task SleepZero). }
  apply (guar_inv 0 w0); [by apply group_guar|]. apply (initial_inv (AC := Connection)).
Qed.

Lemma connected_inv : inv connected_world.
Proof.
  split; simpl; try done.
  - intros t id sub h b e Ht. by apply list_elem_of_singleton in Ht as ->.
  - by apply NoDup_singleton.
  - intros id ->%list_elem_of_singleton.
    apply (subscribed_frame (us "A") example_subscription [] [] 0). right. by left.
Qed.

Definition example_env (rps : list reply)
  : nat → ∀ a : awaitable, world → world * outcome (answer a) :=
  env_of (dials (AbstractConnection := Connection)) 0 rps.

Lemma solo_env rps :
  answers_for (awaits (dials (AbstractConnection := Connection))) solo 0 (example_env rps).
Proof. apply env_of_answers, solo_refl. Qed.

Lemma growing_env rps :
  answers_for (awaits (dials (AbstractConnection := Connection))) grows 0 (example_env rps).
Proof. apply env_of_answers, grows_refl. Qed.

Lemma relying_env rps :
  answers_for (awaits (dials (AbstractConnection := Connection))) (rely 0) 0 (example_env rps).
Proof. apply env_of_answers, rely_refl. Qed.
