(* ===== verification/Safety.v ===== *)
(** * What a running client guarantees

    The properties of the client as a whole: in every state it can reach, for every
    interleaving of its tasks, the callers' tasks and the outside world.  Each is shown to
    say something by a schedule that is played. *)

From S2P Require Import Prelude Frames Config Errors Async World Contract Discipline Connection Manager.
From S2P Require Import ManagerSpec Subscription Transaction Lifespan Client System Scheduler.

(** ** Lemmas *)

Lemma example_reachable chs :
  (if example_play chs is Some _ then true else false) = true →
  ∃ w, (snd <$> example_play chs) = Some w ∧
       reachable_world (AC := Connection) example_client example_ids 10 [] 0 w.
Proof.
  destruct (example_play chs) as [[ts w]|] eqn:H; [|done]. intros _. exists w.
  split; [done|]. by eapply play_reachable.
Qed.

Definition example_step : choice → list (M unit) * world → option (list (M unit) * world) :=
  play_one (AC := Connection) example_client example_ids 10.

(** A step of the example, found by playing it. *)
Lemma example_steps chs ch :
  match example_play chs with
  | Some c => if example_step ch c is Some _ then true else false
  | None => false
  end = true →
  ∃ ts w ts' w', example_play chs = Some (ts, w) ∧ example_step ch (ts, w) = Some (ts', w') ∧
    reachable (awaits (dials (AbstractConnection := Connection)))
      (nature (dials (AbstractConnection := Connection)))
      (spawn (AC := Connection) example_client example_ids 10)
      (initial_world example_client [] 0) (ts, w) ∧
    pool_step (awaits (dials (AbstractConnection := Connection)))
      (nature (dials (AbstractConnection := Connection)))
      (spawn (AC := Connection) example_client example_ids 10) (ts, w) (ts', w').
Proof.
  destruct (example_play chs) as [[ts w]|] eqn:H; [|done].
  destruct (example_step ch (ts, w)) as [[ts' w']|] eqn:H'; [|done]. intros _.
  exists ts, w, ts', w'. split; [done|]. split; [done|]. split.
  - by eapply play_sound.
  - by eapply play_one_sound.
Qed.

(** The acknowledgements in a history, with the connections they were written on. *)
Definition acks_in (l : list action) : list (nat * headers) :=
  omap (λ a, match a with
             | Wrote c f => (λ h, (c, h)) <$> acknowledges f
             | _ => None
             end) l.

Lemma acks_in_spec c h l :
  (c, h) ∈ acks_in l ↔ ∃ f, Wrote c f ∈ l ∧ acknowledges f = Some h.
Proof.
  unfold acks_in. rewrite list_elem_of_omap. split.
  - intros (a & Ha & Hc). destruct a; try done.
    apply fmap_Some in Hc as (h' & Hf & [= -> ->]). eauto.
  - intros (f & Hf & Hh). exists (Wrote c f). split; [done|]. by rewrite Hh.
Qed.

Section safety.
Context `{AC : AbstractConnection} `{!ConnectionLaws AC}.
Context (cl : Client) (uuid4 : nat → str) (fuel : nat) (σ : store) (t : Z) (w : world).

(** C2: the client refines its contract: the first state stands for the fresh contract, and
    whatever task or part of the outside world takes the next step, the actions of the
    step, in their order, are accepted by the contract and lead to the state that the new
    state of the client stands for. *)
Theorem client_refines_contract ts ts' w' :
  contract_of (initial_world cl σ t) = fresh_contract ∧
  (reachable (awaits dials) (nature dials) (spawn cl uuid4 fuel) (initial_world cl σ t) (ts, w) →
   pool_step (awaits dials) (nature dials) (spawn cl uuid4 fuel) (ts, w) (ts', w') →
   ∃ l, trace w' = trace w ++ l ∧ run (contract_of w) l = Some (contract_of w')).
Proof.
  split; [done|]. intros Hw Hs.
  destruct (system_grows cl uuid4 fuel σ t _ _ Hw Hs) as [l Hl]. exists l. split; [done|].
  assert (inv w) as Hi by (eapply world_inv; by exists ts).
  assert (inv w') as Hi' by (eapply world_inv; exists ts'; by eapply rtc_r).
  apply inv_contract in Hi, Hi'. simpl in Hl. by rewrite Hl, run_app, Hi in Hi'.
Qed.

(** C3: an ACK or NACK is only ever written on a connection on which a message with
    that acknowledgement identifier was received, however many times the connection was
    lost and replaced while the message was handled. *)
Theorem ack_on_its_connection c h :
  reachable_world cl uuid4 fuel σ t w →
  (c, h) ∈ acks_in (trace w) → answers_message (trace w) c h.
Proof.
  intros Hw (f & Hf & Hh)%acks_in_spec. apply world_inv in Hw.
  by eapply inv_acks.
Qed.

(** The history of the active connection makes sense: a connection becomes active
    only when none is, is dropped only while it is the active one, and what the manager
    holds is the connection the history ends with. *)
Theorem connection_history :
  reachable_world cl uuid4 fuel σ t w →
  replay None (trace w) = Some (connection <$> _active_connection_state w).
Proof. intros Hw%world_inv. by apply inv_history. Qed.

(** C7: the reconnection counter is the number of connections lost so far; a frame
    carries a counter that was current when its connection was active, and while it is
    still current the frame's connection is still the active one, unless the client was
    left. *)
Theorem epochs_identify_connections :
  reachable_world cl uuid4 fuel σ t w →
  _reconnection_count w = discards (trace w) ∧
  ∀ c epoch f, Received c epoch f ∈ trace w →
    epoch ≤ _reconnection_count w ∧
    (epoch = _reconnection_count w →
     connection <$> _active_connection_state w = Some c ∨ released w = true).
Proof.
  intros Hw%world_inv. split; [by apply inv_count|]. by apply inv_received.
Qed.

(** C32: the event that lets the client be left is set exactly while no subscription is
    active; no two subscriptions share an identifier; and for every active one a SUBSCRIBE
    frame with its identifier was written. *)
Theorem registry_kept :
  reachable_world cl uuid4 fuel σ t w →
  (event w = true ↔ subscriptions w = []) ∧ NoDup (get_ids w) ∧
  ∀ id, id ∈ get_ids w → was_subscribed (trace w) id.
Proof.
  intros Hw%world_inv. split; [|split; [by apply inv_ids|by apply inv_told]].
  rewrite (inv_event w Hw). apply bool_decide_eq_true.
Qed.

(** C22: every frame on the wire is one of those that clients send, and has the headers that
    the header type of its class requires; of a SEND the headers are left out, because its
    dictionary may be the program's, which may change it while the write waits for a
    connection. *)
Theorem written_frames_typed c f :
  reachable_world cl uuid4 fuel σ t w → Wrote c f ∈ trace w →
  AnyClientFrame f = true ∧
  ∀ frame_type h body key, parts f = Some (frame_type, h, body) → frame_type ≠ TSend →
    key ∈ required_keys frame_type → is_Some (h !! key).
Proof.
  intros Hw%world_inv%inv_contract Hin.
  assert (well_typed f = true) as Hf by (by eapply run_typed). split.
  - by apply andb_true_iff in Hf as [Hf _].
  - intros frame_type h body key. by apply well_typed_keys.
Qed.
End safety.

(** ** Witnesses *)

Lemma client_refines_contract_witness :
  ∃ ts w ts' w', example_play (removelast acked) = Some (ts, w) ∧
    example_step (Resume 3 Finish) (ts, w) = Some (ts', w') ∧
    ∃ l, trace w' = trace w ++ l ∧ run (contract_of w) l = Some (contract_of w').
Proof.
  destruct (example_steps (removelast acked) (Resume 3 Finish))
    as (ts & w & ts' & w' & H1 & H2 & Hr & Hs); [vm_compute; reflexivity|].
  exists ts, w, ts', w'. split; [exact H1|]. split; [exact H2|].
  exact (proj2 (client_refines_contract _ _ _ _ _ w ts ts' w') Hr Hs).
Defined.

Lemma ack_on_its_connection_witness :
  ∃ w h, (snd <$> example_play acked) = Some w ∧ (0, h) ∈ acks_in (trace w) ∧
         answers_message (trace w) 0 h.
Proof.
  destruct (example_reachable acked) as (w & Hw & Hr); [vm_compute; reflexivity|].
  exists w, (ack_headers (us "7") (us "A")). split; [exact Hw|].
  assert ((0, ack_headers (us "7") (us "A")) ∈ acks_in (trace w)) as Hin.
  { assert (acks_in ∘ trace <$> Some w = Some [(0, ack_headers (us "7") (us "A"))]) as E
      by (rewrite <-Hw; vm_compute; reflexivity).
    injection E as ->. left. }
  split; [exact Hin|]. exact (ack_on_its_connection _ _ _ _ _ w 0 _ Hr Hin).
Defined.

Lemma connection_history_witness :
  ∃ w, (snd <$> example_play acked) = Some w ∧
       replay None (trace w) = Some (connection <$> _active_connection_state w) ∧
       connection <$> _active_connection_state w = Some 0.
Proof.
  destruct (example_reachable acked) as (w & Hw & Hr); [vm_compute; reflexivity|].
  exists w. split; [exact Hw|]. split; [exact (connection_history _ _ _ _ _ w Hr)|].
  assert ((λ w, connection <$> _active_connection_state w) <$> Some w = Some (Some 0)) as E
    by (rewrite <-Hw; vm_compute; reflexivity).
  by injection E.
Defined.

Lemma epochs_identify_connections_witness :
  ∃ w, (snd <$> example_play acked) = Some w ∧ _reconnection_count w = discards (trace w).
Proof.
  destruct (example_reachable acked) as (w & Hw & Hr); [vm_compute; reflexivity|].
  exists w. split; [exact Hw|]. exact (proj1 (epochs_identify_connections _ _ _ _ _ w Hr)).
Defined.

Lemma registry_kept_witness :
  ∃ w, (snd <$> example_play acked) = Some w ∧
       (event w = true ↔ subscriptions w = []) ∧ NoDup (get_ids w) ∧
       ∀ id, id ∈ get_ids w → was_subscribed (trace w) id.
Proof.
  destruct (example_reachable acked) as (w & Hw & Hr); [vm_compute; reflexivity|].
  exists w. split; [exact Hw|]. exact (registry_kept _ _ _ _ _ w Hr).
Defined.

Lemma written_frames_typed_witness :
  ∃ w, (snd <$> example_play acked) = Some w ∧
       AnyClientFrame (AckFrame (ack_headers (us "7") (us "A"))) = true ∧
       ∀ frame_type h body key,
         parts (AckFrame (ack_headers (us "7") (us "A"))) = Some (frame_type, h, body) →
         frame_type ≠ TSend → key ∈ required_keys frame_type → is_Some (h !! key).
Proof.
  destruct (example_reachable acked) as (w & Hw & Hr); [vm_compute; reflexivity|].
  exists w. split; [exact Hw|].
  assert ((λ w, trace w !! 6) <$> Some w =
          Some (Some (Wrote 0 (AckFrame (ack_headers (us "7") (us "A")))))) as E
    by (rewrite <-Hw; vm_compute; reflexivity).
  assert (Wrote 0 (AckFrame (ack_headers (us "7") (us "A"))) ∈ trace w) as Hin
    by (injection E as E; exact (list_elem_of_lookup_2 _ _ _ E)).
  exact (written_frames_typed _ _ _ _ _ w 0 _ Hr Hin).
Defined.
