(* ===== verification/Ledger.v ===== *)
(** * What the tasks of a client own

    The way of a message through the tasks, told in terms of what they own ([Credits]):
    the task that enters the client may create the one that listens; the latter owns
    something for a frame it has received until it has created the task of the handler; and
    that one owns something until it has called the handler.  A [Ledger] says what is owned
    and that the steps on the way may be taken; all other steps are tame.  The walk along
    the way is done here once, for the ledgers of [Delivery]. *)

From S2P Require Import Prelude Frames FrameParser Config Errors Async Credits World.
From S2P Require Import Connection Manager Subscription Transaction Lifespan Client System.
From S2P Require Import Footprint Scheduler.

(** ** Ledgers *)

Class Ledger {M} `{Resource M} (Inv : M → world → Prop) := {
  (** what the task owns that has entered the task group *)
  entering : M → Prop;
  (** what the task owns that listens *)
  listening : M → Prop;
  (** what it owns when it has received a frame *)
  received : nat → frame headers → M → Prop;
  (** what the task of a handler owns *)
  handling : frame headers → M → Prop;

  tame_pays n w w' : tame false w w' → pays Inv n w n w';
  semaphore_pays n x w : pays Inv n w n (set_handler_semaphore x w);
  release_pays n id w : pays Inv n w n (release_semaphore id w);
  enter_pays w : _task_group w = GroupNew →
    ∃ n, entering n ∧ pays Inv nothing w n (set_task_group GroupRunning w);
  create_listener_pays n w : entering n →
    ∃ n', pays Inv n w n' (create_task ListenToFrames w).1;
  receive_pays n c epoch f w : listening n →
    ∃ n', received epoch f n' ∧ pays Inv n w n' (record_action (Received c epoch f) w);
  received_listening epoch f n : received epoch f n → listening n;
  create_handler_pays n id sub h body epoch w : received epoch (MessageFrame h body) n →
    ∃ n', listening n' ∧ pays Inv n w n' (create_task (RunHandler id sub h body epoch) w).1;
  start_pays k t w : tasks w !! k = Some t → started t = false →
    ∃ n, pays Inv nothing w n (start_task k w) ∧
      match task_code t with
      | ListenToFrames => listening n
      | RunHandler _ _ h body _ => handling (MessageFrame h body) n
      | _ => True
      end;
  handle_pays n id f w : handling f n →
    ∃ n', pays Inv n w n' (record_action (Handled id f) w);
}.

(** ** The walk *)

Section walk.
Context `{AC : AbstractConnection} `{MC : !MildConnection AC}.
Context (cl : Client) (uuid4 : nat → str) (fuel : nat).
Context {M'} `{RM : Resource M'} (Inv : M' → world → Prop) `{L : !Ledger Inv}.
#[local] Instance ledger_lifespan : AbstractConnectionLifespan := client_lifespan cl uuid4 fuel.
Local Abbreviation cm := (make_manager cl).

Section task.
Context (i : nat).
Abbreviation affords := (Credits.affords (awaits dials) Inv i).

Lemma tame_affords {A} n (t : M A) Q w :
  wp (awaits dials) (λ _ _, True) (tame false) i True t (λ o _, Q o) w →
  affords n t (λ o n', n' = n ∧ Q o) w.
Proof.
  intros H. eapply affords_mono; [eapply wp_affords; [|exact H]|].
  - intros w1 w2. apply tame_pays.
  - by intros o n' [-> [w' HQ]].
Qed.

Lemma mild_affords {A} n (t : M A) w :
  mild false dials i t → affords n t (λ _ n', n' = n) w.
Proof.
  intros Ht. eapply affords_mono; [apply (tame_affords n t (λ _, True)), Ht|]. by intros o n' [-> _].
Qed.

Lemma mild_affords_any {A} n (t : M A) w : mild false dials i t → affords n t (λ _ _, True) w.
Proof. intros Ht. by eapply affords_mono; [apply mild_affords|]. Qed.

(** *** The task of a handler *)

Lemma run_user_handler_affords n id f w :
  handling f n → affords n (run_user_handler id f) (λ _ _, True) w.
Proof.
  intros Hn. destruct (handle_pays n id f w Hn) as (n' & Hn'). exists n'. split; [done|].
  apply mild_affords_any. by apply (walk_await (CallHandler id f)).
Qed.

Lemma release_affords n id w : affords n (modify (release_semaphore id)) (λ _ _, True) w.
Proof. by eapply affords_modify; [apply release_pays|]. Qed.

Lemma handler_task_affords n id sub h body epoch w :
  handling (MessageFrame h body) n →
  affords n (handler_task id sub h body epoch) (λ _ _, True) w.
Proof.
  intros Hn. unfold handler_task, _run_handler_with_safety_net.
  apply affords_handle, (affords_mono _ _ _ _ _ (λ _ _, True)).
  2: { intros o n' _ w'. apply affords_mbind. eapply affords_mono; [apply release_affords|].
       intros [[]|e] n2 _; [|done]. by destruct o. }
  apply affords_handle, (affords_mono _ _ _ _ _ (λ _ _, True)).
  2: { intros o n' _ w'. destruct o as [[]|e]; [done|]. destruct (is_exception e); [|done].
       apply mild_affords_any. mildly. }
  destruct (kind sub) as [suppressed on_suppressed|]; [|by apply run_user_handler_affords].
  apply affords_handle. eapply affords_mono; [by apply run_user_handler_affords|].
  intros o n' _ w'. apply mild_affords_any.
  unfold _nack, _ack, call_on_suppressed. mildly; apply acknowledge_mild.
Qed.

(** *** The task that listens *)

(** What does not give out a frame is tame. *)
Lemma read_step_waits g w :
  match g with Reading _ _ _ (_ :: _) => False | _ => True end →
  wp (awaits dials) (λ _ _, True) (tame false) i True (read_step cm g)
    (λ o _, match o with Done (inr _) => False | _ => True end) w.
Proof.
  destruct g as [|s epoch p [|g pending]]; [intros _|intros _|done].
  - apply wp_handle. eapply wp_mono; [apply mild_wp, get_active_mild, enter_mild|].
    intros [s|e] w' _; [by wp_step; [apply tame_refl|]|].
    destruct e; try done. destruct (keep_alive_on_connection_failure cm); [|done].
    wp_step; [by apply calm_tame, calm_log, calm_refl|]. wp_step.
    eapply wp_mono; [apply mild_wp; by apply (walk_await (Sleep _))|]. by intros [[]|e] w1 _.
  - apply wp_handle. wp_step.
    eapply wp_mono; [unfold read_frames_chunk; apply mild_wp; mildly|].
    intros [[fs p']|e] w' _; [done|]. destruct e; try done. wp_step.
    eapply wp_mono; [apply mild_wp, discard_mild|]. by intros [[]|e] w1 _.
Qed.

Definition delivered (o : outcome (frame headers * nat * nat * reading)) (n : M') : Prop :=
  match o with Done (f, epoch, _, _) => received epoch f n | Raised _ => True end.

Lemma read_frames_affords n g w :
  listening n → affords n (read_frames_reconnecting cm fuel g) delivered w.
Proof.
  apply (affords_while_loop _ _ _ _ _ listening). clear n g w. intros g n w Hn.
  destruct g as [|s epoch p [|f pending]].
  - eapply affords_mono; [by apply tame_affords, read_step_waits|].
    by intros [[g|x]|e] n' [-> H].
  - eapply affords_mono; [by apply tame_affords, read_step_waits|].
    by intros [[g|x]|e] n' [-> H].
  - destruct (receive_pays n (connection s) epoch f w Hn) as (n' & Hr & Hp).
    by exists n'.
Qed.

Lemma acquire_affords n w : affords n acquire_semaphore (λ _ n', n' = n) w.
Proof.
  intros w1 r w2 [(m & _ & -> & ->)|[-> ->]]; exists n; split; try done;
    [apply semaphore_pays|apply pays_refl].
Qed.

(** What a task owns that listens, or that has failed. *)
Definition still_listening (o : outcome unit) (n : M') : Prop :=
  match o with Done _ => listening n | Raised _ => True end.

Lemma dispatch_message_affords n h body epoch w :
  received epoch (MessageFrame h body) n →
  affords n (dispatch_message h body epoch) still_listening w.
Proof.
  intros Hn. pose proof (received_listening _ _ _ Hn) as Hl. unfold dispatch_message, getitem.
  apply affords_mbind. eapply affords_mono; [apply mild_affords; mildly|].
  intros [[]|e] n1 ->; [|done]. intros w1.
  apply affords_mbind. eapply affords_mono; [apply mild_affords; mildly|].
  intros [id|e] n2 ->; [|done]. intros w2.
  exists n. split; [apply pays_refl|]. simpl. destruct (get_by_id id w2) as [sub|]; [|done].
  exists n. split; [apply pays_refl|]. simpl.
  apply affords_mbind. eapply affords_mono.
  - instantiate (1 := λ _ n', n' = n). case_bool_decide; [apply acquire_affords|done].
  - intros [[]|e] n3 ->; [|done]. intros w3.
    destruct (create_handler_pays n id sub h body epoch w3 Hn) as (n' & Hn' & Hp).
    by eapply affords_modify.
Qed.

Lemma listen_affords n w :
  listening n → affords n (_listen_to_frames cl uuid4 fuel) (λ _ _, True) w.
Proof.
  apply (affords_while_loop _ _ _ _ _ listening). clear n w. intros g n w Hn. unfold listen_round.
  apply affords_mbind. eapply affords_mono; [by apply read_frames_affords|].
  intros [[[[f epoch] c] r]|e] n1 H1; [|done]. intros w1. simpl in H1.
  apply affords_mbind. apply (affords_mono _ _ _ _ _ still_listening).
  - assert (∀ t, mild false dials i t → affords n1 t still_listening w1) as Hmild.
    { intros t Ht. eapply affords_mono; [by apply mild_affords|].
      intros [[]|e] n' ->; [by eapply received_listening|done]. }
    destruct f; try (apply Hmild; unfold dispatch; solve [mildly]).
    by apply dispatch_message_affords.
  - by intros [[]|e] n2 H2.
Qed.

(** *** All tasks *)

Lemma task_program_affords b n w :
  match b with
  | ListenToFrames => listening n
  | RunHandler _ _ h body _ => handling (MessageFrame h body) n
  | _ => True
  end →
  affords n (task_program cl uuid4 fuel b) (λ _ _, True) w.
Proof.
  intros Hn. destruct b; cbn [task_program].
  - apply mild_affords_any. unfold sleep. mildly.
  - apply mild_affords_any, heartbeats_mild, enter_mild.
  - apply mild_affords_any, monitor_mild.
  - by apply listen_affords.
  - by apply handler_task_affords.
Qed.

(** The task group is entered once, so one task listens. *)
Lemma client_aenter_affords w :
  affords nothing (client_aenter cl uuid4 fuel) (λ _ _, True) w.
Proof.
  unfold client_aenter. apply affords_mbind.
  apply (affords_mono _ _ _ _ _ (λ o n, match o with Done _ => entering n | _ => True end)).
  - change (aenter cm) with (enter_and_start (s ← _get_active_connection_state cm true;
                                                modify (set_active (Some s)))).
    unfold enter_and_start. apply affords_mbind.
    apply (affords_mono _ _ _ _ _ (λ o n, match o with Done _ => entering n | _ => True end)).
    + unfold enter_group. destruct (_task_group w) eqn:Hg.
      1: destruct (enter_pays w Hg) as (n & Hn & Hp); exists n.
      2-4: exists nothing.
      all: rewrite Hg; split; try done; apply pays_refl.
    + intros [[]|e] n Hn; [|done]. intros w1.
      eapply affords_mono; [apply mild_affords, start_mild|].
      { mild_step; [apply get_active_mild, enter_mild|]. mildly. }
      by intros [[]|e] n' ->.
  - intros [[]|e] n Hn; [|done]. intros w1.
    destruct (create_listener_pays n w1 Hn) as (n' & Hp). by eapply affords_modify.
Qed.

Lemma operation_affords op w :
  affords nothing (operation_program cl uuid4 fuel op) (λ _ _, True) w.
Proof.
  destruct op; try by apply mild_affords_any, operation_mild. apply client_aenter_affords.
Qed.
End task.

Lemma spawn_affords w t w' :
  spawn cl uuid4 fuel w t w' →
  ∃ n, pays Inv nothing w n w' ∧
       ∀ i, Credits.affords (awaits dials) Inv i n t (λ _ _, True) w'.
Proof.
  intros [w0 k t' Hk Hst _|w0 k t' id sub h body epoch Hk Hst _|w0 op _].
  - destruct (start_pays k t' w0 Hk Hst) as (n & Hp & Hn). exists n. split; [done|].
    intros i. by apply task_program_affords.
  - destruct (start_pays k t' w0 Hk Hst) as (n & Hp & _). exists n. split; [done|].
    intros i. unfold dropped_handler. apply affords_mbind.
    eapply affords_mono; [apply release_affords|]. by intros [[]|e] n' _.
  - exists nothing. split; [apply pays_refl|]. intros i. apply operation_affords.
Qed.

(** In every state that can be reached somebody owns what the ledger says. *)
Theorem ledger_holds σ t w :
  Inv nothing (initial_world cl σ t) → reachable_world cl uuid4 fuel σ t w → ∃ n, Inv n w.
Proof.
  intros H0 [ts Hts]. apply (reachable_owned _ Inv) in Hts; [done|..|done].
  - intros n w1 w2 Hn. by eapply tame_pays, calm_tame, nature_calm.
  - apply spawn_affords.
Qed.
End walk.
