(* ===== verification/Bookkeeping.v ===== *)
(** * The books of a running client

    Of the tasks that send heart-beats, and of those that watch for messages, all have been
    cancelled but the one the manager refers to, and the permits of the handler semaphore
    account for the handlers that run.  Neither holds in the middle of a step: when the old
    task has been cancelled and the new one not yet been stored, or a permit has been taken
    and the task of the handler not yet been created.  Nothing is awaited in between, so
    they hold whenever a task waits: [Async.seg]. *)

From S2P Require Import Prelude Frames FrameParser Config Errors Async World Contract Discipline.
From S2P Require Import Connection Manager ManagerSpec Subscription Transaction Lifespan Client System.
From S2P Require Import Footprint Scheduler.

(** ** The books *)

Definition is_handler_done (a : action) : bool :=
  match a with HandlerDone _ => true | _ => false end.

(** The tasks created for handlers, and those of them that have ended. *)
Definition handlers_created (w : world) : nat := length (List.filter is_handler (codes w)).
Definition handlers_ended (w : world) : nat := length (List.filter is_handler_done (trace w)).

Definition permits_add_up (limit : option nat) (taken : nat) (w : world) : Prop :=
  match limit with
  | Some m =>
    ∃ n, _handler_semaphore w = Some n ∧ n + taken + handlers_created w = m + handlers_ended w
  | None => _handler_semaphore w = None
  end.

(** The tasks of a kind have been cancelled, all or all but one. *)
Definition none_live (of_kind : task_body → bool) (ts : list background_task) : Prop :=
  ∀ j t, ts !! j = Some t → of_kind (task_code t) = true → cancelled t = true.

Definition only_live (of_kind : task_body → bool) (k : option nat) (ts : list background_task)
  : Prop :=
  ∀ j t, ts !! j = Some t → of_kind (task_code t) = true → cancelled t = false → k = Some j.

(** The manager's tasks; those that send heart-beats begin with an empty one when the task
    group is entered. *)
Record tasks_in_order (w : world) : Prop := {
  order_heartbeat : refers is_heartbeat_body (_send_heartbeat_task w) (codes w);
  order_heartbeats : only_live is_heartbeat_body (_send_heartbeat_task w) (tasks w);
  order_monitor : refers is_monitor_body (_monitor_no_message_task w) (codes w);
  order_monitors : only_live is_monitor_body (_monitor_no_message_task w) (tasks w);
  order_new : _task_group w = GroupNew → none_live is_heartbeat_body (tasks w);
}.

Record books (limit : option nat) (taken : nat) (w : world) : Prop := {
  books_tasks : tasks_in_order w;
  books_permits : permits_add_up limit taken w;
}.

(** ** Lists of tasks *)

Lemma only_live_none of_kind ts : only_live of_kind None ts → none_live of_kind ts.
Proof.
  intros H j t Hj Hk. destruct (cancelled t) eqn:Hc; [done|]. by specialize (H j t Hj Hk Hc).
Qed.

Lemma only_live_cancel of_kind k ts :
  only_live of_kind (Some k) ts →
  none_live of_kind (alter (λ t, mkTask (task_code t) (started t) true) k ts).
Proof.
  intros H j t. rewrite list_lookup_alter. case_decide as Hj.
  - subst. destruct (ts !! j); [|done]. by intros [= <-].
  - intros Ht Hk. destruct (cancelled t) eqn:Hc; [done|].
    specialize (H j t Ht Hk Hc). congruence.
Qed.

Lemma only_live_new of_kind ts b :
  none_live of_kind ts → only_live of_kind (Some (length ts)) (ts ++ [mkTask b false false]).
Proof.
  intros H j t [[Hlt Hj]|[-> <-]]%lookup_snoc_Some Hk Hc; [|done].
  specialize (H j t Hj Hk). congruence.
Qed.

Lemma only_live_other of_kind k ts b :
  of_kind b = false → only_live of_kind k ts →
  only_live of_kind k (ts ++ [mkTask b false false]).
Proof.
  intros Hb H j t [[Hlt Hj]|[-> <-]]%lookup_snoc_Some Hk Hc; [by eapply H|].
  simpl in Hk. congruence.
Qed.

Lemma none_live_other of_kind ts b :
  of_kind b = false → none_live of_kind ts → none_live of_kind (ts ++ [mkTask b false false]).
Proof.
  intros Hb H j t [[Hlt Hj]|[-> <-]]%lookup_snoc_Some Hk; [by eapply H|].
  simpl in Hk. congruence.
Qed.

(** A task that is not cancelled now was there before. *)
Lemma survivor w w' j t' :
  starts w' = starts w → not_revived w w' → tasks w' !! j = Some t' → cancelled t' = false →
  ∃ t, tasks w !! j = Some t ∧ task_code t = task_code t' ∧ cancelled t = false.
Proof.
  intros Hs Hr Hj Hc. destruct (Hr j t' Hj Hc) as (t & Ht & Hct). exists t. split_and!; [done| |done].
  assert (starts w' !! j = starts w !! j) as E by (by rewrite Hs).
  unfold starts in E. rewrite !list_lookup_fmap, Hj, Ht in E. by injection E.
Qed.

Lemma order_calm w w' : calm false w w' → tasks_in_order w → tasks_in_order w'.
Proof.
  intros [H1 H2 _ _ H5 H6 H7 _] [O1 O2 O3 O4 O5].
  assert (codes w' = codes w) as Hcodes by (by rewrite !codes_starts, H1).
  assert (∀ of_kind k, only_live of_kind k (tasks w) → only_live of_kind k (tasks w')) as Hlive.
  { intros of_kind k H j t' Hj Hk Hc. destruct (survivor w w' j t' H1 H2 Hj Hc) as (t & Ht & Hcode & Hct).
    apply (H j t); [done|by rewrite Hcode|done]. }
  split; rewrite ?Hcodes, ?H5, ?H6; auto.
  intros Hg j t' Hj Hk. destruct (cancelled t') eqn:Hc; [done|].
  destruct (survivor w w' j t' H1 H2 Hj Hc) as (t & Ht & Hcode & Hct).
  destruct H7 as [H7|?]; [|done]. assert (cancelled t = true) by (eapply O5; [done..|by rewrite Hcode]).
  congruence.
Qed.

(** A task that is neither for heart-beats nor a monitor is created. *)
Lemma order_other b w :
  is_background b = false → tasks_in_order w → tasks_in_order (create_task b w).1.
Proof.
  intros Hb [O1 O2 O3 O4 O5].
  assert (is_heartbeat_body b = false ∧ is_monitor_body b = false) as [Hh Hm] by (by destruct b).
  split; rewrite ?codes_create; simpl; auto using refers_app, only_live_other, none_live_other.
Qed.

(** A new task for heart-beats takes the place of the ones before, all cancelled. *)
Lemma order_heartbeat_created b w :
  is_heartbeat_body b = true → _task_group w ≠ GroupNew →
  none_live is_heartbeat_body (tasks w) → tasks_in_order w →
  tasks_in_order (set_heartbeat_task (Some (length (tasks w))) (create_task b w).1).
Proof.
  intros Hb Hg Hn [O1 O2 O3 O4 O5].
  assert (is_monitor_body b = false) as Hm by (by destruct b).
  split; simpl.
  - change (codes _) with (codes (create_task b w).1). rewrite codes_create.
    apply (refers_lookup _ _ b); [|done]. unfold codes.
    by rewrite lookup_app_r, length_fmap, Nat.sub_diag by (by rewrite length_fmap).
  - by apply only_live_new.
  - change (codes _) with (codes (create_task b w).1). rewrite codes_create. by apply refers_app.
  - by apply only_live_other.
  - done.
Qed.

Lemma order_monitor_created b w :
  is_monitor_body b = true → none_live is_monitor_body (tasks w) → tasks_in_order w →
  tasks_in_order (set_monitor_task (Some (length (tasks w))) (create_task b w).1).
Proof.
  intros Hb Hn [O1 O2 O3 O4 O5].
  assert (is_heartbeat_body b = false) as Hh by (by destruct b).
  split; simpl.
  - change (codes _) with (codes (create_task b w).1). rewrite codes_create. by apply refers_app.
  - by apply only_live_other.
  - change (codes _) with (codes (create_task b w).1). rewrite codes_create.
    apply (refers_lookup _ _ b); [|done]. unfold codes.
    by rewrite lookup_app_r, length_fmap, Nat.sub_diag by (by rewrite length_fmap).
  - by apply only_live_new.
  - intros Hg. by apply none_live_other, O5.
Qed.

(** ** Steps that keep the books *)

Section steps.
Context (limit : option nat).

(** The tasks that are created are no handlers, and no handler ends. *)
Lemma permits_tame taken w w' :
  tame false w w' → permits_add_up limit taken w → permits_add_up limit taken w'.
Proof.
  intros Ht. destruct (tame_codes _ _ _ Ht) as (l & Hc & Hl).
  destruct Ht as [_ Hs (acts & Ha & Hacts) _ _].
  assert (handlers_created w' = handlers_created w) as Hcr.
  { unfold handlers_created. rewrite Hc, List.filter_app, length_app.
    clear -Hl. induction Hl as [|b l Hb _ IH]; simpl; [lia|]. by destruct b. }
  assert (handlers_ended w' = handlers_ended w) as He.
  { unfold handlers_ended. rewrite Ha, List.filter_app, length_app.
    clear -Hacts. induction Hacts as [|a l Ha _ IH]; simpl; [lia|]. by destruct a. }
  unfold permits_add_up. by rewrite Hs, Hcr, He.
Qed.

Lemma books_calm taken w w' : calm false w w' → books limit taken w → books limit taken w'.
Proof.
  intros Hc [H1 H2]. split; [by eapply order_calm|]. by eapply permits_tame, H2; apply calm_tame.
Qed.

(** What concerns neither tasks, references, permits nor the ends of handlers. *)
Lemma permits_same taken w w' :
  codes w' = codes w → _handler_semaphore w' = _handler_semaphore w →
  handlers_ended w' = handlers_ended w →
  permits_add_up limit taken w → permits_add_up limit taken w'.
Proof. intros Hc Hs He. unfold permits_add_up, handlers_created. by rewrite Hs, Hc, He. Qed.

Lemma order_start k w : tasks_in_order w → tasks_in_order (start_task k w).
Proof.
  intros [O1 O2 O3 O4 O5].
  assert (∀ j t', tasks (start_task k w) !! j = Some t' →
    ∃ t, tasks w !! j = Some t ∧ task_code t = task_code t' ∧ cancelled t = cancelled t') as Hback.
  { intros j t'. simpl. rewrite list_lookup_alter. case_decide; [|eauto]. subst.
    destruct (tasks w !! j) as [t|]; [|done]. intros [= <-]. by exists t. }
  split; rewrite ?codes_start; simpl; try done.
  - intros j t' (t & Ht & Hcode & Hc)%Hback Hk Hct. apply (O2 j t); congruence.
  - intros j t' (t & Ht & Hcode & Hc)%Hback Hk Hct. apply (O4 j t); congruence.
  - intros Hg j t' (t & Ht & Hcode & Hc)%Hback Hk. rewrite <-Hc. apply (O5 Hg j t); congruence.
Qed.

Lemma books_start taken k w : books limit taken w → books limit taken (start_task k w).
Proof.
  intros [H1 H2]. split; [by apply order_start|]. eapply permits_same, H2; [|done..]. apply codes_start.
Qed.

(** The task that listens is created. *)
Lemma books_listener taken w :
  books limit taken w → books limit taken (create_task ListenToFrames w).1.
Proof.
  intros [H1 H3]. split; [by apply order_other|].
  unfold permits_add_up, handlers_created in *.
  rewrite codes_create, List.filter_app, length_app. by rewrite Nat.add_0_r.
Qed.

Lemma books_handled taken id f w :
  books limit taken w → books limit taken (record_action (Handled id f) w).
Proof.
  intros [[] H]. split; [by split|]. eapply permits_same, H; try done.
  unfold handlers_ended. simpl. rewrite List.filter_app, length_app. simpl. lia.
Qed.

Lemma books_release taken id w :
  books limit taken w → books limit taken (release_semaphore id w).
Proof.
  intros [[] H3]. split; [by split|].
  assert (handlers_ended (release_semaphore id w) = S (handlers_ended w)) as He.
  { unfold handlers_ended. simpl. rewrite List.filter_app, length_app. simpl. lia. }
  unfold permits_add_up in *. rewrite He. simpl. destruct limit as [m|]; [|by rewrite H3].
  destruct H3 as (n & -> & Hn). exists (S n). split; [done|].
  change (handlers_created (release_semaphore id w)) with (handlers_created w). lia.
Qed.

(** A permit is taken, and the handler's task created. *)
Lemma books_acquire n w :
  _handler_semaphore w = Some (S n) → books limit 0 w →
  books limit 1 (set_handler_semaphore (Some n) w).
Proof.
  intros Hn [[] H3]. split; [by split|]. unfold permits_add_up in *. simpl.
  rewrite Hn in H3. destruct limit as [m|]; [|done]. destruct H3 as (n' & [= <-] & Hm).
  exists n. split; [done|]. change (handlers_created _) with (handlers_created w).
  change (handlers_ended _) with (handlers_ended w). lia.
Qed.

Lemma books_handler id sub h body epoch taken w :
  (limit = None ∨ taken = 1) → books limit taken w →
  books limit 0 (create_task (RunHandler id sub h body epoch) w).1.
Proof.
  intros Ht [H1 H3]. set (b := RunHandler id sub h body epoch).
  assert (handlers_created (create_task b w).1 = S (handlers_created w)) as Hc.
  { unfold handlers_created. rewrite codes_create, List.filter_app, length_app. simpl. lia. }
  split.
  - by apply order_other.
  - unfold permits_add_up in *. rewrite Hc.
    change (handlers_ended (create_task b w).1) with (handlers_ended w).
    change (_handler_semaphore (create_task b w).1) with (_handler_semaphore w).
    destruct limit as [m|]; [|done]. destruct Ht as [?| ->]; [done|].
    destruct H3 as (n & Hn & Hm). exists n. split; [done|]. lia.
Qed.

End steps.

(** ** Operations that keep the books *)

Section operations.
Context `{AC : AbstractConnection} `{MC : !MildConnection AC} (limit : option nat) (i : nat).
Context (cl : Client) (uuid4 : nat → str) (fuel : nat).
Hypothesis limit_is : max_concurrent_handlers cl = limit.
#[local] Instance books_lifespan : AbstractConnectionLifespan := client_lifespan cl uuid4 fuel.
Local Abbreviation cm := (make_manager cl).
Abbreviation keeps := (Async.keeps (awaits dials) (books limit 0) i).
Abbreviation seg := (Async.seg (awaits dials) (books limit 0) i).

Lemma keeps_modify f : (∀ w, books limit 0 w → books limit 0 (f w)) → keeps (modify f).
Proof. intros Hf w HJ. by apply Hf. Qed.

Lemma books_with_tasks w w' :
  tame false w w' → tasks_in_order w' → books limit 0 w → books limit 0 w'.
Proof. intros Ht Ho [_ Hp]. split; [done|]. by eapply permits_tame. Qed.

(** *** Where the manager creates a task *)

Lemma tame_created b w w' :
  is_background b = true →
  starts w' = starts (create_task b w).1 → _handler_semaphore w' = _handler_semaphore w →
  trace w' = trace w → _task_group w' = _task_group w → dicts w' = dicts w → tame false w w'.
Proof.
  intros Hb H1 H2 H3 H4 H5. eapply tame_trans; [by apply (tame_create false w b)|].
  by apply tame_set_reference.
Qed.

Lemma restart_background_keeps hb : keeps (_restart_background_tasks hb).
Proof.
  intros w HJ. unfold _restart_background_tasks, create_group_task, sync, get, modify, mbind, prog_bind.
  cbn [bind Async.seg fst snd]. destruct (_send_heartbeat_task w) as [k|] eqn:Hk; [|done].
  cbn [bind Async.seg fst snd]. set (w1 := cancel_task k w).
  assert (books limit 0 w1) as HJ1 by (eapply books_calm; [apply calm_cancel, calm_refl|done]).
  assert (none_live is_heartbeat_body (tasks w1)) as Hn.
  { apply only_live_cancel. rewrite <-Hk. apply (order_heartbeats _ (books_tasks _ _ _ HJ)). }
  destruct (_task_group w1) eqn:Hg; cbn [bind Async.seg fst snd mret prog_ret create_task]; try done.
  set (b := SendHeartbeats _). apply (books_with_tasks w1); [by apply (tame_created b)| |done].
  apply (order_heartbeat_created b); [done|by rewrite Hg|done|apply HJ1].
Qed.

Lemma restart_monitor_keeps interval : keeps (_restart_no_message_monitor interval).
Proof.
  intros w HJ. unfold _restart_no_message_monitor, create_group_task, sync, modify, mbind, prog_bind.
  cbn [bind Async.seg fst snd]. set (w1 := cancel_monitor w).
  assert (books limit 0 w1) as HJ1 by (eapply books_calm; [apply calm_cancel_monitor, calm_refl|done]).
  assert (none_live is_monitor_body (tasks w1)) as Hn.
  { pose proof (order_monitors _ (books_tasks _ _ _ HJ)) as H. unfold w1, cancel_monitor.
    destruct (_monitor_no_message_task w); [by apply only_live_cancel|by apply only_live_none]. }
  destruct interval as [ms|]; [|done]. cbn [bind Async.seg fst snd].
  destruct (_task_group w1) eqn:Hg; cbn [bind Async.seg fst snd mret prog_ret create_task]; try done.
  set (b := MonitorNoMessage _). apply (books_with_tasks w1); [by apply (tame_created b)| |done].
  apply (order_monitor_created b); [done..|apply HJ1].
Qed.

Lemma enter_and_start_keeps t : keeps t → keeps (enter_and_start t).
Proof.
  intros Ht w HJ.
  unfold enter_and_start, enter_group, create_group_task, sync, modify, mbind, prog_bind.
  cbn [bind Async.seg fst snd].
  destruct (_task_group w) eqn:Hg; cbn [bind Async.seg fst snd mret prog_ret]; try done.
  set (w1 := set_task_group GroupRunning w).
  assert (books limit 0 w1) as HJ1
    by (eapply books_calm; [by apply calm_set_group, calm_refl|done]).
  cbn [bind Async.seg fst snd mret prog_ret create_task]. apply Ht.
  apply (books_with_tasks w1); [by apply (tame_created SleepZero)| |done].
  apply (order_heartbeat_created SleepZero); [done..| |apply HJ1].
  by apply (order_new _ (books_tasks _ _ _ HJ)).
Qed.

#[local] Instance keeps_walk : Walk false dials i (@Async.keeps _ _ _ (awaits dials) (books limit 0) i).
Proof.
  split; try apply restart_background_keeps; try apply restart_monitor_keeps;
    try apply enter_and_start_keeps; try by intros; intros w.
  - intros A B t k. apply keeps_handle.
  - intros A B t k. apply keeps_mbind.
  - intros A k Hk w HJ. by apply Hk.
  - intros A X f k Hk w HJ. by apply Hk.
  - intros X f Hf w HJ. by eapply books_calm.
  - intros f Hf w HJ. by apply (books_calm limit 0 w (f w) (Hf w)).
  - intros a Ha w HJ. split; [done|]. intros w1 r w2 HJ1 Hr.
    assert (books limit 0 w2) by (by eapply books_calm; [eapply awaits_calm|]). by destruct r.
Qed.

Lemma release_keeps id : keeps (modify (release_semaphore id)).
Proof. apply keeps_modify. intros w. by apply books_release. Qed.

Lemma run_user_handler_keeps id f : keeps (run_user_handler id f).
Proof.
  unfold run_user_handler, call_handler. apply keeps_mbind.
  - apply keeps_modify. intros w. apply books_handled.
  - intros _. by apply (walk_await (CallHandler id f)).
Qed.

Lemma handler_task_keeps id sub h body epoch : keeps (handler_task id sub h body epoch).
Proof.
  unfold handler_task, _run_handler_with_safety_net. apply keeps_try_finally; [|apply release_keeps].
  apply keeps_try_except; [|intros e; mildly].
  destruct (kind sub) as [suppressed on_suppressed|]; [|apply run_user_handler_keeps].
  apply keeps_handle; [apply run_user_handler_keeps|]. intros o.
  unfold _nack, _ack, call_on_suppressed. mildly; apply acknowledge_mild.
Qed.

(** A handler's task is created with a permit, if there is a limit. *)
Lemma dispatch_message_keeps h body epoch : keeps (dispatch_message h body epoch).
Proof.
  unfold dispatch_message, getitem. apply keeps_mbind; [mildly|]. intros [].
  apply keeps_mbind; [mildly|]. intros id.
  apply keeps_mbind; [apply (walk_gets (get_by_id id) mret); mildly|].
  intros [sub|]; [|mildly]. intros w HJ. unfold gets, mbind, prog_bind.
  cbn [bind Async.seg fst snd]. pose proof (books_permits _ _ _ HJ) as Hp.
  unfold permits_add_up in Hp. case_bool_decide as Hs.
  - unfold acquire_semaphore, await. cbn [bind Async.seg]. split; [done|].
    intros w1 r w2 HJ1 [(n & Hn & -> & ->)|[-> ->]]; cbn [of_outcome bind Async.seg]; [|done].
    apply (books_handler _ _ _ _ _ _ 1); [by right|]. by apply books_acquire.
  - cbn [bind Async.seg mret prog_ret modify fst]. apply (books_handler _ _ _ _ _ _ 0); [|done].
    left. destruct limit as [m|]; [|done]. destruct Hp as (n & Hn & _).
    destruct Hs. rewrite Hn. by eexists.
Qed.

Lemma listen_keeps : keeps (_listen_to_frames cl uuid4 fuel).
Proof.
  unfold _listen_to_frames, listen_round. apply keeps_while_loop. intros g.
  apply keeps_mbind; [apply read_frames_mild, enter_mild|]. intros [[[f epoch] c] g'].
  apply keeps_mbind; [|intros []; mildly].
  destruct f; try (unfold dispatch; solve [mildly]). apply dispatch_message_keeps.
Qed.

Lemma task_program_keeps b : keeps (task_program cl uuid4 fuel b).
Proof.
  destruct b; cbn [task_program].
  - unfold sleep. mildly.
  - apply heartbeats_mild, enter_mild.
  - apply monitor_mild.
  - apply listen_keeps.
  - apply handler_task_keeps.
Qed.

Lemma operation_keeps op : keeps (operation_program cl uuid4 fuel op).
Proof.
  destruct op; try by apply operation_mild. cbn [operation_program]. unfold client_aenter.
  apply keeps_mbind; [apply aenter_mild, enter_mild|]. intros [].
  apply keeps_modify. intros w. apply books_listener.
Qed.

Lemma initial_books σ t : books limit 0 (initial_world cl σ t).
Proof.
  split; [by split; intros j|]. unfold permits_add_up. simpl. rewrite limit_is.
  destruct limit as [m|]; [|done]. exists m. split; [done|].
  unfold handlers_created, handlers_ended. simpl. lia.
Qed.
End operations.

(** ** What the books say of a running client *)

Section bookkeeping.
Context `{AC : AbstractConnection} `{!ConnectionLaws AC} `{!MildConnection AC}.
Context (cl : Client) (uuid4 : nat → str) (fuel : nat) (σ : store) (t : Z) (w : world).

Lemma world_books :
  reachable_world cl uuid4 fuel σ t w → books (max_concurrent_handlers cl) 0 w.
Proof.
  intros [ts Hts].
  apply (reachable_seg _ _ _ (books (max_concurrent_handlers cl) 0)) in Hts; [done|..].
  - intros w1 w2 HJ Hn. eapply books_calm; [by eapply nature_calm|done].
  - intros w1 p w2 HJ Hs i. destruct Hs as [w1 k t' _ _ _|w1 k t' id sub h body epoch _ _ _|w1 op _].
    + by apply task_program_keeps, books_start.
    + unfold dropped_handler. apply keeps_mbind; [by apply release_keeps| |by apply books_start].
      intros []. apply keeps_raise.
    + by apply operation_keeps.
  - by apply initial_books.
Qed.

(** C8: no more handlers run at a time than the client allows: of the tasks created for
    handlers, all but [max_concurrent_handlers] have ended. *)
Theorem handlers_bounded m :
  reachable_world cl uuid4 fuel σ t w → max_concurrent_handlers cl = Some m →
  handlers_created w ≤ handlers_ended w + m.
Proof.
  intros Hw Hm. apply world_books in Hw. pose proof (books_permits _ _ _ Hw) as H.
  unfold permits_add_up in H. rewrite Hm in H. destruct H as (n & _ & H). lia.
Qed.

(** C21: the manager never leaves a heart-beat task or a monitor behind: in every reachable
    state, of the tasks that send heart-beats, the empty one it starts with included, and of
    the tasks that watch for messages, all have been cancelled except the one that the
    manager refers to and will cancel next; and what it refers to is such a task. *)
Theorem one_heartbeat_one_monitor :
  reachable_world cl uuid4 fuel σ t w →
  (∀ j b, tasks w !! j = Some b → is_heartbeat_body (task_code b) = true → cancelled b = false →
     _send_heartbeat_task w = Some j) ∧
  (∀ j b, tasks w !! j = Some b → is_monitor_body (task_code b) = true → cancelled b = false →
     _monitor_no_message_task w = Some j) ∧
  (∀ k, _send_heartbeat_task w = Some k → ∃ b, codes w !! k = Some b ∧ is_heartbeat_body b = true) ∧
  (∀ k, _monitor_no_message_task w = Some k → ∃ b, codes w !! k = Some b ∧ is_monitor_body b = true).
Proof. intros [[H1 H2 H3 H4 _] _]%world_books. by split_and!. Qed.
End bookkeeping.

(** ** Witnesses *)

(** Two messages for a client that runs one handler at a time: the second is handled when
    the first is done. *)
Definition limited_client : Client :=
  mkClient [example_server] (Some (λ _, Done tt)) (mkHeartbeat 1000 1000) 3 1 2 3 2 2 3 (Some 60000%Z) false (Some 1).

Definition limited : list choice :=
  entered ++ [Start 3; Call (Subscribe example_subscription); Resume 2 Finish;
              Resume 1 (Give message_bytes); Resume 1 Finish; Resume 1 (Give message_bytes);
              Start 4; Resume 3 Finish; Resume 3 Finish; Resume 1 Finish].

Definition limited_play (chs : list choice) : option (list (M unit) * world) :=
  play_from (AC := Connection) limited_client example_ids 10 [] 0 chs.

Lemma limited_reachable chs :
  (if limited_play chs is Some _ then true else false) = true →
  ∃ w, (snd <$> limited_play chs) = Some w ∧
       reachable_world (AC := Connection) limited_client example_ids 10 [] 0 w.
Proof.
  destruct (limited_play chs) as [[ts w]|] eqn:H; [|done]. intros _. exists w.
  split; [done|]. by eapply play_reachable.
Qed.

Lemma handlers_bounded_witness :
  ∃ w, (snd <$> limited_play limited) = Some w ∧
       handlers_created w ≤ handlers_ended w + 1 ∧
       handlers_created w = 2 ∧ handlers_ended w = 1.
Proof.
  destruct (limited_reachable limited) as (w & Hw & Hr); [vm_compute; reflexivity|]. exists w. split; [exact Hw|].
  split; [exact (handlers_bounded _ _ _ _ _ w 1 Hr eq_refl)|].
  assert ((λ w, (handlers_created w, handlers_ended w)) <$> Some w = Some (2, 1)) as E
    by (rewrite <-Hw; vm_compute; reflexivity).
  injection E as -> ->. split; reflexivity.
Defined.

(** The empty task was cancelled in the handshake; the task that sends heart-beats is live. *)
Lemma one_heartbeat_one_monitor_witness :
  ∃ w, (snd <$> limited_play limited) = Some w ∧
    (λ b, (is_heartbeat_body (task_code b), is_monitor_body (task_code b), cancelled b))
      <$> take 3 (tasks w) =
      [(true, false, true); (true, false, false); (false, true, false)] ∧
    (∀ j b, tasks w !! j = Some b → is_heartbeat_body (task_code b) = true → cancelled b = false →
       _send_heartbeat_task w = Some j) ∧
    (∀ j b, tasks w !! j = Some b → is_monitor_body (task_code b) = true → cancelled b = false →
       _monitor_no_message_task w = Some j) ∧
    (∀ k, _send_heartbeat_task w = Some k →
       ∃ b, codes w !! k = Some b ∧ is_heartbeat_body b = true) ∧
    (∀ k, _monitor_no_message_task w = Some k →
       ∃ b, codes w !! k = Some b ∧ is_monitor_body b = true).
Proof.
  destruct (limited_reachable limited) as (w & Hw & Hr); [vm_compute; reflexivity|].
  exists w. split; [exact Hw|]. split.
  - assert ((λ w, (λ b, (is_heartbeat_body (task_code b), is_monitor_body (task_code b), cancelled b))
               <$> take 3 (tasks w)) <$> Some w =
            Some [(true, false, true); (true, false, false); (false, true, false)]) as E
      by (rewrite <-Hw; vm_compute; reflexivity).
    injection E as E. exact E.
  - exact (one_heartbeat_one_monitor _ _ _ _ _ w Hr).
Defined.
