(* ===== verification/Delivery.v ===== *)
(** * Messages reach their handlers once and in order

    Two ledgers of the way of a message: one counts how often a message was received, was
    handed to a task, and a handler was called with it; the other compares the order in
    which messages were received with the order in which the tasks of their handlers were
    created.  The walk through the program is that of [Ledger]. *)

From S2P Require Import Prelude Frames FrameParser Config Errors Async Credits World Contract Discipline.
From S2P Require Import Connection Manager Subscription Transaction Lifespan Client System.
From S2P Require Import Footprint Scheduler Ledger Bookkeeping.

(** ** The ledger of a frame *)

Definition receives (f : frame headers) (a : action) : bool :=
  match a with Received _ _ g => bool_decide (g = f) | _ => false end.

Definition handles (f : frame headers) (a : action) : bool :=
  match a with Handled _ g => bool_decide (g = f) | _ => false end.

(** How often the frame was received, and handlers were called with it. *)
Definition receptions (f : frame headers) (w : world) : nat :=
  length (List.filter (receives f) (trace w)).
Definition calls (f : frame headers) (w : world) : nat :=
  length (List.filter (handles f) (trace w)).

(** The task of a handler for the frame that has not started yet. *)
Definition awaits_start (f : frame headers) (v : task_body * bool) : bool :=
  match v with
  | (RunHandler _ _ h body _, false) => bool_decide (MessageFrame h body = f)
  | _ => false
  end.

#[global] Arguments awaits_start : simpl never.

Definition waiting (f : frame headers) (w : world) : nat :=
  length (List.filter (awaits_start f) (starts w)).

(** What a frame costs whose handler is to be called. *)
Definition owed (f g : frame headers) : nat := if bool_decide (g = f) then 1 else 0.

Section ledger.
Context (f : frame headers).

(** What was received and not been handed on is a credit. *)
Definition paid_for (n : nat) (w : world) : Prop := n + (waiting f w + calls f w) ≤ receptions f w.

Lemma paid_pays n n' w w' :
  n' + (waiting f w' + calls f w') + receptions f w ≤ n + (waiting f w + calls f w) + receptions f w' →
  pays paid_for n w n' w'.
Proof. unfold paid_for. intros H rest. simpl. lia. Qed.

Lemma tame_paid n w w' : tame false w w' → pays paid_for n w n w'.
Proof.
  intros [(l & Hl & HF) _ (acts & Ha & Hacts) _ _]. apply paid_pays.
  unfold waiting, calls, receptions. rewrite Hl, Ha.
  rewrite (filter_more (awaits_start f)), (filter_more (handles f)), (List.filter_app (receives f)),
    length_app; [lia|..].
  - eapply Forall_impl; [exact Hacts|]. by intros [].
  - eapply Forall_impl; [exact HF|]. by intros [[] []].
Qed.

(** An action changes the counts by what it is itself. *)
Lemma record_paid a n n' w :
  n' + (if handles f a then 1 else 0) ≤ n + (if receives f a then 1 else 0) →
  pays paid_for n w n' (record_action a w).
Proof.
  intros Ha. apply paid_pays. unfold waiting, calls, receptions. simpl. rewrite !filter_snoc.
  change (starts (record_action a w)) with (starts w). lia.
Qed.

Lemma create_paid n n' b w :
  n' + (if awaits_start f (b, false) then 1 else 0) ≤ n →
  pays paid_for n w n' (create_task b w).1.
Proof.
  intros Hb. apply paid_pays. unfold waiting, calls, receptions.
  rewrite starts_create, filter_snoc. simpl. lia.
Qed.

(** The start of a task earns what its handler costs. *)
Lemma start_paid k t w :
  tasks w !! k = Some t → started t = false →
  pays paid_for 0 w (if awaits_start f (task_code t, false) then 1 else 0) (start_task k w).
Proof.
  intros Hk Hst. apply paid_pays. unfold calls, receptions.
  change (trace (start_task k w)) with (trace w).
  pose proof (count_start (awaits_start f) k t w Hk Hst) as H.
  assert (awaits_start f (task_code t, true) = false) as E by (by destruct (task_code t)).
  rewrite E in H. unfold waiting. lia.
Qed.

#[export] Program Instance paid_ledger : Ledger paid_for := {|
  entering _ := True;
  listening _ := True;
  received _ g n := owed f g ≤ n;
  handling g n := owed f g ≤ n;
|}.
Next Obligation. apply tame_paid. Qed.
Next Obligation. intros n x w. apply paid_pays. reflexivity. Qed.
Next Obligation. intros n id w. by apply (record_paid (HandlerDone id) n n). Qed.
Next Obligation. intros w Hg. exists 0. split; [done|]. apply tame_paid. by apply calm_tame, calm_set_group, calm_refl. Qed.
Next Obligation. intros n w _. exists 0. apply create_paid. unfold awaits_start. simpl. lia. Qed.
Next Obligation.
  intros n c epoch g w _. exists (owed f g). split; [done|]. apply record_paid. simpl. unfold owed. lia.
Qed.
Next Obligation. done. Qed.
Next Obligation.
  intros n id sub h body epoch w Hn. exists 0. split; [done|]. by apply create_paid.
Qed.
Next Obligation.
  intros k t w Hk Hst. eexists. split; [by apply start_paid|]. by destruct (task_code t).
Qed.
Next Obligation. intros n id g w Hn. exists 0. apply record_paid. simpl. unfold owed in Hn. lia. Qed.
End ledger.


(** ** The order of messages *)

(** The messages that tasks were created for, in the order in which they were created, and
    the frames received, each with its epoch. *)
Definition handed_on (w : world) : list (nat * frame headers) :=
  omap (λ b, match b with
             | RunHandler _ _ h body epoch => Some (epoch, MessageFrame h body)
             | _ => None
             end) (codes w).

Definition received_frames (w : world) : list (nat * frame headers) :=
  omap (λ a, match a with Received _ epoch f => Some (epoch, f) | _ => None end) (trace w).

Definition is_unstarted_listener (v : task_body * bool) : bool :=
  match v with (ListenToFrames, false) => true | _ => false end.

Definition listeners_waiting (w : world) : nat :=
  length (List.filter is_unstarted_listener (starts w)).

(** The right to hand on messages, which one task has, with what it received and has not
    handed on yet. *)
Inductive right :=
  | Nobody
  | Somebody (pending : list (nat * frame headers))
  | Clash.

Definition right_join (x y : right) : right :=
  match x, y with
  | Nobody, r | r, Nobody => r
  | _, _ => Clash
  end.

#[export] Instance right_resource : Resource right.
Proof. refine {| join := right_join; nothing := Nobody |}; by repeat intros []. Defined.

Definition in_order (r : right) (w : world) : Prop :=
  match r with
  | Nobody =>
    handed_on w `sublist_of` received_frames w ∧
    (listeners_waiting w = 0 ∨ listeners_waiting w = 1 ∧ _task_group w ≠ GroupNew)
  | Somebody pending =>
    handed_on w ++ pending `sublist_of` received_frames w ∧
    listeners_waiting w = 0 ∧ _task_group w ≠ GroupNew
  | Clash => False
  end.

(** A step that hands nothing on and creates no task that listens. *)
Lemma same_order r w w' l :
  handed_on w' = handed_on w → received_frames w' = received_frames w ++ l →
  listeners_waiting w' = listeners_waiting w →
  _task_group w = GroupNew ∨ _task_group w' ≠ GroupNew → in_order r w → in_order r w'.
Proof.
  intros H1 H2 H3 H4. destruct r as [|p|]; simpl; [| |done]; rewrite H1, H2, H3.
  - intros [Hs Hl]. split; [by apply sublist_inserts_r|]. naive_solver.
  - intros (Hs & Hl & Hg). split; [by apply sublist_inserts_r|]. naive_solver.
Qed.

Lemma same_order_pays n w w' l :
  handed_on w' = handed_on w → received_frames w' = received_frames w ++ l →
  listeners_waiting w' = listeners_waiting w →
  _task_group w = GroupNew ∨ _task_group w' ≠ GroupNew → pays in_order n w n w'.
Proof. intros H1 H2 H3 H4 r. by eapply same_order. Qed.

Lemma tame_in_order n w w' : tame false w w' → pays in_order n w n w'.
Proof.
  intros Ht. destruct (tame_codes _ _ _ Ht) as (cs & Hcs & HF).
  destruct Ht as [(l & Hl & Hb) _ (acts & Ha & _) Hg _].
  eapply same_order_pays; [| | |exact Hg].
  - unfold handed_on. rewrite Hcs, omap_app.
    enough (omap (λ b, match b with RunHandler _ _ h body epoch => Some (epoch, MessageFrame h body)
      | _ => None end) cs = []) as -> by apply app_nil_r.
    clear -HF. induction HF as [|b cs Hb _ IH]; [done|]. by destruct b.
  - unfold received_frames. by rewrite Ha, omap_app.
  - unfold listeners_waiting. rewrite Hl. apply filter_more.
    eapply Forall_impl; [exact Hb|]. by intros [[] []].
Qed.

Lemma record_in_order n a w :
  match a with Received _ _ _ => False | _ => True end → pays in_order n w n (record_action a w).
Proof.
  intros Ha. apply (same_order_pays _ _ _ []); try done.
  - unfold received_frames. simpl. rewrite omap_app. by destruct a.
  - by apply same_group.
Qed.

(** Whoever may hand on messages is the only one. *)
Lemma somebody_alone p rest w :
  in_order (join (Somebody p) rest) w → rest = Nobody.
Proof. by destruct rest. Qed.

Lemma receive_in_order p c epoch f w :
  pays in_order (Somebody p) w (Somebody [(epoch, f)]) (record_action (Received c epoch f) w).
Proof.
  intros rest H. pose proof (somebody_alone _ _ _ H) as ->. destruct H as (Hs & Hl & Hg).
  split; [|done].
  assert (received_frames (record_action (Received c epoch f) w) =
          received_frames w ++ [(epoch, f)]) as ->
    by (unfold received_frames; simpl; by rewrite omap_app).
  apply sublist_app; [|done]. change (handed_on w `sublist_of` received_frames w).
  etrans; [|exact Hs]. by apply sublist_inserts_r.
Qed.

Lemma create_handler_in_order id sub h body epoch w :
  pays in_order (Somebody [(epoch, MessageFrame h body)]) w (Somebody [])
    (create_task (RunHandler id sub h body epoch) w).1.
Proof.
  intros rest H. pose proof (somebody_alone _ _ _ H) as ->. destruct H as (Hs & Hl & Hg).
  split; [|split; [|done]].
  - unfold handed_on. rewrite codes_create, omap_app, app_nil_r. exact Hs.
  - unfold listeners_waiting. rewrite starts_create, filter_snoc, Nat.add_0_r. exact Hl.
Qed.

Lemma create_listener_in_order w :
  pays in_order (Somebody []) w Nobody (create_task ListenToFrames w).1.
Proof.
  intros rest H. pose proof (somebody_alone _ _ _ H) as ->. destruct H as (Hs & Hl & Hg).
  split; [|right; split; [|done]].
  - unfold handed_on. rewrite codes_create, omap_app, app_nil_r. by rewrite app_nil_r in Hs.
  - unfold listeners_waiting. rewrite starts_create, filter_snoc. simpl. unfold listeners_waiting in Hl. lia.
Qed.

Lemma enter_in_order w :
  _task_group w = GroupNew →
  pays in_order Nobody w (Somebody []) (set_task_group GroupRunning w).
Proof.
  intros Hnew rest H. destruct rest as [|p|]; [|by destruct H as (_ & _ & Hg)|done].
  destruct H as [Hs Hl]. split; [by rewrite app_nil_r|]. split; [|done].
  destruct Hl as [Hl|[_ Hg]]; [exact Hl|done].
Qed.

(** A task that starts to listen has the right to hand on messages. *)
Definition right_of (b : task_body) : right :=
  match b with ListenToFrames => Somebody [] | _ => Nobody end.

Lemma start_in_order k t w :
  tasks w !! k = Some t → started t = false →
  pays in_order Nobody w (right_of (task_code t)) (start_task k w).
Proof.
  intros Hk Hst.
  pose proof (count_start is_unstarted_listener k t w Hk Hst) as Hf.
  assert (is_unstarted_listener (task_code t, true) = false) as E by (by destruct (task_code t)).
  rewrite E, Nat.add_0_r in Hf. fold (listeners_waiting w) (listeners_waiting (start_task k w)) in Hf.
  assert (handed_on (start_task k w) = handed_on w) as Hh
    by (unfold handed_on; by rewrite codes_start).
  destruct (task_code t); simpl in Hf; try (apply (same_order_pays _ _ _ []);
    [exact Hh|by rewrite app_nil_r|lia|by apply same_group]).
  intros [|p|] H; [|by destruct H as (_ & Hl & _); lia|done].
  destruct H as [Hs Hl]. split; [by rewrite Hh, app_nil_r|]. split; [lia|].
  destruct Hl as [Hl|[_ Hg]]; [lia|done].
Qed.

#[export] Program Instance order_ledger : Ledger in_order := {|
  entering n := n = Somebody [];
  listening n := ∃ p, n = Somebody p;
  received epoch f n := n = Somebody [(epoch, f)];
  handling _ _ := True;
|}.
Next Obligation. apply tame_in_order. Qed.
Next Obligation.
  intros n x w. apply (same_order_pays _ _ _ []); try done; [by rewrite app_nil_r|].
  by apply same_group.
Qed.
Next Obligation.
  intros n id w. set (w1 := set_handler_semaphore (S <$> _handler_semaphore w) w).
  apply (pays_trans in_order n w n w1); [by intros rest H|by apply record_in_order].
Qed.
Next Obligation. intros w Hg. eexists. split; [done|]. by apply enter_in_order. Qed.
Next Obligation. intros n w ->. eexists. apply create_listener_in_order. Qed.
Next Obligation. intros n c epoch f w [p ->]. eexists. split; [done|]. apply receive_in_order. Qed.
Next Obligation. intros epoch f n ->. by eexists. Qed.
Next Obligation.
  intros n id sub h body epoch w ->. eexists. split; [by eexists|]. apply create_handler_in_order.
Qed.
Next Obligation.
  intros k t w Hk Hst. eexists. split; [by apply start_in_order|].
  destruct (task_code t); try done. by eexists.
Qed.
Next Obligation. intros n id f w _. exists n. by apply record_in_order. Qed.

(** ** What holds of every run *)

Section delivery.
Context `{AC : AbstractConnection} `{!ConnectionLaws AC} `{MC : !MildConnection AC}.
Context (cl : Client) (uuid4 : nat → str) (fuel : nat) (σ : store) (t : Z) (w : world).

(** C4: in every interleaving a handler is called at most as often with a message as that
    message was received, the calls that created tasks are still going to make included, and
    only for the subscription that the message names. *)
Theorem handled_as_received f :
  reachable_world cl uuid4 fuel σ t w →
  calls f w + waiting f w ≤ receptions f w ∧
  ∀ id, Handled id f ∈ trace w → subscription_of f = Some id.
Proof.
  intros Hw. split.
  - destruct (ledger_holds cl uuid4 fuel (paid_for f) σ t w) as [n Hn]; [exact (le_n 0)|done|].
    unfold paid_for in Hn. lia.
  - intros id Hin. apply world_inv, inv_contract in Hw. by eapply run_handled.
Qed.

(** C5: messages are handed on in the order of their arrival: in every interleaving, the
    messages for which the tasks of handlers were created, in the order of their creation,
    are among the frames received, in the order of their reception and with their epochs. *)
Theorem handed_on_in_order :
  reachable_world cl uuid4 fuel σ t w → handed_on w `sublist_of` received_frames w.
Proof.
  intros Hw. destruct (ledger_holds cl uuid4 fuel in_order σ t w) as [n Hn]; [|done|].
  - split; [done|by left].
  - destruct n as [|p|]; [by destruct Hn| |done]. destruct Hn as [Hn _].
    etrans; [|exact Hn]. by apply sublist_inserts_r.
Qed.
End delivery.

(** ** Witness *)

Definition limited_message : frame headers :=
  MessageFrame (list_to_map [(us "subscription", us "A"); (us "message-id", us "1");
                             (us "ack", us "7"); (us "destination", us "q")]) (bs "hi").

(** Twice received, and handled once so far: the second time is yet to come. *)
Lemma handled_as_received_witness :
  ∃ w, (snd <$> limited_play limited) = Some w ∧
       calls limited_message w = 1 ∧ waiting limited_message w = 1 ∧
       receptions limited_message w = 2 ∧
       calls limited_message w + waiting limited_message w ≤ receptions limited_message w ∧
       ∀ id, Handled id limited_message ∈ trace w → subscription_of limited_message = Some id.
Proof.
  destruct (limited_reachable limited) as (w & Hw & Hr); [vm_compute; reflexivity|]. exists w.
  split; [exact Hw|].
  assert ((λ w, (calls limited_message w, waiting limited_message w, receptions limited_message w))
            <$> Some w = Some (1, 1, 2)) as E by (rewrite <-Hw; vm_compute; reflexivity).
  injection E as E1 E2 E3. split; [exact E1|]. split; [exact E2|]. split; [exact E3|].
  exact (handled_as_received _ _ _ _ _ w limited_message Hr).
Defined.

(** Three messages in a chunk, the second of which is for no active subscription. *)
Definition numbered_message (subscription_id message_id : string) : bytes :=
  lines ["MESSAGE"; "subscription:" +:+ subscription_id; "message-id:" +:+ message_id;
         "destination:q"]%string ++ [x0a; x68; x69; x00].

Definition three_messages : list choice :=
  entered ++ [Start 2; Call (Subscribe example_subscription); Resume 2 Finish;
              Resume 1 (Give (numbered_message "A" "1" ++ numbered_message "B" "2" ++
                              numbered_message "A" "3"))].

Definition message_ids (l : list (nat * frame headers)) : list (option str) :=
  (λ ef, match ef.2 with MessageFrame h _ => h !! us "message-id" | _ => None end) <$> l.

Lemma handed_on_in_order_witness :
  ∃ ts w, example_play three_messages = Some (ts, w) ∧
    message_ids (received_frames w) = [Some (us "1"); Some (us "2"); Some (us "3")] ∧
    message_ids (handed_on w) = [Some (us "1"); Some (us "3")] ∧
    handed_on w `sublist_of` received_frames w.
Proof.
  destruct (example_fact three_messages (λ c,
    message_ids (received_frames c.2) = [Some (us "1"); Some (us "2"); Some (us "3")] ∧
    message_ids (handed_on c.2) = [Some (us "1"); Some (us "3")]))
    as (ts & w & Hp & Hr & E1 & E2); [vm_compute; split; reflexivity|].
  exists ts, w. split; [exact Hp|]. split; [exact E1|]. split; [exact E2|].
  exact (handed_on_in_order _ _ _ _ _ w Hr).
Defined.
