(* ===== verification/Operations.v ===== *)
(** * What the operations give

    The functional behaviour of the operations, run against every environment: one that
    may interfere in any way the discipline allows, or, where the exact effect is stated,
    one that leaves the task alone. *)

From S2P Require Import Prelude Frames Serde FrameParser Config Errors Async World Contract Discipline.
From S2P Require Import Connection Manager ManagerSpec Subscription Transaction Lifespan Replay.
From S2P Require Import Client System Footprint Scheduler.

(** ** Connecting and writing *)

Section connecting.
Context `{AC : AbstractConnection} `{!ConnectionLaws AC}.
Context `{AL : AbstractConnectionLifespan} `{!LifespanLaws AC AL} (cm : ConnectionManager).

(** C13: looking for a connection either gives the state that is active at that moment,
    or, when all attempts have failed, raises an error that lists one issue per attempt, or
    raises what an attempt may raise: an error of the operating system or of the transport,
    a Python error for the data or the parameters, or the cancellation.  That a connection
    was lost, while the client shook hands on it for example, is an issue of its attempt
    and is never raised.  The other tasks may do anything meanwhile. *)
Theorem connect_outcomes env i is_initial w :
  inv w → answers_for (awaits dials) (rely i) i env →
  match exec env i 0 (_get_active_connection_state cm is_initial) w with
  | Some (Done s, w', _) => _active_connection_state w' = Some s
  | Some (Raised e, _, _) =>
    (transport_error e = true ∨ e = CancelledError ∨ ∃ e', e = PyError e') ∨
    ∃ issues, e = FailedAllConnectAttemptsError (connect_retry_attempts cm) issues ∧
              length issues = Z.to_nat (connect_retry_attempts cm)
  | None => True
  end.
Proof.
  intros Hw Henv.
  pose proof (get_active_spec cm i is_initial inv w (inv_tight i) Hw) as H.
  apply (wp_exec _ _ _ _ _ env 0) in H; [|done].
  destruct (exec env i 0 _ w) as [[[[s|e] w'] n]|]; [by destruct H as [_ H]| |done].
  destruct H as [_ [H|H]]; [left|by right]. by apply other_error_kinds.
Qed.

(** C15: a connection that is tried, the first of a round to be opened, either becomes the
    connection of the state that is returned, or is closed before the attempt is over:
    whatever is raised or found wrong while it is entered, and whatever the other tasks do. *)
Theorem tried_connection_kept_or_closed env i c server w :
  answers_for (awaits dials) grows i env →
  match exec env i 0 (try_connection c server) w with
  | Some (Done (inl s), _, _) => connection s = c
  | Some (_, w', _) => happened_since w (CloseCalled c) w'
  | None => True
  end.
Proof.
  intros Henv. assert (kept grows (λ _, True)) as Hk by done.
  pose proof (try_connection_quiet i grows (λ _, True) (λ _, True) (λ _ _ H, H) Hk Hk
                (λ _ _ _, I) c server w I) as H.
  apply (wp_exec _ _ _ _ _ env 0) in H; [|done].
  by destruct (exec env i 0 _ w) as [[[[[s|issue]|e] w'] n]|]; [destruct H as (_ & _ & H)..|];
    [destruct H|..].
Qed.

(** Discarding a lost connection drops it and counts it once: a second task that
    finds the same connection lost changes nothing, and the connection is closed by
    the first. *)
Theorem discard_once env i n s reason w :
  answers_for (awaits dials) grows i env → is_active s w = true →
  _active_connection_state (discard s w) = None ∧
  _reconnection_count (discard s w) = S (_reconnection_count w) ∧
  match exec env i n (_discard_failed_connection_state s reason) w with
  | Some (_, w', _) =>
    CloseCalled (connection s) ∈ trace w' ∧
    ∀ n' w'', is_active s w'' = false →
      exec env i n' (_discard_failed_connection_state s reason) w'' = Some (Done tt, w'', n')
  | None => False
  end.
Proof.
  intros Henv Ha. do 2 (split; [done|]).
  assert (wp (awaits dials) grows (λ _ _, True) i False
            (_discard_failed_connection_state s reason)
            (λ _ w', CloseCalled (connection s) ∈ trace w') w) as H.
  { unfold _discard_failed_connection_state. wp_step; [done|]. rewrite Ha. wp_step; [done|].
    eapply (wp_conseq _ _ _ _ _ _ _ _ (λ _, True)); [..|by apply (close_law grows)].
    - done.
    - done.
    - done.
    - intros o w' [_ Hc] _. by eapply happened.
    - done. }
  apply (wp_exec _ _ _ _ _ env n) in H; [|done].
  destruct (exec env i n _ w) as [[[o w'] n']|]; [|done]. split; [done|].
  intros n2 w'' Hna. unfold _discard_failed_connection_state, mbind, prog_bind, get.
  cbn [bind exec]. by rewrite Hna.
Qed.

(** C16: leaving the manager: unless the wait for its cancelled tasks is cut short, in
    which case nothing more is done, the connection that was active then is closed and
    given up; or it was lost meanwhile, and whoever noticed has counted it.  This holds
    however the farewell goes and whatever the other tasks do, as long as none of them
    leaves the manager too. *)
Theorem leaving_closes_connection env i n k s w :
  inv w → answers_for (awaits dials) (nobody_leaves i) i env →
  _send_heartbeat_task w = Some k → _active_connection_state w = Some s →
  let '(w2, r) := env n WaitTasks (cancel_monitor (cancel_task k w)) in
  match r with
  | Raised e => exec env i n aexit w = Some (Raised e, w2, S n)
  | Done _ =>
    match exec env i n aexit w with
    | Some (_, w', _) =>
      _reconnection_count w < _reconnection_count w' ∨
      happened_since w (CloseCalled (connection s)) w' ∧ released w' = true
    | None => True
    end
  end.
Proof.
  intros Hw Henv Hk Hs. set (w1 := cancel_monitor (cancel_task k w)).
  assert (exec env i n aexit w =
          exec env i n (_ ← wait_tasks; try_finally exit_group _close_active_connection_state) w1)
    as -> by (unfold aexit, mbind, prog_bind, get; cbn [bind exec]; by rewrite Hk).
  assert (quiet w w1) as Hq by (eapply quiet_trans; [apply quiet_cancel_task|apply cancel_monitor_quiet]).
  unfold wait_tasks, mbind, prog_bind, await. cbn [bind exec].
  destruct (Henv n WaitTasks w1) as (w0 & [H0 Hr0] & Ha).
  destruct (env n WaitTasks w1) as [w2 [[]|e]]; cbn [fst snd of_outcome bind exec] in *; [|done].
  assert (w2 = w0) as -> by (by destruct Ha as [[-> _]|[_ ->]]).
  assert (wp (awaits dials) (nobody_leaves i) (guar i) i True
            (try_finally exit_group _close_active_connection_state)
            (λ _ w', _reconnection_count w < _reconnection_count w' ∨
               happened_since w (CloseCalled (connection s)) w' ∧ released w' = true) w0) as H.
  { apply leave_spec.
    - eapply grows_trans; [by apply quiet_grows|apply (rely_grows _ _ _ H0)].
    - rewrite Hr0, (quiet_released _ _ Hq). by apply (inv_not_released w s).
    - destruct (stable_epoch i s (_reconnection_count w)) as [HR HG]. apply (HR w1 w0 H0).
      apply (HG w w1 (quiet_guar i _ _ Hq)). split; [done|by left]. }
  apply (wp_exec _ _ _ _ _ env (S n)) in H; [|done].
  by destruct (exec env i (S n) _ w0) as [[[o w'] n']|].
Qed.
End connecting.

(** ** Writing *)

Section writing.
Context `{AC : AbstractConnection} `{!ConnectionLaws AC} `{!MildConnection AC}.
Context (cl : Client) (uuid4 : nat → str) (fuel : nat).
#[local] Instance writing_lifespan : AbstractConnectionLifespan := client_lifespan cl uuid4 fuel.
Local Abbreviation cm := (make_manager cl).

(** The others leave the dictionary of the frame as it is. *)
Definition frame_kept (f : frame dict) (fr : frame headers) (w w' : world) : Prop :=
  snapshot (dicts w) f = fr → snapshot (dicts w') f = fr.

Section exact.
Context (i : nat) (f : frame dict) (fr : frame headers) (w0 : world).

Definition steady (w w' : world) : Prop := grows w w' ∧ frame_kept f fr w w'.

(** What happens after [w0], with the frame as it was. *)
Definition unchanged (w : world) : Prop := grows w0 w ∧ snapshot (dicts w) f = fr.

Lemma steady_unchanged w w' : steady w w' → unchanged w → unchanged w'.
Proof. intros [Hg Hf] [Hg0 Hf0]. split; [by eapply grows_trans|by apply Hf]. Qed.

Lemma tame_unchanged w w' : tame true w w' → unchanged w → unchanged w'.
Proof.
  intros [_ _ (l & Hl & _) _ Hd] [Hg Hf]. split; [|by rewrite Hd].
  eapply grows_trans; [exact Hg|by exists l].
Qed.

Lemma mild_unchanged {A} (t : M A) w :
  mild true dials i t → unchanged w →
  wp (awaits dials) steady (λ _ _, True) i True t (λ _ w', unchanged w') w.
Proof.
  intros Ht Hw. eapply (wp_conseq _ _ _ _ _ _ _ _ unchanged); [..|exact Hw|apply Ht].
  - intros w1 w2 H HP. split; [done|]. by eapply steady_unchanged.
  - intros w1 w2 H HP. split; [done|]. by eapply tame_unchanged.
  - done.
  - done.
Qed.

Lemma write_frame_exact c w :
  unchanged w →
  wp (awaits dials) steady (λ _ _, True) i True (write_frame c f)
    (λ o w', unchanged w' ∧ (o = Done tt → happened_since w0 (Wrote c fr) w')) w.
Proof.
  intros Hw. eapply (wp_conseq _ _ _ _ _ _ _ _ unchanged); [..|exact Hw|apply (write_frame_law steady)].
  - intros w1 w2 H HP. split; [done|]. by eapply steady_unchanged.
  - intros w1 w2 [->|[σ ->]] [Hg Hf]; (split; [done|split; [|done]]); [done|].
    eapply grows_trans; [exact Hg|apply grows_record].
  - done.
  - intros o w' [_ Ho] HP. split; [done|]. intros Hd. destruct Hw as [Hg Hf].
    rewrite <-Hf. eapply happened_later; [exact Hg|by apply Ho].
  - by intros w1 w2 [H _].
Qed.

Lemma write_attempts_exact n w :
  unchanged w →
  wp (awaits dials) steady (λ _ _, True) i True (write_attempts cm n (λ c, write_frame c f))
    (λ o w', o = Done tt → ∃ c, happened_since w0 (Wrote c fr) w') w.
Proof.
  revert w. induction n as [|n IH]; intros w Hw; cbn [write_attempts]; [done|].
  wp_step. eapply wp_mono; [by apply mild_unchanged; [apply get_active_mild, enter_mild|]|].
  intros [s|e] w1 Hw1; [|done]. wp_step. apply wp_catch_lost. wp_step.
  eapply wp_mono; [by apply write_frame_exact|].
  intros [[]|e] w2 [Hw2 Ho]; [wp_step; wp_step; eauto|]. destruct e; try done.
  wp_step. eapply wp_mono; [by apply mild_unchanged; [apply discard_mild|]|].
  intros [[]|e] w3 Hw3; [|done]. wp_step. by apply IH.
Qed.
End exact.

(** C14: a write that reconnects.  Returning, it has put the frame, as its dictionary was
    when it began and as the program leaves it meanwhile, on the wire of some connection.
    It raises the error that counts its attempts only after as many connections were lost,
    unless the client was left; else it raises what looking for a connection raises, or
    the connection's own errors, and never that a connection was lost. *)
Theorem write_frame_outcomes env i f w :
  inv w → sendable f = true →
  answers_for (awaits dials)
    (λ w1 w2, rely i w1 w2 ∧ frame_kept f (snapshot (dicts w) f) w1 w2) i env →
  match exec env i 0 (write_frame_reconnecting cm f) w with
  | Some (Done _, w', _) => ∃ c, happened_since w (Wrote c (snapshot (dicts w) f)) w'
  | Some (Raised e, w', _) =>
    (e = FailedAllWriteAttemptsError (write_retry_attempts cm) ∧
     (released w' = true ∨
      _reconnection_count w + Z.to_nat (write_retry_attempts cm) ≤ _reconnection_count w')) ∨
    (transport_error e = true ∨ e = CancelledError ∨ ∃ e', e = PyError e') ∨
    ∃ issues, e = FailedAllConnectAttemptsError (connect_retry_attempts cm) issues ∧
              length issues = Z.to_nat (connect_retry_attempts cm)
  | None => True
  end.
Proof.
  intros Hw Hf Henv. set (fr := snapshot (dicts w) f) in *.
  assert (LifespanLaws AC writing_lifespan) as HL by apply lifespan_laws.
  pose proof (write_frame_reconnecting_spec cm i inv f w Hf (inv_tight i) Hw) as H.
  apply (wp_exec _ _ _ _ _ env 0) in H.
  2: { intros n a w1. destruct (Henv n a w1) as (w2 & [HR _] & Ha). by exists w2. }
  assert (unchanged f fr w w) as Hu by (split; [apply grows_refl|done]).
  pose proof (write_attempts_exact i f fr w (Z.to_nat (write_retry_attempts cm)) w Hu) as H'.
  apply (wp_exec _ _ _ _ _ env 0) in H'.
  2: { intros n a w1. destruct (Henv n a w1) as (w2 & [HR Hk] & Ha). exists w2.
       split; [|done]. split; [apply (rely_grows _ _ _ HR)|done]. }
  unfold write_frame_reconnecting in *.
  destruct (exec env i 0 _ w) as [[[[[]|e] w'] n]|]; [by apply H'| |done].
  destruct H as [_ [H|[H|H]]]; [by left|right; left|by right; right].
  by apply other_error_kinds.
Qed.
End writing.

(** ** Acknowledging *)

Section acknowledging.
Context `{AC : AbstractConnection} `{!ConnectionLaws AC}.

(** The guards of [_ack] and [_nack], in their order: an acknowledgement for a
    subscription that is not active, of a message without acknowledgement identifier, or
    of a message from before the last loss of the connection is not written, and only
    logged; any other goes to [maybe_write_frame]. *)
Theorem acknowledge_guards env i n F verb stale_level id h epoch w :
  is_Some (h !! us "message-id") →
  let run := exec env i n (acknowledge F verb stale_level id h epoch) w in
  if contains_by_id id w then
    match h !! us "ack" with
    | Some ((_ :: _) as ack_id) =>
      if decide (epoch = _reconnection_count w) then
        run = exec env i n (_ ← maybe_write_frame (F (Own (ack_headers ack_id id))); mret tt) w
      else
        run = Some (Done tt, log stale_level ("skipping " +:+ verb +:+
                " for message frame: connection changed since message was received") w, n)
    | _ =>
      run = Some (Done tt, log WARNING ("failed to " +:+ verb +:+
              " message frame: it has no ack header") w, n)
    end
  else
    run = Some (Done tt, log WARNING ("failed to " +:+ verb +:+
            " message frame: subscription is not active") w, n).
Proof.
  intros [m Hm] run. unfold run, acknowledge, getitem, mbind, prog_bind, get. rewrite Hm.
  cbn [bind exec of_option to_outcome of_outcome].
  destruct (contains_by_id id w); cbn [negb]; cbv iota; [|done].
  destruct (h !! us "ack") as [[|a ack_id]|]; [done| |done].
  case_decide as He.
  - by rewrite bool_decide_eq_false_2 by (by intros Hn).
  - by rewrite bool_decide_eq_true_2.
Qed.

Lemma drop_without_connection env i n f w :
  _active_connection_state w = None →
  exec env i n (maybe_write_frame f) w =
  Some (Done false, log_dropped_frame f "no active connection" w, n).
Proof.
  intros Ha. unfold maybe_write_frame, mbind, prog_bind, get. cbn [bind exec]. by rewrite Ha.
Qed.

(** The frames among the actions that acknowledge. *)
Definition ack_frames (l : list action) : list (frame headers) :=
  omap (λ a, match a with Wrote _ f => if is_ack f then Some f else None | _ => None end) l.

Lemma ack_frames_app l1 l2 : ack_frames (l1 ++ l2) = ack_frames l1 ++ ack_frames l2.
Proof. apply omap_app. Qed.

(** Alone, a step adds at most the acknowledgement [f]. *)
Definition adds_at_most (f : frame headers) (w w' : world) : Prop :=
  ack_frames (trace w') = ack_frames (trace w) ∨
  ack_frames (trace w') = ack_frames (trace w) ++ [f].

Abbreviation alone i := (wp (awaits dials) solo (λ _ _, True) i False).

Lemma no_acks_close i c w :
  alone i (close c) (λ _ w', ack_frames (trace w') = ack_frames (trace w)) w.
Proof.
  eapply (wp_conseq _ _ _ _ _ _ _ _
            (λ w', ack_frames (trace w') = ack_frames (trace w)));
    [..|done|apply (close_law solo)].
  - intros w1 w2 Hs HP. split; [done|]. by destruct Hs as [t ->].
  - intros w1 w2 [->| ->] H; [done|]. split; [done|].
    unfold record_action. simpl. by rewrite ack_frames_app, H, app_nil_r.
  - done.
  - done.
  - intros w1 w2 [t ->]. by exists []; rewrite app_nil_r.
Qed.

Lemma ack_frames_log l msg w : ack_frames (trace (log l msg w)) = ack_frames (trace w).
Proof. unfold log, record_action. simpl. by rewrite ack_frames_app, app_nil_r. Qed.

Lemma ack_frames_discard s w : ack_frames (trace (discard s w)) = ack_frames (trace w).
Proof. unfold discard, log, record_action. simpl. by rewrite !ack_frames_app, !app_nil_r. Qed.

Lemma maybe_write_alone i f w :
  is_ack f = true →
  alone i (maybe_write_frame (Own <$> f)) (λ _, adds_at_most f w) w.
Proof.
  intros Hf.
  assert (snapshot (dicts w) (Own <$> f) = f) as Hsnap by (by destruct f).
  assert (is_ack (snapshot (dicts w) (Own <$> f)) = true) as Hack by (by rewrite Hsnap).
  assert (∀ reason w, ack_frames (trace (log_dropped_frame (Own <$> f) reason w)) =
            ack_frames (trace w)) as Hlog
    by (intros; destruct f; apply ack_frames_log).
  unfold maybe_write_frame. wp_step; [done|].
  destruct (_active_connection_state w) as [s|].
  - apply wp_handle. wp_step. eapply wp_mono; [apply write_frame_solo|].
    intros o w1 [_ [t Ht]].
    assert (adds_at_most f w w1) as H1.
    { destruct Ht as [-> |[-> _]]; [right|by left]. simpl.
      rewrite ack_frames_app. simpl. by rewrite Hack, Hsnap. }
    destruct o as [[]|e]; [by wp_step|]. destruct e; try done.
    wp_step; [done|]. wp_step. unfold _discard_failed_connection_state. wp_step; [done|].
    unfold adds_at_most in H1. rewrite <-(Hlog "connection lost mid-write"%string w1) in H1.
    destruct (is_active s _); [|by wp_step].
    wp_step; [done|]. rewrite <-(ack_frames_discard s) in H1.
    eapply wp_mono; [apply no_acks_close|].
    intros [[]|e] w2 H2; [wp_step|]; unfold adds_at_most; by rewrite H2.
  - wp_step; [done|]. wp_step. left. apply Hlog.
Qed.

(** What a handler that ended with [r] may lead to. *)
Definition allowed_ack (suppressed : exn → bool) (sub_id : str) (sub : subscription)
    (h : headers) (r : outcome unit) (f : frame headers) : Prop :=
  _should_handle_ack_nack sub = true ∧
  ∃ ack_id, h !! us "ack" = Some ack_id ∧ ack_id ≠ [] ∧
    match r with
    | Done _ => f = AckFrame (ack_headers ack_id sub_id)
    | Raised e => suppressed e = true ∧ f = NackFrame (ack_headers ack_id sub_id)
    end.

Lemma acknowledge_alone i (F : ∀ H, H → frame H) verb lvl id h epoch w :
  F = @AckFrame ∨ F = @NackFrame →
  alone i (acknowledge (F dict) verb lvl id h epoch)
    (λ _ w', ack_frames (trace w') = ack_frames (trace w) ∨
             ∃ ack_id, h !! us "ack" = Some ack_id ∧ ack_id ≠ [] ∧
               ack_frames (trace w') =
               ack_frames (trace w) ++ [F headers (ack_headers ack_id id)]) w.
Proof.
  intros HF. unfold acknowledge. wp_step; [done|].
  assert (∀ l msg Q, Q (Raised (PyError KeyError)) w → Q (Done tt) (log l msg w) →
    alone i (_ ← getitem h (us "message-id"); modify (log l msg)) Q w) as Hlog.
  { intros l msg Q H1 H2. unfold getitem. wp_step.
    destruct (h !! us "message-id"); [|done]. cbn [of_option to_outcome]. by wp_step. }
  destruct (contains_by_id id w); cbn [negb]; cbv iota;
    [|by apply Hlog; [left|left; apply ack_frames_log]].
  destruct (h !! us "ack") as [[|a ack_id]|] eqn:Hack;
    [by apply Hlog; [left|left; apply ack_frames_log]| |
     by apply Hlog; [left|left; apply ack_frames_log]].
  case_bool_decide; [by apply Hlog; [left|left; apply ack_frames_log]|]. wp_step.
  replace (F dict (Own (ack_headers (a :: ack_id) id)))
    with (Own <$> F headers (ack_headers (a :: ack_id) id)) by (by destruct HF as [-> | ->]).
  eapply wp_mono; [apply maybe_write_alone; by destruct HF as [-> | ->]|].
  intros [b|e] w' [H1|H1]; [wp_step| | |]; try (by left); try wp_step; right; by eauto.
Qed.

(** C11: a message is acknowledged at most once by the client itself, with ACK when the
    handler returned, with NACK when it raised one of the suppressed exceptions, and not
    at all in the mode [auto] or when the exception is not suppressed. *)
Theorem one_acknowledgement env i suppressed on_suppressed id sub h body epoch w :
  answers_for (awaits dials) solo i env →
  let f := MessageFrame h body in
  let r := (env 0 (CallHandler id f) (record_action (Handled id f) w)).2 in
  match exec env i 0 (_run_handler suppressed on_suppressed id sub h body epoch) w with
  | Some (_, w', _) =>
    ack_frames (trace w') = ack_frames (trace w) ∨
    ∃ f, allowed_ack suppressed id sub h r f ∧
         ack_frames (trace w') = ack_frames (trace w) ++ [f]
  | None => False
  end.
Proof.
  intros Henv f r. set (w1 := record_action (Handled id f) w) in *.
  assert (ack_frames (trace w1) = ack_frames (trace w)) as Hw1
    by (unfold w1, record_action; simpl; by rewrite ack_frames_app, app_nil_r).
  unfold _run_handler, run_user_handler, mbind, prog_bind, modify, call_handler, await.
  cbn [bind handle exec]. fold f w1.
  destruct (Henv 0 (CallHandler id f) w1) as (w2 & [t ->] & Hr). subst r.
  destruct (env 0 (CallHandler id f) w1) as [w3 r]. cbn [fst snd] in *.
  assert (w3 = set_now t w1) as -> by (destruct Hr as [[-> _]|[_ ->]]; done).
  set (w3 := set_now t w1) in *. assert (ack_frames (trace w3) = ack_frames (trace w)) as Hw3
    by done. clearbody w1 w3. rewrite <-Hw3. clear Hw1 Hw3 Hr.
  destruct r as [[]|e]; cbn [of_outcome handle].
  - destruct (_should_handle_ack_nack sub) eqn:Hsub; [|by left].
    pose proof (acknowledge_alone i (@AckFrame) "ack" WARNING id h epoch w3 (or_introl eq_refl))
      as H. apply (wp_exec _ _ _ _ _ env 1) in H; [|done]. unfold _ack.
    destruct (exec env i 1 _ w3) as [[[o w'] n]|]; [|done].
    destruct H as [H|(a & Ha & Hne & H)]; [by left|].
    right. eexists. split; [|exact H]. split; [done|]. by exists a.
  - destruct (suppressed e) eqn:Hs; [|by left].
    assert (alone i (_ ← (if _should_handle_ack_nack sub then _nack id h epoch else mret tt);
                     call_on_suppressed on_suppressed e f)
      (λ _ w', ack_frames (trace w') = ack_frames (trace w3) ∨
         (_should_handle_ack_nack sub = true ∧
          ∃ ack_id, h !! us "ack" = Some ack_id ∧ ack_id ≠ [] ∧
            ack_frames (trace w') =
            ack_frames (trace w3) ++ [NackFrame (ack_headers ack_id id)])) w3) as H.
    { wp_step. destruct (_should_handle_ack_nack sub).
      - eapply wp_mono; [apply (acknowledge_alone i (@NackFrame)); by right|].
        intros [[]|e'] w4 H; [|naive_solver]. split; [done|]. apply wp_of_outcome. simpl.
        rewrite ack_frames_app, app_nil_r. naive_solver.
      - wp_step. split; [done|]. apply wp_of_outcome. left. simpl.
        by rewrite ack_frames_app, app_nil_r. }
    apply (wp_exec _ _ _ _ _ env 1) in H; [|done]. unfold mbind, prog_bind, modify in H.
    destruct (exec env i 1 _ w3) as [[[o w'] n]|]; [|done].
    destruct H as [H|(Hsub & a & Ha & Hne & H)]; [by left|].
    right. eexists. split; [|exact H]. split; [done|]. by exists a.
Qed.
End acknowledging.

(** ** Witnesses *)

Section witnesses.
#[local] Existing Instance Connection.
#[local] Existing Instance example_lifespan.
#[local] Instance example_laws : LifespanLaws Connection example_lifespan.
Proof. apply lifespan_laws. Qed.
Local Abbreviation cm := (make_manager example_client).

Lemma connect_outcomes_witness :
  ∃ s w' n,
    exec (example_env [Finish; Connect 0 0; Finish; Give connected_bytes]) 0 0
      (_get_active_connection_state cm true) entering_world = Some (Done s, w', n) ∧
    _active_connection_state w' = Some s.
Proof.
  destruct (exec (example_env [Finish; Connect 0 0; Finish; Give connected_bytes]) 0 0
      (_get_active_connection_state cm true) entering_world) as [[[[s|e] w'] n]|] eqn:E;
    try (vm_compute in E; discriminate E).
  exists s, w', n. split; [reflexivity|].
  pose proof (connect_outcomes cm
           (example_env [Finish; Connect 0 0; Finish; Give connected_bytes]) 0 true
           entering_world entering_inv (relying_env _)) as H. rewrite E in H. exact H.
Defined.

Definition example_frame : frame dict := SendFrame (Own {[us "destination" := us "q"]}) (bs "x").

(** The first connection is lost while the frame is written, the second takes it. *)
Definition example_lost_write : list reply :=
  [Fault ConnectionError; Finish; Finish; Connect 0 1; Finish; Give connected_bytes;
   Finish; Finish; Finish; Finish].

Lemma write_frame_outcomes_witness :
  ∃ w' n,
    exec (example_env example_lost_write) 0 0 (write_frame_reconnecting cm example_frame)
      connected_world = Some (Done tt, w', n) ∧
    (∃ c, happened_since connected_world (Wrote c (snapshot [] example_frame)) w') ∧
    _reconnection_count w' = 1.
Proof.
  destruct (exec (example_env example_lost_write) 0 0 (write_frame_reconnecting cm example_frame)
      connected_world) as [[[[[]|e] w'] n]|] eqn:E; try (vm_compute in E; discriminate E).
  exists w', n. split; [reflexivity|]. split.
  - pose proof (write_frame_outcomes example_client example_ids 10 (example_env example_lost_write)
      0 example_frame connected_world connected_inv eq_refl
      (env_of_answers _ _ _ _ (λ w, conj (rely_refl 0 w) (λ H, H)))) as H.
    unfold writing_lifespan, client_lifespan in H. unfold example_lifespan in E.
    rewrite E in H. exact H.
  - assert ((λ '(o, w, n), _reconnection_count w) <$> Some (Done tt, w', n) = Some 1) as E'
      by (rewrite <-E; vm_compute; reflexivity).
    by injection E'.
Defined.

(** The server does not answer the CONNECT frame in time. *)
Lemma tried_connection_kept_or_closed_witness :
  ∃ issue w' n,
    exec (example_env [Finish; Expire; Finish]) 0 0 (try_connection 0 example_server) entering_world =
      Some (Done (inr issue), w', n) ∧
    happened_since entering_world (CloseCalled 0) w'.
Proof.
  destruct (exec (example_env [Finish; Expire; Finish]) 0 0 (try_connection 0 example_server)
              entering_world) as [[[[[s|issue]|e] w'] n]|] eqn:E;
    try (vm_compute in E; discriminate E).
  exists issue, w', n. split; [reflexivity|].
  pose proof (tried_connection_kept_or_closed (example_env [Finish; Expire; Finish]) 0 0 example_server
           entering_world (growing_env _)) as H. rewrite E in H. exact H.
Defined.

Definition example_leave : list reply :=
  [Finish; Finish; Finish; Finish;
   Give (lines ["RECEIPT"; "receipt-id:A"]%string ++ [x0a; x00]); Finish].

Lemma leaving_closes_connection_witness :
  ∃ w' n,
    exec (example_env example_leave) 0 0 aexit connected_world = Some (Done tt, w', n) ∧
    (_reconnection_count connected_world < _reconnection_count w' ∨
     happened_since connected_world (CloseCalled (connection example_state)) w' ∧
     released w' = true).
Proof.
  destruct (exec (example_env example_leave) 0 0 aexit connected_world)
    as [[[[[]|e] w'] n]|] eqn:E; try (vm_compute in E; discriminate E).
  exists w', n. split; [reflexivity|].
  pose proof (leaving_closes_connection (example_env example_leave) 0 0 0 example_state
    connected_world connected_inv (env_of_answers _ _ _ _ (λ w, conj (rely_refl 0 w) eq_refl))
    eq_refl eq_refl) as H.
  assert (example_env example_leave 0 WaitTasks (cancel_monitor (cancel_task 0 connected_world)) =
            (cancel_monitor (cancel_task 0 connected_world), Done tt)) as E0 by (vm_compute; reflexivity).
  rewrite E0, E in H. exact H.
Defined.

Lemma discard_once_witness :
  _active_connection_state (discard example_state connected_world) = None ∧
  _reconnection_count (discard example_state connected_world) =
    S (_reconnection_count connected_world) ∧
  match exec (example_env [Finish]) 0 0
          (_discard_failed_connection_state example_state (LostByMessage "eof"))
          connected_world with
  | Some (_, w', _) =>
    CloseCalled (connection example_state) ∈ trace w' ∧
    ∀ n' w'', is_active example_state w'' = false →
      exec (example_env [Finish]) 0 n'
        (_discard_failed_connection_state example_state (LostByMessage "eof")) w'' =
      Some (Done tt, w'', n')
  | None => False
  end.
Proof.
  pose proof (discard_once (example_env [Finish]) 0 0 example_state (LostByMessage "eof") connected_world
           (growing_env _) eq_refl) as H. exact H.
Defined.

Definition example_message : headers :=
  <[us "message-id" := us "1"]> {[us "ack" := us "7"]}.

Lemma acknowledge_guards_witness :
  exec (example_env []) 0 0 (acknowledge AckFrame "ack" WARNING (us "A") example_message 3)
    connected_world =
  Some (Done tt, log WARNING ("skipping " +:+ "ack" +:+
          " for message frame: connection changed since message was received")
          connected_world, 0).
Proof.
  pose proof (acknowledge_guards (example_env []) 0 0 AckFrame "ack" WARNING (us "A")
           example_message 3 connected_world (ex_intro _ (us "1") eq_refl)) as H. exact H.
Defined.

Lemma one_acknowledgement_witness :
  let env := example_env [Finish; Finish] in
  let f := MessageFrame example_message (bs "x") in
  let r := (env 0 (CallHandler (us "A") f)
              (record_action (Handled (us "A") f) connected_world)).2 in
  match exec env 0 0
          (_run_handler is_exception (λ _ _, Done tt) (us "A") example_subscription
             example_message (bs "x") 0)
          connected_world with
  | Some (_, w', _) =>
    ack_frames (trace w') = ack_frames (trace connected_world) ∨
    ∃ f, allowed_ack is_exception (us "A") example_subscription example_message r f ∧
         ack_frames (trace w') = ack_frames (trace connected_world) ++ [f]
  | None => False
  end.
Proof.
  pose proof (one_acknowledgement (example_env [Finish; Finish]) 0 is_exception
                (λ _ _, Done tt) (us "A") example_subscription example_message (bs "x") 0 connected_world
                (solo_env _)) as H. exact H.
Defined.
End witnesses.
