(* ===== verification/Reconnection.v ===== *)
(** * Reconnecting

    What happens around the loss of a connection: what the new one is told, what is tried
    when no server can be reached, and the cases in which recovery goes wrong. *)

From S2P Require Import Prelude Frames Serde FrameParser Config Errors Async World Contract Discipline.
From S2P Require Import Connection Manager ManagerSpec Subscription Transaction Lifespan Replay.
From S2P Require Import Client System Scheduler.

(** ** The new connection *)

Section told.
Context `{AC : AbstractConnection} `{!ConnectionLaws AC}.

(** C9: a lifespan that is entered while nothing else runs has written exactly these
    frames, in this order: CONNECT; a SUBSCRIBE for each active subscription, in the
    order they were made; for each active transaction the frames it sent, in order, and
    a COMMIT.  No transaction is active afterwards. *)
Theorem new_connection_is_told cl fuel env i c p w hb w' n :
  answers_for (awaits dials) solo i env →
  exec env i 0 (lifespan_enter cl fuel c p) w = Some (Done (inl hb), w', n) →
  trace w' = trace w ++
    (Wrote c <$> connect_frames cl p ++ resubscribe_frames w ++ commit_frames w) ∧
  _active_transactions w' = ∅ ∧ subscriptions w' = subscriptions w.
Proof.
  intros Henv Hrun. pose proof (lifespan_enter_alone cl fuel i True c p w I) as H.
  apply (wp_exec _ _ _ _ _ env 0) in H; [|done]. by rewrite Hrun in H.
Qed.

Definition is_begin {H} (f : frame H) : bool :=
  match f with BeginFrame _ => true | _ => false end.

(** What a new connection is told never contains a BEGIN: the transactions whose
    frames are sent again and committed were begun on the connection that was lost. *)
Theorem replay_begins_no_transaction cl p w :
  forallb (λ f, negb (is_begin f)) (connect_frames cl p ++ resubscribe_frames w ++ commit_frames w)
  = true.
Proof.
  apply Is_true_true, forallb_True, Forall_app. split; [|apply Forall_app; split].
  - unfold connect_frames. by destruct (connect_frame_headers cl p); repeat constructor.
  - apply Forall_fmap, Forall_true. by intros [id sub].
  - apply Forall_bind, Forall_true. intros id. apply Forall_app. split; [|by repeat constructor].
    by apply Forall_fmap, Forall_true.
Qed.

(** The end of the history, with a record that a frame was dropped. *)
Definition drop_logged (w w' : world) : Prop :=
  ∃ l reason, trace w' = trace w ++ l ∧ Logged INFO ("dropping: " +:+ reason) ∈ l.

Abbreviation alone i := (wp (awaits dials) solo (λ _ _, True) i False).

Lemma maybe_write_reports (i : nat) (F : ∀ H, H → frame H) (h : headers) (w : world) :
  F = @CommitFrame ∨ F = @AbortFrame →
  alone i (maybe_write_frame (F dict (Own h)))
    (λ o w', _active_transactions w' = _active_transactions w ∧
             match o with
             | Done true => True
             | Done false => drop_logged w w'
             | Raised e => other_error e = true
             end) w.
Proof.
  intros HF.
  assert (∀ reason w, log_dropped_frame (F dict (Own h)) reason w =
            log INFO ("dropping: " +:+ reason) w) as Hlog by (by destruct HF as [-> | ->]).
  unfold maybe_write_frame. wp_step; [done|].
  destruct (_active_connection_state w) as [s|].
  - apply wp_handle. wp_step. eapply wp_mono; [apply write_frame_solo|].
    intros o w1 [Hio [t Ht]].
    assert (_active_transactions w1 = _active_transactions w ∧
            ∃ l, trace w1 = trace w ++ l) as [Ha [l Hl]].
    { destruct Ht as [-> |[-> _]]; (split; [done|]); simpl; [by eexists|].
      exists []. by rewrite app_nil_r. }
    destruct o as [[]|e]; [by wp_step|]. destruct e; try (by split).
    wp_step; [done|]. rewrite Hlog. set (w2 := log INFO _ w1).
    assert (drop_logged w w2) as Hd.
    { eexists (l ++ [_]), _. split; [|apply elem_of_app; right; by left].
      unfold w2, log, record_action. simpl. by rewrite Hl, (assoc_L (++)). }
    set (kept w3 := _active_transactions w3 = _active_transactions w ∧ drop_logged w w3).
    assert (∀ l' w3, kept w3 → kept (set_trace (trace w3 ++ l') w3)) as Hkept.
    { intros l' w3 [H1 (l0 & r0 & H2 & H3)]. split; [done|]. exists (l0 ++ l'), r0.
      simpl. rewrite H2, (assoc_L (++)). set_solver. }
    assert (kept w2) as Hk by done. clearbody w2.
    wp_step. unfold _discard_failed_connection_state. wp_step; [done|].
    destruct (is_active s w2); [|by wp_step; wp_step]. wp_step; [done|].
    eapply (wp_conseq _ _ _ _ _ _ _ _ kept); [..|apply (close_law solo)].
    + intros w3 w4 Hs Hk3. split; [done|]. by destruct Hs as [t' ->].
    + intros w3 w4 [->| ->] Hk3; [done|]. split; [done|]. by apply Hkept.
    + done.
    + intros [[]|e] w3 [Hio3 _] [Hk1 Hk2]; [by wp_step|done].
    + destruct Hk as [H1 (l0 & r0 & H2 & H3)]. split; [done|].
      exists (l0 ++ [Logged WARNING "connection lost"; Discarded (connection s)]), r0.
      simpl. rewrite H2, <-!(assoc_L (++)). set_solver.
    + intros w3 w4 [t' ->]. by exists []; rewrite app_nil_r.
  - wp_step; [done|]. wp_step. rewrite Hlog. split; [done|].
    eexists [_], _. split; [done|by left].
Qed.

(** Leaving a transaction that is not in the set, as none is after a reconnection:
    with an exception it always raises, [KeyError] or what the write raises; without
    one it returns only if the COMMIT was dropped, which is logged. *)
Theorem leaving_replayed_transaction env i id exc_value w :
  answers_for (awaits dials) solo i env →
  id ∉ _active_transactions w →
  match exec env i 0 (transaction_aexit id exc_value) w with
  | Some (Done _, w', _) => exc_value = false ∧ drop_logged w w'
  | Some (Raised e, _, _) => e = PyError KeyError ∨ other_error e = true
  | None => False
  end.
Proof.
  intros Henv Hid.
  set (Q := λ (o : outcome unit) w',
              match o with
              | Done _ => exc_value = false ∧ drop_logged w w'
              | Raised e => e = PyError KeyError ∨ other_error e = true
              end).
  assert (∀ w', _active_transactions w' = _active_transactions w →
            alone i (remove_transaction id) Q w') as Hrem.
  { intros w1 Ha. unfold remove_transaction. wp_step; [done|].
    rewrite decide_False by (by rewrite Ha). by left. }
  assert (alone i (transaction_aexit id exc_value) Q w) as H.
  { unfold transaction_aexit. destruct exc_value; wp_step.
    - eapply wp_mono; [apply maybe_write_reports; by right|].
      intros [b|e] w1 [Ha H1]; [by apply Hrem|by right].
    - eapply wp_mono; [apply maybe_write_reports; by left|].
      intros [[]|e] w1 [Ha H1]; [by apply Hrem|by wp_step|by right]. }
  apply (wp_exec _ _ _ _ _ env 0) in H; [|done].
  by destruct (exec env i 0 _ w) as [[[[[]|e] w'] n]|].
Qed.
End told.

(** ** No server answers *)

(** The environment of task [i] in which every server refuses. *)
Definition refusing (i : nat) (n : nat) (a : awaitable) (w : world)
  : world * outcome (answer a) :=
  match a with
  | NextConnection _ => (w, Done (0, Raised ConnectionError))
  | Sleep ms => (record_action (Slept ms) w, Done tt)
  | AcquireLock => (set_lock (Some i) w, Done tt)
  | _ => (w, Raised CancelledError)
  end.

Section refused.
Context `{AL : AbstractConnectionLifespan} (cm : ConnectionManager) (i : nat).
#[local] Existing Instance Connection.
Abbreviation run n t w := (exec (refusing i) i n t w).

Lemma next_connection_refused pending n w :
  forallb (λ s, negb (has_ws_path s)) pending = true →
  run n (next_connection (length pending) pending) w
  = Some (Done None, w, n + length pending).
Proof.
  revert n. induction pending as [|server pending IH]; intros n.
  { by rewrite Nat.add_0_r. }
  intros [Hs Hp]%andb_true_iff. cbn [length next_connection].
  rewrite exec_handle. cbn [next_completed await exec refusing of_outcome]. cbv beta iota.
  change ((server :: pending) !! 0) with (Some server). cbv beta iota.
  change (connect server (Raised ConnectionError))
    with (Tcp.connect server (Raised ConnectionError)).
  unfold Tcp.connect. apply negb_true_iff in Hs. rewrite Hs. cbv iota.
  change (delete 0 (server :: pending)) with pending. rewrite IH by done.
  by rewrite Nat.add_succ_r.
Qed.

(** The sleeps after the attempts number [attempt] and on. *)
Definition pauses (attempt : Z) (k : nat) : list action :=
  (λ j, Slept (1000 * (connect_retry_interval cm * (attempt + Z.of_nat j + 1)))) <$> seq 0 k.

Definition add_trace (l : list action) (w : world) : world := set_trace (trace w ++ l) w.

Lemma pauses_S attempt k :
  pauses attempt (S k) =
  Slept (1000 * (connect_retry_interval cm * (attempt + 1))) :: pauses (attempt + 1) k.
Proof.
  unfold pauses. rewrite <-cons_seq, fmap_cons, <-fmap_S_seq, <-list_fmap_compose.
  f_equal; [f_equal; lia|]. apply list_fmap_ext. intros j x _. simpl. f_equal. lia.
Qed.

Lemma connect_attempts_refused b attempt k issues n w :
  forallb (λ s, negb (has_ws_path s)) (servers cm) = true →
  ∃ n', run n (connect_attempts cm b attempt k issues) w =
    Some (Done (inr (issues ++
            replicate k (AllServersUnavailable (servers cm) (connect_timeout cm)))),
          add_trace (pauses attempt k) w, n').
Proof.
  intros Hs. revert attempt issues n w. induction k as [|k IH]; intros attempt issues n w.
  { exists n. cbn. rewrite app_nil_r. unfold add_trace. rewrite app_nil_r. by destruct w. }
  set (w1 := record_action
               (Slept (1000 * (connect_retry_interval cm * (attempt + 1)))) w).
  destruct (IH (attempt + 1)%Z
              (issues ++ [AllServersUnavailable (servers cm) (connect_timeout cm)])
              (S (n + length (servers cm))) w1) as [n' Hn']. exists n'.
  cbn [connect_attempts]. unfold mbind, prog_bind.
  rewrite exec_bind. unfold _connect_to_any_server, mbind, prog_bind.
  rewrite exec_bind. unfold _create_connection_to_any_server.
  rewrite next_connection_refused by done. cbv beta iota. cbn [exec mret prog_ret].
  cbv beta iota. rewrite exec_bind. cbn [exec sleep await refusing of_outcome].
  cbv beta iota. fold w1. rewrite Hn', pauses_S, <-app_assoc.
  do 3 f_equal. unfold add_trace, w1, record_action. simpl. by rewrite <-app_assoc.
Qed.

(** C33: when no server accepts a connection, looking for one tries all servers once per
    attempt, pauses longer after each attempt, ends with the error that lists the issues
    of all attempts, and frees the lock. *)
Theorem all_servers_refuse b w :
  forallb (λ s, negb (has_ws_path s)) (servers cm) = true →
  _active_connection_state w = None → _reconnect_lock w = None →
  ∃ n', run 0 (_get_active_connection_state cm b) w =
    Some (Raised (FailedAllConnectAttemptsError (connect_retry_attempts cm)
            (replicate (Z.to_nat (connect_retry_attempts cm))
               (AllServersUnavailable (servers cm) (connect_timeout cm)))),
          add_trace (pauses 0 (Z.to_nat (connect_retry_attempts cm))) w, n').
Proof.
  intros Hs Ha Hl. set (k := Z.to_nat (connect_retry_attempts cm)).
  destruct (connect_attempts_refused b 0 k [] 1 (set_lock (Some i) w) Hs) as [n' Hn'].
  exists n'. unfold _get_active_connection_state, with_lock, mbind, prog_bind, get.
  cbn [bind exec]. rewrite Ha. rewrite !exec_bind. cbn [acquire_lock await exec refusing of_outcome].
  unfold try_finally. rewrite exec_handle. cbn [bind exec]. simpl _active_connection_state.
  rewrite Ha. fold k. rewrite Hn'. cbn [exec modify bind]. cbv beta iota.
  do 3 f_equal. unfold add_trace. simpl. destruct w; simpl in *. by subst.
Qed.
End refused.

(** ** Errors of an established connection *)

(** A TCP connection whose peer is gone without a reset makes [drain] raise
    [TimeoutError], which [write_frame] does not turn into a lost connection: the error
    reaches the caller at the first attempt, and the dead connection stays active. *)
Theorem tcp_timeout_escapes `{AL : AbstractConnectionLifespan} cm s f raw t i w :
  _active_connection_state w = Some s →
  conns w !! connection s = Some (mkConn t false) →
  dump_frame (snapshot (dicts w) f) = Ok raw →
  (0 < write_retry_attempts cm)%Z →
  let w' := record_action (Wrote (connection s) (snapshot (dicts w) f)) w in
  exec (env_of (dials (AbstractConnection := Connection)) i [Fault TimeoutError]) i 0
    (write_frame_reconnecting (AC := Connection) cm f) w = Some (Raised TimeoutError, w', 1) ∧
  _active_connection_state w' = Some s.
Proof.
  intros Ha Hc Hd Hn w'. split; [|done]. unfold write_frame_reconnecting.
  destruct (Z.to_nat (write_retry_attempts cm)) as [|k] eqn:Hk; [lia|].
  cbn [write_attempts]. unfold mbind, prog_bind, _get_active_connection_state, get.
  rewrite exec_bind. unfold mbind, prog_bind. cbn [bind exec]. rewrite Ha. cbn [exec mret prog_ret].
  unfold catch_lost. rewrite exec_bind, exec_handle, exec_bind.
  change (write_frame (connection s) f) with (Tcp.write_frame (connection s) f).
  assert (exec (env_of (dials (AbstractConnection := Connection)) i [Fault TimeoutError]) i 0
            (Tcp.write_frame (connection s) f) w = Some (Raised TimeoutError, w', 1)) as ->; [|done].
  unfold Tcp.write_frame, reraise_connection_lost, try_except, dumped, Tcp.writer_write,
    mbind, prog_bind, get, sync.
  rewrite exec_bind, exec_handle, !exec_bind. cbn [bind exec]. rewrite Hd.
  cbn [to_outcome of_outcome exec bind mret prog_ret]. cbv beta iota. rewrite Hc. done.
Qed.

(** On a WebSocket connection every error of the transport is a lost connection: a
    write raises nothing else, save that the frame cannot be encoded or the task is
    cancelled. *)
Theorem websocket_write_errors env i c f w e w' n :
  answers_for (awaits (dials (AbstractConnection := WebSocketConnection))) (λ _ _, True) i env →
  exec env i 0 (write_frame (AbstractConnection := WebSocketConnection) c f) w =
    Some (Raised e, w', n) →
  is_connection_lost e = true ∨ e = CancelledError ∨ ∃ e', e = PyError e'.
Proof.
  intros Henv Hrun.
  change (write_frame c f) with (Ws.write_frame c f) in Hrun.
  unfold Ws.write_frame, reraise_connection_lost, try_except in Hrun.
  rewrite exec_handle in Hrun. unfold dumped, mbind, prog_bind, get in Hrun.
  cbn [bind exec] in Hrun. destruct (dump_frame (snapshot (dicts w) f)) as [raw|e0].
  - cbn [to_outcome of_outcome exec bind mret prog_ret send_message await] in Hrun.
    destruct (Henv 0 (SendMessage c (snapshot (dicts w) f)) w) as (w1 & _ & Hr).
    destruct (env 0 (SendMessage c (snapshot (dicts w) f)) w) as [w2 r]. cbn [fst snd] in Hr.
    cbn [exec of_outcome] in Hrun. destruct Hr as [[[-> _]|(e1 & He1 & -> & _)]|[-> _]].
    + done.
    + left. cbn [of_outcome exec] in Hrun. assert (Ws.is_lost e1 = true) as Hl by done.
      rewrite Hl in Hrun. by injection Hrun as <- <- <-.
    + right; left. by injection Hrun as <- <- <-.
  - right; right. cbn in Hrun. injection Hrun as <- <- <-. by eexists.
Qed.

(** ** Recovery that goes wrong *)

Definition task_error (k : nat) (ts : list (M unit)) : option exn :=
  match ts !! k with Some (Raise e) => Some e | _ => None end.

(** The frames that concern transactions, with their connections and transactions. *)
Definition transaction_frames (l : list action) : list (nat * string * option str) :=
  omap (λ a, match a with
             | Wrote c (BeginFrame h) => Some (c, "BEGIN"%string, h !! us "transaction")
             | Wrote c (SendFrame h _) => Some (c, "SEND"%string, h !! us "transaction")
             | Wrote c (CommitFrame h) => Some (c, "COMMIT"%string, h !! us "transaction")
             | _ => None
             end) l.

(** A transaction sends a frame, the server closes the connection, the listening task
    connects again, and the body of the transaction ends. *)
Definition lost_in_transaction : list choice :=
  entered ++ [Start 2; Call Begin; Resume 2 Finish;
              Call (TransactionSend (us "A") (bs "x") (us "q") None true None); Resume 3 Finish;
              Resume 1 (Give []); Resume 1 Finish]
    ++ handshake 1 1 ++ [Resume 1 Finish; Resume 1 Finish;
                         Call (TransactionExit (us "A") false); Resume 4 Finish].

(** C34: a transaction during which the connection is lost and found again is committed by
    the reconnection, on a connection where it was never begun and before its body has
    ended; leaving it then writes a second COMMIT and raises [KeyError]. *)
Theorem transaction_across_reconnection :
  ∃ ts w, example_play lost_in_transaction = Some (ts, w) ∧
    reachable_world (AC := Connection) example_client example_ids 10 [] 0 w ∧
    task_error 4 ts = Some (PyError KeyError) ∧
    transaction_frames (trace w) =
      [(0, "BEGIN"%string, Some (us "A")); (0, "SEND"%string, Some (us "A"));
       (1, "SEND"%string, Some (us "A")); (1, "COMMIT"%string, Some (us "A"));
       (1, "COMMIT"%string, Some (us "A"))].
Proof.
  apply (example_fact lost_in_transaction (λ c, task_error 4 c.1 = _ ∧
           transaction_frames (trace c.2) = _)).
  vm_compute. split; reflexivity.
Qed.

(** The heart-beat task finds the connection broken and connects again; there is a
    subscription to make again. *)
Definition heartbeat_reconnects : list choice :=
  entered ++ [Start 1; Call (Subscribe example_subscription); Resume 2 Finish; Break 0;
              Resume 1 Finish; Resume 1 Finish] ++ handshake 1 1.

(** The task is the one whose cancellation was requested. *)
Definition heartbeat_cancelled : list choice :=
  heartbeat_reconnects ++ [Resume 1 Cancel; Resume 1 Finish].

(** C36: the heart-beat task that connects again cancels itself: the handshake restarts the
    background tasks while it is still running in the old one, so that the first write
    after it that has to wait ends the attempt, and the new connection is closed. *)
Theorem heartbeat_task_cancels_itself :
  (∃ ts w, example_play heartbeat_reconnects = Some (ts, w) ∧
     reachable_world (AC := Connection) example_client example_ids 10 [] 0 w ∧
     cancelled <$> tasks w !! 1 = Some true ∧ _reconnect_lock w = Some 1) ∧
  (∃ ts w, example_play heartbeat_cancelled = Some (ts, w) ∧
     reachable_world (AC := Connection) example_client example_ids 10 [] 0 w ∧
     task_error 1 ts = Some CancelledError ∧ _active_connection_state w = None ∧
     _reconnect_lock w = None ∧ last (trace w) = Some (CloseCalled 1)).
Proof.
  split.
  - apply (example_fact heartbeat_reconnects (λ c,
      cancelled <$> tasks c.2 !! 1 = Some true ∧ _reconnect_lock c.2 = Some 1)).
    vm_compute. split; reflexivity.
  - apply (example_fact heartbeat_cancelled (λ c,
      task_error 1 c.1 = Some CancelledError ∧ _active_connection_state c.2 = None ∧
      _reconnect_lock c.2 = None ∧ last (trace c.2) = Some (CloseCalled 1))).
    vm_compute. repeat split; reflexivity.
Qed.

(** ** Attempts that are left behind *)

(** Two servers to connect to. *)
Definition two_servers_client : Client :=
  mkClient [example_server; example_server] (Some (λ _, Done tt)) (mkHeartbeat 1000 1000) 3 1 2 3 2 2 3
    None false None.

(** Both attempts are started and the first one succeeds; the second one connects while the
    client is being used, and then the client is left. *)
Definition attempt_left_behind : list choice :=
  entered ++ [Attempt 0 (Some 1); Call (Exit true); Resume 1 Finish; Resume 1 Finish;
              Resume 1 Finish; Resume 1 Finish; Resume 1 Expire; Resume 1 Finish;
              Resume 1 Finish].

Definition was_opened (c : nat) (w : world) : bool :=
  existsb (λ a, match a with Opened c' _ => c =? c' | _ => false end) (trace w).

Definition was_closed (c : nat) (w : world) : bool :=
  existsb (λ a, match a with CloseCalled c' => c =? c' | _ => false end) (trace w).

(** C37: the connection of an attempt that nobody waits for any more is not closed by the
    client: a reachable run in which two servers are tried, the first connection is taken,
    the second is opened afterwards, and the client is left in good order, closing the
    first; nothing refers to the second any more, and no step of the client closes it. *)
Theorem abandoned_attempt_leaks :
  ∃ ts w,
    play_from (AC := Connection) two_servers_client example_ids 10 [] 0 attempt_left_behind =
      Some (ts, w) ∧
    reachable_world (AC := Connection) two_servers_client example_ids 10 [] 0 w ∧
    has_returned 1 ts = true ∧ _task_group w = GroupFinished ∧
    _active_connection_state w = None ∧ abandoned w = [] ∧
    was_opened 0 w = true ∧ was_closed 0 w = true ∧
    was_opened 1 w = true ∧ was_closed 1 w = false.
Proof.
  destruct (play_from (AC := Connection) two_servers_client example_ids 10 [] 0
              attempt_left_behind) as [[ts w]|] eqn:Hp; [|vm_compute in Hp; discriminate Hp].
  exists ts, w. split; [reflexivity|]. split; [by eapply play_reachable|].
  revert Hp. vm_compute. intros [= <- <-]. repeat split; reflexivity.
Qed.

(** ** Witnesses *)

Section witnesses.
#[local] Existing Instance Connection.
#[local] Existing Instance example_lifespan.
Local Abbreviation cm := (make_manager example_client).

Lemma new_connection_is_told_witness :
  ∃ hb w' n,
    exec (example_env [Finish; Give connected_bytes; Finish; Finish; Finish]) 0 0
      (lifespan_enter (make_lifespan example_client) 10 0 example_server) connected_world =
      Some (Done (inl hb), w', n) ∧
    trace w' = trace connected_world ++
      (Wrote 0 <$> connect_frames (make_lifespan example_client) example_server
         ++ resubscribe_frames connected_world ++ commit_frames connected_world) ∧
    _active_transactions w' = ∅ ∧ subscriptions w' = subscriptions connected_world.
Proof.
  destruct (exec (example_env [Finish; Give connected_bytes; Finish; Finish; Finish]) 0 0
      (lifespan_enter (make_lifespan example_client) 10 0 example_server) connected_world)
    as [[[[[hb|issue]|e] w'] n]|] eqn:E; try (vm_compute in E; discriminate E).
  exists hb, w', n. split; [reflexivity|].
  pose proof (new_connection_is_told _ 10 _ 0 0 example_server connected_world hb w' n
           (solo_env _) E) as H. exact H.
Defined.

Lemma leaving_replayed_transaction_witness :
  match exec (example_env [Finish]) 0 0 (transaction_aexit (us "X") false) connected_world with
  | Some (Done _, w', _) => false = false ∧ drop_logged connected_world w'
  | Some (Raised e, _, _) => e = PyError KeyError ∨ other_error e = true
  | None => False
  end.
Proof.
  assert (us "X" ∉ _active_transactions connected_world) as Hid
    by (apply (bool_decide_unpack _); vm_compute; exact I).
  pose proof (leaving_replayed_transaction (example_env [Finish]) 0 (us "X") false
                connected_world (solo_env _) Hid) as H. exact H.
Defined.

Lemma all_servers_refuse_witness :
  ∃ n', exec (refusing 0) 0 0 (_get_active_connection_state cm true) entering_world =
    Some (Raised (FailedAllConnectAttemptsError (connect_retry_attempts cm)
            (replicate (Z.to_nat (connect_retry_attempts cm))
               (AllServersUnavailable (servers cm) (connect_timeout cm)))),
          add_trace (pauses cm 0 (Z.to_nat (connect_retry_attempts cm))) entering_world, n').
Proof. pose proof (all_servers_refuse cm 0 true entering_world eq_refl eq_refl eq_refl) as H. exact H. Defined.

Lemma tcp_timeout_escapes_witness :
  let f := SendFrame (Own {[us "destination" := us "q"]}) (bs "x") in
  let w' := record_action (Wrote 0 (snapshot [] f)) connected_world in
  exec (env_of (dials (AbstractConnection := Connection)) 0 [Fault TimeoutError]) 0 0
    (write_frame_reconnecting (AC := Connection) cm f) connected_world =
    Some (Raised TimeoutError, w', 1) ∧
  _active_connection_state w' = Some example_state.
Proof.
  intros f w'. eapply (tcp_timeout_escapes cm example_state f _ None 0 connected_world);
    reflexivity.
Defined.
End witnesses.

Lemma websocket_write_errors_witness :
  let f := SendFrame (Own {[us "destination" := us "q"]}) (bs "x") in
  let env := env_of (dials (AbstractConnection := WebSocketConnection)) 0 [Fault TimeoutError] in
  ∃ e w' n,
    exec env 0 0 (write_frame (AbstractConnection := WebSocketConnection) 0 f) connected_world =
      Some (Raised e, w', n) ∧
    (is_connection_lost e = true ∨ e = CancelledError ∨ ∃ e', e = PyError e').
Proof.
  intros f env.
  destruct (exec env 0 0 (write_frame (AbstractConnection := WebSocketConnection) 0 f)
              connected_world) as [[[[[]|e] w'] n]|] eqn:E; try (vm_compute in E; discriminate E).
  exists e, w', n. split; [reflexivity|].
  refine (websocket_write_errors env 0 0 f connected_world e w' n _ E).
  apply env_of_answers. intros w. exact I.
Defined.
