(* ===== verification/Exchange.v ===== *)
(** * What is said on a connection besides

    What becomes of a frame that the listening task was given, how a connection is left,
    what is lost behind CONNECTED, and what a CONNECTED frame without a heart-beat header
    leads to. *)

From S2P Require Import Prelude Frames Serde FrameParser Wire Config Errors Async World Contract Discipline.
From S2P Require Import Connection Manager ManagerSpec Subscription Transaction Lifespan Replay.
From S2P Require Import Client System Scheduler.

(** ** Dispatching a frame *)

Section dispatching.
Context `{AC : AbstractConnection} (cl : Client).

(** What a MESSAGE for the subscription leads to: a task for its handler, for which a
    permit is taken if their number is limited; the wait for the permit may be cut short. *)
Definition handler_created (id : str) (sub : subscription) (h : headers) (body : bytes)
    (epoch : nat) (w : world) (o : outcome unit) (w' : world) : Prop :=
  let create w := (create_task (RunHandler id sub h body epoch) w).1 in
  match _handler_semaphore w with
  | None => o = Done tt ∧ w' = create w
  | Some permits =>
    ∃ t, (o = Raised CancelledError ∧ w' = set_now t w) ∨
         (o = Done tt ∧ ∃ n, permits = S n ∧
          w' = create (set_handler_semaphore (Some n) (set_now t w)))
  end.

(** What dispatching the frame leads to. *)
Definition dispatched (f : frame headers) (epoch : nat) (w : world) (o : outcome unit)
    (w' : world) : Prop :=
  match f with
  | MessageFrame h body =>
    let w1 := set_last_message_received_time (now w) w in
    match h !! us "subscription" with
    | None => o = Raised (PyError KeyError) ∧ w' = w1
    | Some id =>
      match get_by_id id w with
      | None => o = Done tt ∧ w' = w1
      | Some sub => handler_created id sub h body epoch w1 o w'
      end
    end
  | ErrorFrame _ _ =>
    match on_error_frame cl with
    | None => o = Done tt ∧ w' = w
    | Some on_error => o = on_error f ∧ w' = record_action (ErrorHandlerCalled f) w
    end
  | _ => o = Done tt ∧ w' = w
  end.

(** Dispatching a frame, on every branch: a MESSAGE for an active subscription creates
    one task, with the message and its epoch, after a permit was taken if handlers are
    limited; one for any other subscription is ignored, and one that names none raises; an
    ERROR goes to the program's callback, and what that raises comes out; everything else
    is ignored. *)
Theorem dispatch_outcomes env i f epoch w :
  answers_for (awaits dials) solo i env →
  match exec env i 0 (dispatch cl f epoch) w with
  | Some (o, w', _) => dispatched f epoch w o w'
  | None => False
  end.
Proof.
  intros Henv. destruct f as [| | | | | | | | | | | | |h body|h body|]; try (by split).
  - cbn [dispatch dispatched].
    unfold dispatch_message, getitem, mbind, prog_bind, modify, gets, handler_created.
    set (w1 := set_last_message_received_time (now w) w). cbn [bind exec fst snd]. fold w1.
    destruct (h !! us "subscription") as [id|]; [|done]. cbn [of_option to_outcome of_outcome bind exec].
    change (get_by_id id w1) with (get_by_id id w).
    destruct (get_by_id id w) as [sub|]; [|done]. cbn [bind exec].
    destruct (_handler_semaphore w1) as [permits|] eqn:Hs; [|done].
    rewrite bool_decide_eq_true_2 by (by eexists). unfold acquire_semaphore, await. cbn [bind exec].
    destruct (Henv 0 AcquireSemaphore w1) as (w2 & [t ->] & Ha).
    destruct (env 0 AcquireSemaphore w1) as [w3 r]. cbn [fst snd] in Ha.
    destruct Ha as [(n & Hn & -> & ->)|[-> ->]]; exists t; [right|by left].
    split; [done|]. exists n. split; [|done].
    assert (Some permits = Some (S n)) as E by (rewrite <-Hs; exact Hn). by injection E.
  - cbn [dispatch dispatched]. destruct (on_error_frame cl) as [on_error|]; [|done].
    unfold mbind, prog_bind, modify. cbn [bind exec]. by destruct (on_error _).
Qed.
End dispatching.

(** ** The farewell *)

Section farewell.
Context `{AC : AbstractConnection} `{!ConnectionLaws AC} (uuid4 : nat → str) (fuel i : nat).
Abbreviation alone := (wp (awaits dials) solo (λ _ _, True) i True).
Abbreviation done_after Q := (λ o w', match o with Done a => Q a w' | Raised _ => True end).

Definition unsubscribe_frame (id : str) : frame headers :=
  UnsubscribeFrame {[us "id" := id]}.

Definition disconnect_frame (receipt : str) : frame headers :=
  DisconnectFrame {[us "receipt" := receipt]}.

(** The connection is still the active one and the frames were written on it, or it was
    lost on the way. *)
Definition told (s : ActiveConnectionState) (fs : list (frame headers)) (w w' : world) : Prop :=
  uuids w' = uuids w ∧
  match _active_connection_state w' with
  | Some s' => s' = s ∧ trace w' = trace w ++ (Wrote (connection s) <$> fs)
  | None => Discarded (connection s) ∈ trace w'
  end.

Lemma told_solo s fs w w1 w2 : told s fs w w1 → solo w1 w2 → told s fs w w2.
Proof. by intros H [t ->]. Qed.

Lemma told_deleted s fs id w w1 : told s fs w w1 → told s fs w (delete_by_id id w1).
Proof.
  unfold delete_by_id. destruct (contains_by_id id w1); cbn [subscriptions set_subscriptions];
    [destruct (dict_del _ _)|destruct (subscriptions w1)]; done.
Qed.

(** Closing a connection that was discarded leaves it so. *)
Lemma close_alone c s w :
  Discarded (connection s) ∈ trace w →
  alone (close c) (λ _ w', Discarded (connection s) ∈ trace w' ∧ uuids w' = uuids w ∧
    _active_connection_state w' = _active_connection_state w ∧
    subscriptions w' = subscriptions w) w.
Proof.
  intros Hd. eapply (wp_conseq _ _ _ _ _ _ _ _ (λ w', Discarded (connection s) ∈ trace w' ∧
    uuids w' = uuids w ∧ _active_connection_state w' = _active_connection_state w ∧
    subscriptions w' = subscriptions w)); [..|done|apply (close_law solo)].
  - intros w1 w2 Hs HP. split; [done|]. by destruct Hs as [t ->].
  - intros w1 w2 [->| ->] (H1 & H2 & H3 & H4); [done|]. split; [done|]. split_and!; try done.
    apply elem_of_record. by left.
  - done.
  - done.
  - intros w1 w2 [t ->]. exists []. by rewrite app_nil_r.
Qed.

(** A write puts its frame on the wire, or it does not and fails. *)
Lemma write_told c f w :
  alone (write_frame c f)
    (λ o w', ∃ t, w' = set_now t (record_action (Wrote c (snapshot (dicts w) f)) w) ∨
                  (w' = set_now t w ∧ o ≠ Done tt)) w.
Proof.
  eapply (wp_conseq _ _ _ _ _ _ _ _ (λ _, True)); [..|apply (write_frame_solo i c f w)]; try done.
  by intros o w' [_ H] _.
Qed.

Lemma unsubscribe_alone s fs w0 id w :
  told s fs w0 w →
  alone (unsubscribe id)
    (done_after (λ _ w', told s (fs ++ [unsubscribe_frame id]) w0 w' ∧
       subscriptions w' = subscriptions (delete_by_id id w))) w.
Proof.
  intros H. unfold unsubscribe. wp_step; [done|]. apply (told_deleted _ _ id) in H.
  set (w1 := delete_by_id id w) in *. clearbody w1. wp_step. unfold maybe_write_frame.
  wp_step; [done|]. destruct H as [Hu Ha].
  destruct (_active_connection_state w1) as [s'|] eqn:Hs.
  - destruct Ha as [-> Ht]. apply wp_handle. wp_step.
    eapply wp_mono; [apply write_told|]. intros o w2 [t Hw2].
    destruct o as [[]|e].
    + wp_step. wp_step. destruct Hw2 as [-> |[_ ?]]; [|done]. split; [|done]. split; [done|].
      cbn. rewrite Hs. split; [done|]. by rewrite Ht, fmap_app, (assoc_L (++)).
    + assert (_active_connection_state w2 = Some s ∧ uuids w2 = uuids w0 ∧
              subscriptions w2 = subscriptions w1) as (Hs2 & Hu2 & Hsub2)
        by (by destruct Hw2 as [-> |[-> _]]).
      destruct e; try done. wp_step; [done|]. wp_step.
      unfold _discard_failed_connection_state. wp_step; [done|].
      assert (is_active s (log_dropped_frame (UnsubscribeFrame (Own {[us "id" := id]}))
                "connection lost mid-write" w2) = true) as ->
        by (apply is_active_spec; cbn; by rewrite Hs2).
      wp_step; [done|].
      eapply wp_mono; [apply (close_alone _ s); by apply elem_of_record; right|].
      intros [[]|e] w3 (H1 & H2 & H3 & H4); [|done]. wp_step. wp_step.
      cbn in H2, H3, H4. split; [|by rewrite H4]. split; [by rewrite H2|]. by rewrite H3.
  - wp_step; [done|]. wp_step. wp_step. split; [|done]. split; [done|]. cbn. rewrite Hs.
    apply elem_of_record. by left.
Qed.

Lemma dict_del_head {V} (id : str) (v : V) (l : list (str * V)) :
  id ∉ l.*1 → dict_del id ((id, v) :: l) = l.
Proof.
  intros Hid. unfold dict_del. rewrite filter_cons_False by (by intros H).
  induction l as [|[id' v'] l IH]; [done|]. apply not_elem_of_cons in Hid as [Hne Hid].
  rewrite filter_cons_True by (by intros Heq; apply Hne). f_equal. by apply IH.
Qed.

Lemma delete_head id sub l w :
  subscriptions w = (id, sub) :: l → id ∉ l.*1 → subscriptions (delete_by_id id w) = l.
Proof.
  intros Hw Hid. unfold delete_by_id, contains_by_id, get_ids. rewrite Hw.
  rewrite bool_decide_eq_true_2 by (simpl; left). cbn [subscriptions set_subscriptions].
  rewrite dict_del_head by done. by destruct l.
Qed.

Lemma unsubscribe_all_alone s w0 l fs w :
  told s fs w0 w → subscriptions w = l → NoDup l.*1 →
  alone (for_each l (λ '(subscription_id, _), unsubscribe subscription_id))
    (done_after (λ _ w', told s (fs ++ (unsubscribe_frame <$> l.*1)) w0 w' ∧
       subscriptions w' = [])) w.
Proof.
  revert fs w. induction l as [|[id sub] l IH]; intros fs w Ht Hw Hnd; cbn [for_each].
  { by rewrite app_nil_r. }
  apply NoDup_cons in Hnd as [Hid Hnd]. apply wp_bind.
  eapply wp_mono; [by apply unsubscribe_alone|]. intros [[]|e] w1 H1; [|done].
  destruct H1 as [Ht1 Hw1].
  rewrite (delete_head id sub l) in Hw1 by done.
  eapply wp_mono; [by apply (IH _ _ Ht1)|]. intros [[]|e] w2 H1; [|done].
  destruct H1 as [H1 H2]. split; [|done]. by rewrite <-(assoc_L (++)) in H1.
Qed.

(** What the connection is told when it is left. *)
Definition farewell_frames (w : world) : list (frame headers) :=
  (unsubscribe_frame <$> get_ids w) ++ [disconnect_frame (uuid4 (uuids w))].

(** Waiting for the receipt keeps what time and reading keep. *)
Lemma take_receipt_alone (P : world → Prop) c w :
  (∀ w t, P w → P (set_now t w)) → (∀ w, P w → P (set_last_read_time c w)) → P w →
  alone (_take_receipt_frame fuel c) (λ _, P) w.
Proof.
  intros Hnow Hread HP. apply (wp_while_loop _ _ _ _ _ _ _ (λ _, P)); [done|done|].
  intros p w1 H1. unfold take_receipt_round, read_frames_chunk. wp_step. wp_step.
  eapply (wp_conseq _ _ _ _ _ _ _ _ P); [..|done|apply (read_bytes_law solo)].
  - intros w2 w3 Hs H2. split; [done|]. destruct Hs as [t ->]. by apply Hnow.
  - by intros w2 w3 ->.
  - done.
  - intros [raw|e] w2 _ H2; [|done]. wp_step; [done|]. wp_step.
    destruct (parse_frames_from_chunk p raw) as [[fs p']|e]; cbn [to_outcome]; [|by apply Hread].
    destruct (has_receipt fs); by apply Hread.
Qed.

Lemma lifespan_exit_alone s p w :
  _active_connection_state w = Some s → NoDup (get_ids w) →
  alone (lifespan_exit uuid4 fuel (connection s) p)
    (done_after (λ _ w', subscriptions w' = [] ∧
       match _active_connection_state w' with
       | Some s' => s' = s ∧ trace w' = trace w ++ (Wrote (connection s) <$> farewell_frames w)
       | None => Discarded (connection s) ∈ trace w'
       end)) w.
Proof.
  intros Hs Hnd. unfold lifespan_exit, unsubscribe_from_all_active_subscriptions.
  wp_step. wp_step; [done|]. unfold get_all.
  assert (told s [] w w) as H0 by (split; [done|]; by rewrite Hs, app_nil_r).
  eapply wp_mono; [by apply (unsubscribe_all_alone s w _ [])|].
  intros [[]|e] w1 H1; [|done]. destruct H1 as [[Hu Ha] Hsub]. unfold make_id. wp_step; [done|].
  rewrite Hu. wp_step. eapply wp_mono; [apply write_told|]. intros [[]|e] w2 [t H2]; [|done].
  destruct H2 as [-> |[_ ?]]; [|done]. apply wp_try_except.
  eapply wp_mono; [apply (take_receipt_alone (λ w', subscriptions w' = [] ∧
       match _active_connection_state w' with
       | Some s' => s' = s ∧ trace w' = trace w ++ (Wrote (connection s) <$> farewell_frames w)
       | None => Discarded (connection s) ∈ trace w'
       end))|]; [done|done| |by intros [[]|e] w2 H; [|destruct (is_expired e)]].
  split; [done|]. cbn. destruct (_active_connection_state w1) as [s'|].
  - destruct Ha as [-> Ht]. split; [done|]. unfold farewell_frames.
    by rewrite Ht, app_nil_l, fmap_app, (assoc_L (++)).
  - apply elem_of_app. by left.
Qed.
End farewell.

Section told.
Context `{AC : AbstractConnection} `{!ConnectionLaws AC}.

(** C17: leaving a connection on good terms: when the farewell returns, no subscription is
    left, and either the connection was told, in this order, an UNSUBSCRIBE for each
    subscription, in the order they were made, and a DISCONNECT with a new receipt, and
    nothing else; or it was lost on the way, and discarded. *)
Theorem farewell_is_told uuid4 fuel env i s p w w' n :
  answers_for (awaits dials) solo i env →
  _active_connection_state w = Some s → NoDup (get_ids w) →
  exec env i 0 (lifespan_exit uuid4 fuel (connection s) p) w = Some (Done tt, w', n) →
  subscriptions w' = [] ∧
  match _active_connection_state w' with
  | Some s' =>
    s' = s ∧ trace w' = trace w ++ (Wrote (connection s) <$> farewell_frames uuid4 w)
  | None => Discarded (connection s) ∈ trace w'
  end.
Proof.
  intros Henv Hs Hnd Hrun. pose proof (lifespan_exit_alone uuid4 fuel i s p w Hs Hnd) as H.
  apply (wp_exec _ _ _ _ _ env 0) in H; [|done]. by rewrite Hrun in H.
Qed.
End told.

(** ** A CONNECTED frame without a heart-beat header *)

Section heartbeat.
Context `{AC : AbstractConnection} (cl : ConnectionLifespan) (fuel : nat).
Context (env : nat → ∀ a : awaitable, world → world * outcome (answer a)) (i : nat).

(** The heart-beat header of CONNECTED, which its type and STOMP leave optional, is
    required: when the server gives the right version and no heart-beat, entering the
    connection raises [KeyError]. *)
Theorem handshake_needs_heartbeat c p w w1 w2 n1 n2 connect_headers connected collected :
  connect_frame_headers cl p = Ok connect_headers →
  exec env i 0 (write_frame c (ConnectFrame (Own connect_headers))) w = Some (Done tt, w1, n1) →
  exec env i n1 (take_connected_frame fuel c) w1 = Some (Done (Some connected, collected), w2, n2) →
  connected !! us "version" = Some (protocol_version cl) →
  connected !! us "heart-beat" = None →
  conforms (ConnectedFrame connected) = true ∧
  exec env i 0 (lifespan_enter cl fuel c p) w = Some (Raised (PyError KeyError), w2, n2).
Proof.
  intros Hh Hw Ht Hv Hb. split.
  { eapply conforms_keys; [done|]. repeat constructor. by eexists. }
  unfold lifespan_enter, _establish_connection, mbind, prog_bind. rewrite !exec_bind, Hh.
  cbn [to_outcome of_outcome exec]. rewrite exec_bind, Hw, exec_bind, Ht. cbv beta iota.
  unfold getitem. rewrite Hv. cbn [of_option to_outcome of_outcome bind].
  rewrite decide_True by done. by rewrite Hb.
Qed.
End heartbeat.

(** ** What the server sends together with CONNECTED *)

Section first_chunk.
Context `{AC : AbstractConnection}.
Context (env : nat → ∀ a : awaitable, world → world * outcome (answer a)) (i : nat).

Lemma take_until_first_connected fs h rest collected :
  (∀ h', ConnectedFrame h' ∉ fs) →
  take_until_connected (fs ++ ConnectedFrame h :: rest) collected = (Some h, collected ++ fs).
Proof.
  revert collected. induction fs as [|f fs IH]; intros collected Hfs; simpl.
  { by rewrite app_nil_r. }
  assert (take_until_connected (fs ++ ConnectedFrame h :: rest) (collected ++ [f]) =
          (Some h, collected ++ f :: fs)) as Hrec.
  { rewrite IH, <-app_assoc; [done|]. intros h' Hin. by apply (Hfs h'); right. }
  destruct f; try exact Hrec. edestruct Hfs. by left.
Qed.

(** C30: a chunk that starts with frames of which the last one is the first CONNECTED ends the
    handshake, whatever bytes follow in it: they appear neither in the outcome, the frames
    collected for an error report included, nor in the state, and the listening task starts
    with an empty parser. *)
Theorem behind_connected_is_lost cm fs h raws rest fuel c w w1 n n1 :
  Forall wire_safe (fs ++ [ConnectedFrame h]) → (∀ h', ConnectedFrame h' ∉ fs) →
  mapM wire (fs ++ [ConnectedFrame h]) = Ok raws →
  exec env i n (read_bytes c true) w = Some (Done (concat raws ++ rest), w1, n1) →
  exec env i n (take_connected_frame (S fuel) c) w =
    Some (Done (Some h, fs), set_last_read_time c w1, n1) ∧
  ∀ `{AL : AbstractConnectionLifespan} w' s n',
    _active_connection_state w' = Some s →
    exec env i n' (read_step cm Outer) w' =
      Some (Done (inl (Reading s (_reconnection_count w') new_parser [])), w', n').
Proof.
  intros Hsafe Hfs Hraws Hread. split.
  - destruct (parse_stream _ None Hsafe) as (raws' & prev & Hraws' & Hp).
    rewrite Hraws in Hraws'. injection Hraws' as <-.
    assert (parser_ok (idle prev)) as Hok.
    { destruct (parse_ok new_parser (concat raws) new_parser_ok) as (fs1 & p1 & Hp1 & Hok & _).
      change new_parser with (idle None) in Hp1. rewrite Hp in Hp1. by injection Hp1 as _ <-. }
    destruct (parse_ok (idle prev) rest Hok) as (fs2 & p2 & Hp2 & _ & _).
    assert (parse_frames_from_chunk new_parser (concat raws ++ rest) =
            Ok (fs ++ ConnectedFrame h :: fs2, p2)) as Hchunk.
    { change new_parser with (idle None). rewrite parse_app, Hp. simpl. rewrite Hp2. simpl.
      by rewrite <-app_assoc. }
    unfold take_connected_frame. cbn [while_loop]. rewrite exec_bind.
    unfold take_connected_round, read_frames_chunk. rewrite exec_handle.
    unfold mbind, prog_bind. rewrite exec_bind, Hread. cbn [exec bind modify]. rewrite Hchunk.
    cbn [to_outcome of_outcome exec]. by rewrite take_until_first_connected.
  - intros AL w' s n' Hs. unfold read_step. rewrite exec_handle.
    unfold _get_active_connection_state. unfold mbind, prog_bind, get. cbn [bind exec].
    by rewrite Hs.
Qed.
End first_chunk.

(** The client is entered, and the server's CONNECTED has no heart-beat. *)
Definition connected_without_heartbeat : bytes :=
  lines ["CONNECTED"; "version:1.2"]%string ++ [x0a; x00].

Definition entering_without_heartbeat : list choice :=
  [Call Enter; Resume 0 Finish; Resume 0 (Connect 0 0); Resume 0 Finish;
   Resume 0 (Give connected_without_heartbeat); Resume 0 Finish].

(** The error comes out of entering the client, which makes no second attempt. *)
Theorem entering_needs_heartbeat :
  ∃ ts w, example_play entering_without_heartbeat = Some (ts, w) ∧
    reachable_world (AC := Connection) example_client example_ids 10 [] 0 w ∧
    match ts with Raise (PyError KeyError) :: _ => true | _ => false end = true ∧
    last (trace w) = Some (CloseCalled 0).
Proof.
  apply (example_fact entering_without_heartbeat (λ c,
    match c.1 with Raise (PyError KeyError) :: _ => true | _ => false end = true ∧
    last (trace c.2) = Some (CloseCalled 0))).
  vm_compute. split; reflexivity.
Qed.

(** ** Witnesses *)

Section witnesses.
#[local] Existing Instance Connection.

Lemma dispatch_outcomes_witness :
  let f := MessageFrame (<[us "subscription" := us "A"]> {[us "message-id" := us "1"]}) (bs "x") in
  match exec (example_env []) 0 0 (dispatch example_client f 0) connected_world with
  | Some (o, w', _) => dispatched example_client f 0 connected_world o w'
  | None => False
  end.
Proof.
  intros f. pose proof (dispatch_outcomes example_client (example_env []) 0 f 0 connected_world
                          (solo_env _)) as H. exact H.
Defined.

Lemma farewell_is_told_witness :
  ∃ w' n,
    exec (example_env [Finish; Finish; Give (lines ["RECEIPT"; "receipt-id:A"]%string ++ [x0a; x00])])
      0 0 (lifespan_exit example_ids 10 0 example_server) connected_world = Some (Done tt, w', n) ∧
    subscriptions w' = [] ∧
    match _active_connection_state w' with
    | Some s' => s' = example_state ∧
        trace w' = trace connected_world ++ (Wrote 0 <$> farewell_frames example_ids connected_world)
    | None => Discarded 0 ∈ trace w'
    end.
Proof.
  destruct (exec (example_env [Finish; Finish;
              Give (lines ["RECEIPT"; "receipt-id:A"]%string ++ [x0a; x00])]) 0 0
              (lifespan_exit example_ids 10 0 example_server) connected_world)
    as [[[[[]|e] w'] n]|] eqn:E; try (vm_compute in E; discriminate E).
  assert (NoDup (get_ids connected_world)) as Hnd
    by (apply (bool_decide_unpack _); vm_compute; exact I).
  exists w', n. split; [reflexivity|].
  pose proof (farewell_is_told example_ids 10 _ 0 example_state example_server connected_world w' n
                (solo_env _) eq_refl Hnd E) as H. exact H.
Defined.

Lemma handshake_needs_heartbeat_witness :
  ∃ w n, exec (example_env [Finish; Give connected_without_heartbeat]) 0 0
    (lifespan_enter (make_lifespan example_client) 10 0 example_server) connected_world =
    Some (Raised (PyError KeyError), w, n).
Proof.
  set (env := example_env [Finish; Give connected_without_heartbeat]).
  set (cl := make_lifespan example_client).
  assert (match connect_frame_headers cl example_server with
          | Ok h =>
            match exec env 0 0 (write_frame 0 (ConnectFrame (Own h))) connected_world with
            | Some (Done _, w1, n1) =>
              match exec env 0 n1 (take_connected_frame 10 0) w1 with
              | Some (Done (Some c, _), _, _) => bool_decide (c = {[us "version" := us "1.2"]})
              | _ => false
              end
            | _ => false
            end
          | Err _ => false
          end = true) as Hrun by (vm_compute; reflexivity).
  destruct (connect_frame_headers cl example_server) as [h|] eqn:Hh; [|discriminate Hrun].
  destruct (exec env 0 0 (write_frame 0 (ConnectFrame (Own h))) connected_world)
    as [[[[[]|e] w1] n1]|] eqn:Hw; [|discriminate Hrun..].
  destruct (exec env 0 n1 (take_connected_frame 10 0) w1)
    as [[[[[[c|] l]|e] w2] n2]|] eqn:Ht; [|discriminate Hrun..].
  apply bool_decide_eq_true in Hrun as ->.
  exists w2, n2.
  exact (proj2 (handshake_needs_heartbeat cl 10 env 0 0 example_server connected_world w1 w2 n1 n2
           h _ l Hh Hw Ht eq_refl eq_refl)).
Defined.

(** CONNECTED and an ERROR in one chunk. *)
Definition connected_headers : headers :=
  <[us "version" := us "1.2"]> {[us "heart-beat" := us "0,0"]}.

Lemma behind_connected_is_lost_witness :
  ∃ raws error w n, mapM wire ([] ++ [ConnectedFrame connected_headers]) = Ok raws ∧
    wire (ErrorFrame {[us "message" := us "full"]} (bs "go away")) = Ok error ∧
    exec (example_env [Give (concat raws ++ error)]) 0 0 (take_connected_frame 10 0) connected_world =
      Some (Done (Some connected_headers, []), w, n).
Proof.
  destruct (mapM wire ([] ++ [ConnectedFrame connected_headers])) as [raws|e] eqn:Hraws;
    [|by vm_compute in Hraws].
  destruct (wire (ErrorFrame {[us "message" := us "full"]} (bs "go away"))) as [error|e] eqn:He;
    [|by vm_compute in He].
  eexists raws, error, _, _. split; [reflexivity|]. split; [reflexivity|].
  refine (proj1 (behind_connected_is_lost (example_env [Give (concat raws ++ error)]) 0
    (make_manager example_client) [] connected_headers raws error 9 0 connected_world
    connected_world 0 1 _ _ Hraws _)).
  - apply (bool_decide_unpack _). vm_compute. exact I.
  - intros h' H. by apply elem_of_nil in H.
  - vm_compute in Hraws, He. injection Hraws as <-. injection He as <-. vm_compute. reflexivity.
Defined.
End witnesses.
