(* ===== verification/Agreement.v ===== *)
(** * What the server knows of the subscriptions

    The subscriptions that a server has been told on a connection, against those the client
    counts as active.  They agree after each operation that returns, if nothing else runs
    meanwhile, also when the connection was lost on the way and found again; two operations
    that overlap with a reconnection can leave them apart for good. *)

From S2P Require Import Prelude Frames Serde FrameParser Config Errors Async World Contract Discipline.
From S2P Require Import Connection Manager ManagerSpec Subscription Transaction Lifespan Replay.
From S2P Require Import Client System Scheduler Exchange.

(** ** The server's view *)

(** A SUBSCRIBE adds a subscription, whatever was told before, and an UNSUBSCRIBE takes away
    those with its identifier. *)
Definition told_by (f : frame headers) (ids : list str) : list str :=
  match f with
  | SubscribeFrame h => match h !! us "id" with Some id => ids ++ [id] | None => ids end
  | UnsubscribeFrame h =>
    match h !! us "id" with Some id => filter (λ id', id' ≠ id) ids | None => ids end
  | _ => ids
  end.

Definition view_step (c : nat) (ids : list str) (a : action) : list str :=
  match a with
  | Opened c' _ => if decide (c' = c) then [] else ids
  | Wrote c' f => if decide (c' = c) then told_by f ids else ids
  | _ => ids
  end.

(** What the server was told on the connection [c]. *)
Definition server_view (c : nat) (l : list action) : list str := foldl (view_step c) [] l.

(** If there is a connection, its server has been told the active subscriptions, each once
    and in the order they were made. *)
Definition agree (w : world) : Prop :=
  match _active_connection_state w with
  | Some s => server_view (connection s) (trace w) = get_ids w
  | None => True
  end.

#[export] Instance agree_dec w : Decision (agree w).
Proof. unfold agree. case_match; apply _. Defined.

(** ** Lemmas *)

Lemma server_view_snoc c l a : server_view c (l ++ [a]) = view_step c (server_view c l) a.
Proof. unfold server_view. by rewrite foldl_app. Qed.

Lemma server_view_wrote c l fs :
  server_view c (l ++ (Wrote c <$> fs)) = foldl (λ ids f, told_by f ids) (server_view c l) fs.
Proof.
  revert l. induction fs as [|f fs IH]; intros l; csimpl; [by rewrite app_nil_r|].
  change (Wrote c f :: ?k) with ([Wrote c f] ++ k). rewrite (assoc_L (++)), IH, server_view_snoc.
  simpl. by rewrite decide_True.
Qed.

(** Frames that are about no subscription. *)
Definition other (f : frame headers) : bool :=
  match f with SubscribeFrame _ | UnsubscribeFrame _ => false | _ => true end.

Lemma told_by_others fs ids :
  Forall (λ f, other f = true) fs → foldl (λ ids f, told_by f ids) ids fs = ids.
Proof. induction 1 as [|f fs Hf _ IH] in ids |- *; [done|]. simpl. rewrite IH. by destruct f. Qed.

Lemma told_resubscribed l σ ids :
  foldl (λ ids f, told_by f ids) ids
    ((λ kv : str * subscription, SubscribeFrame (subscribe_headers kv.1 kv.2 σ)) <$> l) =
  ids ++ l.*1.
Proof.
  revert ids. induction l as [|[id sub] l IH]; intros ids; csimpl; [by rewrite app_nil_r|].
  rewrite IH. unfold subscribe_headers. simplify_map_eq. by rewrite <-(assoc_L (++)).
Qed.

(** A connection that was just opened is told the active subscriptions. *)
Lemma told_on_entering cl p c w :
  server_view c (trace w) = [] →
  server_view c (trace w ++ (Wrote c <$> connect_frames cl p ++ resubscribe_frames w
                                ++ commit_frames w)) = get_ids w.
Proof.
  intros H. rewrite server_view_wrote, !foldl_app, H.
  rewrite (told_by_others (connect_frames cl p))
    by (unfold connect_frames; destruct (connect_frame_headers cl p); by repeat constructor).
  unfold resubscribe_frames. rewrite told_resubscribed. apply told_by_others.
  apply Forall_bind, Forall_true. intros id. apply Forall_app. split; [|by repeat constructor].
  by apply Forall_fmap, Forall_true.
Qed.

Lemma dict_del_keys {V} (key : str) (d : list (str * V)) :
  (dict_del key d).*1 = filter (λ k, k ≠ key) d.*1.
Proof.
  unfold dict_del. induction d as [|[k v] d IH]; [done|]. csimpl. rewrite !filter_cons.
  simpl. case_decide; csimpl; by rewrite IH.
Qed.

Lemma filter_absent (key : str) (l : list str) : key ∉ l → filter (λ k, k ≠ key) l = l.
Proof.
  induction l as [|k l IH]; [done|]. intros [Hk Hl]%not_elem_of_cons.
  rewrite filter_cons_True by (by intros ->). by rewrite IH.
Qed.

Lemma deleted_ids id w : get_ids (delete_by_id id w) = filter (λ k, k ≠ id) (get_ids w).
Proof.
  unfold get_ids. destruct (delete_by_id_subs id w) as [->|[-> Hid]]; [apply dict_del_keys|].
  by rewrite filter_absent.
Qed.

(** ** What one task keeps *)

Section alone.
Context `{AC : AbstractConnection} `{!ConnectionLaws AC}.
Context (env : nat → ∀ a : awaitable, world → world * outcome (answer a)) (i : nat).
Hypothesis env_solo : answers_for (awaits dials) solo i env.

(** The active subscriptions are these, and there is no connection. *)
Definition unconnected (subs : list (str * subscription)) (w : world) : Prop :=
  subscriptions w = subs ∧ _active_connection_state w = None.

(** Every run from such a state ends in one, however it ends. *)
Definition stays_so {A} (subs : list (str * subscription)) (t : M A) : Prop :=
  ∀ n w, unconnected subs w →
    match exec env i n t w with Some (_, w', _) => unconnected subs w' | None => True end.

Section steps.
Context (subs : list (str * subscription)).

Lemma stays_ret {A} (a : A) : stays_so subs (Ret a).
Proof. by intros n w. Qed.

Lemma stays_raise {A} e : stays_so subs (Raise e : M A).
Proof. by intros n w. Qed.

Lemma stays_of_outcome {A} (o : outcome A) : stays_so subs (of_outcome o).
Proof. by destruct o; intros n w. Qed.

Lemma stays_sync {A X} (f : nat → world → world * X) (k : X → M A) :
  (∀ w, unconnected subs w → unconnected subs (f i w).1) → (∀ x, stays_so subs (k x)) →
  stays_so subs (Sync f k).
Proof.
  intros Hf Hk n w Hw. simpl. specialize (Hf w Hw). destruct (f i w) as [w' x]. by apply Hk.
Qed.

Lemma stays_get {A} (k : world → M A) : (∀ w, stays_so subs (k w)) → stays_so subs (get ≫= k).
Proof. intros Hk n w Hw. by apply Hk. Qed.

Lemma stays_modify f :
  (∀ w, unconnected subs w → unconnected subs (f w)) → stays_so subs (modify f).
Proof. intros Hf. by apply stays_sync; [|intros []; apply stays_ret]. Qed.

Lemma stays_await a : stays_so subs (await a).
Proof.
  intros n w Hw. simpl. destruct (env_solo n a w) as (w1 & [t ->] & Ha).
  destruct (env n a w) as [w2 r]. cbn [fst snd] in Ha.
  assert (unconnected subs w2) as Hw2; [|by apply stays_of_outcome].
  destruct Ha as [H|[_ H]]; destruct a; simpl in H;
    repeat match goal with
      | H : _ ∨ _ |- _ => destruct H
      | H : _ ∧ _ |- _ => destruct H
      | H : ∃ _, _ |- _ => destruct H
      end; subst; exact Hw.
Qed.

Lemma stays_handle {A C} (t : M A) (k : outcome A → M C) :
  stays_so subs t → (∀ o, stays_so subs (k o)) → stays_so subs (handle t k).
Proof.
  intros Ht Hk n w Hw. rewrite exec_handle. specialize (Ht n w Hw).
  destruct (exec env i n t w) as [[[o w'] n']|]; [by apply Hk|done].
Qed.

Lemma stays_bind {A C} (t : M A) (k : A → M C) :
  stays_so subs t → (∀ a, stays_so subs (k a)) → stays_so subs (t ≫= k).
Proof.
  intros Ht Hk n w Hw. unfold mbind, prog_bind. rewrite exec_bind. specialize (Ht n w Hw).
  destruct (exec env i n t w) as [[[[a|e] w'] n']|]; [by apply Hk|done..].
Qed.

Lemma stays_for_each {A} (l : list A) body :
  (∀ x, stays_so subs (body x)) → stays_so subs (for_each l body).
Proof. intros Hb. induction l; [apply stays_ret|]. by apply stays_bind. Qed.

Lemma stays_while_loop {S A : Type} fuel (body : S → M (S + A)) s :
  (∀ s, stays_so subs (body s)) → stays_so subs (while_loop fuel body s).
Proof.
  intros Hb. revert s. induction fuel as [|fuel IH]; intros s; [by intros n w|].
  apply stays_bind; [done|]. intros [s'|a]; [apply IH|apply stays_ret].
Qed.

(** An operation whose laws say what its steps do. *)
Lemma stays_law (G : world → world → Prop) {A} (t : M A) (B : Prop) :
  (∀ w w', G w w' → unconnected subs w → unconnected subs w') →
  (∀ w, ∃ Q, wp (awaits dials) solo G i B t Q w) → stays_so subs t.
Proof.
  intros HG Ht n w Hw. destruct (Ht w) as [Q H]. clear Ht; rename H into Ht.
  apply (wp_keep _ _ _ _ _ t (unconnected subs)) in Ht; [|by intros w1 w2 [t' ->]|done|done].
  apply (wp_exec _ _ _ _ _ env n) in Ht; [|done].
  by destruct (exec env i n t w) as [[[o w'] n']|]; [destruct Ht|].
Qed.
End steps.

Lemma solo_grows w w' : solo w w' → grows w w'.
Proof. intros [t ->]. by exists []; rewrite app_nil_r. Qed.

Lemma stays_write_frame subs c f : stays_so subs (write_frame c f).
Proof.
  eapply stays_law; [|intros w; eexists; apply (write_frame_law solo), solo_grows].
  by intros w w' [->|[σ ->]].
Qed.

Lemma stays_close subs c : stays_so subs (close c).
Proof.
  eapply stays_law; [|intros w; eexists; apply (close_law solo), solo_grows]. by intros w w' [->| ->].
Qed.

Lemma stays_read_bytes subs c timed : stays_so subs (read_bytes c timed).
Proof. eapply stays_law; [|intros w; eexists; apply (read_bytes_law solo)]. by intros w w' ->. Qed.
End alone.

Create HintDb stays.
#[export] Hint Resolve stays_ret stays_raise stays_of_outcome stays_write_frame stays_close
  stays_read_bytes : stays.

(** One step through the code of an operation. *)
Ltac stays_step :=
  lazymatch goal with
  | |- ∀ _, _ => intros ?
  | |- stays_so _ _ _ (get ≫= _) => apply stays_get
  | |- stays_so _ _ _ (_ ≫= _) => apply stays_bind
  | |- stays_so _ _ _ (handle _ _) => apply stays_handle
  | |- stays_so _ _ _ (for_each _ _) => apply stays_for_each
  | |- stays_so _ _ _ (while_loop _ _ _) => apply stays_while_loop
  | |- stays_so _ _ _ (await _) => by apply stays_await
  | |- stays_so _ _ _ (modify _) => apply stays_modify; by intros ? []
  | |- stays_so _ _ _ (gets _) => apply stays_sync; [done|]
  | |- stays_so _ _ _ (mret _) => apply stays_ret
  | |- stays_so _ _ _ (catch_lost _ _) => unfold catch_lost
  | |- stays_so _ _ _ (match ?x with _ => _ end) => destruct x
  end.

Ltac stays := repeat (solve [eauto with stays] || stays_step).

Section entering.
Context `{AC : AbstractConnection} `{!ConnectionLaws AC}.
Context (env : nat → ∀ a : awaitable, world → world * outcome (answer a)) (i : nat).
Hypothesis env_solo : answers_for (awaits dials) solo i env.
Context (cl : ConnectionLifespan) (uuid4 : nat → str) (fuel : nat).
#[local] Instance entering_lifespan : AbstractConnectionLifespan := lifespan cl uuid4 fuel.
Context (subs : list (str * subscription)).
Local Abbreviation run n t w := (exec env i n t w).
Local Abbreviation stays_so := (stays_so env i subs).

Lemma stays_read_chunk c timed p : stays_so (read_frames_chunk c timed p).
Proof. unfold read_frames_chunk. stays. Qed.

Lemma stays_restart hb : stays_so (_restart_background_tasks hb).
Proof.
  unfold _restart_background_tasks, create_group_task. stays. apply stays_sync; [|stays].
  intros w' Hw. by destruct (_task_group w').
Qed.

Lemma stays_commit c n ids : stays_so (commit_transactions fuel c n ids).
Proof.
  induction ids as [|id ids IH]; cbn [commit_transactions]; unfold replay_frames; stays.
Qed.

Lemma stays_enter c p : stays_so (enter c p).
Proof.
  change (enter c p) with (lifespan_enter cl fuel c p).
  unfold lifespan_enter, _establish_connection, take_connected_frame, take_connected_round,
    resubscribe_to_active_subscriptions, commit_pending_transactions, getitem.
  stays; auto using stays_read_chunk, stays_restart, stays_commit.
Qed.

(** ** Connecting *)

(** There is no connection yet, and the server of [c] has been told nothing. *)
Definition untold (c : nat) (w : world) : Prop :=
  unconnected subs w ∧ server_view c (trace w) = [].

Lemma next_connection_untold k pending n w :
  unconnected subs w →
  match run n (next_connection k pending) w with
  | Some (Done (Some (c, _)), w', _) => untold c w'
  | Some (_, w', _) => unconnected subs w'
  | None => True
  end.
Proof.
  revert pending n w. induction k as [|k IH]; intros pending n w Hw; [done|].
  cbn [next_connection]. rewrite exec_handle. unfold next_completed, await. cbn [exec].
  destruct (env_solo n (NextConnection pending) w) as (w1 & [t ->] & Ha).
  destruct (env n (NextConnection pending) w) as [w2 r]. cbn [fst snd] in Ha.
  destruct Ha as [(j & server & Hj & [(c & _ & _ & -> & ->)|(e & _ & -> & ->)])|[-> ->]];
    cbn [of_outcome exec]; cbv beta iota; [rewrite Hj..|by cbn].
  - destruct (connect server (Done c)) as [[c'|]|e] eqn:Hc; [| |by cbn].
    + apply connect_opened in Hc as [= ->]. cbn. split; [done|].
      change (server_view c' (trace w ++ [Opened c' server]) = []).
      rewrite server_view_snoc. simpl. by rewrite decide_True.
    + by apply IH.
  - destruct (connect server (Raised e)) as [[c'|]|e'] eqn:Hc; [| |by cbn].
    + by apply connect_opened in Hc.
    + by apply IH.
Qed.

(** The server of [c] has been told the active subscriptions, and [c] is about to be the
    connection. *)
Definition told_all (c : nat) (w : world) : Prop :=
  unconnected subs w ∧ server_view c (trace w) = subs.*1.

Lemma enter_tells c p n w :
  untold c w →
  match run n (enter c p) w with
  | Some (Done (inl _), w', _) => told_all c w'
  | Some (_, w', _) => unconnected subs w'
  | None => True
  end.
Proof.
  intros [Hw Hv]. pose proof (stays_enter c p n w Hw) as Hs.
  pose proof (lifespan_enter_alone cl fuel i True c p w I) as H.
  apply (wp_exec _ _ _ _ _ env n) in H; [|done].
  change (enter c p) with (lifespan_enter cl fuel c p) in *.
  destruct (run n (lifespan_enter cl fuel c p) w) as [[[[[hb|issue]|e] w'] n']|]; try done.
  split; [done|]. destruct H as (-> & _ & _). rewrite told_on_entering by done.
  unfold get_ids. by destruct Hw as [-> _].
Qed.

Lemma try_connection_tells c server n w :
  untold c w →
  match run n (try_connection c server) w with
  | Some (Done (inl s), w', _) => connection s = c ∧ told_all c w'
  | Some (_, w', _) => unconnected subs w'
  | None => True
  end.
Proof.
  intros Hw. unfold try_connection. rewrite exec_handle. unfold enter_lifespan, catch_lost.
  rewrite exec_handle. unfold mbind, prog_bind. rewrite exec_bind.
  pose proof (enter_tells c server n w Hw) as H.
  assert (∀ (o : outcome (ActiveConnectionState + connection_issue)) m w1,
    match o with Done (inl _) => False | _ => True end → unconnected subs w1 →
    match run m (_ ← close c; of_outcome o) w1 with
    | Some (Done (inl s), w', _) => connection s = c ∧ told_all c w'
    | Some (_, w', _) => unconnected subs w'
    | None => True
    end) as Hclose.
  { intros o m w1 Ho Hw1. unfold mbind, prog_bind. rewrite exec_bind.
    pose proof (stays_close env i env_solo subs c m w1 Hw1) as Hc.
    destruct (run m (close c) w1) as [[[[[]|e] w2] m2]|]; [|done..].
    by destruct o as [[s|issue]|e]. }
  destruct (run n (enter c server) w) as [[[[[hb|issue]|e] w'] n']|]; [..|done].
  - by cbn.
  - cbn [exec mret prog_ret]. by apply (Hclose (Done (inr issue))).
  - destruct e; cbn [exec mret prog_ret of_outcome]; first [by apply (Hclose (Raised _))
      |by apply (Hclose (Done (inr ConnectionLostOnLifespanEnter)))].
Qed.

Lemma connect_to_any_server_tells cm n w :
  unconnected subs w →
  match run n (_connect_to_any_server cm) w with
  | Some (Done (inl s), w', _) => told_all (connection s) w'
  | Some (_, w', _) => unconnected subs w'
  | None => True
  end.
Proof.
  intros Hw. unfold _connect_to_any_server, _create_connection_to_any_server, mbind, prog_bind.
  rewrite exec_bind.
  pose proof (next_connection_untold (length (servers cm)) (servers cm) n w Hw) as H.
  destruct (run n (next_connection _ _) w) as [[[[[[c server]|]|e] w'] n']|]; [|done..].
  pose proof (try_connection_tells c server n' w' H) as H'.
  by destruct (run n' (try_connection c server) w') as [[[[[s|]|e] w''] n'']|];
    [destruct H' as [-> H']|..].
Qed.

(** The connection of [s] is active, and its server has been told everything. *)
Definition connected (s : ActiveConnectionState) (w : world) : Prop :=
  subscriptions w = subs ∧ _active_connection_state w = Some s ∧
  server_view (connection s) (trace w) = subs.*1.

Lemma connected_same s w w' :
  subscriptions w' = subscriptions w →
  _active_connection_state w' = _active_connection_state w →
  server_view (connection s) (trace w') = server_view (connection s) (trace w) →
  connected s w → connected s w'.
Proof. by intros H1 H2 H3 (H4 & H5 & H6); split_and!; etrans. Qed.

Lemma connected_log s l msg w : connected s w → connected s (log l msg w).
Proof.
  apply connected_same; [done..|]. unfold log, record_action. cbn [trace set_trace].
  by rewrite server_view_snoc.
Qed.

Lemma install_keeps_telling cm s b n w :
  told_all (connection s) w →
  match run n (install cm s b) w with
  | Some (_, w', _) => connected s w'
  | None => False
  end.
Proof.
  intros [[Hs Ha] Hv]. unfold install.
  assert (connected s (mark_installed s w)) as H.
  { split; [done|]. split; [done|]. unfold mark_installed, record_action. cbn [trace set_trace].
    by rewrite server_view_snoc. }
  set (w1 := mark_installed s w) in *.
  assert (connected s (cancel_monitor (set_last_message_received_time (now w1) w1))) as H1.
  { unfold cancel_monitor. destruct (_monitor_no_message_task _);
      by apply (connected_same s w1). }
  unfold mbind, prog_bind, modify. cbn [bind exec]. fold w1. cbv beta iota.
  unfold _restart_no_message_monitor, mbind, prog_bind, modify. cbn [bind exec]. cbv beta iota.
  set (w2 := cancel_monitor (set_last_message_received_time (now w1) w1)) in *. clearbody w2.
  destruct (no_message_restart_interval cm) as [ms|]; cbn [bind exec mret prog_ret].
  - unfold create_group_task, mbind, prog_bind, sync. cbn [bind exec].
    destruct (_task_group w2); cbn [bind exec mret prog_ret create_task]; cbv beta iota; try done.
    destruct b; cbn [bind exec mret prog_ret]; [|apply connected_log];
      by apply (connected_same s w2).
  - destruct b; cbn [exec mret prog_ret]; [done|]. by apply connected_log.
Qed.

(** No connection, or one whose server has been told everything. *)
Definition settled (w : world) : Prop := unconnected subs w ∨ ∃ s, connected s w.

Lemma settled_agree w : settled w ↔ subscriptions w = subs ∧ agree w.
Proof.
  unfold settled, unconnected, connected, agree, get_ids. split.
  - by intros [[Hs ->]|(s & Hs & -> & Hv)]; rewrite Hs.
  - intros [Hs Ha]. destruct (_active_connection_state w) as [s|]; [right|by left].
    exists s. by rewrite <-Hs.
Qed.

(** What looking for a connection leads to. *)
Definition looked {A} (found : A → world → Prop) (r : option (outcome A * world * nat)) : Prop :=
  match r with
  | Some (Done a, w', _) => found a w'
  | Some (Raised _, w', _) => settled w'
  | None => True
  end.

Lemma looked_bind {A C} (t : M A) (k : A → M C) found found' n w :
  looked found (run n t w) →
  (∀ a m w', found a w' → looked found' (run m (k a) w')) →
  looked found' (run n (t ≫= k) w).
Proof.
  intros Ht Hk. unfold mbind, prog_bind. rewrite exec_bind.
  destruct (run n t w) as [[[[a|e] w'] n']|]; [by apply Hk|done..].
Qed.

Lemma looked_stays {A} (t : M A) n w :
  stays_so t → unconnected subs w → looked (λ _, unconnected subs) (run n t w).
Proof.
  intros Ht Hw. specialize (Ht n w Hw). destruct (run n t w) as [[[[a|e] w'] n']|]; [done| |done].
  by left.
Qed.

Lemma connect_attempts_tells cm b attempt k issues n w :
  unconnected subs w →
  looked (λ r, match r with inl s => connected s | inr _ => unconnected subs end)
    (run n (connect_attempts cm b attempt k issues) w).
Proof.
  revert attempt issues n w. induction k as [|k IH]; intros attempt issues n w Hw; [done|].
  cbn [connect_attempts].
  apply (looked_bind _ _ (λ r, match r with inl s => told_all (connection s)
                                          | inr _ => unconnected subs end)).
  { pose proof (connect_to_any_server_tells cm n w Hw) as H.
    destruct (run n (_connect_to_any_server cm) w) as [[[[[s|issue]|e] w'] n']|]; try done.
    by left. }
  intros [s|issue] m w' Hw'.
  - apply (looked_bind _ _ (λ _, connected s)); [|by intros []].
    pose proof (install_keeps_telling cm s b m w' Hw') as H.
    destruct (run m (install cm s b) w') as [[[[[]|e] w''] m']|]; [done| |done].
    right. by exists s.
  - apply (looked_bind _ _ (λ _, unconnected subs)); [|by intros []; apply IH].
    apply looked_stays; [|done]. by apply (stays_await env i env_solo subs (Sleep _)).
Qed.

(** Other fields do not matter. *)
Lemma settled_lock x w : settled w → settled (set_lock x w).
Proof. intros [H|[s H]]; [by left|]. right. by exists s. Qed.

Lemma get_active_tells cm b n w :
  settled w → looked connected (run n (_get_active_connection_state cm b) w).
Proof.
  intros Hw. unfold _get_active_connection_state.
  apply (looked_bind _ _ (λ w0 w', w0 = w ∧ w' = w)); [done|].
  intros ? m ? [-> ->]. destruct (_active_connection_state w) as [s|] eqn:Hs.
  { destruct Hw as [[_ Ha]|(s' & H1 & H2 & H3)]; [congruence|].
    rewrite H2 in Hs. by injection Hs as ->. }
  assert (unconnected subs w) as Hu.
  { destruct Hw as [?|(s & _ & ? & _)]; [done|congruence]. }
  apply (looked_bind _ _ (λ r, match r with inl s => connected s | inr _ => unconnected subs end)).
  2: { intros [s|issues] m' w' H'; [done|by left]. }
  unfold with_lock. apply (looked_bind _ _ (λ _, unconnected subs)).
  { apply looked_stays; [|done]. by apply (stays_await env i env_solo subs AcquireLock). }
  intros [] m' w' Hu'. unfold try_finally. rewrite exec_handle.
  set (t := get ≫= _). assert (looked (λ r, match r with inl s => connected s
                                         | inr _ => unconnected subs end) (run m' t w')) as Ht.
  { apply (looked_bind _ _ (λ w0 w', w0 = w' ∧ unconnected subs w')); [done|].
    intros ? m1 w1 [-> Hu1]. destruct (_active_connection_state w1) eqn:Ha1.
    - destruct Hu1; congruence.
    - by apply connect_attempts_tells. }
  destruct (run m' t w') as [[[[r|e] w''] m'']|]; [..|done]; cbn.
  - destruct r as [s|issues]; [by apply (connected_same s w'')|done].
  - by apply settled_lock.
Qed.

(** ** Writing *)

(** The frame has been written on the active connection, which had been told everything. *)
Definition told_then (f : frame headers) (w : world) : Prop :=
  subscriptions w = subs ∧ ∃ s, _active_connection_state w = Some s ∧
  server_view (connection s) (trace w) = told_by f subs.*1.

Definition if_done {A} (Q : world → Prop) (r : option (outcome A * world * nat)) : Prop :=
  match r with Some (Done _, w', _) => Q w' | _ => True end.

Lemma write_frame_tells s f fr n w :
  (∀ σ, snapshot σ f = fr) → connected s w →
  match run n (write_frame (connection s) f) w with
  | Some (Done _, w', _) => told_then fr w'
  | Some (Raised _, w', _) => subscriptions w' = subs ∧ _active_connection_state w' = Some s
  | None => False
  end.
Proof.
  intros Hf (H1 & H2 & H3). pose proof (write_frame_solo i (connection s) f w) as H.
  apply (wp_exec _ _ _ _ _ env n) in H; [|done].
  destruct (run n (write_frame (connection s) f) w) as [[[[[]|e] w'] n']|]; [| |done].
  - destruct H as (_ & t & [-> |[_ ?]]); [|done]. split; [done|]. exists s. split; [done|].
    unfold record_action. cbn [trace set_trace set_now]. rewrite server_view_snoc, H3, Hf. simpl.
    by rewrite decide_True.
  - by destruct H as (_ & t & [-> |[-> _]]).
Qed.

Lemma discard_unconnects s reason n w :
  subscriptions w = subs → _active_connection_state w = Some s →
  match run n (_discard_failed_connection_state s reason) w with
  | Some (_, w', _) => unconnected subs w'
  | None => True
  end.
Proof.
  intros H1 H2. unfold _discard_failed_connection_state, mbind, prog_bind, get, modify.
  cbn [bind exec]. assert (is_active s w = true) as -> by (apply is_active_spec; by rewrite H2).
  cbn [bind exec]. by apply (stays_close env i env_solo subs).
Qed.

Lemma write_tells cm f fr n w :
  (∀ σ, snapshot σ f = fr) → settled w →
  if_done (told_then fr) (run n (write_frame_reconnecting cm f) w).
Proof.
  intros Hf. unfold write_frame_reconnecting.
  induction (Z.to_nat (write_retry_attempts cm)) as [|k IH] in n, w |- *; intros Hw; [done|].
  cbn [write_attempts]. unfold mbind, prog_bind. rewrite exec_bind.
  pose proof (get_active_tells cm false n w Hw) as H.
  destruct (run n (_get_active_connection_state cm false) w) as [[[[s|e] w1] n1]|]; [|done..].
  unfold catch_lost. rewrite exec_bind, exec_handle, exec_bind.
  pose proof (write_frame_tells s f fr n1 w1 Hf H) as H'.
  destruct (run n1 (write_frame (connection s) f) w1) as [[[[[]|e] w2] n2]|]; [done| |done].
  destruct e; try done. destruct H' as [Hs2 Ha2]. cbn [exec]. rewrite exec_bind.
  pose proof (discard_unconnects s reason n2 w2 Hs2 Ha2) as H3.
  destruct (run n2 (_discard_failed_connection_state s reason) w2) as [[[[[]|e] w3] n3]|];
    [|done..]. apply IH. by left.
Qed.

(** A frame that is written if there is a connection. *)
Lemma maybe_write_tells f fr ids n w :
  (∀ σ, snapshot σ f = fr) → subscriptions w = subs →
  match _active_connection_state w with
  | Some s => server_view (connection s) (trace w) = ids
  | None => True
  end →
  if_done (λ w', subscriptions w' = subs ∧
                 match _active_connection_state w' with
                 | Some s => server_view (connection s) (trace w') = told_by fr ids
                 | None => True
                 end) (run n (maybe_write_frame f) w).
Proof.
  intros Hf Hs Hv. unfold maybe_write_frame, mbind, prog_bind, get, modify. cbn [bind exec].
  destruct (_active_connection_state w) as [s|] eqn:Ha; cbn [bind exec mret prog_ret].
  - unfold catch_lost. rewrite exec_handle, exec_bind.
    pose proof (write_frame_solo i (connection s) f w) as H.
    apply (wp_exec _ _ _ _ _ env n) in H; [|done].
    destruct (run n (write_frame (connection s) f) w) as [[[[[]|e] w'] n']|]; [| |done].
    + destruct H as (_ & t & [-> |[_ ?]]); [|done]. split; [done|]. simpl. rewrite Ha, Hf.
      rewrite server_view_snoc, Hv. simpl. by rewrite decide_True.
    + assert (subscriptions w' = subs ∧ _active_connection_state w' = Some s) as [H1 H2]
        by (by destruct H as (_ & t & [-> |[-> _]])).
      destruct e; try done. cbn [bind exec]. rewrite exec_bind.
      set (w1 := log_dropped_frame f "connection lost mid-write" w').
      pose proof (discard_unconnects s reason n' w1) as H3.
      assert (subscriptions w1 = subs ∧ _active_connection_state w1 = Some s) as [H4 H5]
        by (unfold w1, log_dropped_frame; by destruct f). specialize (H3 H4 H5).
      destruct (run n' (_discard_failed_connection_state s reason) w1) as [[[[[]|e] w2] n2]|];
        [|done..]. destruct H3 as [H6 H7]. split; [done|]. by rewrite H7.
  - unfold log_dropped_frame. split; [by destruct f|]. by destruct f; simpl; rewrite Ha.
Qed.
End entering.

(** ** The operations of the client *)

Section client.
Context `{AC : AbstractConnection} `{!ConnectionLaws AC} (cl : Client).
Context (uuid4 : nat → str) (fuel : nat).
Context (env : nat → ∀ a : awaitable, world → world * outcome (answer a)) (i : nat).

(** C10: a client and its server agree on the subscriptions after a subscription was made
    and after one was ended, if they did before, nothing else runs meanwhile and the
    operation returns: then, if there is a connection, its server has been told exactly the
    active subscriptions, each once and in their order.  The connection need not be the one
    from before: a new one is told them all. *)
Theorem subscriptions_agree sub id w :
  answers_for (awaits dials) solo i env →
  agree w → uuid4 (uuids w) ∉ get_ids w →
  match exec env i 0 (subscribe cl uuid4 fuel sub) w with
  | Some (Done id', w', _) =>
    agree w' ∧ is_Some (_active_connection_state w') ∧ get_ids w' = get_ids w ++ [id']
  | _ => True
  end ∧
  match exec env i 0 (unsubscribe id) w with
  | Some (Done _, w', _) => agree w' ∧ get_ids w' = filter (λ id', id' ≠ id) (get_ids w)
  | _ => True
  end.
Proof.
  intros Henv Ha Hid. split.
  - unfold subscribe, make_id, _subscribe, mbind, prog_bind, sync, get. cbn [bind exec]. cbv beta iota.
    set (id' := uuid4 (uuids w)) in *. set (w1 := set_uuids _ w). rewrite !exec_bind.
    set (f := subscribe_frame id' sub (dicts w1)).
    pose proof (write_tells env i Henv (make_lifespan cl) uuid4 fuel (subscriptions w) (make_manager cl) f
                  (snapshot [] f) 0 w1) as H.
    rewrite settled_agree in H.
    change (lifespan (make_lifespan cl) uuid4 fuel) with (client_lifespan cl uuid4 fuel) in H.
    specialize (H (λ σ, eq_refl) (conj eq_refl Ha)).
    destruct (exec env i 0 (write_frame_reconnecting (make_manager cl) f) w1)
      as [[[[[]|e] w2] n2]|]; [|done..].
    destruct H as (Hs & s & Hact & Hv). cbn [exec modify]. cbv beta iota.
    assert (get_ids (add_subscription id' sub w2) = get_ids w ++ [id']) as Hids.
    { unfold get_ids. cbn [subscriptions add_subscription set_event set_subscriptions].
      rewrite Hs, dict_set_keys. by rewrite decide_False. }
    split_and!; [|by eexists|done]. unfold agree. rewrite Hids. simpl. rewrite Hact, Hv.
    unfold f, subscribe_frame, SubscribeFrame_build. simpl. by simplify_map_eq.
  - unfold unsubscribe, mbind, prog_bind, modify. cbn [bind exec]. cbv beta iota.
    rewrite exec_bind. destruct (deleted_keeps id w) as (H1 & _ & H2).
    pose proof (deleted_ids id w) as H3. set (w1 := delete_by_id id w) in *. clearbody w1.
    pose proof (maybe_write_tells env i Henv (subscriptions w1)
                  (UnsubscribeFrame (Own {[us "id" := id]})) (unsubscribe_frame id) (get_ids w) 0 w1
                  (λ σ, eq_refl) eq_refl) as H.
    rewrite H1, H2 in H. specialize (H Ha).
    destruct (exec env i 0 _ w1) as [[[[b|e] w2] n2]|]; [|done..]. destruct H as [Hs Hv].
    assert (get_ids w2 = filter (λ id', id' ≠ id) (get_ids w)) as Hids
      by (unfold get_ids in *; by rewrite Hs).
    cbn [exec mret prog_ret]. split; [|done]. unfold agree. rewrite Hids.
    destruct (_active_connection_state w2) as [s|]; [|done]. rewrite Hv. unfold unsubscribe_frame. simpl.
    by simplify_map_eq.
Qed.
End client.

(** ** Operations that overlap with a reconnection *)

(** The SUBSCRIBE frame is on its way to the server when the connection is found lost; the
    write returns after the new connection is there, and the subscription counts as active
    from then on. *)
Definition subscribed_across : list choice :=
  entered ++ [Start 2; Call (Subscribe example_subscription); Resume 1 (Give []);
              Resume 1 Finish] ++ handshake 1 1 ++ [Resume 2 Finish].

(** The subscription is being made again on the new connection when it is ended; there is no
    active connection yet to write the UNSUBSCRIBE frame to. *)
Definition unsubscribed_across : list choice :=
  entered ++ [Start 2; Call (Subscribe example_subscription); Resume 2 Finish;
              Resume 1 (Give []); Resume 1 Finish] ++ handshake 1 1
    ++ [Call (Unsubscribe (us "A")); Resume 1 Finish].

(** What the task of the operation has become, the connection, the active subscriptions and
    those the server knows. *)
Definition comparison (k : nat) (c : list (M unit) * world)
  : bool * option nat * list str * list str :=
  (has_returned k c.1, connection <$> _active_connection_state c.2, get_ids c.2,
   server_view 1 (trace c.2)).

(** C35: client and server can disagree on the subscriptions for good, although every
    operation has returned and the connection is up: in one reachable run a subscription is
    active that the server of the new connection was never told; in another the server of
    the new connection has a subscription that the client has ended, so that what it sends
    for it is never handled nor acknowledged. *)
Theorem subscriptions_drift_apart :
  (∃ ts w, example_play subscribed_across = Some (ts, w) ∧
     reachable_world (AC := Connection) example_client example_ids 10 [] 0 w ∧
     comparison 2 (ts, w) = (true, Some 1, [us "A"], []) ∧ ¬ agree w) ∧
  (∃ ts w, example_play unsubscribed_across = Some (ts, w) ∧
     reachable_world (AC := Connection) example_client example_ids 10 [] 0 w ∧
     comparison 3 (ts, w) = (true, Some 1, [], [us "A"]) ∧ ¬ agree w).
Proof.
  split.
  - apply (example_fact subscribed_across (λ c, comparison 2 c = _ ∧ ¬ agree c.2)).
    vm_compute. split; [reflexivity|discriminate].
  - apply (example_fact unsubscribed_across (λ c, comparison 3 c = _ ∧ ¬ agree c.2)).
    vm_compute. split; [reflexivity|discriminate].
Qed.

(** ** Witness *)

(** No transaction is active. *)
Definition told_world : world := set_active_transactions ∅ (set_uuids 1 connected_world).

(** The SUBSCRIBE frame is lost with the connection, and written again on a new one. *)
Definition losing_env : nat → ∀ a : awaitable, world → world * outcome (answer a) :=
  example_env [Fault ConnectionError; Finish; Finish; Connect 0 1; Finish; Give connected_bytes;
               Finish; Finish].

Lemma subscriptions_agree_witness :
  agree told_world ∧ get_ids told_world = [us "A"] ∧
  (∃ w' n, exec losing_env 0 0 (subscribe (AC := Connection) example_client example_ids 10
                                  example_subscription) told_world = Some (Done (us "B"), w', n) ∧
     agree w' ∧ is_Some (_active_connection_state w') ∧
     get_ids w' = get_ids told_world ++ [us "B"]) ∧
  (∃ w' n, exec losing_env 0 0 (unsubscribe (H := Connection) (us "A")) told_world =
             Some (Done tt, w', n) ∧
     agree w' ∧ get_ids w' = filter (λ id', id' ≠ us "A") (get_ids told_world)).
Proof.
  assert (agree told_world) as Ha by (apply (bool_decide_unpack _); vm_compute; exact I).
  assert (example_ids (uuids told_world) ∉ get_ids told_world) as Hid
    by (apply (bool_decide_unpack _); vm_compute; exact I).
  pose proof (subscriptions_agree (AC := Connection) example_client example_ids 10 losing_env 0
                example_subscription (us "A") told_world (solo_env _) Ha Hid) as [H1 H2].
  split; [exact Ha|]. split; [reflexivity|]. split.
  - destruct (exec losing_env 0 0 (subscribe _ _ _ _) told_world) as [[[[id|e] w'] n]|] eqn:E;
      try (vm_compute in E; discriminate E).
    assert (match exec losing_env 0 0 (subscribe (AC := Connection) example_client example_ids 10
                    example_subscription) told_world with
            | Some (Done id, _, _) => bool_decide (id = us "B") | _ => false end = true) as Hb
      by (vm_compute; reflexivity).
    rewrite E in Hb. apply bool_decide_eq_true in Hb as ->. exists w', n.
    split; [reflexivity|exact H1].
  - destruct (exec losing_env 0 0 (unsubscribe _) told_world) as [[[[[]|e] w'] n]|] eqn:E;
      try (vm_compute in E; discriminate E).
    exists w', n. split; [reflexivity|exact H2].
Defined.
