(* ===== verification/Termination.v ===== *)
(** * What comes to an end

    The retry loops of the manager are bounded, so that a write comes to an end whenever
    entering a connection does; and entering one does, if its reads in the end time out. *)

From S2P Require Import Prelude Frames Serde FrameParser Config Errors Async World Contract Discipline.
From S2P Require Import Connection Manager ManagerSpec Subscription Transaction Lifespan Replay.
From S2P Require Import Client System Scheduler Reconnection.

(** ** Total operations *)

Create HintDb total.

Section total.
Context (env : nat → ∀ a : awaitable, world → world * outcome (answer a)) (i : nat).

(** Run against [env], the operation ends, from wherever it starts. *)
Definition total {A} (t : M A) : Prop := ∀ n w, exec env i n t w ≠ None.

Lemma total_exec {A} (t : M A) n w : total t → exec env i n t w ≠ None.
Proof. intros Ht. apply Ht. Qed.

Lemma total_intro {A} (t : M A) : (∀ n w, exec env i n t w ≠ None) → total t.
Proof. done. Qed.

Lemma total_ret {A} (a : A) : total (Ret a).
Proof. done. Qed.

Lemma total_raise {A} e : total (Raise e : M A).
Proof. done. Qed.

Lemma total_sync {A X} (f : nat → world → world * X) (k : X → M A) :
  (∀ x, total (k x)) → total (Sync f k).
Proof. intros Hk n w. simpl. destruct (f i w) as [w' x]. apply Hk. Qed.

Lemma total_of_outcome {A} (o : outcome A) : total (of_outcome o).
Proof. by destruct o. Qed.

Lemma total_await a : total (await a).
Proof. intros n w. simpl. destruct (env n a w) as [w' r]. apply total_of_outcome. Qed.

Lemma total_bind {A C} (t : M A) (k : A → M C) :
  total t → (∀ a, total (k a)) → total (bind t k).
Proof.
  intros Ht Hk n w. rewrite exec_bind. specialize (Ht n w).
  destruct (exec env i n t w) as [[[[a|e] w'] n']|]; [apply Hk|done..].
Qed.

Lemma total_mbind {A C} (t : M A) (k : A → M C) :
  total t → (∀ a, total (k a)) → total (t ≫= k).
Proof. apply total_bind. Qed.

Lemma total_handle {A C} (t : M A) (k : outcome A → M C) :
  total t → (∀ o, total (k o)) → total (handle t k).
Proof.
  intros Ht Hk n w. rewrite exec_handle. specialize (Ht n w).
  destruct (exec env i n t w) as [[[o w'] n']|]; [apply Hk|done].
Qed.

Lemma total_try_except {A} (t : M A) catches (h : exn → M A) :
  total t → (∀ e, total (h e)) → total (try_except t catches h).
Proof.
  intros Ht Hh. apply total_handle; [done|]. intros [a|e]; [done|]. by destruct (catches e).
Qed.

Lemma total_try_finally {A} (t : M A) f : total t → total f → total (try_finally t f).
Proof.
  intros Ht Hf. apply total_handle; [done|]. intros o. apply total_bind; [done|].
  intros _. apply total_of_outcome.
Qed.

Lemma total_for_each {A} (l : list A) body :
  (∀ x, total (body x)) → total (for_each l body).
Proof. intros Hb. induction l; [done|]. by apply total_bind. Qed.
End total.

#[export] Hint Resolve total_ret total_raise total_of_outcome total_await : total.
#[global] Opaque total.

(** One step through the code of an operation. *)
Ltac total_step :=
  match goal with
  | |- ∀ _, _ => intros ?
  | |- total _ _ (_ ≫= _) => apply total_mbind
  | |- total _ _ (bind _ _) => apply total_bind
  | |- total _ _ (handle _ _) => apply total_handle
  | |- total _ _ (try_except _ _ _) => apply total_try_except
  | |- total _ _ (try_finally _ _) => apply total_try_finally
  | |- total _ _ (for_each _ _) => apply total_for_each
  | |- total _ _ (Sync _ _) => apply total_sync
  | |- total ?env ?i (await ?a) => exact (total_await env i a)
  | |- total _ _ (get) => apply total_sync
  | |- total _ _ (gets _) => apply total_sync
  | |- total _ _ (modify _) => apply total_sync
  | |- total _ _ (sync _) => apply total_sync
  | |- total _ _ (mret _) => apply total_ret
  | |- total _ _ (match ?x with _ => _ end) => destruct x
  end.

Ltac total := repeat (solve [auto with total] || total_step).

(** ** Connections *)

Class TotalConnection (AC : AbstractConnection) env i := {
  total_close c : total env i (close c);
  total_write_heartbeat c : total env i (write_heartbeat c);
  total_write_frame c f : total env i (write_frame c f);
  total_read_bytes c timed : total env i (read_bytes c timed);
}.

#[export] Hint Extern 1 (TotalConnection _ _ _) => typeclasses eauto : total.
#[export] Hint Resolve total_close total_write_heartbeat total_write_frame total_read_bytes : total.

#[export] Instance total_connection env i : TotalConnection Connection env i.
Proof.
  split; intros; cbn [close write_heartbeat write_frame read_bytes Connection].
  - unfold Tcp.close, suppress, wait_closed. total.
  - unfold Tcp.write_heartbeat, reraise_connection_lost, Tcp.writer_write. total.
  - unfold Tcp.write_frame, reraise_connection_lost, Tcp.writer_write, dumped, drain. total.
  - unfold Tcp.read_bytes, reraise_connection_lost, Tcp._read_non_empty_bytes, read_chunk. total.
Qed.

#[export] Instance total_websocket_connection env i : TotalConnection WebSocketConnection env i.
Proof.
  split; intros; cbn [close write_heartbeat write_frame read_bytes WebSocketConnection].
  - unfold Ws.close, suppress, wait_closed. total.
  - unfold Ws.write_heartbeat, reraise_connection_lost. total.
  - unfold Ws.write_frame, reraise_connection_lost, dumped, send_message. total.
  - unfold Ws.read_bytes, reraise_connection_lost, read_chunk. total.
Qed.

(** ** The manager *)

Section manager.
Context `{AC : AbstractConnection} `{AL : AbstractConnectionLifespan} (cm : ConnectionManager).
Context env i `{!TotalConnection AC env i}.

Lemma total_discard s reason : total env i (_discard_failed_connection_state s reason).
Proof. unfold _discard_failed_connection_state. total. Qed.

Lemma total_catch_lost {A} (t : M A) h :
  total env i t → (∀ r, total env i (h r)) → total env i (catch_lost t h).
Proof. intros Ht Hh. unfold catch_lost. total. Qed.

Lemma total_next_connection n pending : total env i (next_connection n pending).
Proof.
  revert pending. induction n as [|n IH]; intros pending; cbn [next_connection]; unfold next_completed;
    total.
Qed.

Hypothesis enter_total : ∀ c p, total env i (enter c p).

Lemma total_try_connection c server : total env i (try_connection c server).
Proof.
  unfold try_connection, enter_lifespan.
  total_step; [apply total_catch_lost; total|]. total.
Qed.

Lemma total_connect_attempts b attempt n issues :
  total env i (connect_attempts cm b attempt n issues).
Proof.
  revert attempt issues. induction n as [|n IH]; intros attempt issues; cbn [connect_attempts];
    [total|].
  unfold _connect_to_any_server, _create_connection_to_any_server, install,
    _restart_no_message_monitor, create_group_task, sleep.
  total_step; [|total]. total_step; [apply total_next_connection|].
  intros [[c server]|]; [apply total_try_connection|total].
Qed.

Lemma total_get_active b : total env i (_get_active_connection_state cm b).
Proof.
  unfold _get_active_connection_state, with_lock, acquire_lock.
  total_step; [total|]. intros w. destruct (_active_connection_state w); [total|].
  total_step; [|total]. total_step; [total|]. intros _. total_step; [|total].
  total_step; [total|]. intros w'. destruct (_active_connection_state w'); [total|].
  apply total_connect_attempts.
Qed.

Lemma total_write_attempts n write :
  (∀ c, total env i (write c)) → total env i (write_attempts cm n write).
Proof.
  intros Hw. induction n as [|n IH]; cbn [write_attempts]; [total|].
  total_step; [apply total_get_active|]. intros s.
  total_step; [apply total_catch_lost|]; [total| |total].
  intros r. total_step; [apply total_discard|total].
Qed.

(** Whatever the environment does, a write that reconnects, of a frame or of a
    heart-beat, comes to an end if entering each single connection does: the attempts to
    write, the attempts to connect and the servers to try are bounded. *)
Theorem reconnecting_terminates f n w :
  exec env i n (write_frame_reconnecting cm f) w ≠ None ∧
  exec env i n (write_heartbeat_reconnecting cm) w ≠ None.
Proof.
  split; apply total_exec, total_write_attempts; total.
Qed.
End manager.

(** ** Entering a connection *)

Section entering.
#[local] Existing Instance Connection.
Context (cl : ConnectionLifespan) (i fuel limit : nat).
Context (env : nat → ∀ a : awaitable, world → world * outcome (answer a)).

(** From the await number [limit] on, a read with a timer gives no more data: the time
    is up, or the read fails. *)
Hypothesis reads_end : ∀ n c w, limit ≤ n → ∃ e, (env n (ReadChunk c true) w).2 = Raised e.

Lemma take_connected_ends c s k n w :
  0 < k → limit < n + k → exec env i n (while_loop k (take_connected_round c) s) w ≠ None.
Proof.
  revert s n w. induction k as [|k IH]; intros [p collected] n w Hk Hl; [lia|].
  cbn [while_loop take_connected_round]. rewrite exec_bind, exec_handle.
  unfold read_frames_chunk, mbind, prog_bind. rewrite exec_bind.
  change (read_bytes c true) with (Tcp.read_bytes c true).
  unfold Tcp.read_bytes, reraise_connection_lost, try_except, Tcp._read_non_empty_bytes.
  rewrite exec_handle. unfold mbind, prog_bind. rewrite exec_bind. cbn [read_chunk await exec].
  pose proof (reads_end n c w) as Hend.
  destruct (env n (ReadChunk c true) w) as [w1 r]. cbn [snd] in Hend.
  destruct r as [[|b raw]|e]; cbn [of_outcome exec is_connection_error].
  - done.
  - assert (n < limit) as Hn
      by (destruct (decide (n < limit)); [done|]; destruct Hend; [lia|done]).
    cbn [bind modify exec mret prog_ret]. cbv beta iota.
    destruct (parse_frames_from_chunk p (b :: raw)) as [[fs p']|e];
      cbn [to_outcome of_outcome exec]; cbv beta iota; [|done].
    destruct (take_until_connected fs collected) as [[h|] collected']; [done|].
    cbn [exec mret prog_ret]. apply IH; lia.
  - destruct e; done.
Qed.

Hypothesis fuel_enough : limit < fuel.

Lemma total_take_connected c : total env i (take_connected_frame fuel c).
Proof. apply total_intro. intros n w. apply take_connected_ends; lia. Qed.

Lemma total_establish c p : total env i (_establish_connection cl fuel c p).
Proof.
  unfold _establish_connection, getitem, _restart_background_tasks, create_group_task.
  total_step; [total|]. intros h. total_step; [total|]. intros _.
  total_step; [apply total_take_connected|]. total.
Qed.

Hypothesis env_solo : answers_for (awaits dials) solo i env.

Lemma frames_of_progress c fs w w' id :
  progress c fs w w' → frames_of id w' = frames_of id w.
Proof. intros []. unfold frames_of. congruence. Qed.

Lemma commit_ends c n w :
  (∀ id, length (frames_of id w) < fuel) →
  exec env i n (commit_pending_transactions fuel c) w ≠ None.
Proof.
  intros Hf. unfold commit_pending_transactions, mbind, prog_bind, get. cbn [bind exec].
  rewrite exec_bind.
  pose proof (commit_transactions_alone fuel i False c (size (_active_transactions w))
                (elements (_active_transactions w)) w [] w (or_introl Hf)
                (progress_refl c w)) as H.
  apply (wp_exec _ _ _ _ _ env n) in H; [|done].
  by destruct (exec env i n _ w) as [[[[[]|e] w'] n']|].
Qed.

(** C27: entering a connection comes to an end, if in the end its reads time out or
    fail: the handshake stops at CONNECTED or at the deadline, and the replay makes as
    many writes as there are subscriptions and frames to send again. *)
Theorem entering_terminates c p w :
  (∀ id, length (frames_of id w) < fuel) →
  exec env i 0 (lifespan_enter cl fuel c p) w ≠ None.
Proof.
  intros Hf. unfold lifespan_enter, mbind, prog_bind. rewrite exec_bind.
  pose proof (establish_alone cl fuel i True c p w I) as H.
  apply (wp_exec _ _ _ _ _ env 0) in H; [|done].
  pose proof (total_exec env i _ 0 w (total_establish c p)) as Ht.
  destruct (exec env i 0 _ w) as [[[[[hb|issue]|e] w1] n1]|]; [|done..].
  rewrite exec_bind. pose proof (resubscribe_alone i True c w1) as H1.
  apply (wp_exec _ _ _ _ _ env n1) in H1; [|done].
  assert (total env i (resubscribe_to_active_subscriptions c)) as Htr
    by (unfold resubscribe_to_active_subscriptions; total).
  pose proof (total_exec env i _ n1 w1 Htr) as Ht1.
  destruct (exec env i n1 _ w1) as [[[[[]|e] w2] n2]|]; [|done..].
  rewrite exec_bind. pose proof (commit_ends c n2 w2) as H2.
  destruct (exec env i n2 _ w2) as [[[[[]|e] w3] n3]|]; [done..|].
  exfalso. apply H2; [|done]. intros id.
  rewrite (frames_of_progress _ _ _ _ id H1), (frames_of_progress _ _ _ _ id H). apply Hf.
Qed.
End entering.

(** ** Witnesses *)

(** When every wait is cut short, entering raises at the first one. *)
Lemma enter_refused cl fuel c p i n w :
  exec (refusing i) i n (lifespan_enter (AC := Connection) cl fuel c p) w ≠ None.
Proof.
  unfold lifespan_enter, _establish_connection, mbind, prog_bind. rewrite !exec_bind.
  destruct (connect_frame_headers cl p) as [h|e]; cbn [to_outcome of_outcome exec]; [|done].
  rewrite exec_bind. change (write_frame c ?f) with (Tcp.write_frame c f).
  unfold Tcp.write_frame, reraise_connection_lost, try_except, dumped, Tcp.writer_write,
    mbind, prog_bind, get, sync.
  rewrite exec_bind, exec_handle, !exec_bind. cbn [bind exec].
  destruct (dump_frame _) as [raw|e]; cbn [to_outcome of_outcome exec bind mret prog_ret]; [|done].
  cbv beta iota. by destruct (conns w !! c) as [[t [|]]|].
Qed.

Lemma reconnecting_terminates_witness :
  let f := SendFrame (Own {[us "destination" := us "q"]}) (bs "x") in
  let cm := make_manager example_client in
  let AL := @example_lifespan Connection in
  exec (refusing 0) 0 0 (write_frame_reconnecting (AC := Connection) (AL := AL) cm f)
    entering_world ≠ None ∧
  exec (refusing 0) 0 0 (write_heartbeat_reconnecting (AC := Connection) (AL := AL) cm)
    entering_world ≠ None.
Proof.
  intros f cm AL.
  assert (∀ c p, total (refusing 0) 0 (enter (AbstractConnectionLifespan := AL) c p)) as He
    by (intros c p; apply total_intro; intros n w; apply enter_refused).
  pose proof (reconnecting_terminates (AC := Connection) (AL := AL) cm (refusing 0) 0 He f 0
                entering_world) as H. exact H.
Defined.

Lemma entering_terminates_witness :
  let env := example_env [Finish; Give connected_bytes; Finish] in
  exec env 0 0 (lifespan_enter (AC := Connection) (make_lifespan example_client) 10 0
                  example_server) connected_world ≠ None.
Proof.
  intros env.
  assert (∀ n c w, 3 ≤ n → ∃ e, (env n (ReadChunk c true) w).2 = Raised e) as Hend.
  { intros n c w Hn. exists CancelledError. unfold env, example_env, env_of.
    rewrite lookup_ge_None_2 by exact Hn. reflexivity. }
  assert (∀ id, length (frames_of id connected_world) < 10) as Hf.
  { intros id. unfold frames_of. destruct (decide (id = us "T")) as [->|Hne].
    - vm_compute. lia.
    - change (sent_frames connected_world)
        with (<[us "T" := [(Own {[us "destination" := us "q"]}, bs "x")]]>
                (∅ : gmap str (list (dict * bytes)))).
      rewrite lookup_insert_ne, lookup_empty by congruence. simpl. lia. }
  assert (3 < 10) as Hlt by lia.
  pose proof (entering_terminates (make_lifespan example_client) 0 10 3 env Hend Hlt (solo_env _)
                0 example_server connected_world Hf) as H. exact H.
Defined.
