(* ===== verification/FastStream.v ===== *)
(** * FastStream messages and configuration (faststream_stomp/models.py and others)

    The part of [faststream_stomp] that holds data: configurations and their destinations
    (models.py, registrator.py), names (publisher.py, subscriber.py), commands, and the
    message object with its acknowledgement.  What FastStream itself does is a parameter. *)

From S2P Require Import Prelude Frames Config Errors Async World Contract Discipline Connection.
From S2P Require Import Manager ManagerSpec Subscription Lifespan Client Scheduler Operations.

(** ** Configurations *)

Record BrokerConfigWithStompClient := mkBrokerConfig {
  prefix : str;
  config_client : Client;
}.

Inductive AckPolicy := MANUAL | NACK_ON_ERROR.

Record StompSubscriberUsecaseConfig := mkSubscriberConfig {
  subscriber_outer_config : BrokerConfigWithStompClient;
  subscriber_destination_without_prefix : str;
  ack_mode : AckMode;
  subscriber_headers : option nat;
}.

Record StompPublisherUsecaseConfig := mkPublisherConfig {
  publisher_outer_config : BrokerConfigWithStompClient;
  publisher_destination_without_prefix : str;
}.

Definition ack_policy (c : StompSubscriberUsecaseConfig) : AckPolicy :=
  match ack_mode c with auto => MANUAL | _ => NACK_ON_ERROR end.

Definition subscriber_full_destination (c : StompSubscriberUsecaseConfig) : str :=
  prefix (subscriber_outer_config c) ++ subscriber_destination_without_prefix c.

Definition publisher_full_destination (c : StompPublisherUsecaseConfig) : str :=
  prefix (publisher_outer_config c) ++ publisher_destination_without_prefix c.

(** [StompRegistrator.subscriber] and [.publisher]: what they configure *)
Definition registrator_subscriber (config : BrokerConfigWithStompClient) (destination : str)
    (mode : AckMode) (headers : option nat) : StompSubscriberUsecaseConfig :=
  mkSubscriberConfig config destination mode headers.

Definition registrator_publisher (config : BrokerConfigWithStompClient) (destination : str)
  : StompPublisherUsecaseConfig :=
  mkPublisherConfig config destination.

(** [name] of the two specifications *)
Definition subscriber_name (c : StompSubscriberUsecaseConfig) (call_name : str) : str :=
  prefix (subscriber_outer_config c) ++ subscriber_destination_without_prefix c
    ++ us ":" ++ call_name.

Definition publisher_name (c : StompPublisherUsecaseConfig) : str :=
  prefix (publisher_outer_config c) ++ publisher_destination_without_prefix c ++ us ":Publisher".

(** [url] of the broker's specification *)
Definition broker_urls (cl : Client) : result (list str) :=
  mapM (λ server, port_text ← int_text (port server); mret (host server ++ us ":" ++ port_text))
    (client_servers cl).

(** ** Commands *)

Inductive PublishType := PUBLISH | REQUEST | REPLY.

(** The bodies are what the application gives; [headers] is a dictionary object. *)
Record StompPublishCommand (B : Type) := mkCommand {
  batch_bodies : list B;
  publish_type : PublishType;
  reply_to : str;
  command_destination : str;
  correlation_id : option str;
  command_headers : nat;
}.
Arguments mkCommand {B}.
Arguments batch_bodies {B} _.
Arguments publish_type {B} _.
Arguments reply_to {B} _.
Arguments command_destination {B} _.
Arguments correlation_id {B} _.
Arguments command_headers {B} _.

Definition from_cmd {B} (cmd : StompPublishCommand B) : StompPublishCommand B :=
  mkCommand (batch_bodies cmd) (publish_type cmd) (reply_to cmd) (command_destination cmd)
    (correlation_id cmd) (command_headers cmd).

Definition set_destination {B} (destination : str) (cmd : StompPublishCommand B)
  : StompPublishCommand B :=
  mkCommand (batch_bodies cmd) (publish_type cmd) (reply_to cmd) destination
    (correlation_id cmd) (command_headers cmd).

(** [StompPublisher._publish], up to the middlewares *)
Definition publisher_command {B} (c : StompPublisherUsecaseConfig) (cmd : StompPublishCommand B)
  : StompPublishCommand B :=
  set_destination (publisher_full_destination c) (from_cmd cmd).

(** [StompFakePublisher], which publishes the response to a message, and
    [StompSubscriber._make_response_publisher] *)
Record StompFakePublisher := mkFakePublisher { response_destination : str }.

Definition _make_response_publisher (message_reply_to : str) : list StompFakePublisher :=
  [mkFakePublisher message_reply_to].

(** [StompFakePublisher.patch_command]; what FastStream does to the command comes first. *)
Definition patch_command {B} (super_patch : StompPublishCommand B → StompPublishCommand B)
    (p : StompFakePublisher) (cmd : StompPublishCommand B) : StompPublishCommand B :=
  set_destination (response_destination p) (from_cmd (super_patch cmd)).

(** ** Messages *)

Record StompStreamMessage := mkStreamMessage {
  raw_message : AckableMessageFrame;
  stream_body : bytes;
  stream_headers : headers;
  content_type : option str;
  message_id : str;
  message_correlation_id : str;
}.

(** [gen_cor_id()] is called for every message, needed or not. *)
Definition from_frame (gen_cor_id : nat → str) (m : AckableMessageFrame) : M StompStreamMessage :=
  let h := message_headers m in
  id ← getitem h (us "message-id");
  generated ← make_id gen_cor_id;
  mret (mkStreamMessage m (message_body m) h (h !! us "content-type") id
          (default generated (h !! us "correlation-id"))).

(** [StompSubscriber.get_log_context] *)
Definition get_log_context (c : StompSubscriberUsecaseConfig) (m : option StompStreamMessage)
  : result (str * str) :=
  match m with
  | Some m =>
    destination ← of_option KeyError (message_headers (raw_message m) !! us "destination");
    mret (destination, message_id m)
  | None => mret (subscriber_full_destination c, [])
  end.

(** ** Acknowledging a message

    FastStream's [StreamMessage] remembers in [committed] how the message was settled; its
    own [ack], [nack] and [reject] are parameters. *)

Inductive settlement := Acked | Nacked | Rejected.

Section settling.
Context `{AC : AbstractConnection}.
Context (super_settle : settlement → option settlement → option settlement).
Local Abbreviation Ms := (prog (world * option settlement) awaitable answer).

(** [if not self.committed: await t], and then what the base class does *)
Definition settle (how : settlement) (t : M unit) : Ms unit :=
  '(_, committed) ← get;
  _ ← match committed with
      | None => lift (option settlement) t
      | Some _ => mret tt
      end;
  modify (λ '(w, committed), (w, super_settle how committed)).

Definition stream_ack (m : StompStreamMessage) : Ms unit := settle Acked (ackable_ack (raw_message m)).
Definition stream_nack (m : StompStreamMessage) : Ms unit :=
  settle Nacked (ackable_nack (raw_message m)).
Definition stream_reject (m : StompStreamMessage) : Ms unit :=
  settle Rejected (ackable_nack (raw_message m)).

Definition stream_settle (m : StompStreamMessage) (how : settlement) : Ms unit :=
  match how with
  | Acked => stream_ack m
  | Nacked => stream_nack m
  | Rejected => stream_reject m
  end.

(** A caller that settles the message several times, one call after the other, and catches
    what the calls raise; [os] are their outcomes. *)
Fixpoint settle_each (m : StompStreamMessage) (hows : list settlement) : Ms (list (outcome unit)) :=
  match hows with
  | [] => mret []
  | how :: hows' =>
    o ← handle (stream_settle m how) mret;
    os ← settle_each m hows';
    mret (o :: os)
  end.

(** The calls up to the first that returned, and that call. *)
Fixpoint tried (hows : list settlement) (os : list (outcome unit)) : list settlement :=
  match hows, os with
  | how :: hows', Done _ :: _ => [how]
  | how :: hows', Raised _ :: os' => how :: tried hows' os'
  | _, _ => []
  end.

Fixpoint first_returned (hows : list settlement) (os : list (outcome unit)) : option settlement :=
  match hows, os with
  | how :: _, Done _ :: _ => Some how
  | _ :: hows', Raised _ :: os' => first_returned hows' os'
  | _, _ => None
  end.

(** The base class records the first settlement and keeps it. *)
Class SettlesOnce := {
  settles how : super_settle how None = Some how;
  stays how c : super_settle how (Some c) = Some c;
}.

(** The acknowledgement that a settlement amounts to. *)
Definition settling_frame (how : settlement) (h : headers) : frame headers :=
  match how with Acked => AckFrame h | Nacked | Rejected => NackFrame h end.

Context `{!ConnectionLaws AC} `{SO : !SettlesOnce}.

(** The acknowledgements that the calls amount to; none without an "ack" header. *)
Definition settling_frames (m : StompStreamMessage) (hows : list settlement) : list (frame headers) :=
  match message_headers (raw_message m) !! us "ack" with
  | Some id => (λ how, settling_frame how (ack_headers id (_subscription (raw_message m)))) <$> hows
  | None => []
  end.

Lemma settled_again env i n m hows w c :
  exec (lift_env env) i n (settle_each m hows) (w, Some c) =
  Some (Done (replicate (length hows) (Done tt)), (w, Some c), n).
Proof.
  induction hows as [|how hows IH]; [done|]. cbn [settle_each]. unfold mbind, prog_bind.
  rewrite exec_bind, exec_handle.
  assert (exec (lift_env env) i n (stream_settle m how) (w, Some c) =
          Some (Done tt, (w, Some c), n)) as ->.
  { destruct how; unfold stream_settle, stream_ack, stream_nack, stream_reject, settle, mbind,
      prog_bind; cbn [bind exec get modify mret prog_ret]; by rewrite stays. }
  cbn [exec mret prog_ret]. by rewrite exec_bind, IH.
Qed.

Lemma settle_first env i n m how w :
  exec (lift_env env) i n (stream_settle m how) (w, None) =
  match exec env i n (match how with
                      | Acked => ackable_ack (raw_message m)
                      | _ => ackable_nack (raw_message m)
                      end) w with
  | Some (Done _, w', n') => Some (Done tt, (w', Some how), n')
  | Some (Raised e, w', n') => Some (Raised e, (w', None), n')
  | None => None
  end.
Proof.
  destruct how; unfold stream_settle, stream_ack, stream_nack, stream_reject, settle, mbind,
    prog_bind; cbn [bind exec get]; cbv beta iota; rewrite exec_bind, exec_lift;
    destruct (exec env i n _ w) as [[[[[]|e] w'] n']|]; cbn [exec modify]; by rewrite ?settles.
Qed.

(** One call writes at most its own acknowledgement. *)
Lemma settle_writes env i n m how w :
  answers_for (awaits dials) solo i env →
  match exec (lift_env env) i n (stream_settle m how) (w, None) with
  | Some (o, (w', committed), _) =>
    committed = match o with Done _ => Some how | Raised _ => None end ∧
    ∃ written, ack_frames (trace w') = ack_frames (trace w) ++ written ∧
               written `sublist_of` settling_frames m [how]
  | None => False
  end.
Proof.
  intros Henv. rewrite settle_first. set (t := match how with Acked => _ | _ => _ end).
  unfold settling_frames.
  set (h := message_headers (raw_message m)). set (sub := _subscription (raw_message m)).
  assert (wp (awaits dials) solo (λ _ _, True) i False t
    (λ _ w', ack_frames (trace w') = ack_frames (trace w) ∨
       ∃ id, h !! us "ack" = Some id ∧ id ≠ [] ∧
         ack_frames (trace w') = ack_frames (trace w) ++
           [settling_frame how (ack_headers id sub)]) w) as H.
  { destruct how; [apply (acknowledge_alone i (@AckFrame))|apply (acknowledge_alone i (@NackFrame))..];
      auto. }
  apply (wp_exec _ _ _ _ _ env n) in H; [|done].
  destruct (exec env i n t w) as [[[[[]|e] w'] n']|]; [..|done]; (split; [done|]).
  all: destruct H as [H|(id & Hid & _ & H)]; [exists []; rewrite app_nil_r; by auto using sublist_nil_l|].
  all: rewrite Hid; eexists; split; [exact H|done].
Qed.

Lemma settling_frames_cons m how hows :
  settling_frames m (how :: hows) = settling_frames m [how] ++ settling_frames m hows.
Proof. unfold settling_frames. by destruct (_ !! us "ack"). Qed.

(** C20: a message is acknowledged, rejected or returned any number of times, one call
    after the other, by a caller that catches what the calls raise.  The acknowledgements
    written are at most one per call, in the order of the calls, of the calls up to the
    first that returned: the message then counts as settled the way of that call, and
    further calls return and write nothing. *)
Theorem settled_once env i n m hows w :
  answers_for (awaits dials) solo i env →
  match exec (lift_env env) i n (settle_each m hows) (w, None) with
  | Some (Done os, (w', committed), _) =>
    length os = length hows ∧ committed = first_returned hows os ∧
    ∃ written, ack_frames (trace w') = ack_frames (trace w) ++ written ∧
               written `sublist_of` settling_frames m (tried hows os)
  | _ => False
  end.
Proof.
  intros Henv. revert n w. induction hows as [|how hows IH]; intros n w.
  { split_and!; [done..|]. exists []. rewrite app_nil_r. auto using sublist_nil_l. }
  cbn [settle_each]. unfold mbind, prog_bind. rewrite exec_bind, exec_handle.
  pose proof (settle_writes env i n m how w Henv) as H.
  destruct (exec (lift_env env) i n (stream_settle m how) (w, None)) as [[[o [w1 c1]] n1]|]; [|done].
  destruct H as [-> (written & Hw & Hs)]. cbn [exec mret prog_ret]. rewrite exec_bind.
  destruct o as [[]|e].
  - rewrite settled_again. cbn [exec]. split_and!; [simpl; f_equal; apply length_replicate|done|].
    by exists written.
  - specialize (IH n1 w1).
    destruct (exec (lift_env env) i n1 (settle_each m hows) (w1, None))
      as [[[[os|e'] [w2 c2]] n2]|]; [|done..].
    destruct IH as (Hl & Hc & written' & Hw' & Hs'). cbn [exec]. simpl.
    split_and!; [by f_equal|done|]. exists (written ++ written').
    split; [by rewrite Hw', Hw, (assoc_L (++))|]. rewrite settling_frames_cons. by apply sublist_app.
Qed.
End settling.

(** ** Witness *)

(** What FastStream's [StreamMessage] does. *)
Definition keep_first (how : settlement) (c : option settlement) : option settlement :=
  match c with Some _ => c | None => Some how end.

#[export] Instance keep_first_settles : SettlesOnce keep_first.
Proof. by split. Qed.

Definition example_stream_message : StompStreamMessage :=
  mkStreamMessage (mkAckable example_message (bs "x") (us "A") 0) (bs "x") example_message None
    (us "1") (us "c").

(** The first call writes its NACK and raises the [TimeoutError] of the transport, the second
    writes an ACK, and the third does nothing. *)
Lemma settled_once_witness :
  ∃ os w' committed n,
    exec (lift_env (example_env [Fault TimeoutError; Finish])) 0 0
      (settle_each (AC := Connection) keep_first example_stream_message [Nacked; Acked; Rejected])
      (connected_world, None) = Some (Done os, (w', committed), n) ∧
    os = [Raised TimeoutError; Done tt; Done tt] ∧
    length (ack_frames (trace w')) = 2 ∧
    length os = 3 ∧ committed = first_returned [Nacked; Acked; Rejected] os ∧
    ∃ written, ack_frames (trace w') = ack_frames (trace connected_world) ++ written ∧
      written `sublist_of` settling_frames example_stream_message (tried [Nacked; Acked; Rejected] os).
Proof.
  destruct (exec (lift_env (example_env [Fault TimeoutError; Finish])) 0 0
      (settle_each (AC := Connection) keep_first example_stream_message [Nacked; Acked; Rejected])
      (connected_world, None)) as [[[[os|e] [w' c]] n]|] eqn:E; try (vm_compute in E; discriminate E).
  exists os, w', c, n. split; [reflexivity|].
  assert ((λ '(o, (w, c), n), (o, length (ack_frames (trace w)))) <$> Some (Done os, (w', c), n) =
          Some (Done [Raised TimeoutError; Done tt; Done tt], 2)) as E'
    by (rewrite <-E; vm_compute; reflexivity).
  injection E' as E1 E2. split; [exact E1|]. split; [exact E2|].
  pose proof (settled_once (AC := Connection) keep_first (example_env [Fault TimeoutError; Finish]) 0 0
    example_stream_message [Nacked; Acked; Rejected] connected_world (solo_env _)) as H.
  rewrite E in H. exact H.
Defined.
