(* ===== verification/FastStreamMiddlewares.v ===== *)
(** * What is reported of messages and commands (faststream_stomp/opentelemetry.py, prometheus.py)

    The settings providers, which give the attributes of messages and commands, and the
    arguments with which the middlewares construct those of FastStream. *)

From S2P Require Import Prelude Frames Config Errors Async World Contract Connection Manager.
From S2P Require Import Subscription Lifespan Client Scheduler FastStream.

#[local] Open Scope nat_scope.

(** ** Settings providers *)

Record StompTelemetrySettingsProvider := mkTelemetrySettings { telemetry_system : str }.
Record StompMetricsSettingsProvider := mkMetricsSettings { metrics_system : str }.

(** [StompTelemetrySettingsProvider()] and [StompMetricsSettingsProvider()] *)
Definition telemetry_settings : StompTelemetrySettingsProvider := mkTelemetrySettings (us "stomp").
Definition metrics_settings : StompMetricsSettingsProvider := mkMetricsSettings (us "stomp").

Inductive attribute_value := Text (s : str) | Number (n : nat).

Definition get_consume_destination_name (m : StompStreamMessage) : result str :=
  of_option KeyError (message_headers (raw_message m) !! us "destination").

(** The keys are named after the constants of the telemetry packages. *)
Definition get_consume_attrs_from_message (self : StompTelemetrySettingsProvider)
    (m : StompStreamMessage) : result (list (string * attribute_value)) :=
  destination ← get_consume_destination_name m;
  mret [("MESSAGING_SYSTEM", Text (telemetry_system self));
        ("MESSAGING_MESSAGE_ID", Text (message_id m));
        ("MESSAGING_MESSAGE_CONVERSATION_ID", Text (message_correlation_id m));
        ("MESSAGING_MESSAGE_PAYLOAD_SIZE_BYTES", Number (length (stream_body m)));
        ("MESSAGING_DESTINATION_PUBLISH_NAME", Text destination)]%string.

Definition get_publish_attrs_from_cmd {B} (self : StompTelemetrySettingsProvider)
    (cmd : StompPublishCommand B) : list (string * attribute_value) :=
  [("MESSAGING_SYSTEM", Text (telemetry_system self));
   ("MESSAGING_DESTINATION_NAME", Text (command_destination cmd))]%string ++
  match correlation_id cmd with
  | Some ((_ :: _) as id) => [("MESSAGING_MESSAGE_CONVERSATION_ID"%string, Text id)]
  | _ => []
  end.

Definition metrics_consume_attrs (m : StompStreamMessage)
  : result (list (string * attribute_value)) :=
  destination ← get_consume_destination_name m;
  mret [("destination_name", Text destination); ("message_size", Number (length (stream_body m)));
        ("messages_count", Number 1)]%string.

(** [get_publish_destination_name] and, for the metrics, [.._from_cmd] *)
Definition get_publish_destination_name {B} (cmd : StompPublishCommand B) : str :=
  command_destination cmd.

Definition metrics_publish_destination_name {B} (cmd : StompPublishCommand B) : str :=
  command_destination cmd.

(** ** Middlewares

    What the constructors of the base classes are given. *)

Section middlewares.
Context {TracerProvider MeterProvider Meter CollectorRegistry Buckets Message Value : Type}.

Record StompTelemetryMiddleware := mkTelemetryMiddleware {
  telemetry_settings_factory : Message → StompTelemetrySettingsProvider;
  tracer_provider : option TracerProvider;
  meter_provider : option MeterProvider;
  meter : option Meter;
  include_messages_counters : bool;
}.

Definition StompTelemetryMiddleware_init (tracer_provider : option TracerProvider)
    (meter_provider : option MeterProvider) (meter : option Meter) : StompTelemetryMiddleware :=
  mkTelemetryMiddleware (λ _, telemetry_settings) tracer_provider meter_provider meter false.

(** [None] for the name of the application is FastStream's [EMPTY]. *)
Record StompPrometheusMiddleware := mkPrometheusMiddleware {
  metrics_settings_factory : Message → StompMetricsSettingsProvider;
  registry : CollectorRegistry;
  app_name : option str;
  metrics_prefix : str;
  received_messages_size_buckets : option Buckets;
}.

(** Keyword arguments that are not known are dropped. *)
Definition StompPrometheusMiddleware_init (registry : CollectorRegistry) (app_name : option str)
    (metrics_prefix : option str) (received_messages_size_buckets : option Buckets)
    (_kwargs : list (string * Value)) : StompPrometheusMiddleware :=
  mkPrometheusMiddleware (λ _, metrics_settings) registry app_name
    (default (us "faststream") metrics_prefix) received_messages_size_buckets.
End middlewares.

(** ** Properties *)

(** A MESSAGE with the headers of its type becomes a FastStream message, and can be logged,
    traced and counted: nothing that looks for its headers raises, and all name the
    destination and the identifier that the server gave. *)
Theorem conforming_message_described c m gen env i n w :
  conforms (MessageFrame (message_headers m) (message_body m)) = true →
  ∃ sm destination id,
    exec env i n (from_frame gen m) w = Some (Done sm, set_uuids (S (uuids w)) w, n) ∧
    raw_message sm = m ∧ stream_body sm = message_body m ∧
    message_headers m !! us "destination" = Some destination ∧
    message_headers m !! us "message-id" = Some id ∧ message_id sm = id ∧
    get_log_context c (Some sm) = Ok (destination, id) ∧
    get_consume_attrs_from_message telemetry_settings sm = Ok
      [("MESSAGING_SYSTEM", Text (us "stomp")); ("MESSAGING_MESSAGE_ID", Text id);
       ("MESSAGING_MESSAGE_CONVERSATION_ID",
        Text (default (gen (uuids w)) (message_headers m !! us "correlation-id")));
       ("MESSAGING_MESSAGE_PAYLOAD_SIZE_BYTES", Number (length (message_body m)));
       ("MESSAGING_DESTINATION_PUBLISH_NAME", Text destination)]%string ∧
    metrics_consume_attrs sm = Ok
      [("destination_name", Text destination); ("message_size", Number (length (message_body m)));
       ("messages_count", Number 1)]%string.
Proof.
  intros Hm. set (h := message_headers m) in *.
  assert (∀ key, key ∈ required_keys TMessage → is_Some (h !! key)) as Hk
    by (intros key; by eapply conforms_lookup).
  destruct (Hk (us "destination")) as [destination Hd]; [by left|].
  destruct (Hk (us "message-id")) as [id Hid]; [right; by left|].
  eexists _, destination, id. split.
  { unfold from_frame, getitem, make_id, mbind, prog_bind, sync. fold h. rewrite Hid.
    cbn [of_option to_outcome of_outcome bind exec]. reflexivity. }
  unfold get_log_context, get_consume_attrs_from_message, metrics_consume_attrs,
    get_consume_destination_name. cbn [raw_message message_id]. fold h. rewrite Hd. by split_and!.
Qed.

(** ** Witness *)

Lemma conforming_message_described_witness :
  let m := mkAckable (<[us "destination" := us "q"]>
             (<[us "message-id" := us "1"]> {[us "subscription" := us "A"]})) (bs "x") (us "A") 0 in
  exec (example_env []) 0 0 (from_frame example_ids m) connected_world =
    Some (Done (mkStreamMessage m (bs "x") (message_headers m) None (us "1")
                  (example_ids (uuids connected_world))),
          set_uuids (S (uuids connected_world)) connected_world, 0).
Proof.
  intros m. destruct (conforming_message_described
    (mkSubscriberConfig (mkBrokerConfig [] example_client) (us "q") client_individual None) m
    example_ids (example_env []) 0 0 connected_world) as (sm & d & id & H & _);
    [vm_compute; reflexivity|].
  rewrite H. vm_compute in H. vm_compute. congruence.
Defined.
