(* ===== verification/FastStreamRegistration.v ===== *)
(** * Registering subscribers and publishers (faststream_stomp/registrator.py, router.py)

    The registrator makes the configurations of subscribers and publishers and hands them
    to FastStream; the routes of a router keep the keyword arguments of a registration for
    later.  The keyword arguments of a call are a list of names and values, which Python
    matches with the parameters of the function.  Also the specifications that subscribers
    and publishers give of themselves (subscriber.py, publisher.py). *)

From S2P Require Import Prelude Frames PyInt Config Errors Async World Connection Manager.
From S2P Require Import Subscription Lifespan Client FastStream.

(** ** Keyword arguments *)

Section registration.

(** Things of FastStream and of the program that are only passed on: values given as a
    schema, dependencies, and callables. *)
Context {Any Dependant CustomCallable : Type}.

Inductive argument :=
  | ArgStr (s : str)
  | ArgOptStr (s : option str)
  | ArgBool (b : bool)
  | ArgAckMode (mode : AckMode)
  | ArgHeaders (headers : option nat)
  | ArgAny (x : option Any)
  | ArgDependencies (l : list Dependant)
  | ArgCallable (c : option CustomCallable).

Abbreviation kwargs := (list (string * argument)).

(** A parameter, with its default if it has one. *)
Abbreviation parameters := (list (string * option argument)).

Fixpoint kwarg (name : string) (l : kwargs) : option argument :=
  match l with
  | [] => None
  | (name', x) :: l' => if decide (name' = name) then Some x else kwarg name l'
  end.

(** [f( **kwargs )]: each parameter gets the argument of its name or else its default;
    [None] is the [TypeError] for an argument without parameter or a parameter without
    argument. *)
Definition call_with (ps : parameters) (l : kwargs) : option (list argument) :=
  if forallb (λ x, bool_decide (x.1 ∈ ps.*1)) l
  then mapM (λ p, match kwarg p.1 l with Some x => Some x | None => p.2 end) ps
  else None.

(** ** Configurations *)

Record StompSubscriberSpecificationConfig := mkSubscriberSpecificationConfig {
  subscriber_title_ : option str;
  subscriber_description_ : option str;
  subscriber_include_in_schema : bool;
  spec_destination_without_prefix : str;
  spec_ack_mode : AckMode;
  spec_headers : option nat;
}.

Record StompPublisherSpecificationConfig := mkPublisherSpecificationConfig {
  publisher_title_ : option str;
  publisher_description_ : option str;
  publisher_schema_ : option Any;
  publisher_include_in_schema : bool;
  publisher_spec_destination : str;
}.

(** A handler of a subscriber: its parser, decoder and dependencies. *)
Record call_options := mkCallOptions {
  parser_ : option CustomCallable;
  decoder_ : option CustomCallable;
  dependencies_ : list Dependant;
}.

Record StompSubscriber := mkStompSubscriber {
  subscriber_config : StompSubscriberUsecaseConfig;
  subscriber_specification : StompSubscriberSpecificationConfig;
  calls : list call_options;
  subscriber_subscription : option str;
}.

Record StompPublisher := mkStompPublisher {
  publisher_config : StompPublisherUsecaseConfig;
  publisher_specification : StompPublisherSpecificationConfig;
}.

(** [StompSubscriber.__init__] *)
Definition StompSubscriber_init (config : StompSubscriberUsecaseConfig)
    (specification : StompSubscriberSpecificationConfig) : StompSubscriber :=
  mkStompSubscriber config specification [] None.

(** ** The registrator *)

Record StompRegistrator := mkRegistrator {
  registrator_config : BrokerConfigWithStompClient;
  _parser : option CustomCallable;
  _decoder : option CustomCallable;
  _subscribers : list StompSubscriber;
  _publishers : list StompPublisher;
}.

Definition set_subscribers (l : list StompSubscriber) (r : StompRegistrator) : StompRegistrator :=
  mkRegistrator (registrator_config r) (_parser r) (_decoder r) l (_publishers r).
Definition set_publishers (l : list StompPublisher) (r : StompRegistrator) : StompRegistrator :=
  mkRegistrator (registrator_config r) (_parser r) (_decoder r) (_subscribers r) l.

(** [x or y], for callables that may be missing *)
Definition or_else {A} (x y : option A) : option A :=
  match x with Some _ => x | None => y end.

(** FastStream's [Registrator.subscriber] and [.publisher], and [add_call]; a subscriber is
    known by its position among the registered ones. *)
Context (super_subscriber : list StompSubscriber → StompSubscriber → list StompSubscriber * nat).
Context (super_publisher : list StompPublisher → StompPublisher → list StompPublisher).
Context (add_call : call_options → StompSubscriber → StompSubscriber).

Record subscriber_arguments := mkSubscriberArguments {
  arg_destination : str;
  arg_ack_mode : AckMode;
  arg_headers : option nat;
  arg_dependencies : list Dependant;
  arg_parser : option CustomCallable;
  arg_decoder : option CustomCallable;
  arg_title : option str;
  arg_description : option str;
  arg_include_in_schema : bool;
}.

(** [StompRegistrator.subscriber]: the registry afterwards, and the subscriber. *)
Definition subscriber (r : StompRegistrator) (a : subscriber_arguments) : StompRegistrator * nat :=
  let usecase_config :=
    registrator_subscriber (registrator_config r) (arg_destination a) (arg_ack_mode a)
      (arg_headers a) in
  let specification :=
    mkSubscriberSpecificationConfig (arg_title a) (arg_description a) (arg_include_in_schema a)
      (arg_destination a) (arg_ack_mode a) (arg_headers a) in
  let '(l, k) := super_subscriber (_subscribers r) (StompSubscriber_init usecase_config specification) in
  let options := mkCallOptions (or_else (arg_parser a) (_parser r))
                   (or_else (arg_decoder a) (_decoder r)) (arg_dependencies a) in
  (set_subscribers (alter (add_call options) k l) r, k).

Record publisher_arguments := mkPublisherArguments {
  arg_publisher_destination : str;
  arg_schema_ : option Any;
  arg_title_ : option str;
  arg_description_ : option str;
  arg_publisher_include_in_schema : bool;
}.

(** [StompRegistrator.publisher] *)
Definition publisher (r : StompRegistrator) (a : publisher_arguments)
  : StompRegistrator * StompPublisher :=
  let usecase_config := registrator_publisher (registrator_config r) (arg_publisher_destination a) in
  let specification :=
    mkPublisherSpecificationConfig (arg_title_ a) (arg_description_ a) (arg_schema_ a)
      (arg_publisher_include_in_schema a) (arg_publisher_destination a) in
  let publisher := mkStompPublisher usecase_config specification in
  (set_publishers (super_publisher (_publishers r) publisher) r, publisher).

(** The parameters of the two methods, with their defaults. *)
Definition subscriber_parameters : parameters :=
  [("destination", None); ("ack_mode", Some (ArgAckMode client_individual));
   ("headers", Some (ArgHeaders None)); ("dependencies", Some (ArgDependencies []));
   ("parser", Some (ArgCallable None)); ("decoder", Some (ArgCallable None));
   ("title", Some (ArgOptStr None)); ("description", Some (ArgOptStr None));
   ("include_in_schema", Some (ArgBool true))]%string.

Definition publisher_parameters : parameters :=
  [("destination", None); ("schema_", Some (ArgAny None)); ("title_", Some (ArgOptStr None));
   ("description_", Some (ArgOptStr None)); ("include_in_schema", Some (ArgBool true))]%string.

(** The methods called with keyword arguments. *)
Definition subscriber_with (r : StompRegistrator) (l : kwargs) : option (StompRegistrator * nat) :=
  match call_with subscriber_parameters l with
  | Some [ArgStr destination; ArgAckMode ack_mode; ArgHeaders headers; ArgDependencies dependencies;
          ArgCallable parser; ArgCallable decoder; ArgOptStr title; ArgOptStr description;
          ArgBool include_in_schema] =>
    Some (subscriber r (mkSubscriberArguments destination ack_mode headers dependencies parser
                          decoder title description include_in_schema))
  | _ => None
  end.

Definition publisher_with (r : StompRegistrator) (l : kwargs)
  : option (StompRegistrator * StompPublisher) :=
  match call_with publisher_parameters l with
  | Some [ArgStr destination; ArgAny schema_; ArgOptStr title_; ArgOptStr description_;
          ArgBool include_in_schema] =>
    Some (publisher r (mkPublisherArguments destination schema_ title_ description_
                         include_in_schema))
  | _ => None
  end.

(** ** Routes

    FastStream's containers keep the keyword arguments they are given. *)

(** [StompRoutePublisher.__init__] *)
Definition StompRoutePublisher (a : publisher_arguments) : kwargs :=
  [("destination", ArgStr (arg_publisher_destination a)); ("schema_", ArgAny (arg_schema_ a));
   ("title_", ArgOptStr (arg_title_ a)); ("description_", ArgOptStr (arg_description_ a));
   ("include_in_schema", ArgBool (arg_publisher_include_in_schema a))]%string.

(** What [SubscriberRoute] keeps. *)
Record SubscriberRoute (Call : Type) := mkSubscriberRoute {
  route_call : Call;
  route_publishers : list kwargs;
  route_kwargs : kwargs;
}.
Arguments mkSubscriberRoute {Call}.

(** [StompRoute.__init__] *)
Definition StompRoute {Call : Type} (call : Call) (a : subscriber_arguments)
    (publishers : list kwargs) : SubscriberRoute Call :=
  mkSubscriberRoute call publishers
    [("destination", ArgStr (arg_destination a)); ("ack_mode", ArgAckMode (arg_ack_mode a));
     ("headers", ArgHeaders (arg_headers a)); ("dependencies", ArgDependencies (arg_dependencies a));
     ("parser", ArgCallable (arg_parser a)); ("decoder", ArgCallable (arg_decoder a));
     ("title", ArgOptStr (arg_title a)); ("description", ArgOptStr (arg_description a));
     ("include_in_schema", ArgBool (arg_include_in_schema a))]%string.

(** The configuration that [StompRouter.__init__] makes, and what else it hands to
    FastStream; the routers that are included are known by number. *)
Record BrokerConfig (Middleware : Type) := mkRouterConfig {
  broker_middlewares : list Middleware;
  broker_dependencies : list Dependant;
  broker_parser : option CustomCallable;
  broker_decoder : option CustomCallable;
  include_in_schema : option bool;
  router_prefix : str;
}.
Arguments mkRouterConfig {Middleware}.

Record BrokerRouter (Call Middleware : Type) := mkBrokerRouter {
  router_config : BrokerConfig Middleware;
  handlers : list (SubscriberRoute Call);
  routers : list nat;
}.
Arguments mkBrokerRouter {Call Middleware}.

Definition StompRouter {Call Middleware : Type} (prefix : str) (handlers : list (SubscriberRoute Call))
    (dependencies : list Dependant) (middlewares : list Middleware)
    (parser decoder : option CustomCallable) (include_in_schema : option bool)
    (routers : list nat) : BrokerRouter Call Middleware :=
  mkBrokerRouter
    (mkRouterConfig middlewares dependencies parser decoder include_in_schema prefix)
    handlers routers.

(** ** Specifications

    What [get_schema] gives, less the bindings, which are always missing; FastStream
    computes the payload. *)
Record schema (Payload : Type) := mkSchema {
  schema_name : str;
  schema_description : option str;
  message_title : str;
  message_payload : Payload;
}.
Arguments mkSchema {Payload}.

Definition subscriber_get_schema {Payload : Type} (c : StompSubscriberUsecaseConfig)
    (call_name : str) (description : option str) (payload : Payload) : schema Payload :=
  let name := subscriber_name c call_name in
  mkSchema name description (name ++ us ":Message") payload.

Definition publisher_get_schema {Payload : Type} (p : StompPublisher) (payload : Payload)
  : schema Payload :=
  let name := publisher_name (publisher_config p) in
  mkSchema name (publisher_description_ (publisher_specification p)) (name ++ us ":Message") payload.

(** ** Properties *)

(** The arguments a route keeps are those of the registrator's own methods: registering
    with them later does exactly what registering at once would have done, for subscribers
    and for publishers, and a registration by its destination alone has the defaults of the
    method. *)
Theorem route_is_delayed_registration {Call : Type} r (call : Call) a publishers p destination :
  subscriber_with r (route_kwargs _ (StompRoute call a publishers)) = Some (subscriber r a) ∧
  publisher_with r (StompRoutePublisher p) = Some (publisher r p) ∧
  subscriber_with r [("destination"%string, ArgStr destination)] =
    Some (subscriber r (mkSubscriberArguments destination client_individual None [] None None
                          None None true)) ∧
  subscriber_with r (("call"%string, ArgAny None) :: route_kwargs _ (StompRoute call a publishers)) =
    None.
Proof. by destruct a, p. Qed.

(** What is relied on in FastStream: a subscriber is registered after the others, and a
    handler is added to it after its others. *)
Class RegistrationLaws := {
  registered_last l s : super_subscriber l s = (l ++ [s], length l);
  published_last l p : super_publisher l p = l ++ [p];
  call_added o s :
    add_call o s = mkStompSubscriber (subscriber_config s) (subscriber_specification s)
                     (calls s ++ [o]) (subscriber_subscription s);
}.
Context `{!RegistrationLaws}.

(** A registered subscriber listens to the destination with the prefix of its registrator,
    has the one handler, with the parser and decoder of the registrator where it has none
    of its own, and leaves the others as they were. *)
Theorem registered_subscriber r a :
  let '(r', k) := subscriber r a in
  take (length (_subscribers r)) (_subscribers r') = _subscribers r ∧
  length (_subscribers r') = S (length (_subscribers r)) ∧
  _publishers r' = _publishers r ∧
  ∃ s, _subscribers r' !! k = Some s ∧
    subscriber_full_destination (subscriber_config s) =
      prefix (registrator_config r) ++ arg_destination a ∧
    ack_policy (subscriber_config s) =
      (if decide (arg_ack_mode a = auto) then MANUAL else NACK_ON_ERROR) ∧
    subscriber_headers (subscriber_config s) = arg_headers a ∧
    calls s = [mkCallOptions (or_else (arg_parser a) (_parser r))
                 (or_else (arg_decoder a) (_decoder r)) (arg_dependencies a)] ∧
    subscriber_subscription s = None.
Proof.
  unfold subscriber. rewrite registered_last. cbn [_subscribers set_subscribers _publishers].
  set (s0 := StompSubscriber_init _ _). set (o := mkCallOptions _ _ _).
  assert (alter (add_call o) (length (_subscribers r)) (_subscribers r ++ [s0]) =
          _subscribers r ++ [add_call o s0]) as ->.
  { rewrite <-(Nat.add_0_r (length (_subscribers r))). by rewrite alter_app_r. }
  split; [by rewrite take_app_length|]. split; [rewrite length_app; simpl; lia|]. split; [done|].
  exists (add_call o s0). split; [by rewrite lookup_app_r, Nat.sub_diag|].
  rewrite call_added. cbn. split; [done|]. split; [|done]. unfold ack_policy. cbn.
  by destruct (arg_ack_mode a).
Qed.
End registration.

(** ** FastStream's part, as the laws have it *)

Section example.
Context {Any Dependant CustomCallable : Type}.

Definition append_subscriber (l : list (StompSubscriber (Dependant := Dependant)
    (CustomCallable := CustomCallable))) s := (l ++ [s], length l).
Definition append_call (o : call_options) s :=
  mkStompSubscriber (Dependant := Dependant) (CustomCallable := CustomCallable)
    (subscriber_config s) (subscriber_specification s) (calls s ++ [o]) (subscriber_subscription s).

Lemma appending_laws :
  RegistrationLaws (Any := Any) append_subscriber (λ l p, l ++ [p]) append_call.
Proof. by split. Qed.
End example.

Lemma registered_subscriber_witness :
  let r := mkRegistrator (Any := ()) (Dependant := ()) (CustomCallable := ())
             (mkBrokerConfig (us "a.") (mkClient [] None (mkHeartbeat 0 0) 1 1 1 1 1 1 1 None false
                                          None)) None None [] [] in
  let a := mkSubscriberArguments (us "q") auto None [] None None None None true in
  let '(r', k) := subscriber append_subscriber append_call r a in
  ∃ s, _subscribers r' !! k = Some s ∧
    subscriber_full_destination (subscriber_config s) = us "a.q".
Proof.
  intros r a.
  pose proof (registered_subscriber (H := appending_laws)
                append_subscriber (λ l p, l ++ [p]) append_call r a) as H.
  destruct (subscriber append_subscriber append_call r a) as [r' k].
  destruct H as (_ & _ & _ & s & H1 & H2 & _). by exists s.
Defined.
