(* ===== verification/FastStreamProducer.v ===== *)
(** * Publishing through FastStream (faststream_stomp/publisher.py)

    The producer encodes bodies, copies the headers of the command, and sends through the
    client; a batch is sent in a transaction.  FastStream's [encode_message] and what its
    command takes for the body are parameters. *)

From S2P Require Import Prelude Frames Serde Config Errors Async World Contract Discipline.
From S2P Require Import Connection Manager ManagerSpec Subscription Transaction Lifespan Client.
From S2P Require Import Scheduler FastStream.

(** The headers of a published frame: a copy of the command's with the correlation
    identifier. *)
Definition publish_headers {B : Type} (σ : store) (cmd : StompPublishCommand B) : headers :=
  let h := default ∅ (σ !! command_headers cmd) in
  match correlation_id cmd with
  | Some ((_ :: _) as id) => <[us "correlation-id" := id]> h
  | _ => h
  end.

Definition _make_headers_for_publish {B : Type} (cmd : StompPublishCommand B) : M nat :=
  sync (λ w, (set_dicts (dicts w ++ [publish_headers (dicts w) cmd]) w, length (dicts w))).

Section producer.
Context `{AC : AbstractConnection} (cl : Client) (uuid4 : nat → str) (fuel : nat).
Context {B : Type} (encode_message : B → result (bytes * option str)) (body_of : list B → B).
#[local] Instance producer_lifespan : AbstractConnectionLifespan := client_lifespan cl uuid4 fuel.
Local Abbreviation cm := (make_manager cl).

Definition producer_publish (cmd : StompPublishCommand B) : M unit :=
  '(body, content_type) ← of_outcome (to_outcome (encode_message (body_of (batch_bodies cmd))));
  hs ← _make_headers_for_publish cmd;
  send cl uuid4 fuel body (command_destination cmd) content_type true (Some hs).

Definition producer_request (cmd : StompPublishCommand B) : M unit := Raise NotImplementedError.

(** The loop over the bodies of a batch. *)
Definition send_bodies (cmd : StompPublishCommand B) (transaction_id : str) (bodies : list B)
  : M unit :=
  for_each bodies (λ one_body,
    '(body, content_type) ← of_outcome (to_outcome (encode_message one_body));
    hs ← _make_headers_for_publish cmd;
    transaction_send cm transaction_id body (command_destination cmd) content_type true (Some hs)).

Definition producer_publish_batch (cmd : StompPublishCommand B) : M unit :=
  transaction_id ← begin_transaction cl uuid4 fuel;
  handle (send_bodies cmd transaction_id (batch_bodies cmd))
    (λ o, match o with
          | Done _ => transaction_aexit transaction_id false
          | Raised e => _ ← transaction_aexit transaction_id true; Raise e
          end).

(** ** One message *)

(** The update of one dictionary leaves the others. *)
Lemma SendFrame_build_others σ body destination tx ct acl l l' :
  l' ≠ l → (SendFrame_build σ body destination tx ct acl (Some l)).1 !! l' = σ !! l'.
Proof.
  intros Hl. unfold SendFrame_build. case_decide; [done|]. simpl.
  by rewrite list_lookup_insert_ne.
Qed.

Lemma SendFrame_build_length σ body destination tx ct acl hs :
  length (SendFrame_build σ body destination tx ct acl hs).1 = length σ.
Proof.
  unfold SendFrame_build. destruct hs as [l|]; [|done]. case_decide; [done|]. simpl.
  by rewrite length_insert.
Qed.

(** The state in which a frame with headers [h] in a new dictionary is built, and the
    frame. *)
Definition built (w : world) (h : headers) (body : bytes) (destination : str)
    (tx ct : option str) : world * frame dict :=
  let '(σ, f) := SendFrame_build (dicts w ++ [h]) body destination tx ct true
                   (Some (length (dicts w))) in
  (set_dicts σ w, f).

Lemma built_spec w h body destination tx ct :
  let '(w', f) := built w h body destination tx ct in
  snapshot (dicts w') f = SendFrame (send_headers h body destination tx ct true) body ∧
  (∃ d, f = SendFrame d body) ∧
  w' = set_dicts (dicts w') w ∧ length (dicts w) ≤ length (dicts w') ∧
  ∀ l, l < length (dicts w) → dicts w' !! l = dicts w !! l.
Proof.
  unfold built. set (σ0 := dicts w ++ [h]).
  pose proof (SendFrame_build_snapshot σ0 body destination tx ct true (Some (length (dicts w)))) as H1.
  pose proof (SendFrame_build_others σ0 body destination tx ct true (length (dicts w))) as H2.
  pose proof (SendFrame_build_length σ0 body destination tx ct true (Some (length (dicts w)))) as H3.
  pose proof (SendFrame_build_is_send σ0 body destination tx ct true (Some (length (dicts w)))) as H4.
  destruct (SendFrame_build σ0 body destination tx ct true _) as [σ f]. simpl in *.
  split; [|split; [done|split; [done|split]]].
  - rewrite H1. unfold given, σ0. by rewrite lookup_app_r, Nat.sub_diag.
  - rewrite H3. unfold σ0. rewrite length_app. lia.
  - intros l Hl. rewrite H2 by lia. unfold σ0. by rewrite lookup_app_l.
Qed.

(** Publishing encodes the body and hands one SEND frame to the client: its headers
    are the command's with the correlation identifier, the destination, the content type
    and the content length; the dictionary of the command is not touched.  A body that
    cannot be encoded is not sent. *)
Theorem publish_is_send env i n cmd w :
  exec env i n (producer_publish cmd) w =
  match encode_message (body_of (batch_bodies cmd)) with
  | Err e => Some (Raised (PyError e), w, n)
  | Ok (body, ct) =>
    let '(w', f) := built w (publish_headers (dicts w) cmd) body (command_destination cmd) None ct in
    exec env i n (write_frame_reconnecting cm f) w'
  end ∧
  ∀ body ct, encode_message (body_of (batch_bodies cmd)) = Ok (body, ct) →
    let '(w', f) := built w (publish_headers (dicts w) cmd) body (command_destination cmd) None ct in
    snapshot (dicts w') f =
      SendFrame (send_headers (publish_headers (dicts w) cmd) body (command_destination cmd)
                   None ct true) body ∧
    ∀ l, l < length (dicts w) → dicts w' !! l = dicts w !! l.
Proof.
  split.
  - unfold producer_publish, mbind, prog_bind.
    destruct (encode_message (body_of (batch_bodies cmd))) as [[body ct]|e]; [|done].
    unfold _make_headers_for_publish, send, build_send_frame, built, mbind, prog_bind, sync.
    cbn [to_outcome of_outcome bind exec dicts set_dicts]. cbv beta iota.
    by destruct (SendFrame_build _ _ _ _ _ _ _) as [σ f].
  - intros body ct _.
    pose proof (built_spec w (publish_headers (dicts w) cmd) body (command_destination cmd) None ct)
      as H.
    destruct (built _ _ _ _ _ _) as [w' f]. by destruct H as (H1 & _ & _ & _ & H2).
Qed.
End producer.

(** ** A batch

    On a TCP connection that stays up, with an environment that completes every write. *)

Lemma add_then_remove (X : gset str) (x : str) : ({[x]} ∪ X) ∖ {[x]} = X ∖ {[x]}.
Proof. set_solver. Qed.

Section batch.
#[local] Existing Instance Connection.
Context (cl : Client) (uuid4 : nat → str) (fuel i : nat).
Context {B : Type} (encode_message : B → result (bytes * option str)).
Context (env : nat → ∀ a : awaitable, world → world * outcome (answer a)).
Hypothesis smooth : ∀ n c w, env n (Drain c) w = (w, Done tt).
Hypothesis retries : (0 < client_write_retry_attempts cl)%Z.
#[local] Instance batch_lifespan : AbstractConnectionLifespan := client_lifespan cl uuid4 fuel.
Local Abbreviation cm := (make_manager cl).
Local Abbreviation run n t w := (exec env i n t w).

Definition dumps (f : frame headers) : bool := is_ok (dump_frame f).

Definition wrote (s : ActiveConnectionState) (f : frame headers) (w : world) : world :=
  record_action (Wrote (connection s) f) w.

(** The connection of [s] is active and accepts writes. *)
Record ready (s : ActiveConnectionState) (w : world) : Prop := {
  ready_active : _active_connection_state w = Some s;
  ready_transport : ∀ t b, conns w !! connection s = Some (mkConn t b) → b = false;
}.

Lemma ready_same s w w' :
  _active_connection_state w' = _active_connection_state w → conns w' = conns w →
  ready s w → ready s w'.
Proof. intros Ha Hc [H1 H2]. split; [by rewrite Ha|]. rewrite Hc. exact H2. Qed.

Lemma smooth_write_frame s f w n :
  ready s w → dumps (snapshot (dicts w) f) = true →
  run n (write_frame (connection s) f) w =
  Some (Done tt, wrote s (snapshot (dicts w) f) w, S n).
Proof.
  intros [_ Hc] Hd. change (write_frame (connection s) f) with (Tcp.write_frame (connection s) f).
  unfold Tcp.write_frame, reraise_connection_lost, try_except, dumped, Tcp.writer_write, mbind,
    prog_bind, get, sync, drain, await. unfold dumps in Hd. cbn [bind handle exec].
  destruct (dump_frame (snapshot (dicts w) f)) as [raw|]; [|done].
  cbn [to_outcome of_outcome bind handle exec mret prog_ret].
  destruct (conns w !! connection s) as [[t b]|] eqn:Hconn; [assert (b = false) as -> by (by eapply Hc)|];
    cbn [bind handle exec mret prog_ret]; by rewrite smooth.
Qed.

#[local] Opaque dumps.

Lemma smooth_reconnecting s f w n :
  ready s w → dumps (snapshot (dicts w) f) = true →
  run n (write_frame_reconnecting cm f) w =
  Some (Done tt, wrote s (snapshot (dicts w) f) w, S n).
Proof.
  intros Hr Hd. unfold write_frame_reconnecting. simpl write_retry_attempts.
  destruct (Z.to_nat (client_write_retry_attempts cl)) as [|k] eqn:Hk; [lia|].
  cbn [write_attempts]. unfold mbind, prog_bind, _get_active_connection_state, get.
  rewrite exec_bind. unfold mbind, prog_bind. cbn [bind exec]. rewrite (ready_active s w Hr).
  cbn [exec mret prog_ret]. unfold catch_lost. rewrite exec_bind, exec_handle, exec_bind.
  by rewrite (smooth_write_frame s).
Qed.

Lemma smooth_maybe_write s f w n :
  ready s w → dumps (snapshot (dicts w) f) = true →
  run n (maybe_write_frame f) w = Some (Done true, wrote s (snapshot (dicts w) f) w, S n).
Proof.
  intros Hr Hd. unfold maybe_write_frame, mbind, prog_bind, get. cbn [bind exec].
  rewrite (ready_active s w Hr). unfold catch_lost. rewrite exec_handle, exec_bind.
  by rewrite (smooth_write_frame s).
Qed.

(** The bodies that can be encoded up to the first that cannot, and its error. *)
Fixpoint encoded (bodies : list B) : list (bytes * option str) * option py_exn :=
  match bodies with
  | [] => ([], None)
  | b :: bodies' =>
    match encode_message b with
    | Err e => ([], Some e)
    | Ok x => let '(l, err) := encoded bodies' in (x :: l, err)
    end
  end.

Definition batch_frame (h : headers) (destination transaction_id : str)
    (x : bytes * option str) : frame headers :=
  SendFrame (send_headers h x.1 destination (Some transaction_id) x.2 true) x.1.

(** What the loop leaves: the frames on the wire, and of the rest only what the
    transaction keeps and new dictionaries. *)
Record batch_state (s : ActiveConnectionState) (fs : list (frame headers)) (w w' : world)
  : Prop := {
  batch_ready : ready s w';
  batch_trace : trace w' = trace w ++ (Wrote (connection s) <$> fs);
  batch_transactions : _active_transactions w' = _active_transactions w;
  batch_dicts l : l < length (dicts w) → dicts w' !! l = dicts w !! l;
  batch_length : length (dicts w) ≤ length (dicts w');
}.

Lemma batch_state_refl s w : ready s w → batch_state s [] w w.
Proof. intros Hr. split; try done. by rewrite app_nil_r. Qed.

Lemma batch_state_trans s fs1 fs2 w1 w2 w3 :
  batch_state s fs1 w1 w2 → batch_state s fs2 w2 w3 → batch_state s (fs1 ++ fs2) w1 w3.
Proof.
  intros [a1 a2 a3 a4 a5] [b1 b2 b3 b4 b5]. split; [done|..|lia].
  - by rewrite b2, a2, fmap_app, (assoc_L (++)).
  - by rewrite b3.
  - intros l Hl. rewrite b4 by lia. by apply a4.
Qed.

Lemma batch_state_wrote s f w : ready s w → batch_state s [f] w (wrote s f w).
Proof. intros Hr. split; try done. apply (ready_same s w); [reflexivity..|exact Hr]. Qed.

(** One message of the batch. *)
Lemma send_in_transaction (cmd : StompPublishCommand B) id body ct s w n :
  ready s w →
  dumps (batch_frame (publish_headers (dicts w) cmd) (command_destination cmd) id (body, ct)) = true →
  ∃ w', run n (hs ← _make_headers_for_publish cmd;
               transaction_send cm id body (command_destination cmd) ct true (Some hs)) w =
        Some (Done tt, w', S n) ∧
    batch_state s [batch_frame (publish_headers (dicts w) cmd) (command_destination cmd) id
                     (body, ct)] w w'.
Proof.
  intros Hr Hd. set (h := publish_headers (dicts w) cmd) in *.
  pose proof (built_spec w h body (command_destination cmd) (Some id) ct) as Hb.
  unfold built in Hb. unfold _make_headers_for_publish, transaction_send, build_send_frame, mbind,
    prog_bind, sync, modify. cbn [bind exec dicts set_dicts]. cbv beta iota. fold h.
  destruct (SendFrame_build (dicts w ++ [h]) body (command_destination cmd) (Some id) ct true
              (Some (length (dicts w)))) as [σ f].
  destruct Hb as (Hsnap & (d & ->) & _ & Hlen & Hold). cbn [bind exec]. cbv beta iota.
  set (w1 := append_frame id (SendFrame d body) (set_dicts σ (set_dicts (dicts w ++ [h]) w))).
  assert (dicts w1 = σ) as Hw1 by done.
  assert (snapshot (dicts w1) (SendFrame d body) =
          batch_frame h (command_destination cmd) id (body, ct)) as Hs by (rewrite Hw1; exact Hsnap).
  assert (ready s w1) as Hr1
    by (apply (ready_same s w); [reflexivity..|exact Hr]).
  rewrite (smooth_reconnecting s) by (try rewrite Hs; done). rewrite Hs.
  eexists. split; [reflexivity|]. split; try done. apply (ready_same s w); [reflexivity..|exact Hr].
Qed.

Lemma exec_encoded {X Y} (r : result X) (k : X → M Y) w n :
  run n (of_outcome (to_outcome r) ≫= k) w =
  match r with Ok x => run n (k x) w | Err e => Some (Raised (PyError e), w, n) end.
Proof. by destruct r. Qed.

(** The loop sends the bodies that can be encoded, and stops at the first that cannot. *)
Lemma send_bodies_smooth (cmd : StompPublishCommand B) id bodies s w0 fs0 w n :
  let h := publish_headers (dicts w0) cmd in
  let '(ok, err) := encoded bodies in
  command_headers cmd < length (dicts w0) → batch_state s fs0 w0 w →
  forallb (λ x, dumps (batch_frame h (command_destination cmd) id x)) ok = true →
  ∃ w' n', run n (send_bodies cl uuid4 fuel encode_message cmd id bodies) w =
    Some (match err with None => Done tt | Some e => Raised (PyError e) end, w', n') ∧
    batch_state s (fs0 ++ (batch_frame h (command_destination cmd) id <$> ok)) w0 w'.
Proof.
  intros h. revert fs0 w n. induction bodies as [|b bodies IH]; intros fs0 w n.
  { intros _ Hw _. exists w, n. split; [done|]. by rewrite app_nil_r. }
  simpl encoded. destruct (encode_message b) as [[body ct]|e] eqn:He.
  - specialize (IH (fs0 ++ [batch_frame h (command_destination cmd) id (body, ct)])).
    destruct (encoded bodies) as [ok err]. intros Hl Hw [Hd Hds]%andb_true_iff.
    assert (publish_headers (dicts w) cmd = h) as Hh.
    { unfold h, publish_headers. by rewrite (batch_dicts _ _ _ _ Hw) by done. }
    destruct (send_in_transaction cmd id body ct s w n (batch_ready _ _ _ _ Hw)) as (w1 & H1 & Hw1).
    { by rewrite Hh. }
    rewrite Hh in Hw1. pose proof (batch_state_trans _ _ _ _ _ _ Hw Hw1) as Hw2.
    destruct (IH w1 (S n) Hl Hw2 Hds) as (w' & n' & H' & Hw'). exists w', n'.
    split; [|by rewrite <-(assoc_L (++)) in Hw'].
    unfold send_bodies. cbn [for_each]. rewrite exec_bind, exec_encoded, He.
    change (producer_lifespan cl uuid4 fuel) with batch_lifespan. rewrite H1. exact H'.
  - intros Hl Hw _. exists w, n. split; [|by rewrite app_nil_r].
    unfold send_bodies. cbn [for_each]. by rewrite exec_bind, exec_encoded, He.
Qed.
Lemma smooth_begin s w n :
  let id := uuid4 (uuids w) in
  ready s w → dumps (BeginFrame (transaction_headers id)) = true →
  ∃ w', run n (begin_transaction cl uuid4 fuel) w = Some (Done id, w', S n) ∧ ready s w' ∧
    trace w' = trace w ++ [Wrote (connection s) (BeginFrame (transaction_headers id))] ∧
    _active_transactions w' = {[id]} ∪ _active_transactions w ∧ dicts w' = dicts w.
Proof.
  intros id Hr Hd. unfold begin_transaction, make_id, transaction_aenter, mbind, prog_bind, sync,
    modify. cbn [bind exec]. cbv beta iota. fold id. set (w1 := set_uuids _ w).
  assert (ready s w1) as Hr1
    by (apply (ready_same s w); [reflexivity..|exact Hr]). rewrite !exec_bind.
  change (client_lifespan cl uuid4 fuel) with batch_lifespan.
  rewrite (smooth_reconnecting s) by done. cbn [exec]. cbv beta iota.
  eexists. split; [reflexivity|]. split; [apply (ready_same s w); [reflexivity..|exact Hr]|]. by repeat split.
Qed.

Lemma smooth_aexit s id exc w n :
  let last := if (exc : bool) then AbortFrame (transaction_headers id)
              else CommitFrame (transaction_headers id) in
  ready s w → id ∈ _active_transactions w → dumps last = true →
  ∃ w', run n (transaction_aexit id exc) w = Some (Done tt, w', S n) ∧
    trace w' = trace w ++ [Wrote (connection s) last] ∧
    _active_transactions w' = _active_transactions w ∖ {[id]} ∧ dicts w' = dicts w.
Proof.
  intros last Hr Hid Hd.
  assert (∀ f, dumps (snapshot (dicts w) f) = true →
    run n (_ ← maybe_write_frame f; remove_transaction id) w =
    Some (Done tt, set_active_transactions (_active_transactions w ∖ {[id]})
                     (wrote s (snapshot (dicts w) f) w), S n)) as H.
  { intros f Hf. unfold mbind, prog_bind at 1. rewrite exec_bind, (smooth_maybe_write s f w n Hr Hf).
    cbv beta iota. unfold remove_transaction, mbind, prog_bind, get, modify. cbn [bind exec].
    cbv beta iota. rewrite decide_True by exact Hid. reflexivity. }
  assert (run n (transaction_aexit id exc) w =
    Some (Done tt, set_active_transactions (_active_transactions w ∖ {[id]}) (wrote s last w), S n))
    as ->; [|eexists; split; [reflexivity|]; by repeat split].
  unfold transaction_aexit. destruct exc.
  - exact (H (AbortFrame (Own (transaction_headers id))) Hd).
  - assert (dumps (snapshot (dicts w) (CommitFrame (Own (transaction_headers id)))) = true) as Hd'
      by exact Hd.
    specialize (H (CommitFrame (Own (transaction_headers id))) Hd').
    unfold mbind, prog_bind in *. rewrite exec_bind in *.
    rewrite (smooth_maybe_write s _ w n Hr Hd') in *. exact H.
Qed.

(** C19: a batch is all or nothing: BEGIN is followed by a SEND for every body up to the first
    that cannot be encoded, each with the batch's transaction and the command's headers,
    and then by COMMIT, if all could be encoded, and otherwise by ABORT, with the error
    raised; the transaction is not active afterwards, and the command's dictionary is as it
    was. *)
Theorem publish_batch_all_or_nothing (cmd : StompPublishCommand B) s w n :
  let id := uuid4 (uuids w) in
  let h := publish_headers (dicts w) cmd in
  let '(ok, err) := encoded (batch_bodies cmd) in
  let last := match err with
              | None => CommitFrame (transaction_headers id)
              | Some _ => AbortFrame (transaction_headers id)
              end in
  let fs := BeginFrame (transaction_headers id)
              :: (batch_frame h (command_destination cmd) id <$> ok) ++ [last] in
  ready s w → command_headers cmd < length (dicts w) → forallb dumps fs = true →
  ∃ w' n',
    run n (producer_publish_batch cl uuid4 fuel encode_message cmd) w =
      Some (match err with None => Done tt | Some e => Raised (PyError e) end, w', n') ∧
    trace w' = trace w ++ (Wrote (connection s) <$> fs) ∧
    _active_transactions w' = _active_transactions w ∖ {[id]} ∧
    ∀ l, l < length (dicts w) → dicts w' !! l = dicts w !! l.
Proof.
  intros id h. destruct (encoded (batch_bodies cmd)) as [ok err] eqn:Henc.
  intros last fs Hr Hl Hfs. change fs with ([BeginFrame (transaction_headers id)] ++
    (batch_frame h (command_destination cmd) id <$> ok) ++ [last]) in Hfs.
  rewrite !forallb_app in Hfs. apply andb_true_iff in Hfs as [Hb [Hok Hlast]%andb_true_iff].
  cbn [forallb] in Hb, Hlast. rewrite andb_true_r in Hb, Hlast.
  destruct (smooth_begin s w n Hr Hb) as (w1 & H1 & Hr1 & Ht1 & Ha1 & Hd1). fold id in H1.
  pose proof (send_bodies_smooth cmd id (batch_bodies cmd) s w1 [] w1 (S n)) as H2.
  assert (publish_headers (dicts w1) cmd = h) as Hh by (by rewrite Hd1).
  cbv zeta in H2. rewrite Henc, Hh, Hd1 in H2.
  destruct H2 as (w2 & n2 & H2 & Hw2); [done|by apply batch_state_refl| |].
  { rewrite forallb_forall in Hok |- *. intros x Hx. apply Hok.
    apply list_elem_of_In, list_elem_of_fmap_2, list_elem_of_In, Hx. }
  destruct Hw2 as [Hr2 Ht2 Ha2 Hd2 _]. cbn [app] in Ht2.
  assert (id ∈ _active_transactions w2) as Hid
    by (rewrite Ha2, Ha1; by apply elem_of_union_l, elem_of_singleton_2).
  destruct (smooth_aexit s id (if err is None then false else true) w2 n2 Hr2 Hid)
    as (w3 & H3 & Ht3 & Ha3 & Hd3).
  { destruct err; exact Hlast. }
  exists w3, (S n2). split; [|split; [|split]].
  - unfold producer_publish_batch, mbind, prog_bind. rewrite exec_bind, H1, exec_handle, H2.
    destruct err as [e|]; [|exact H3]. by rewrite exec_bind, H3.
  - rewrite Ht3, Ht2, Ht1, <-!(assoc_L (++)). unfold fs. rewrite fmap_cons, fmap_app.
    unfold last. destruct err; reflexivity.
  - rewrite Ha3, Ha2, Ha1. apply add_then_remove.
  - intros l Hl'. rewrite Hd3, Hd2 by (by rewrite Hd1). by rewrite Hd1.
Qed.
End batch.

(** ** Witnesses *)

(** An encoder that refuses the empty body. *)
Definition example_encode (b : bytes) : result (bytes * option str) :=
  match b with
  | [] => Err (ValueError "empty")
  | _ => Ok (b, Some (us "text/plain"))
  end.

Definition smooth_env (n : nat) (a : awaitable) (w : world) : world * outcome (answer a) :=
  match a with
  | Drain _ => (w, Done tt)
  | _ => (w, Raised CancelledError)
  end.

Definition publishing_world : world :=
  set_dicts [{[us "priority" := us "9"]}] connected_world.

Definition example_command (bodies : list bytes) : StompPublishCommand bytes :=
  mkCommand bodies PUBLISH [] (us "q") (Some (us "c-1")) 0.

Lemma publish_is_send_witness :
  let cmd := example_command [bs "hello"] in
  let AL := client_lifespan (AC := Connection) example_client example_ids 10 in
  let '(w', f) := built publishing_world (publish_headers (dicts publishing_world) cmd)
                    (bs "hello") (us "q") None (Some (us "text/plain")) in
  exec smooth_env 0 0 (producer_publish (AC := Connection) example_client example_ids 10
                         example_encode (default [] ∘ head) cmd) publishing_world =
  exec smooth_env 0 0 (write_frame_reconnecting (AC := Connection) (AL := AL)
                         (make_manager example_client) f) w'.
Proof.
  pose proof (proj1 (publish_is_send (AC := Connection) example_client example_ids 10
                example_encode (default [] ∘ head) smooth_env 0 0 (example_command [bs "hello"])
                publishing_world)) as H. exact H.
Defined.

Lemma publish_batch_all_or_nothing_witness :
  let cmd := example_command [bs "one"; []; bs "three"] in
  let id := us "A" in
  let h := publish_headers (dicts publishing_world) cmd in
  let fs := [BeginFrame (transaction_headers id);
             batch_frame h (us "q") id (bs "one", Some (us "text/plain"));
             AbortFrame (transaction_headers id)] in
  ∃ w' n',
    exec smooth_env 0 0 (producer_publish_batch (AC := Connection) example_client example_ids 10
                           example_encode cmd) publishing_world =
      Some (Raised (PyError (ValueError "empty")), w', n') ∧
    trace w' = trace publishing_world ++ (Wrote (connection example_state) <$> fs) ∧
    _active_transactions w' = _active_transactions publishing_world ∖ {[id]} ∧
    ∀ l, l < length (dicts publishing_world) → dicts w' !! l = dicts publishing_world !! l.
Proof.
  assert (ready example_state publishing_world) as Hr.
  { split; [reflexivity|]. intros t b H. vm_compute in H. by injection H as _ <-. }
  assert (∀ n c w, smooth_env n (Drain c) w = (w, Done tt)) as Hs by reflexivity.
  assert (0 < client_write_retry_attempts example_client)%Z as Hz by reflexivity.
  assert (0 < length (dicts publishing_world)) as Hl by (apply Nat.lt_0_1).
  pose proof (publish_batch_all_or_nothing example_client example_ids 10 0 example_encode
                smooth_env Hs Hz (example_command [bs "one"; []; bs "three"]) example_state
                publishing_world 0 Hr Hl) as H.
  assert (forallb dumps [BeginFrame (transaction_headers (us "A"));
             batch_frame (publish_headers (dicts publishing_world)
                            (example_command [bs "one"; []; bs "three"])) (us "q") (us "A")
               (bs "one", Some (us "text/plain"));
             AbortFrame (transaction_headers (us "A"))] = true) as Hd by (vm_compute; reflexivity).
  exact (H Hd).
Defined.
