(* ===== verification/FastStreamCommands.v ===== *)
(** * The publishing methods (faststream_stomp/broker.py, publisher.py)

    The methods of the broker and of its publishers build a command and hand it to
    FastStream, whose pipeline runs the middlewares and then the producer.  The pipeline
    and the constructor of commands are an interface, with what is relied on as its laws. *)

From S2P Require Import Prelude Frames Serde Config Errors Async World Contract Discipline.
From S2P Require Import Connection Manager ManagerSpec Subscription Transaction Lifespan Client.
From S2P Require Import Scheduler FastStream FastStreamProducer.

(** ** FastStream's side *)

(** [StompPublishCommand(...)], and the methods that the broker and a publisher inherit;
    [MW] is the type of middlewares. *)
Class Pipeline (B MW : Type) := {
  new_command : list B → PublishType → str → option str → option nat → M (StompPublishCommand B);
  broker_basic_publish : StompPublishCommand B → M unit;
  broker_basic_request : StompPublishCommand B → M unit;
  broker_basic_publish_batch : StompPublishCommand B → M unit;
  _basic_publish : list MW → StompPublishCommand B → M unit;
  _basic_request : StompPublishCommand B → M unit;
  _basic_publish_batch : list MW → StompPublishCommand B → M unit;
}.

(** ** The methods *)

Section methods.
Context {B MW : Type} `{!Pipeline B MW}.

(** [StompBroker.publish], [.request] and [.publish_batch] *)
Definition broker_publish (message : B) (destination : str) (correlation_id : option str)
    (headers : option nat) : M unit :=
  publish_command ← new_command [message] PUBLISH destination correlation_id headers;
  broker_basic_publish publish_command.

Definition broker_request (message : B) (destination : str) (correlation_id : option str)
    (headers : option nat) : M unit :=
  publish_command ← new_command [message] REQUEST destination correlation_id headers;
  broker_basic_request publish_command.

Definition broker_publish_batch (messages : list B) (destination : str)
    (correlation_id : option str) (headers : option nat) : M unit :=
  publish_command ← new_command messages PUBLISH destination correlation_id headers;
  broker_basic_publish_batch publish_command.

(** [StompPublisher._publish], [.publish], [.request] and [.publish_batch] *)
Definition publisher__publish (c : StompPublisherUsecaseConfig) (cmd : StompPublishCommand B)
    (_extra_middlewares : list MW) : M unit :=
  _basic_publish _extra_middlewares (publisher_command c cmd).

Definition publisher_publish (c : StompPublisherUsecaseConfig) (message : B)
    (correlation_id : option str) (headers : option nat) : M unit :=
  publish_command ← new_command [message] PUBLISH (publisher_full_destination c)
                      correlation_id headers;
  _basic_publish [] publish_command.

Definition publisher_request (c : StompPublisherUsecaseConfig) (message : B)
    (correlation_id : option str) (headers : option nat) : M unit :=
  publish_command ← new_command [message] REQUEST (publisher_full_destination c)
                      correlation_id headers;
  _basic_request publish_command.

Definition publisher_publish_batch (c : StompPublisherUsecaseConfig) (messages : list B)
    (correlation_id : option str) (headers : option nat) : M unit :=
  publish_command ← new_command messages PUBLISH (publisher_full_destination c)
                      correlation_id headers;
  _basic_publish_batch [] publish_command.
End methods.

(** ** Publishing through the pipeline *)

Section published.
Context `{AC : AbstractConnection} (cl : Client) (uuid4 : nat → str) (fuel : nat).
Context {B MW : Type} `{!Pipeline B MW}.
Context (encode_message : B → result (bytes * option str)) (body_of : list B → B).
#[local] Instance published_lifespan : AbstractConnectionLifespan := client_lifespan cl uuid4 fuel.
Local Abbreviation cm := (make_manager cl).

(** A command holds what its constructor is given, with the caller's dictionary or, if
    that has no items, a new one; without middlewares the pipeline is the producer; and
    the body of a command is its first body. *)
Class PipelineLaws := {
  command_made env i n bodies ty destination cid hs w :
    ∃ l σ, exec env i n (new_command bodies ty destination cid hs) w =
             Some (Done (mkCommand bodies ty [] destination cid l), set_dicts σ w, n) ∧
           default ∅ (σ !! l) = given (dicts w) hs ∧
           take (length (dicts w)) σ = dicts w;
  broker_publishes cmd :
    broker_basic_publish cmd = producer_publish cl uuid4 fuel encode_message body_of cmd;
  publisher_publishes cmd :
    _basic_publish [] cmd = producer_publish cl uuid4 fuel encode_message body_of cmd;
  broker_requests cmd : broker_basic_request cmd = producer_request cmd;
  publisher_requests cmd : _basic_request cmd = producer_request cmd;
  first_body m : body_of [m] = m;
}.
Context `{!PipelineLaws}.

(** The headers of the frame that is sent for a message. *)
Definition published_headers (σ : store) (correlation_id : option str) (hs : option nat) : headers :=
  match correlation_id with
  | Some ((_ :: _) as id) => <[us "correlation-id" := id]> (given σ hs)
  | _ => given σ hs
  end.

(** What the producer does with a command that was just made. *)
Lemma made_then_published env i n m ty destination cid hs w :
  ∃ w1, take (length (dicts w)) (dicts w1) = dicts w ∧ w1 = set_dicts (dicts w1) w ∧
    exec env i n (cmd ← new_command [m] ty destination cid hs;
                  producer_publish cl uuid4 fuel encode_message body_of cmd) w =
    match encode_message m with
    | Err e => Some (Raised (PyError e), w1, n)
    | Ok (body, ct) =>
      let '(w', f) := built w1 (published_headers (dicts w) cid hs) body destination None ct in
      exec env i n (write_frame_reconnecting cm f) w'
    end.
Proof.
  destruct (command_made env i n [m] ty destination cid hs w) as (l & σ & Hexec & Hl & Hσ).
  exists (set_dicts σ w). split; [done|]. split; [done|].
  unfold mbind, prog_bind. rewrite exec_bind, Hexec.
  rewrite (proj1 (publish_is_send cl uuid4 fuel encode_message body_of env i n _ _)).
  simpl batch_bodies. rewrite first_body.
  assert (publish_headers (dicts (set_dicts σ w)) (mkCommand [m] ty [] destination cid l) =
          published_headers (dicts w) cid hs) as ->; [|done].
  unfold publish_headers, published_headers. simpl. by rewrite Hl.
Qed.

(** Publishing through the broker or through a publisher sends one frame, to the
    destination that was given or to the publisher's with the prefix of its broker; a
    body that cannot be encoded is not sent, and a request never is. *)
Theorem publishing_methods_send env i n m destination c cid hs w :
  (∃ w1, take (length (dicts w)) (dicts w1) = dicts w ∧
     exec env i n (broker_publish m destination cid hs) w =
     match encode_message m with
     | Err e => Some (Raised (PyError e), w1, n)
     | Ok (body, ct) =>
       let '(w', f) := built w1 (published_headers (dicts w) cid hs) body destination None ct in
       exec env i n (write_frame_reconnecting cm f) w'
     end) ∧
  exec env i n (publisher_publish c m cid hs) w =
    exec env i n (broker_publish m (publisher_full_destination c) cid hs) w ∧
  (∃ w1, exec env i n (broker_request m destination cid hs) w =
           Some (Raised NotImplementedError, w1, n) ∧ trace w1 = trace w) ∧
  exec env i n (publisher_request c m cid hs) w =
    exec env i n (broker_request m (publisher_full_destination c) cid hs) w.
Proof.
  split; [|split; [|split]].
  - destruct (made_then_published env i n m PUBLISH destination cid hs w) as (w1 & H1 & _ & H2).
    exists w1. split; [done|]. rewrite <-H2. unfold broker_publish, mbind, prog_bind.
    rewrite !exec_bind. destruct (exec env i n (new_command _ _ _ _ _) w) as [[[[cmd|e] w2] n2]|];
      [by rewrite broker_publishes|done..].
  - unfold publisher_publish, broker_publish, mbind, prog_bind. rewrite !exec_bind.
    destruct (exec env i n (new_command _ _ _ _ _) w) as [[[[cmd|e] w2] n2]|]; [|done..].
    by rewrite broker_publishes, publisher_publishes.
  - destruct (command_made env i n [m] REQUEST destination cid hs w) as (l & σ & Hexec & _ & _).
    exists (set_dicts σ w). split; [|done]. unfold broker_request, mbind, prog_bind.
    rewrite exec_bind, Hexec, broker_requests. done.
  - unfold publisher_request, broker_request, mbind, prog_bind. rewrite !exec_bind.
    destruct (exec env i n (new_command _ _ _ _ _) w) as [[[[cmd|e] w2] n2]|]; [|done..].
    by rewrite broker_requests, publisher_requests.
Qed.
End published.

(** ** A pipeline

    One without middlewares, whose commands keep a dictionary that has items and take a new
    one otherwise. *)

Section example.
Context `{AC : AbstractConnection} (cl : Client) (uuid4 : nat → str) (fuel : nat).
Context {B : Type} (encode_message : B → result (bytes * option str)) (body_of : list B → B).
Context (body_of_one : ∀ m, body_of [m] = m).

Definition plain_command (bodies : list B) (ty : PublishType) (destination : str)
    (cid : option str) (hs : option nat) : M (StompPublishCommand B) :=
  sync (λ w,
    let fresh := (set_dicts (dicts w ++ [∅]) w,
                  mkCommand bodies ty [] destination cid (length (dicts w))) in
    match hs with
    | Some l => if decide (given (dicts w) hs = ∅) then fresh
                else (w, mkCommand bodies ty [] destination cid l)
    | None => fresh
    end).

Definition plain_pipeline : Pipeline B () := {|
  new_command := plain_command;
  broker_basic_publish := producer_publish cl uuid4 fuel encode_message body_of;
  broker_basic_request := producer_request;
  broker_basic_publish_batch := producer_publish_batch cl uuid4 fuel encode_message;
  _basic_publish _ := producer_publish cl uuid4 fuel encode_message body_of;
  _basic_request := producer_request;
  _basic_publish_batch _ := producer_publish_batch cl uuid4 fuel encode_message;
|}.

#[local] Existing Instance plain_pipeline.

Lemma plain_pipeline_laws : PipelineLaws (MW := ()) cl uuid4 fuel encode_message body_of.
Proof.
  split; try done. intros env i n bodies ty destination cid hs w. simpl. unfold plain_command, sync.
  assert (∀ x : headers, default ∅ ((dicts w ++ [x]) !! length (dicts w)) = x) as Hnew
    by (intros x; by rewrite lookup_app_r, Nat.sub_diag).
  assert (take (length (dicts w)) (dicts w ++ [∅]) = dicts w) as Ht
    by (by rewrite take_app_length).
  destruct hs as [l|]; cbn [exec].
  - case_decide as Hg; cbn [fst snd exec].
    + exists (length (dicts w)), (dicts w ++ [∅]). rewrite Hnew, Hg. done.
    + exists l, (dicts w). split; [by destruct w|]. split; [done|]. by rewrite firstn_all.
  - exists (length (dicts w)), (dicts w ++ [∅]). by rewrite Hnew.
Qed.
End example.

Lemma publishing_methods_send_witness :
  let P := plain_pipeline (AC := Connection) example_client example_ids 10 example_encode
             (default [] ∘ head) in
  let c := mkPublisherConfig (mkBrokerConfig (us "a.") example_client) (us "q") in
  exec smooth_env 0 0 (publisher_publish (Pipeline0 := P) c (bs "hello") None None)
    publishing_world =
  exec smooth_env 0 0 (broker_publish (Pipeline0 := P) (bs "hello") (us "a.q") None None)
    publishing_world.
Proof.
  intros P c.
  pose proof (proj1 (proj2 (publishing_methods_send (AC := Connection) example_client example_ids 10
    (Pipeline0 := P) example_encode (default [] ∘ head)
    (H := plain_pipeline_laws (AC := Connection) example_client example_ids 10
       example_encode (default [] ∘ head) (λ m, eq_refl))
    smooth_env 0 0 (bs "hello") (us "q") c None None publishing_world))) as H. exact H.
Defined.
