(* ===== verification/FastStreamBroker.v ===== *)
(** * The FastStream broker (faststream_stomp/broker.py, subscriber.py)

    The broker's own state next to the client's, and its operations: connecting, starting,
    stopping, the health check, and the callback that ends the process when the client
    gives up.  What FastStream's base classes do is a parameter; they know nothing of the
    two flags that this broker adds. *)

From S2P Require Import Prelude PyInt Frames Serde FrameParser Config Errors Async World Contract.
From S2P Require Import Discipline Connection Manager ManagerSpec Subscription Transaction.
From S2P Require Import Lifespan Client Scheduler FastStream.

#[local] Open Scope nat_scope.

(** ** State *)

(** The subscribers are known by their position; each has a [_subscription] or none. *)
Record broker := mkBroker {
  subscribers : list (StompSubscriberUsecaseConfig * option str);
  _attempted_to_connect : bool;
  _stopping : bool;
  running : bool;
  _connection : bool;
}.

Definition set_subscription (k : nat) (id : str) (b : broker) : broker :=
  mkBroker (alter (λ s, (s.1, Some id)) k (subscribers b)) (_attempted_to_connect b) (_stopping b)
    (running b) (_connection b).
Definition set_attempted (b : broker) : broker :=
  mkBroker (subscribers b) true (_stopping b) (running b) (_connection b).
Definition set_stopping (b : broker) : broker :=
  mkBroker (subscribers b) (_attempted_to_connect b) true (running b) (_connection b).
Definition set_running (x : bool) (b : broker) : broker :=
  mkBroker (subscribers b) (_attempted_to_connect b) (_stopping b) x (_connection b).

(** ** The constructor *)

(** [StompSecurity], and what it says of itself *)
Record StompSecurity := mkSecurity {
  ssl_context : option nat;
  use_ssl : bool;
}.

Definition StompSecurity_init : StompSecurity := mkSecurity None false.

Definition get_requirement (s : StompSecurity) : list (list (string * list string)) :=
  [[("user-password", [])]]%string.

Definition security_get_schema (s : StompSecurity) : list (string * list (string * string)) :=
  [("user-password", [("type", "userPassword")])]%string.

Record BrokerSpec := mkBrokerSpec {
  url : list str;
  protocol : str;
  protocol_version : str;
  description : option str;
  security : StompSecurity;
}.

(** [StompBroker.__init__]: the configuration, the specification and the state; the base
    classes give the prefix of a broker and take in the subscribers of the routers. *)
Definition StompBroker_init (default_prefix : str) (cl : Client) (description : option str)
    (routed : list (StompSubscriberUsecaseConfig * option str))
  : result (BrokerConfigWithStompClient * BrokerSpec * broker) :=
  let broker_config := mkBrokerConfig default_prefix cl in
  url ← broker_urls (config_client broker_config);
  mret (broker_config, mkBrokerSpec url (us "STOMP") (us "1.2") description StompSecurity_init,
        mkBroker routed false false false false).

(** [StompParamsStorage.get_logger]: the logger is made once.  [found] is the one that is
    remembered, and the first result the one that is from then on; making a logger is
    FastStream's. *)
Definition max_msg_id_ln : Z := -1.
Definition max_channel_name : Z := 4.

Definition log_format : option str :=
  channel ← str_of_int max_channel_name;
  message_id ← str_of_int max_msg_id_ln;
  mret (us "%(asctime)s %(levelname)-8s - " ++ us "%(destination)-" ++ channel ++ us "s | "
          ++ us "%(message_id)-" ++ message_id ++ us "s " ++ us "- %(message)s").

Definition get_logger {Logger LogContext : Type}
    (get_broker_logger : str → list (str * str) → Z → option str → LogContext → Z → Logger)
    (logger_log_level : Z) (found : option Logger) (context : LogContext) : option Logger * Logger :=
  match found with
  | Some logger => (found, logger)
  | None =>
    let logger :=
      get_broker_logger (us "stomp") [(us "destination", []); (us "message_id", [])]
        max_msg_id_ln log_format context logger_log_level in
    (Some logger, logger)
  end.

Abbreviation Mb := (prog (world * broker) awaitable answer).

(** ** The end of the listening task *)

(** How an [asyncio.Task] ended. *)
Inductive task_result :=
  | TaskCancelled
  | TaskReturned
  | TaskRaised (e : exn)
  | TaskRaisedGroup (first : exn) (others : list exn).

Definition _handle_listen_task_done (r : task_result) : M unit :=
  match r with
  | TaskCancelled | TaskReturned => mret tt
  | TaskRaisedGroup (FailedAllConnectAttemptsError _ _) _ => Raise SystemExit
  | _ => modify (log ERROR "listen task exited with unhandled exception")
  end.

(** [_listen_to_frames] runs its loop in a task group, which puts what ends it in a group. *)
Definition listen_task_result (o : outcome unit) : task_result :=
  match o with
  | Done _ => TaskReturned
  | Raised CancelledError => TaskCancelled
  | Raised e => TaskRaisedGroup e []
  end.

Section broker.
Context `{AC : AbstractConnection} (cl : Client) (uuid4 : nat → str) (fuel : nat).
Context (super_start subscriber_super_start subscriber_post_start subscriber_super_stop : Mb unit).
Context (super_connect : Mb unit → Mb unit).
Context (listen_done cancel_called : world → bool).

(** ** Subscribers *)

Definition subscriber_start (k : nat) (c : StompSubscriberUsecaseConfig) : Mb unit :=
  _ ← subscriber_super_start;
  id ← lift broker (subscribe cl uuid4 fuel
         (mkSubscription (subscriber_full_destination c) (subscriber_headers c) (ack_mode c)
            ManualAckSubscription));
  _ ← modify (λ '(w, b), (w, set_subscription k id b));
  subscriber_post_start.

Definition subscriber_stop (subscription : option str) : Mb unit :=
  _ ← match subscription with
      | Some id => lift broker (unsubscribe id)
      | None => mret tt
      end;
  subscriber_super_stop.

(** [get_one] and [__aiter__] *)
Definition get_one : Mb StompStreamMessage := Raise NotImplementedError.

(** ** The broker *)

Definition _connect : Mb unit :=
  '(_, b) ← get;
  if _attempted_to_connect b then mret tt
  else
    _ ← modify (λ '(w, b), (w, set_attempted b));
    lift broker (client_aenter cl uuid4 fuel).

Definition start : Mb unit :=
  _ ← super_connect _connect;
  super_start.

Definition stop (exc_val : bool) : Mb unit :=
  _ ← modify (λ '(w, b), (w, set_stopping b));
  '(_, b) ← get;
  _ ← for_each (subscribers b) (λ s, subscriber_stop s.2);
  '(_, b) ← get;
  _ ← (if _connection b then lift broker (client_aexit cl uuid4 fuel exc_val) else mret tt);
  modify (λ '(w, b), (w, set_running false b)).

(** [(timeout or 10) / 10], in milliseconds *)
Definition ping_sleep (timeout : option Z) : Z :=
  match timeout with
  | None | Some 0%Z => 1000
  | Some ms => ms / 10
  end.

Definition ping_round (timeout : option Z) (_ : unit) : Mb (unit + bool) :=
  '(w, _) ← get;
  if cancel_called w then mret (inr false)
  else if client_is_alive cl (listen_done w) w then mret (inr true)
  else _ ← lift broker (sleep (ping_sleep timeout)); mret (inl tt).

(** The deadline of [move_on_after] cancels the sleep, which ends the block. *)
Definition ping (timeout : option Z) : Mb bool :=
  '(_, b) ← get;
  if _stopping b then mret false
  else
    handle (if _connection b then while_loop fuel (ping_round timeout) tt else mret false)
      (λ o, match o with Raised DeadlineExpired => mret false | o => of_outcome o end).

(** ** Properties *)

Section properties.
Context (env : nat → ∀ a : awaitable, world → world * outcome (answer a)) (i : nat).
Local Abbreviation run n t s := (exec (lift_env env) i n t s).

(** C24: a health check that succeeds tells the truth: the broker has a connection and was
    not stopping, and the client is alive at that moment. *)
Theorem ping_means_alive timeout n w b w' b' n' :
  run n (ping timeout) (w, b) = Some (Done true, (w', b'), n') →
  _stopping b = false ∧ _connection b = true ∧ client_is_alive cl (listen_done w') w' = true ∧
  b' = b.
Proof.
  unfold ping, mbind, prog_bind, get. cbn [bind exec]. cbv beta iota.
  destruct (_stopping b); [done|]. rewrite exec_handle.
  destruct (_connection b); [|done]. intros H.
  assert (∀ k n w, match run n (while_loop k (ping_round timeout) tt) (w, b) with
            | Some (Done x, (w1, b1), _) =>
              b1 = b ∧ (x = true → client_is_alive cl (listen_done w1) w1 = true)
            | _ => True
            end) as Hloop.
  { clear H. intros k. induction k as [|k IH]; intros m v; [done|]. cbn [while_loop].
    rewrite exec_bind. unfold ping_round, mbind, prog_bind, get. cbn [bind exec]. cbv beta iota.
    destruct (cancel_called v); [done|].
    destruct (client_is_alive cl (listen_done v) v) eqn:Ha; [done|].
    rewrite exec_bind, exec_lift.
    destruct (exec env i m (sleep _) v) as [[[[[]|e] v'] m']|]; [|done..]. apply IH. }
  specialize (Hloop fuel n w).
  destruct (run n (while_loop fuel (ping_round timeout) tt) (w, b)) as [[[[x|e] [w1 b1]] n1]|];
    [..|done].
  - injection H as -> <- <- <-. by destruct Hloop as [-> Ha]; auto.
  - by destruct e.
Qed.

(** FastStream's part of stopping a subscriber leaves the broker's own flags alone. *)
Hypothesis super_stop_flags : ∀ n w b o w' b' n',
  run n subscriber_super_stop (w, b) = Some (o, (w', b'), n') →
  _stopping b' = _stopping b ∧ _attempted_to_connect b' = _attempted_to_connect b.





(** What a subscriber raises while it is stopped ends the stop. *)
Lemma stop_interrupted exc_val n w b subs e w1 b1 n1 :
  subscribers b = subs →
  run n (for_each subs (λ s : StompSubscriberUsecaseConfig * option str, subscriber_stop s.2))
    (w, set_stopping b) = Some (Raised e, (w1, b1), n1) →
  run n (stop exc_val) (w, b) = Some (Raised e, (w1, b1), n1).
Proof.
  intros Hb Hs. unfold stop, mbind, prog_bind, get, modify. cbn [bind exec]. cbv beta iota.
  rewrite exec_bind. simpl subscribers. rewrite Hb. by rewrite Hs.
Qed.
End properties.
End broker.

(** The process ends when, and only when, the listening task has exhausted its attempts to
    connect. *)
Theorem exits_when_exhausted env i n o w :
  (∃ w' n', exec env i n (_handle_listen_task_done (listen_task_result o)) w =
     Some (Raised SystemExit, w', n')) ↔
  (∃ attempts issues, o = Raised (FailedAllConnectAttemptsError attempts issues)).
Proof.
  split.
  - intros (w' & n' & H). destruct o as [[]|[]]; simpl in H; try discriminate H. eauto.
  - intros (attempts & issues & ->). by exists w, n.
Qed.

(** ** An example *)

Definition example_broker : broker :=
  mkBroker [(mkSubscriberConfig (mkBrokerConfig [] example_client) (us "q") client_individual None,
             Some (us "A"))] true false true true.

Definition is_close (a : action) : bool :=
  match a with CloseCalled _ => true | _ => false end.

(** FastStream's part does nothing. *)
Definition nothing : Mb unit := mret tt.

(** An error of the transport while the broker is stopped leaves the client running: when
    the UNSUBSCRIBE of a subscriber fails with a [TimeoutError], which does not count as
    a lost connection, the stop raises it, the client is not left, its connection stays
    active, and the broker is between running and stopped. *)
Theorem failing_stop_keeps_client exc_val :
  match exec (lift_env (env_of (dials (AbstractConnection := Connection)) 0 [Fault TimeoutError])) 0 0
          (stop (AC := Connection) example_client example_ids 10 nothing exc_val)
          (connected_world, example_broker) with
  | Some (o, (w', b'), _) =>
    o = Raised TimeoutError ∧ _active_connection_state w' = Some example_state ∧
    _task_group w' = GroupRunning ∧ existsb is_close (trace w') = false ∧ running b' = true ∧ _stopping b' = true
  | None => False
  end.
Proof. destruct exc_val; vm_compute; repeat split. Qed.

(** A new broker has not connected and fails its health check; its logger is made once. *)
Lemma new_broker_is_down `{AbstractConnection} default_prefix cl description routed config spec b
    fuel listen_done cancel_called env n timeout w :
  StompBroker_init default_prefix cl description routed = Ok (config, spec, b) →
  exec env 0 n (ping cl fuel listen_done cancel_called timeout) (w, b) =
    Some (Done false, (w, b), n).
Proof.
  unfold StompBroker_init. cbn [config_client]. destruct (broker_urls cl) as [u|]; [|done].
  by intros [= <- <- <-].
Qed.

Lemma logger_made_once {Logger LogContext : Type} make level (found : option Logger)
    (context context' : LogContext) :
  let '(found', logger) := get_logger make level found context in
  get_logger make level found' context' = (Some logger, logger).
Proof. by destruct found. Qed.

(** ** Witnesses *)

Lemma ping_means_alive_witness :
  let b := mkBroker [] true false true true in
  let listen_done := λ _ : world, false in
  let w := set_now (-1) connected_world in
  exec (lift_env (example_env [])) 0 0 (ping example_client 10 listen_done listen_done None) (w, b) =
    Some (Done true, (w, b), 0) ∧
  _stopping b = false ∧ _connection b = true ∧
  client_is_alive example_client (listen_done w) w = true ∧ b = b.
Proof.
  intros b listen_done w.
  assert (exec (lift_env (example_env [])) 0 0
            (ping example_client 10 listen_done listen_done None) (w, b) =
          Some (Done true, (w, b), 0)) as H by reflexivity.
  split; [exact H|].
  exact (ping_means_alive example_client 10 listen_done listen_done (example_env []) 0 None 0 w b
           w b 0 H).
Defined.

