(* ===== verification/FastStreamRouting.v ===== *)
(** * From a route to the wire

    The composition of router.py, registrator.py, subscriber.py and the client: a route is
    registered, its subscriber is started and stopped, and the server is told. *)

From S2P Require Import Prelude PyInt Frames Serde Config Errors Async World Contract Discipline.
From S2P Require Import Connection Manager ManagerSpec Subscription Transaction Lifespan Client.
From S2P Require Import Scheduler Exchange FastStream FastStreamRegistration FastStreamProducer.
From S2P Require Import FastStreamBroker.

#[local] Open Scope nat_scope.

(** ** The client's part, on a connection that stays up *)

Section smooth.
#[local] Existing Instance Connection.
Context (cl : Client) (uuid4 : nat → str) (fuel i : nat).
Context (env : nat → ∀ a : awaitable, world → world * outcome (answer a)).
Hypothesis smooth : ∀ n c w, env n (Drain c) w = (w, Done tt).
Hypothesis retries : (0 < client_write_retry_attempts cl)%Z.

Lemma smooth_subscribe s sub w n :
  let id := uuid4 (uuids w) in
  let f := snapshot (dicts w) (subscribe_frame id sub (dicts w)) in
  ready s w → dumps f = true →
  ∃ w', exec env i n (subscribe cl uuid4 fuel sub) w = Some (Done id, w', S n) ∧ ready s w' ∧
    get_by_id id w' = Some sub ∧ trace w' = trace w ++ [Wrote (connection s) f].
Proof.
  intros id f Hr Hd. unfold subscribe, make_id, _subscribe, mbind, prog_bind, sync, get, modify.
  cbn [bind exec]. cbv beta iota. fold id. set (w1 := set_uuids _ w).
  assert (ready s w1) as Hr1 by (apply (ready_same s w); [reflexivity..|exact Hr]).
  rewrite !exec_bind.
  rewrite (smooth_reconnecting cl uuid4 fuel i env smooth retries s) by done.
  cbn [exec]. cbv beta iota. eexists. split; [reflexivity|].
  split; [by apply (ready_same s w)|]. split; [|done].
  unfold get_by_id. cbn [subscriptions add_subscription set_subscriptions set_event].
  by rewrite dict_get_set, decide_True.
Qed.

Lemma smooth_unsubscribe s id w n :
  ready s w → dumps (unsubscribe_frame id) = true →
  ∃ w', exec env i n (unsubscribe id) w = Some (Done tt, w', S n) ∧ ready s w' ∧
    get_by_id id w' = None ∧
    trace w' = trace w ++ [Wrote (connection s) (unsubscribe_frame id)].
Proof.
  intros Hr Hd. unfold unsubscribe, mbind, prog_bind, modify. cbn [bind exec]. cbv beta iota.
  pose proof (deleted_is_gone id w) as Hg. destruct (deleted_keeps id w) as (Ha & Hc & Ht).
  set (w1 := delete_by_id id w) in *. clearbody w1. rewrite exec_bind.
  assert (ready s w1) as Hr1 by exact (ready_same s w w1 Ha Hc Hr).
  rewrite (smooth_maybe_write i env smooth s _ w1) by done. cbn [exec]. cbv beta iota.
  eexists. split; [reflexivity|]. split; [by apply (ready_same s w1)|]. split; [exact Hg|].
  by rewrite <-Ht.
Qed.
End smooth.

(** ** The life of a routed subscriber *)

(** The broker's view of the subscribers that are registered on it. *)
Definition registered {Any Dependant CustomCallable : Type}
    (r : StompRegistrator (Any := Any) (Dependant := Dependant) (CustomCallable := CustomCallable))
  : list (StompSubscriberUsecaseConfig * option str) :=
  (λ s, (subscriber_config s, subscriber_subscription s)) <$> _subscribers r.

(** What the client is asked to subscribe to. *)
Definition routed_subscription {Dependant CustomCallable : Type} (prefix : str)
    (a : subscriber_arguments (Dependant := Dependant) (CustomCallable := CustomCallable))
  : subscription :=
  mkSubscription (prefix ++ arg_destination a) (arg_headers a) (arg_ack_mode a)
    ManualAckSubscription.

Section routing.
#[local] Existing Instance Connection.
Context {Any Dependant CustomCallable : Type}.
Local Abbreviation subscriber_t :=
  (StompSubscriber (Dependant := Dependant) (CustomCallable := CustomCallable)).
Local Abbreviation options_t :=
  (call_options (Dependant := Dependant) (CustomCallable := CustomCallable)).
Local Abbreviation publisher_t := (StompPublisher (Any := Any)).
Context (super_subscriber : list subscriber_t → subscriber_t → list subscriber_t * nat).
Context (super_publisher : list publisher_t → publisher_t → list publisher_t).
Context (add_call : options_t → subscriber_t → subscriber_t).
Context (laws : RegistrationLaws super_subscriber super_publisher add_call).
Context (uuid4 : nat → str) (fuel i : nat).
Context (env : nat → ∀ a : awaitable, world → world * outcome (answer a)).
Hypothesis smooth : ∀ n c w, env n (Drain c) w = (w, Done tt).

(** FastStream's part of starting and stopping leaves client and broker alone. *)
Context (super_start post_start super_stop : Mb unit).
Local Abbreviation run n t s := (exec (lift_env env) i n t s).
Local Abbreviation idle t := (∀ n s, run n t s = Some (Done tt, s, n)).
Hypothesis starts : idle super_start ∧ idle post_start ∧ idle super_stop.

Lemma registered_last_one (r : StompRegistrator (Any := Any)) a :
  let '(r', k) := subscriber super_subscriber add_call r a in
  ∃ c, registered r' !! k = Some (c, None) ∧
    subscriber_full_destination c = prefix (registrator_config r) ++ arg_destination a ∧
    subscriber_headers c = arg_headers a ∧ ack_mode c = arg_ack_mode a.
Proof.
  unfold subscriber. rewrite (@registered_last _ _ _ _ _ _ laws). cbn [_subscribers set_subscribers].
  exists (registrator_subscriber (registrator_config r) (arg_destination a) (arg_ack_mode a)
            (arg_headers a)). split; [|done].
  unfold registered, set_subscribers. cbn [_subscribers].
  rewrite list_lookup_fmap, list_lookup_alter_eq, lookup_app_r, Nat.sub_diag by done. simpl. by rewrite (@call_added _ _ _ _ _ _ laws).
Qed.

(** C18: a route from the program to the wire, on a connection that stays up: registering a
    route makes a subscriber; starting it writes one SUBSCRIBE frame, with the prefix of the
    registrator before the destination and the headers and the acknowledgement mode of the
    route, and remembers its identifier; stopping it writes the UNSUBSCRIBE frame of that
    identifier, and the client has no such subscription any more. *)
Theorem route_to_wire {Call : Type} (r : StompRegistrator (Any := Any)) (call : Call) a publishers s w n attempted stopping up
    connected :
  let cl := config_client (registrator_config r) in
  let id := uuid4 (uuids w) in
  let sub := routed_subscription (prefix (registrator_config r)) a in
  let f := snapshot (dicts w) (subscribe_frame id sub (dicts w)) in
  (0 < client_write_retry_attempts cl)%Z →
  ready s w → dumps f = true → dumps (unsubscribe_frame id) = true →
  ∃ r' k c w1 w2,
    subscriber_with super_subscriber add_call r (route_kwargs _ (StompRoute call a publishers)) =
      Some (r', k) ∧
    registered r' !! k = Some (c, None) ∧
    let b := mkBroker (registered r') attempted stopping up connected in
    let b1 := set_subscription k id b in
    run n (subscriber_start cl uuid4 fuel super_start post_start k c) (w, b) =
      Some (Done tt, (w1, b1), S n) ∧
    get_by_id id w1 = Some sub ∧ trace w1 = trace w ++ [Wrote (connection s) f] ∧
    subscribers b1 !! k = Some (c, Some id) ∧
    run (S n) (subscriber_stop super_stop (Some id)) (w1, b1) =
      Some (Done tt, (w2, b1), S (S n)) ∧
    get_by_id id w2 = None ∧ trace w2 = trace w1 ++ [Wrote (connection s) (unsubscribe_frame id)].
Proof.
  intros cl id sub f Hz Hr Hd Hd'. destruct starts as (Hs1 & Hs2 & Hs3).
  pose proof (registered_last_one r a) as H.
  destruct (subscriber super_subscriber add_call r a) as [r' k] eqn:Hreg.
  destruct H as (c & Hk & Hdest & Hh & Hm).
  destruct (smooth_subscribe cl uuid4 fuel i env smooth Hz s sub w n Hr Hd)
    as (w1 & H1 & Hr1 & Hg1 & Ht1).
  destruct (smooth_unsubscribe i env smooth s id w1 (S n) Hr1 Hd') as (w2 & H2 & _ & Hg2 & Ht2).
  exists r', k, c, w1, w2. split; [|split; [done|]].
  { rewrite <-Hreg. by destruct a. }
  intros b b1. split; [|split; [exact Hg1|split; [exact Ht1|split; [|split; [|by split]]]]].
  - unfold subscriber_start, mbind, prog_bind, modify. rewrite exec_bind, Hs1, exec_bind, exec_lift.
    rewrite Hdest, Hh, Hm. change (mkSubscription _ _ _ _) with sub. rewrite H1. cbn [bind exec].
    by rewrite Hs2.
  - unfold b1, b, set_subscription. cbn [subscribers]. rewrite list_lookup_alter_eq, Hk. done.
  - unfold subscriber_stop, mbind, prog_bind. rewrite exec_bind, exec_lift, H2. by rewrite Hs3.
Qed.
End routing.

(** ** Witness *)

Lemma route_to_wire_witness :
  let r := mkRegistrator (Any := ()) (Dependant := ()) (CustomCallable := ())
             (mkBrokerConfig (us "a.") example_client) None None [] [] in
  let a := mkSubscriberArguments (us "q") client_individual (Some 0) [] None None None None true in
  let f := SubscribeFrame (<[us "ack" := us "client-individual"]>
             (<[us "destination" := us "a.q"]>
                (<[us "id" := us "A"]> {[us "priority" := us "9"]}))) in
  ∃ r' k c w1 w2,
    subscriber_with append_subscriber append_call r (route_kwargs _ (StompRoute () a [])) =
      Some (r', k) ∧
    registered r' !! k = Some (c, None) ∧
    let b1 := set_subscription k (us "A") (mkBroker (registered r') true false true true) in
    exec (lift_env smooth_env) 0 0
      (subscriber_start (AC := Connection) example_client example_ids 10 nothing nothing k c)
      (publishing_world, mkBroker (registered r') true false true true) =
      Some (Done tt, (w1, b1), 1) ∧
    get_by_id (us "A") w1 = Some (routed_subscription (us "a.") a) ∧
    trace w1 = trace publishing_world ++ [Wrote 0 f] ∧
    subscribers b1 !! k = Some (c, Some (us "A")) ∧
    exec (lift_env smooth_env) 0 1 (subscriber_stop (AC := Connection) nothing (Some (us "A")))
      (w1, b1) = Some (Done tt, (w2, b1), 2) ∧
    get_by_id (us "A") w2 = None ∧
    trace w2 = trace w1 ++ [Wrote 0 (unsubscribe_frame (us "A"))].
Proof.
  intros r a f.
  assert (ready example_state publishing_world) as Hr.
  { split; [reflexivity|]. intros t b H. vm_compute in H. by injection H as _ <-. }
  assert (∀ n c w, smooth_env n (Drain c) w = (w, Done tt)) as Hs by reflexivity.
  assert (∀ n s, exec (lift_env smooth_env) 0 n nothing s = Some (Done tt, s, n)) as Hn
    by reflexivity.
  assert (0 < client_write_retry_attempts example_client)%Z as Hz by reflexivity.
  assert (dumps f = true) as Hd by (vm_compute; reflexivity).
  assert (dumps (unsubscribe_frame (us "A")) = true) as Hd' by (vm_compute; reflexivity).
  pose proof (route_to_wire append_subscriber (λ l p, l ++ [p]) append_call appending_laws
                example_ids 10 0 smooth_env Hs nothing nothing nothing (conj Hn (conj Hn Hn))
                r () a [] example_state publishing_world 0 true false true true Hz Hr Hd Hd') as H.
  exact H.
Defined.
