(* ===== verification/FastStreamTesting.v ===== *)
(** * The test broker (faststream_stomp/testing.py)

    The producer that tests use in place of the real one: it delivers to the subscribers of
    the broker itself.  What a subscriber does with a message is a parameter. *)

From S2P Require Import Prelude Frames Serde Config Errors Async World Contract Discipline.
From S2P Require Import Connection Manager ManagerSpec Subscription Transaction Lifespan Client.
From S2P Require Import Scheduler FastStream FastStreamProducer.

(** ** Subscribers for publishers *)

(** The subscriber with the publisher's destination, if there is one, or a new one; and
    whether it was there. *)
Definition create_publisher_fake_subscriber (config : BrokerConfigWithStompClient)
    (subs : list StompSubscriberUsecaseConfig) (p : StompPublisherUsecaseConfig)
  : StompSubscriberUsecaseConfig * bool :=
  match list_find (λ s, subscriber_full_destination s = publisher_full_destination p) subs with
  | Some (_, s) => (s, true)
  | None => (registrator_subscriber config (publisher_full_destination p) client_individual None, false)
  end.

(** ** The producer *)

(** The headers of the message that the subscribers get. *)
Definition fake_headers {B : Type} (σ : store) (cmd : StompPublishCommand B)
    (message_id subscription_id : str) (content_type : option str) : headers :=
  let h := default ∅ (σ !! command_headers cmd) in
  let h := <[us "subscription" := subscription_id]>
             (<[us "message-id" := message_id]>
                (<[us "destination" := command_destination cmd]> h)) in
  let h := match correlation_id cmd with
           | Some ((_ :: _) as id) => <[us "correlation-id" := id]> h
           | _ => h
           end in
  match content_type with
  | Some ((_ :: _) as ct) => <[us "content-type" := ct]> h
  | _ => h
  end.

(** [FakeAckableMessageFrame.ack] and [.nack] *)
Definition fake_ack : M unit := mret tt.
Definition fake_nack : M unit := mret tt.

Section testing.
Context (uuid4 : nat → str) (subs : list StompSubscriberUsecaseConfig).
Context {B : Type} (encode_message : B → result (bytes * option str)) (body_of : list B → B).
Context (process_message : StompSubscriberUsecaseConfig → headers → bytes → M unit).

Definition deliver_to (destination : str) (h : headers) (body : bytes)
    (handler : StompSubscriberUsecaseConfig) : M unit :=
  if decide (subscriber_full_destination handler = destination)
  then process_message handler h body else mret tt.

Definition fake_publish (cmd : StompPublishCommand B) : M unit :=
  '(body, content_type) ← of_outcome (to_outcome (encode_message (body_of (batch_bodies cmd))));
  message_id ← make_id uuid4;
  subscription_id ← make_id uuid4;
  all_headers ← gets (λ w, fake_headers (dicts w) cmd message_id subscription_id content_type);
  f ← build_send_frame body (command_destination cmd) None content_type false
        (Some (command_headers cmd));
  w ← get;
  _ ← of_outcome (to_outcome (dump_frame (snapshot (dicts w) f)));
  for_each subs (deliver_to (command_destination cmd) all_headers body).

(** [copy.deepcopy(cmd)] with another body: the dictionary is copied, too. *)
Definition with_body (cmd : StompPublishCommand B) (one_body : B) : M (StompPublishCommand B) :=
  sync (λ w, (set_dicts (dicts w ++ [default ∅ (dicts w !! command_headers cmd)]) w,
              mkCommand [one_body] (publish_type cmd) (reply_to cmd) (command_destination cmd)
                (correlation_id cmd) (length (dicts w)))).

Definition fake_publish_batch (cmd : StompPublishCommand B) : M unit :=
  for_each (batch_bodies cmd) (λ one_body, new_cmd ← with_body cmd one_body; fake_publish new_cmd).

(** ** Properties *)

(** The test producer's messages have the headers of their type. *)
Lemma fake_message_conforms σ (cmd : StompPublishCommand B) message_id subscription_id ct body :
  conforms (MessageFrame (fake_headers σ cmd message_id subscription_id ct) body) = true.
Proof.
  eapply conforms_keys; [done|]. unfold fake_headers.
  repeat constructor; destruct (correlation_id cmd) as [[|? ?]|], ct as [[|? ?]|];
    simplify_map_eq; by eexists.
Qed.

Lemma deliver_to_matching env i n destination h body w :
  exec env i n (for_each subs (deliver_to destination h body)) w =
  exec env i n (for_each (filter (λ s, subscriber_full_destination s = destination) subs)
                  (λ s, process_message s h body)) w.
Proof.
  revert n w. induction subs as [|s l IH]; intros n w; [done|]. cbn [for_each].
  rewrite exec_bind, filter_cons. unfold deliver_to at 1. case_decide as Hs; simpl.
  - rewrite exec_bind. destruct (exec env i n (process_message s h body) w) as [[[[[]|e] w'] n']|];
      [apply IH|done..].
  - apply IH.
Qed.

(** The state before the frame is dumped, and the frame. *)
Definition fake_built (w : world) (cmd : StompPublishCommand B) (body : bytes) (ct : option str)
  : world * frame dict :=
  let w1 := set_uuids (S (S (uuids w))) w in
  let '(σ, f) := SendFrame_build (dicts w) body (command_destination cmd) None ct false
                   (Some (command_headers cmd)) in
  (set_dicts σ w1, f).

(** C26: the test producer delivers a message that can be encoded and dumped to the
    subscribers of its destination and to no others, in the order they were made; but it
    builds the frame on the dictionary of the command itself, so that afterwards the
    headers the application passed have the destination and the content type of the
    message, which the real producer never does. *)
Theorem fake_publish_delivers env i n cmd w body ct :
  encode_message (body_of (batch_bodies cmd)) = Ok (body, ct) →
  let h := fake_headers (dicts w) cmd (uuid4 (uuids w)) (uuid4 (S (uuids w))) ct in
  let '(w', f) := fake_built w cmd body ct in
  exec env i n (fake_publish cmd) w =
  match dump_frame (snapshot (dicts w') f) with
  | Ok _ =>
    exec env i n
      (for_each (filter (λ s, subscriber_full_destination s = command_destination cmd) subs)
         (λ s, process_message s h body)) w'
  | Err e => Some (Raised (PyError e), w', n)
  end ∧
  ∀ given, dicts w !! command_headers cmd = Some given →
    dicts w' !! command_headers cmd =
    Some (if decide (given = ∅) then given
          else send_headers given body (command_destination cmd) None ct false).
Proof.
  intros He h. destruct (fake_built w cmd body ct) as [w' f] eqn:Hb. split.
  - unfold fake_publish. rewrite He. unfold make_id, build_send_frame, mbind, prog_bind, sync, gets, get.
    cbn [to_outcome of_outcome bind exec dicts set_dicts set_uuids uuids]. cbv beta iota.
    unfold fake_built in Hb.
    destruct (SendFrame_build (dicts w) body (command_destination cmd) None ct false
                (Some (command_headers cmd))) as [σ f0]. injection Hb as <- <-.
    cbn [bind exec dicts set_dicts set_uuids uuids]. cbv beta iota.
    destruct (dump_frame (snapshot σ f0)); [|done]. cbn [to_outcome of_outcome bind].
    apply deliver_to_matching.
  - intros given Hg. unfold fake_built, SendFrame_build in Hb. rewrite Hg in Hb. simpl default in Hb.
    case_decide as Hd; injection Hb as <- <-; simpl; [done|].
    by rewrite list_lookup_insert_eq by (by eapply lookup_lt_Some).
Qed.

(** The subscriber that stands for a publisher gets what the publisher publishes, if the
    broker itself has no prefix. *)
Theorem fake_subscriber_matches config p :
  let '(s, is_real) := create_publisher_fake_subscriber config subs p in
  (is_real = true → s ∈ subs) ∧
  (is_real = true ∨ prefix config = [] →
   subscriber_full_destination s = publisher_full_destination p).
Proof.
  unfold create_publisher_fake_subscriber.
  destruct (list_find _ subs) as [[k s]|] eqn:Hf.
  - apply list_find_Some in Hf as (Hk & Hs & _). split; [|done]. intros _.
    by eapply list_elem_of_lookup_2.
  - split; [done|]. intros [?|Hp]; [done|]. unfold registrator_subscriber, subscriber_full_destination.
    simpl. by rewrite Hp.
Qed.
End testing.

(** ** The test broker

    What it puts in the place of the client and of the producer, which the configuration of
    the broker holds. *)

Inductive client_ref := RealClient | AsyncMock.
Inductive producer_ref := RealProducer | FakeStompProducer.

Record patched_config := mkPatchedConfig {
  patched_client : client_ref;
  patched_producer : producer_ref;
}.

Abbreviation Mt := (prog (world * patched_config) awaitable answer).

Definition set_client (x : client_ref) (c : patched_config) : patched_config :=
  mkPatchedConfig x (patched_producer c).
Definition set_producer (x : producer_ref) (c : patched_config) : patched_config :=
  mkPatchedConfig (patched_client c) x.

(** [with mock.patch.object(broker.config, "client", ...)]: the attribute is set, and set
    back however the body ends. *)
Definition patch_client {A} (new : client_ref) (body : Mt A) : Mt A :=
  '(_, c) ← get;
  _ ← modify (λ '(w, c'), (w, set_client new c'));
  handle body (λ o,
    _ ← modify (λ '(w, c'), (w, set_client (patched_client c) c'));
    of_outcome o).

Section patching.
(** FastStream's [change_producer] and [TestBroker._patch_broker], which is given the hook
    that patches the producer. *)
Context {A : Type} (change_producer : producer_ref → Mt A → Mt A).
Context (super_patch_broker : (Mt A → Mt A) → Mt A → Mt A).

Definition _patch_producer (body : Mt A) : Mt A := change_producer FakeStompProducer body.

Definition _patch_broker (body : Mt A) : Mt A :=
  patch_client AsyncMock (super_patch_broker _patch_producer body).

(** [TestStompBroker._fake_connect] *)
Definition _fake_connect : Mt unit := mret tt.

Context (env : nat → ∀ a : awaitable, world → world * outcome (answer a)) (i : nat).
Local Abbreviation run n t s := (exec (lift_env env) i n t s).

Hypothesis producer_changed : ∀ p body n w c,
  run n (change_producer p body) (w, c) =
  match run n body (w, set_producer p c) with
  | Some (o, (w', c'), n') => Some (o, (w', set_producer (patched_producer c) c'), n')
  | None => None
  end.
Hypothesis hook_used : ∀ hook body, super_patch_broker hook body = hook body.

(** In a test neither the client nor the producer is the real one, and after the test both
    are again what they were, however it ended. *)
Theorem patches_undone body n w c :
  run n (_patch_broker body) (w, c) =
  match run n body (w, mkPatchedConfig AsyncMock FakeStompProducer) with
  | Some (o, (w', _), n') => Some (o, (w', c), n')
  | None => None
  end.
Proof.
  unfold _patch_broker, patch_client, mbind, prog_bind, get, modify. cbn [bind exec]. cbv beta iota.
  rewrite exec_handle, hook_used. unfold _patch_producer. rewrite producer_changed.
  change (set_producer FakeStompProducer (set_client AsyncMock c))
    with (mkPatchedConfig AsyncMock FakeStompProducer).
  destruct (run n body _) as [[[[x|e] [w' c']] n']|]; [..|done]; by destruct c.
Qed.
End patching.

(** ** Witness *)

Definition example_subscribers : list StompSubscriberUsecaseConfig :=
  (λ d, registrator_subscriber (mkBrokerConfig [] example_client) (us d) client_individual None)
    <$> ["q"; "other"; "q"]%string.

(** A subscriber that records what it gets. *)
Definition record_message (s : StompSubscriberUsecaseConfig) (h : headers) (body : bytes) : M unit :=
  modify (record_action (Handled (subscriber_full_destination s) (MessageFrame h body))).

Lemma fake_publish_delivers_witness :
  let cmd := example_command [bs "hello"] in
  let h := fake_headers (dicts publishing_world) cmd (us "A") (us "B") (Some (us "text/plain")) in
  let '(w', f) := fake_built publishing_world cmd (bs "hello") (Some (us "text/plain")) in
  exec smooth_env 0 0 (fake_publish example_ids example_subscribers example_encode
                         (default [] ∘ head) record_message cmd) publishing_world =
  match dump_frame (snapshot (dicts w') f) with
  | Ok _ =>
    exec smooth_env 0 0
      (for_each (filter (λ s, subscriber_full_destination s = us "q") example_subscribers)
         (λ s, record_message s h (bs "hello"))) w'
  | Err e => Some (Raised (PyError e), w', 0)
  end ∧
  ∀ given, dicts publishing_world !! 0 = Some given →
    dicts w' !! 0 =
    Some (if decide (given = ∅) then given
          else send_headers given (bs "hello") (us "q") None (Some (us "text/plain")) false).
Proof.
  pose proof (fake_publish_delivers example_ids example_subscribers example_encode
                (default [] ∘ head) record_message smooth_env 0 0 (example_command [bs "hello"])
                publishing_world (bs "hello") (Some (us "text/plain")) eq_refl) as H. exact H.
Defined.
