(* ===== verification/FastStreamRegistry.v ===== *)
(** * The registry of test brokers (faststream_stomp/_test_broker_registry.py, __init__.py)

    FastStream looks up the class with which a broker is tested in a registry, by way of a
    function of one of its modules.  Importing the package replaces that function by one
    that knows StompBroker too, if this version of FastStream has it. *)

From S2P Require Import Prelude Frames Errors.

Section registry.
Context {class : Type} `{Countable class}.
Context (StompBroker TestStompBroker : class).

Abbreviation registry := (gmap class class).

(** What [try_it_out._get_broker_registry] is: FastStream's own function or that of the
    package. *)
Inductive getter := original_get_broker_registry | patched_get_broker_registry.

(** The attribute of FastStream's module, which not every version has; whether
    [_test_broker_registry] was executed, which happens once; and the cache of its
    [get_broker_registry]. *)
Record modules := mkModules {
  _get_broker_registry : option getter;
  loaded : bool;
  cached : option registry;
}.

(** [@functools.lru_cache(maxsize=1)]: a result is kept, an exception is not.  [original]
    is what FastStream's function gives at that moment. *)
Definition get_broker_registry (original : outcome registry) (m : modules)
  : modules * outcome registry :=
  match cached m with
  | Some r => (m, Done r)
  | None =>
    match original with
    | Done r =>
      let r' := <[StompBroker := TestStompBroker]> r in
      (mkModules (_get_broker_registry m) (loaded m) (Some r'), Done r')
    | Raised e => (m, Raised e)
    end
  end.

Definition patch_test_broker_registry (m : modules) : modules :=
  mkModules (Some patched_get_broker_registry) (loaded m) (cached m).

(** The body of [_test_broker_registry]; [imports] is what importing FastStream's modules
    and the rest of the package gives. *)
Definition import_test_broker_registry (imports : outcome unit) (m : modules)
  : modules * outcome unit :=
  if loaded m then (m, Done tt)
  else
    match imports with
    | Raised e => (m, Raised e)
    | Done _ =>
      match _get_broker_registry m with
      | None => (m, Raised (PyError AttributeError))
      | Some _ => (mkModules (_get_broker_registry m) true (cached m), Done tt)
      end
    end.

(** The end of [__init__]: [try: ... except Exception: pass] *)
Definition init_package (imports : outcome unit) (m : modules) : modules * outcome unit :=
  let '(m', o) := import_test_broker_registry imports m in
  match o with
  | Done _ => (patch_test_broker_registry m', Done tt)
  | Raised e => (m', if is_exception e then Done tt else Raised e)
  end.

(** What FastStream sees when it calls the function. *)
Definition look_up (original : outcome registry) (m : modules) : modules * outcome registry :=
  match _get_broker_registry m with
  | Some original_get_broker_registry => (m, original)
  | Some patched_get_broker_registry => get_broker_registry original m
  | None => (m, Raised (PyError AttributeError))
  end.

(** ** What the import does *)

(** Importing the package raises no [Exception]; when something it needs is missing,
    FastStream is as before, and otherwise its function is replaced. *)
Theorem init_package_outcomes imports g :
  init_package imports (mkModules g false None) =
  match imports, g with
  | Done _, Some _ => (mkModules (Some patched_get_broker_registry) true None, Done tt)
  | Done _, None => (mkModules None false None, Done tt)
  | Raised e, _ => (mkModules g false None, if is_exception e then Done tt else Raised e)
  end.
Proof. by destruct imports, g. Qed.

(** Importing the package again changes nothing. *)
Theorem init_package_idempotent imports g :
  let m := (init_package (Done tt) (mkModules (Some g) false None)).1 in
  init_package imports m = (m, Done tt).
Proof. done. Qed.

(** After the import every broker class is tested as FastStream says, and StompBroker as the
    package says, from the first look-up that succeeds on: whatever FastStream would say
    later does not count. *)
Theorem stomp_broker_is_tested r later :
  let m := (init_package (Done tt) (mkModules (Some original_get_broker_registry) false None)).1 in
  ∃ m' r', look_up (Done r) m = (m', Done r') ∧
    r' !! StompBroker = Some TestStompBroker ∧
    (∀ broker, broker ≠ StompBroker → r' !! broker = r !! broker) ∧
    look_up later m' = (m', Done r').
Proof.
  eexists _, _. split; [reflexivity|]. split_and!.
  - by apply lookup_insert_eq.
  - intros broker Hb. by apply lookup_insert_ne.
  - done.
Qed.

(** A look-up that raises leaves no trace. *)
Theorem failing_look_up e m :
  cached m = None → ∃ e', look_up (Raised e) m = (m, Raised e').
Proof.
  intros Hc. unfold look_up, get_broker_registry. rewrite Hc.
  destruct (_get_broker_registry m) as [[]|]; by eexists.
Qed.
End registry.
