(* ===== verification/WaitForBrokers.v ===== *)
(** * Waiting for brokers (scripts/wait_for_stomp_brokers.py)

    The script that probes a broker until it accepts a STOMP connection or a deadline has
    passed.  What the sockets and the clock give is part of the input. *)

From S2P Require Import Prelude Utf8 Serde.

#[local] Open Scope nat_scope.

Record Broker := mkBroker {
  name : str;
  broker_host : str;
  broker_port : Z;
  broker_login : str;
  broker_passcode : str;
}.

Definition BROKERS : list Broker :=
  [mkBroker (us "ActiveMQ Artemis") (us "127.0.0.1") 9000 (us "admin") (us ":=123")].

(** The times of the script, in milliseconds. *)
Definition OVERALL_TIMEOUT : Z := 90000.
Definition RETRY_INTERVAL : Z := 1000.

(** [str.encode()], which raises on a surrogate. *)
Definition _build_connect_frame (b : Broker) : result bytes :=
  encode_or_raise
    (us "CONNECT" ++ [10%N] ++ us "accept-version:1.2" ++ [10%N] ++
     us "host:" ++ broker_host b ++ [10%N] ++ us "login:" ++ broker_login b ++ [10%N] ++
     us "passcode:" ++ broker_passcode b ++ [10%N] ++ us "heart-beat:0,0" ++ [10%N; 10%N; 0%N]).

(** ** One probe *)

(** The replies of [recv], in order: bytes, none of them at the end of the stream, or an
    [OSError]. *)
Inductive recv_reply := Chunk (raw : bytes) | RecvFails.

Definition has_null (response : bytes) : bool := bool_decide (x00 ∈ response).

(** [None] when [recv] raises; a stream that ends gives no bytes. *)
Fixpoint _read_stomp_frame (response : bytes) (replies : list recv_reply) : option bytes :=
  if has_null response then Some response
  else match replies with
       | [] | Chunk [] :: _ => Some response
       | RecvFails :: _ => None
       | Chunk raw :: replies' => _read_stomp_frame (response ++ raw) replies'
       end.

Fixpoint lstrip_newlines (response : bytes) : bytes :=
  match response with
  | x0a :: response' => lstrip_newlines response'
  | _ => response
  end.

Definition accepts (response : bytes) : bool :=
  bool_decide (bs "CONNECTED" ++ [x0a] `prefix_of` lstrip_newlines response).

(** What the network does to a probe: whether it connects, whether each of the two
    [sendall] succeeds, and the replies. *)
Record network := mkNetwork {
  connects : bool;
  sends : bool;
  replies : list recv_reply;
  sends_goodbye : bool;
}.

Inductive probe_result :=
  | Accepted
  | BrokerProtocolError (response : bytes)
  | ProbeOSError
  | ProbeRaises (e : py_exn).

Definition _probe_broker (b : Broker) (net : network) : probe_result :=
  if connects net then
    match _build_connect_frame b with
    | Err e => ProbeRaises e
    | Ok _ =>
      if sends net then
        match _read_stomp_frame [] (replies net) with
        | None => ProbeOSError
        | Some response =>
          if accepts response then if sends_goodbye net then Accepted else ProbeOSError
          else BrokerProtocolError response
        end
      else ProbeOSError
    end
  else ProbeOSError.

(** ** Probing until the deadline *)

(** What the [except] clause catches. *)
Definition is_retried (r : probe_result) : bool :=
  match r with BrokerProtocolError _ | ProbeOSError => true | _ => false end.

Inductive wait_result :=
  | Ready (attempt : nat)
  | BrokerWaitTimeoutError (last_error : option probe_result)
  | WaitRaises (r : probe_result).

(** [clock k] is what [time.monotonic()] gives before the attempt number [k], and [nets k]
    the network of that attempt. *)
Fixpoint wait_rounds (b : Broker) (deadline : Z) (clock : nat → Z) (nets : nat → network)
    (fuel k : nat) (last_error : option probe_result) : option wait_result :=
  match fuel with
  | O => None
  | S fuel' =>
    if (clock k <? deadline)%Z then
      match _probe_broker b (nets k) with
      | Accepted => Some (Ready k)
      | r =>
        if is_retried r then wait_rounds b deadline clock nets fuel' (S k) (Some r)
        else Some (WaitRaises r)
      end
    else Some (BrokerWaitTimeoutError last_error)
  end.

Definition _wait_for_broker (b : Broker) (deadline : Z) (clock : nat → Z) (nets : nat → network)
    (fuel : nat) : option wait_result :=
  wait_rounds b deadline clock nets fuel 0 None.

(** The loop of [main]: the broker whose waiting did not end well, if there is one; each has
    its own clock readings and networks. *)
Fixpoint wait_for_all (brokers : list Broker) (deadline : Z) (clocks : nat → nat → Z)
    (nets : nat → nat → network) (fuel j : nat) : option (Z + Broker * wait_result) :=
  match brokers with
  | [] => Some (inl 0%Z)
  | b :: brokers' =>
    match _wait_for_broker b deadline (clocks j) (nets j) fuel with
    | Some (Ready _) => wait_for_all brokers' deadline clocks nets fuel (S j)
    | Some r => Some (inr (b, r))
    | None => None
    end
  end.

(** The exit code, or what is raised; [start] is what [time.monotonic()] gives first. *)
Definition main (start : Z) (clocks : nat → nat → Z) (nets : nat → nat → network) (fuel : nat)
  : option (Z + Broker * wait_result) :=
  wait_for_all BROKERS (start + OVERALL_TIMEOUT) clocks nets fuel 0.

(** ** What the loop gives *)

(** The probe of attempt [j] was made, and failed in a way that is retried. *)
Definition retried (b : Broker) (deadline : Z) (clock : nat → Z) (nets : nat → network) (j : nat)
  : Prop :=
  (clock j < deadline)%Z ∧ is_retried (_probe_broker b (nets j)) = true.

Lemma wait_rounds_spec b deadline clock nets fuel k last r :
  wait_rounds b deadline clock nets fuel k last = Some r →
  ∃ m, k ≤ m ∧ (∀ j, k ≤ j < m → retried b deadline clock nets j) ∧
    match r with
    | Ready a => a = m ∧ (clock m < deadline)%Z ∧ _probe_broker b (nets m) = Accepted
    | BrokerWaitTimeoutError last' =>
      (deadline ≤ clock m)%Z ∧
      last' = (if decide (m = k) then last else Some (_probe_broker b (nets (pred m))))
    | WaitRaises p =>
      (clock m < deadline)%Z ∧ _probe_broker b (nets m) = p ∧ ∃ e, p = ProbeRaises e
    end.
Proof.
  revert k last. induction fuel as [|fuel IH]; intros k last; simpl; [done|].
  destruct (Z.ltb_spec (clock k) deadline) as [Hc|Hc].
  - assert (∀ p, _probe_broker b (nets k) = p → is_retried p = true →
      wait_rounds b deadline clock nets fuel (S k) (Some p) = Some r →
      ∃ m, k ≤ m ∧ (∀ j, k ≤ j < m → retried b deadline clock nets j) ∧
        match r with
        | Ready a => a = m ∧ (clock m < deadline)%Z ∧ _probe_broker b (nets m) = Accepted
        | BrokerWaitTimeoutError last' =>
          (deadline ≤ clock m)%Z ∧
          last' = (if decide (m = k) then last else Some (_probe_broker b (nets (pred m))))
        | WaitRaises p =>
      (clock m < deadline)%Z ∧ _probe_broker b (nets m) = p ∧ ∃ e, p = ProbeRaises e
        end) as Hretry.
    { intros p Hp Hr (m & Hm & Hj & Hres)%IH. exists m. split; [lia|]. split.
      - intros j Hk. destruct (decide (j = k)) as [->|]; [|apply Hj; lia].
        split; [done|]. by rewrite Hp.
      - destruct r; try done. destruct Hres as [? ->]. split; [done|].
        rewrite (decide_False (P := m = k)) by lia. case_decide as Hd; [|done].
        subst m. simpl. by rewrite Hp. }
    destruct (_probe_broker b (nets k)) eqn:Hp; simpl is_retried; cbv iota;
      try (by apply Hretry); intros [= <-]; exists k; repeat split; by eauto || lia.
  - intros [= <-]. exists k. split; [done|]. split; [lia|]. by rewrite decide_True.
Qed.

Lemma wait_rounds_end b deadline clock nets f k last :
  (∀ k, clock k + RETRY_INTERVAL ≤ clock (S k))%Z →
  (deadline - clock k ≤ Z.of_nat f * RETRY_INTERVAL)%Z →
  is_Some (wait_rounds b deadline clock nets (S f) k last).
Proof.
  intros Hclock. revert k last. induction f as [|f IH]; intros k last Hf; cbn [wait_rounds].
  - rewrite (proj2 (Z.ltb_ge _ _)) by lia. by eexists.
  - destruct (clock k <? deadline)%Z; [|by eexists].
    specialize (Hclock k). unfold RETRY_INTERVAL in *.
    destruct (_probe_broker b (nets k)); try (by eexists); apply IH; lia.
Qed.

(** C23: waiting for a broker comes to an end, after as many attempts as the pauses fit into
    the time that is left and one more at most, and its result is right: it is ready at
    the first attempt that was accepted, made before the deadline; otherwise every attempt
    before the deadline failed, and the last failure is reported. *)
Theorem wait_for_broker_ends b deadline clock nets fuel :
  (∀ k, clock k + RETRY_INTERVAL ≤ clock (S k))%Z →
  (deadline - clock 0%nat ≤ Z.of_nat fuel * RETRY_INTERVAL)%Z →
  ∃ m r, m ≤ fuel ∧ _wait_for_broker b deadline clock nets (S fuel) = Some r ∧
    (∀ j, j < m → retried b deadline clock nets j) ∧
    match r with
    | Ready a => a = m ∧ (clock m < deadline)%Z ∧ _probe_broker b (nets m) = Accepted
    | BrokerWaitTimeoutError last =>
      (deadline ≤ clock m)%Z ∧
      last = (if decide (m = 0) then None else Some (_probe_broker b (nets (pred m))))
    | WaitRaises p =>
      (clock m < deadline)%Z ∧ _probe_broker b (nets m) = p ∧ ∃ e, p = ProbeRaises e
    end.
Proof.
  intros Hclock Hfuel.
  assert (∀ k, clock 0%nat + Z.of_nat k * RETRY_INTERVAL ≤ clock k)%Z as Hk.
  { intros k. induction k as [|k IH]; [lia|]. specialize (Hclock k). lia. }
  destruct (wait_rounds_end b deadline clock nets fuel 0 None Hclock Hfuel) as [r Hr].
  destruct (wait_rounds_spec _ _ _ _ _ _ _ _ Hr) as (m & _ & Hj & Hres).
  exists m, r. split; [|split; [exact Hr|split; [|exact Hres]]].
  - destruct (decide (m ≤ fuel)) as [|Hm]; [done|]. exfalso.
    destruct (Hj fuel) as [Hlt _]; [lia|]. specialize (Hk fuel). lia.
  - intros j Hjm. apply Hj. lia.
Qed.

(** Every broker is waited for in turn, and the exit code is 0 exactly when each of them
    became ready. *)
Lemma wait_for_all_ends brokers start clocks nets f j :
  (∀ j k, clocks j k + RETRY_INTERVAL ≤ clocks j (S k))%Z → (∀ j, start ≤ clocks j 0%nat)%Z →
  (OVERALL_TIMEOUT ≤ Z.of_nat f * RETRY_INTERVAL)%Z →
  let deadline := (start + OVERALL_TIMEOUT)%Z in
  ∃ r, wait_for_all brokers deadline clocks nets (S f) j = Some r ∧
    (r = inl 0%Z ↔ ∀ k b, brokers !! k = Some b →
       ∃ a, _wait_for_broker b deadline (clocks (j + k)) (nets (j + k)) (S f) = Some (Ready a)).
Proof.
  intros Hc Hs Hf deadline. revert j. induction brokers as [|b brokers IH]; intros j; cbn [wait_for_all].
  { by exists (inl 0%Z). }
  assert (is_Some (_wait_for_broker b deadline (clocks j) (nets j) (S f))) as [r Hr]
    by (apply wait_rounds_end; [done|specialize (Hs j); unfold deadline; lia]).
  rewrite Hr.
  assert ((∃ a, r = Ready a) ∨ ∀ a, r ≠ Ready a) as [[a ->]|Hno]
    by (destruct r; [by left; eexists|by right..]).
  - destruct (IH (S j)) as (r & -> & Hiff). exists r. split; [done|]. rewrite Hiff. split.
    + intros H [|k] b' Hb; simpl in Hb.
      * injection Hb as <-. rewrite Nat.add_0_r. by eexists.
      * rewrite Nat.add_succ_r. by apply (H k).
    + intros H k b' Hb. specialize (H (S k) b' Hb). by rewrite Nat.add_succ_r in H.
  - exists (inr (b, r)). split; [destruct r; [by edestruct Hno|done..]|]. split; [done|].
    intros H. destruct (H 0 b eq_refl) as [a Ha]. rewrite Nat.add_0_r, Hr in Ha.
    injection Ha as Ha. by destruct (Hno a).
Qed.

(** With the script's own times 91 rounds are enough. *)
Lemma main_ends start clocks nets :
  (∀ j k, clocks j k + RETRY_INTERVAL ≤ clocks j (S k))%Z → (∀ j, start ≤ clocks j 0%nat)%Z →
  ∃ r, main start clocks nets 91 = Some r ∧
    (r = inl 0%Z ↔ ∀ k b, BROKERS !! k = Some b →
       ∃ a, _wait_for_broker b (start + OVERALL_TIMEOUT) (clocks k) (nets k) 91 = Some (Ready a)).
Proof. intros Hc Hs. by apply (wait_for_all_ends BROKERS start clocks nets 90 0). Qed.

(** Reading a frame: what was received, up to the first chunk with a NUL. *)
Lemma read_stomp_frame_spec response l raw :
  _read_stomp_frame response l = Some raw →
  ∃ chunks, Chunk <$> chunks `prefix_of` l ∧ raw = response ++ concat chunks.
Proof.
  revert response. induction l as [|r l IH]; intros response; cbn [_read_stomp_frame].
  - assert (Some response = Some raw → ∃ chunks, Chunk <$> chunks `prefix_of` [] ∧
              raw = response ++ concat chunks) as H.
    { intros [= <-]. exists []. by rewrite app_nil_r. }
    by destruct (has_null response).
  - assert (Some response = Some raw → ∃ chunks, Chunk <$> chunks `prefix_of` r :: l ∧
              raw = response ++ concat chunks) as H.
    { intros [= <-]. exists []. split; [apply prefix_nil|]. by rewrite app_nil_r. }
    destruct (has_null response); [done|]. destruct r as [[|c chunk]|]; [done| |done].
    intros (chunks & Hp & ->)%IH. exists ((c :: chunk) :: chunks). split.
    + rewrite fmap_cons. by apply prefix_cons.
    + simpl. by rewrite <-(assoc_L (++)).
Qed.

(** ** Witness *)

(** Two refusals, then a broker that answers. *)
Definition example_nets (k : nat) : network :=
  match k with
  | 0 => mkNetwork false true [] true
  | 1 => mkNetwork true true [Chunk (bs "ERROR" ++ [x0a; x0a; x00])] true
  | _ => mkNetwork true true [Chunk (x0a :: bs "CONN"); Chunk (bs "ECTED" ++ [x0a; x0a; x00])] true
  end.

Lemma wait_for_broker_ends_witness :
  let b := mkBroker (us "b") (us "h") 1 (us "l") (us "p") in
  let clock k := (1000 * Z.of_nat k)%Z in
  _wait_for_broker b 90000 clock example_nets 91 = Some (Ready 2) ∧
  ∃ m r, m ≤ 90 ∧ _wait_for_broker b 90000 clock example_nets 91 = Some r ∧
    (∀ j, j < m → retried b 90000 clock example_nets j) ∧
    match r with
    | Ready a => a = m ∧ (clock m < 90000)%Z ∧ _probe_broker b (example_nets m) = Accepted
    | BrokerWaitTimeoutError last =>
      (90000 ≤ clock m)%Z ∧
      last = (if decide (m = 0) then None else Some (_probe_broker b (example_nets (pred m))))
    | WaitRaises p =>
      (clock m < 90000)%Z ∧ _probe_broker b (example_nets m) = p ∧ ∃ e, p = ProbeRaises e
    end.
Proof.
  intros b clock. split; [vm_compute; reflexivity|].
  apply (wait_for_broker_ends b 90000 clock example_nets 90).
  - intros k. unfold clock, RETRY_INTERVAL. lia.
  - unfold clock, RETRY_INTERVAL. lia.
Defined.
